(* ===== verification/_CoqProject ===== *)
-Q . S2P
Prelude.v
Prog.v
Sha256.v
Crypto.v
CryptoInstance.v
Capnp.v
CapnpInstance.v
Rebro.v
Bapl.v
Multicast.v
Randomizer.v
Block.v
Includers.v
Quorum.v
QuorumProps.v
Round.v
RoundConc.v
RoundInv.v
RoundQuorum.v
Provenance.v
RoundProps.v
RoundStop.v
Subs.v
MemPool.v
PoolSpec.v
Bootstrap.v
Manager.v
Issued.v
Gossip.v
Broadcaster.v
System.v
SystemInv.v
Dag.v
GossipProps.v
SystemProps.v
Wire.v
DagProps.v
Network.v
Availability.v
Equivocation.v
Deployment.v
DagSystem.v
ChainNode.v
Managed.v
ManagedProps.v
Identity.v
Node.v
