(* ===== verification/Prelude.v ===== *)
(** * A verification development for unison

    Unison is a DAG of blocks over stake-weighted reliable broadcast, with a
    pool of transaction batches spread by multicast.  This library models the
    Go program under src/ and proves what its parts promise to each other.
    This first file holds the vocabulary all others share: bytes and slices,
    machine integers, errors and results, state-passing methods, map ranges.

    ** How Go is modelled

    - A call yields a [res]: a value, a non-nil error, a panic, or a goroutine
      that stays blocked ([Hang]).  A method with a receiver is a [St] function
      on the receiver's state; an error or a panic undoes nothing.
    - [[]byte] is an optional list of bytes ([None] is nil).  [int64], [uint64]
      and [int32] results wrap ([i64], [u64], [i32]).
    - Pointers to shared objects are indices in a heap that is part of the state
      (certificates in [Quorum.v], operations in [Round.v], inner maps and
      channels in [Subs.v]), so aliasing is kept.  Buffered channels are lists
      with a capacity, channels that are only closed are booleans.
    - A range over a map visits it in the order of an arbitrary [MapOrder].
    - Goroutines are positions in a state; one label per lock section or channel
      operation, and a function [exec_label] from labels to states, so that an
      execution is a list of labels.  All [select] choices, interleavings and
      context ends are labels.
    - Code that talks to other components, the network or the clock is a
      program of [Prog.v]: a finite tree of requests.  [runs p tr r] says that
      [p] makes the requests of [tr], gets the answers in [tr] and returns [r];
      theorems about [runs] hold for every behaviour of the other components.
    - Interfaces of the source are type classes: keys and signers ([Crypto.v]),
      messages, certificates and quorums ([Rebro.v]).  Code outside src/ is a
      class with its documented laws: Cap'n Proto ([Capnp.v]) and the ed25519
      curve ([Crypto.v]); [CapnpInstance.v] and [CryptoInstance.v] give one
      instance each, on which the witnesses evaluate.

    ** The parts

    - [Prog.v]: programs, their runs and interpretations, deferred calls,
      goroutines ([par]), programs inside larger programs ([translate]).
    - [Sha256.v]: crypto/sha256 and %X of the standard library, executable.
    - [Crypto.v]: crypto/api_keys.go, api_sign.go, ed25519/ed25519.go and
      local/signer.go.
    - [Capnp.v], [Wire.v]: the generated accessors of the three schemas
      (gossipmsg, blockmsg, batchmsg) over the library's interface; those the
      program calls in the first file, the others in the second.
    - [Rebro.v]: rebro/api.go, api_message.go, api_certificate.go.  The class
      [QuorumCertificate] is what a round uses of a quorum; [QuorumLaws] and
      [QuorumTotal] are what it relies on, discharged in [Quorum.v].
    - [Bapl.v], [MemPool.v], [Multicast.v]: bapl/api.go, mem.go, multicast.go.
      [PoolSpec.v]: the specification of the batch pool.
    - [Block.v]: dag/block/id.go and block.go.
    - [Includers.v], [Quorum.v], [QuorumProps.v]: dag/quorum.
    - [Round.v] (state_op.go and the handlers of round.go), [RoundConc.v] (its
      goroutines: execOp, stateLoop, Stop, Finalize), [RoundInv.v] (the
      invariant), [RoundProps.v], [RoundQuorum.v] (what a round does to its
      quorum), [Provenance.v] (where the quorum's contents come from).
    - [Subs.v], [Manager.v]: the subscription tables that MemPool and Manager
      share in shape, and rebro/gossip/internal/round/manager.go.  [Issued.v]:
      which rounds the manager hands out.  [RoundStop.v]: callers of Stop.
    - [Gossip.v], [GossipProps.v]: Broadcast and deliverGossip of
      rebro/gossip/broadcaster.go, and process.go.  [Broadcaster.v]: Start and
      Stop of broadcaster.go, and orchestrator.go.
    - [System.v], [SystemInv.v], [SystemProps.v]: the composition of
      [Gossip.v], [RoundConc.v] and [Quorum.v] into one node.
    - [Dag.v], [DagProps.v]: dag/hasher.go, certifier.go, chain.go.
      [DagSystem.v]: a round of a node and the block its chain broadcasts next.
    - [Network.v]: the nodes of the honest members and an adversary.
      [Availability.v]: nodes with their certifier and batch pool in the
      network.  [ChainNode.v]: these nodes with the goroutine of the chain.
      [Managed.v], [ManagedProps.v]: whole nodes, with the round manager.
      [Equivocation.v]: producers with several blocks in a round.
      [Deployment.v]: the network over the includer sets of [Bootstrap.v].
    - [Bootstrap.v]: unison-poc/bootstrap/bootstrap.go.
    - [Randomizer.v], [Identity.v], [Node.v]: unison-poc/randomizer.go, and
      getIdentity, run and main of unison-poc/main.go.

    They interact as in the source.  A chain ([Dag.v]) takes the batches of its
    signer from the pool, broadcasts a block ([Gossip.v]) in a round that the
    manager starts ([Manager.v]) and that owns a quorum ([Round.v], [Quorum.v]).
    Other nodes check the gossip, add the block to their round, certify it
    against their pool and publish a signature; signatures complete certificates,
    complete certificates finalize the quorum, and its blocks are the parents of
    the next one.  [Node.v] starts all of it and stops it again.

    [System.v] is where the components meet: a state holds the rounds of a node
    and its goroutines, each a program of [Gossip.v] part-way through; a request
    to a round is a call that interleaves with the round's loop and with all
    other callers, the round manager answers with some round of the number that
    was asked for, and certifier, network and incoming bytes are arbitrary.

    [Network.v] puts one node per honest member into a list.  A step is a step
    of one node; the adversary chooses it, and with it all bytes that are
    delivered.  Its only limit is [authentic]: bytes that carry a signature which
    verifies under an honest member's key are delivered only if that member
    published a signature over this identifier.  So the model assumes unforgeable
    signatures and that honest keys sign nothing else; as
    [Equivocation.batch_signature_signs_identifier] shows, batches are signed
    with the same key, so the second is a condition on the batches.
    The network's theorems are about any machine that refines the
    broadcasting layer ([NodeMachineLaws]): [Availability.full] is one, in which
    certification runs against the node's pool, and [ChainNode.chained] another,
    which has the first inside ([MachineInside]) and runs [Dag.run] as a
    goroutine whose requests the pool and the layer serve.  [Managed.managed]
    has that one inside and answers the requests for rounds by goroutines in the
    methods of [Manager.v], whose calls of [Round.Stop] and [Round.Finalize] are
    calls of the node's rounds; [ManagedProps.manager_serves_layer] discharges
    what [System.v] assumes of the manager.

    ** What is proved

    - The network: when at most a third of the stake is faulty, honest members
      with more than a third of the stake certified a message of the round and
      hash of each completed certificate, any two completed certificates have an
      honest member that certified for both ([Network.v]), and these members have
      the block and got its batches from their pools, except batches reported
      deleted ([Availability.v]), also when every node computed
      its includer set from its own connections ([Deployment.v]).
    - The DAG in the network ([ManagedProps.v]): every block of an honest node has
      messages of the round before as parents, which honest members with more
      than a third of the stake certified, have the block of and got the batches
      of, except batches reported deleted, and whose producers hold more than two thirds of the stake unless the node's certifier
      rejected a message of that round.
    - Rounds of a node ([ManagedProps.v]): there is one per number, which all
      goroutines of the node share, and a [Broadcast] that succeeds leaves its
      round stopped and forgotten by the manager.
    - Producers ([Equivocation.v]): a round that finished has certified blocks of
      producers with more than two thirds of the stake if no producer has two
      certified blocks in it; a computed execution of four members shows that
      otherwise one producer can finish a round alone.
    - A node ([SystemProps.v]), in every execution: a completed certificate
      is of a message whose hash was checked and carries signatures, of members
      with more than two thirds of the stake, that verified over an identifier
      of the message's round and hash; the completed certificates of two nodes share signers
      with more than a third; a [Broadcast] that returns no error was final.
      And an execution in which a block is certified under the name of a member
      that did not produce it, because certificates are found by hash only.
    - The DAG ([DagSystem.v]): the block after a successful round has certified
      blocks of that round as parents, and their producers hold more than two
      thirds of the stake unless the certifier rejected a message of the round.
    - Quorum: on every reachable quorum no method panics; a certificate is
      complete exactly when the distinct includers that signed it hold more than
      two thirds of the stake, hence two complete certificates share signers
      with more than a third; [Finalize] compares the stake of the completed
      certificates' producers with the same bound; what each [AddSignature]
      does, on every branch; stake sums saturate correctly and the cached total
      is exact; the includer order is the unique sorted one.
    - Round: in every execution of any number of goroutines, as long as no
      [GetCertificate] ran its operation over after its context was cancelled,
      the quorum is the result of running the submitted operations one after the
      other against a sequential specification ([op_spec]), answers are those of
      the specification, the loop never blocks, stopping drains what was
      submitted, and the only crash is two concurrent [Stop]s.  In all
      executions the quorum changes only by the methods that the operations ask
      for ([RoundQuorum.v]).  Module [RoundProps.Executions] computes executions in
      which a cancelled get leaks its subscription and blocks the loop.
    - MemPool refines its specification while no [Pull] is cancelled: the same
      steps are possible and lead to the same answers ([PoolSpec.v]).
    - Manager and MemPool: mutual exclusion, no panic, well-formedness of the
      pool, waiters are served by the producer they wait for and no wake-up is
      lost; exceptions (stale cancellations, rounds that elapsed,
      [Manager.Stop], which never succeeds while a round is registered) are
      theorems too.
    - Gossip: a signature is published only after hash check, acceptance by the
      round and certification; a signature is added only after it verified;
      a published block passes its receivers' checks, and a published signature
      verifies at them and is handed to their rounds, whose quorums append it
      when its member has not signed yet; panics become rejections.
    - Dag: what certification requires, what a round of the chain deletes and
      broadcasts, that a failed broadcast is never repeated successfully, and
      that the chain's loop ends once its context does.
    - The wire: a published signature arrives as such with the fields that
      were set ([Wire.v]).
    - Batches and blocks round trip through their wire form; received batches
      reach the pool only verified; nodes with the same peers compute the same
      includer set.
    - Starting and stopping: [Stop] of the broadcaster undoes [Start], and does
      not after a second [Start]; a failed [Start] is not undone; a node stops
      exactly the components it started, in the opposite order, however it
      ends; the load generator starts one goroutine per tick, and [k] ticks push
      [k] signed batches of the configured size.
    - The node's identity: once obtained it is kept by every start whose system
      calls work; a first start that is
      interrupted disables the node for good; an existing key file that cannot
      be opened is overwritten.

    ** Bounds and fuel

    [Dag.run], [Bootstrap.await_peers] and [Randomizer.RandomBatches] take a
    number of iterations of loops that are infinite in the source; their
    theorems hold for every number, and [DagProps.run_terminates] and
    [Randomizer.RandomBatches_runs] give the number that is enough: one more
    than the iterations before the context is done.  All other recursion is
    structural.  Totals of stake are bounded by [MaxStake], lists of a block by
    [2^31] (the code converts lengths to int32), rounds by [uint64];
    [within_limits] is the reader's traversal limit.

    ** Not modelled

    Logging, metrics, time-outs as durations (a context may end at any step),
    the libp2p host, pubsub and stream internals (requests, with laws where a
    theorem relies on them), JSON of peer addresses and the format of libp2p
    keys (parameters), the flag package and the signal handler (the flags are a
    record, an interrupt is the end of the context), the compressed schema texts
    (a parameter of [RegisterSchema]).  [Node.run] starts
    the chain, the pools and the broadcaster by requests: their goroutines are
    the subject of the files above, and only identity and load generator run
    inside it. *)

From Stdlib Require Export ZArith Lia.
From Stdlib Require Export Strings.Byte.
From stdpp Require Export base tactics option list gmap strings numbers countable
  relations fin_maps.

Open Scope Z_scope.

(** ** Bytes and slices *)

Abbreviation bytes := (list byte).

#[export] Instance byte_eq_dec : EqDecision byte := Byte.byte_eq_dec.

#[export] Program Instance byte_countable : Countable byte :=
  inj_countable Byte.to_N Byte.of_N _.
Next Obligation. apply Byte.of_to_N. Qed.

(** A Go [[]byte]: [None] is the nil slice.  [sl] is its contents ([string(b)],
    and what [len], [range] and [bytes.Equal] look at); only [== nil] tells a
    nil slice from an empty one. *)
Abbreviation slice := (option bytes).

Definition sl (s : slice) : bytes := default [] s.

Definition len (s : slice) : Z := Z.of_nat (length (sl s)).

Definition is_nil (s : slice) : bool := match s with None => true | Some _ => false end.

(** [bytes.Equal]: "A nil argument is equivalent to an empty slice." *)
Definition bytes_Equal (a b : slice) : bool := bool_decide (sl a = sl b).

(** [bytes.Compare]: lexicographic comparison, -1, 0 or 1. *)
Fixpoint bytes_Compare (a b : bytes) : Z :=
  match a, b with
  | [], [] => 0
  | [], _ :: _ => -1
  | _ :: _, [] => 1
  | x :: a', y :: b' =>
      match N.compare (Byte.to_N x) (Byte.to_N y) with
      | Lt => -1
      | Gt => 1
      | Eq => bytes_Compare a' b'
      end
  end.

(** ** Machine integers *)

Definition MaxInt64 : Z := 9223372036854775807.
Definition MinInt64 : Z := -9223372036854775808.

(** Two's-complement wrap-around of the result of an [int64] operation. *)
Definition i64 (x : Z) : Z := (x + 2 ^ 63) mod 2 ^ 64 - 2 ^ 63.

(** Wrap-around of a [uint64] operation. *)
Definition u64 (x : Z) : Z := x mod 2 ^ 64.

(** [int32(x)]. *)
Definition i32 (x : Z) : Z := (x + 2 ^ 31) mod 2 ^ 32 - 2 ^ 31.

Definition int64_range (x : Z) : Prop := MinInt64 <= x <= MaxInt64.
Definition uint64_range (x : Z) : Prop := 0 <= x < 2 ^ 64.

Lemma i64_id x : int64_range x -> i64 x = x.
Proof.
  unfold int64_range, i64, MinInt64, MaxInt64. intros.
  rewrite Z.mod_small; lia.
Qed.

Lemma i64_in_range x : int64_range (i64 x).
Proof.
  unfold int64_range, i64, MinInt64, MaxInt64.
  pose proof (Z.mod_pos_bound (x + 2 ^ 63) (2 ^ 64)). lia.
Qed.

Lemma i32_id x : - 2 ^ 31 <= x < 2 ^ 31 -> i32 x = x.
Proof. unfold i32. intros. rewrite Z.mod_small; lia. Qed.

Lemma u64_id x : uint64_range x -> u64 x = x.
Proof. apply Z.mod_small. Qed.

(** ** Errors *)

(** The package-level error values the code compares with [errors.Is]. *)
Inductive sentinel :=
| SClosedRound | SElapsedRound | SBatchDeleted
| SCanceled | SDeadlineExceeded | SEOF | SExist.

#[export] Instance sentinel_eq_dec : EqDecision sentinel.
Proof. solve_decision. Defined.

(** An error value: a sentinel, [errors.New]/[fmt.Errorf] without [%w], a
    [fmt.Errorf] with [%w] (whose argument may be nil), or an [errors.Join]. *)
Inductive error :=
| Sent (s : sentinel)
| ErrNew (text : string)
| Wrap (text : string) (inner : option error)
| Joined (es : list error).

Fixpoint errors_Is (e : error) (target : sentinel) : bool :=
  match e with
  | Sent s => bool_decide (s = target)
  | ErrNew _ => false
  | Wrap _ None => false
  | Wrap _ (Some e') => errors_Is e' target
  | Joined es => existsb (fun e' => errors_Is e' target) es
  end.

(** [errors.Join]: nil errors are discarded, and joining only nils is nil. *)
Definition errors_Join (es : list (option error)) : option error :=
  match omap id es with
  | [] => None
  | es' => Some (Joined es')
  end.

(** ** Results *)

(** What a Go call yields: a value (error nil), a non-nil error, a panic, or a
    goroutine that stays blocked on a channel, a lock or a condition. *)
Inductive res (A : Type) :=
| Ok (a : A)
| Err (e : error)
| Panic (why : string)
| Hang (why : string).
Arguments Ok {_} _.
Arguments Err {_} _.
Arguments Panic {_} _.
Arguments Hang {_} _.

#[export] Instance res_ret : MRet res := @Ok.

#[export] Instance res_bind : MBind res := fun A B f r =>
  match r with
  | Ok a => f a
  | Err e => Err e
  | Panic w => Panic w
  | Hang w => Hang w
  end.

Definition is_Ok {A} (r : res A) : bool := match r with Ok _ => true | _ => false end.

(** The call comes back: no panic, no goroutine left blocked. *)
Definition returns {A} (r : res A) : Prop :=
  match r with Ok _ | Err _ => True | _ => False end.

(** [if err != nil { return ..., err }] on a bare error result. *)
Definition of_error (e : option error) : res unit :=
  match e with None => Ok tt | Some e => Err e end.

(** Rewrites the error of a result, as [fmt.Errorf("...: %w", err)] does. *)
Definition map_err {A} (f : error -> error) (r : res A) : res A :=
  match r with Err e => Err (f e) | r => r end.

Definition wrapf (text : string) (e : error) : error := Wrap text (Some e).

(** Dereferencing a nil pointer, or calling a method of a nil interface. *)
Definition nonnil {A} (o : option A) : res A :=
  match o with
  | Some a => Ok a
  | None => Panic "nil dereference"
  end.

Lemma res_bind_Ok {A B} (r : res A) (f : A -> res B) b :
  (r ≫= f) = Ok b <-> exists a, r = Ok a /\ f a = Ok b.
Proof. destruct r; simpl; naive_solver. Qed.

Lemma nonnil_Ok {A} (o : option A) a : nonnil o = Ok a <-> o = Some a.
Proof. destruct o; simpl; naive_solver. Qed.

Lemma map_err_Ok {A} f (r : res A) a : map_err f r = Ok a <-> r = Ok a.
Proof. destruct r; simpl; naive_solver. Qed.

(** ** State-passing computations *)

(** A method with receiver state [S]: the state after the call (also after an
    error or a panic, which undo nothing) and the result. *)
Definition St (S A : Type) : Type := S -> S * res A.

#[export] Instance St_ret S : MRet (St S) := fun A a s => (s, Ok a).

#[export] Instance St_bind S : MBind (St S) := fun A B f m s =>
  match m s with
  | (s', Ok a) => f a s'
  | (s', Err e) => (s', Err e)
  | (s', Panic w) => (s', Panic w)
  | (s', Hang w) => (s', Hang w)
  end.

Definition get {S} : St S S := fun s => (s, Ok s).
Definition gets {S A} (f : S -> A) : St S A := fun s => (s, Ok (f s)).
Definition modify {S} (f : S -> S) : St S unit := fun s => (f s, Ok tt).
Definition lift {S A} (r : res A) : St S A := fun s => (s, r).
Definition throw {S A} (e : error) : St S A := lift (Err e).

(** Runs a method on a component of the state (a field, or the object a
    pointer field refers to). *)
Definition zoom {S T A} (prj : S -> T) (upd : T -> S -> S) (m : St T A) : St S A :=
  fun s => let '(t, r) := m (prj s) in (upd t s, r).

(** [for _, x := range xs { body(x) }] where [body] may fail. *)
Fixpoint for_each {S X} (xs : list X) (body : X -> St S unit) : St S unit :=
  match xs with
  | [] => mret tt
  | x :: xs' => body x ;; for_each xs' body
  end.

Lemma St_bind_inv {S A B} (m : St S A) (f : A -> St S B) s s' b :
  (m ≫= f) s = (s', Ok b) ->
  exists a s1, m s = (s1, Ok a) /\ f a s1 = (s', Ok b).
Proof.
  unfold mbind, St_bind. destruct (m s) as [s1 [a|e|w|w]]; naive_solver.
Qed.

Lemma St_bind_Ok {S A B} (m : St S A) (f : A -> St S B) s s1 a :
  m s = (s1, Ok a) -> (m ≫= f) s = f a s1.
Proof. intros H. unfold mbind, St_bind. by rewrite H. Qed.

Lemma St_bind_Err {S A B} (m : St S A) (f : A -> St S B) s s1 e :
  m s = (s1, Err e) -> (m ≫= f) s = (s1, Err e).
Proof. intros H. unfold mbind, St_bind. by rewrite H. Qed.

Lemma St_bind_Panic {S A B} (m : St S A) (f : A -> St S B) s s1 w :
  m s = (s1, Panic w) -> (m ≫= f) s = (s1, Panic w).
Proof. intros H. unfold mbind, St_bind. by rewrite H. Qed.

(** A loop whose body succeeds and preserves [P] on every element of the list
    succeeds and preserves [P]. *)
Lemma for_each_inv {S X} (P : S -> Prop) (body : X -> St S unit) xs s :
  P s ->
  (forall x s0, x ∈ xs -> P s0 -> exists s1, body x s0 = (s1, Ok tt) /\ P s1) ->
  exists s', for_each xs body s = (s', Ok tt) /\ P s'.
Proof.
  revert s. induction xs as [|x xs IH]; intros s Hs Hbody; simpl.
  { by exists s. }
  destruct (Hbody x s) as (s1 & E & Hs1); [by left|done|].
  rewrite (St_bind_Ok _ _ _ _ _ E).
  apply IH; [done|]. intros y s0 Hy. apply Hbody. by right.
Qed.

(** ** Ranging over maps *)

(** The order in which Go's [range] visits a map is not specified.  A model of
    a loop over a map is given for every order. *)
Class MapOrder := {
  range : forall {K V : Type} `{Countable K}, gmap K V -> list (K * V);
  range_perm : forall {K V : Type} `{Countable K} (m : gmap K V), range m ≡ₚ map_to_list m;
}.

(** One such order, to evaluate examples. *)
Definition sorted_order : MapOrder := {|
  range K V _ _ m := map_to_list m;
  range_perm K V _ _ m := reflexivity _;
|}.

Lemma elem_of_range `{MapOrder} {K V} `{Countable K} (m : gmap K V) k v :
  (k, v) ∈ range m <-> m !! k = Some v.
Proof. rewrite (range_perm m). apply elem_of_map_to_list. Qed.

Lemma NoDup_range `{MapOrder} {K V} `{Countable K} (m : gmap K V) : NoDup (range m).*1.
Proof. rewrite (range_perm m). apply NoDup_fst_map_to_list. Qed.

(** ** Sums of integers over lists *)

Definition sumZ {X} (f : X -> Z) (l : list X) : Z := foldr (fun x a => f x + a) 0 l.

Section sumZ_lemmas.
Context {X : Type} (f : X -> Z).

Lemma sumZ_cons x l : sumZ f (x :: l) = f x + sumZ f l.
Proof. done. Qed.

Lemma sumZ_app l1 l2 : sumZ f (l1 ++ l2) = sumZ f l1 + sumZ f l2.
Proof. induction l1; simpl; [done|]. rewrite IHl1. lia. Qed.

Lemma sumZ_nonneg l : (forall x, x ∈ l -> 0 <= f x) -> 0 <= sumZ f l.
Proof.
  induction l as [|x l IH]; intros H; simpl; [done|].
  assert (0 <= f x) by (apply H; set_solver).
  assert (0 <= sumZ f l) by (apply IH; set_solver). lia.
Qed.

Lemma sumZ_ext (g : X -> Z) l : (forall x, x ∈ l -> f x = g x) -> sumZ f l = sumZ g l.
Proof.
  induction l as [|x l IH]; intros H; simpl; [done|].
  rewrite (H x), IH; set_solver.
Qed.

Lemma sumZ_perm l1 l2 : l1 ≡ₚ l2 -> sumZ f l1 = sumZ f l2.
Proof. induction 1; simpl; lia. Qed.

(** A sum splits along any decidable predicate. *)
Lemma sumZ_filter_split (P : X -> Prop) `{!∀ x, Decision (P x)} l :
  sumZ f l = sumZ f (filter P l) + sumZ f (filter (fun x => ~ P x) l).
Proof.
  induction l as [|x l IH]; [done|].
  rewrite !filter_cons, sumZ_cons, IH.
  destruct (decide (P x)); destruct (decide (~ P x)); try done; simpl; lia.
Qed.

Lemma sumZ_filter_le (P : X -> Prop) `{!∀ x, Decision (P x)} l :
  (forall x, x ∈ l -> 0 <= f x) -> sumZ f (filter P l) <= sumZ f l.
Proof.
  intros Hf. rewrite (sumZ_filter_split P l).
  assert (0 <= sumZ f (filter (fun x => ~ P x) l)); [|lia].
  apply sumZ_nonneg. intros x [_ Hx]%list_elem_of_filter. auto.
Qed.

Lemma sumZ_insert l i x y :
  l !! i = Some x -> sumZ f (<[i:=y]> l) = sumZ f l - f x + f y.
Proof.
  revert i. induction l as [|z l IH]; intros [|i] H; simpl in *; try done.
  - simplify_eq. lia.
  - rewrite (IH _ H). lia.
Qed.
End sumZ_lemmas.

Lemma sumZ_map {X Y} (f : X -> Z) (g : Y -> X) l : sumZ f (map g l) = sumZ (fun y => f (g y)) l.
Proof. unfold sumZ. induction l as [|y l IH]; simpl; [done|]. by rewrite IH. Qed.

Lemma sumZ_filter_if {X} (f : X -> Z) (P : X -> Prop) `{!∀ x, Decision (P x)} l :
  sumZ f (filter P l) = sumZ (fun x => if decide (P x) then f x else 0) l.
Proof.
  induction l as [|x l IH]; [done|]. rewrite filter_cons, sumZ_cons, <- IH.
  case_decide; [apply sumZ_cons|lia].
Qed.

(** The sum over the elements of a list, by their positions. *)
Lemma sumZ_positions {X} (f : X -> Z) l :
  sumZ f l = sumZ (fun i => from_option f 0 (l !! i)) (seq 0 (length l)).
Proof.
  induction l as [|x l IH] using rev_ind; [done|].
  rewrite length_app, Nat.add_1_r, seq_S, !sumZ_app, IH. f_equal.
  - apply sumZ_ext. intros i [_ Hi]%elem_of_seq. by rewrite lookup_app_l by lia.
  - cbn. by rewrite list_lookup_middle.
Qed.

(** ** Updating lists in place *)

Lemma alter_insert_hd {X} (l : list X) c f x :
  l !! c = Some x -> alter f c l = <[c := f x]> l.
Proof.
  revert c. induction l as [|y l IH]; intros [|c] H; simpl in *; try done.
  - congruence.
  - f_equal. by apply IH.
Qed.

Lemma list_alter_fuse {X} (l : list X) c f g :
  alter g c (alter f c l) = alter (fun x => g (f x)) c l.
Proof.
  revert c. induction l as [|y l IH]; intros [|c]; simpl; try done. f_equal. apply IH.
Qed.

(** ** Automation *)

Create HintDb go.

(** Takes apart successful [res] computations in the context. *)
Ltac res_inv :=
  repeat match goal with
  | H : mbind _ _ = Ok _ |- _ => apply res_bind_Ok in H as (? & ? & H)
  | H : nonnil _ = Ok _ |- _ => apply nonnil_Ok in H
  | H : map_err _ _ = Ok _ |- _ => apply map_err_Ok in H
  | H : Ok _ = Ok _ |- _ => injection H as H
  | H : Err _ = Ok _ |- _ => discriminate H
  | H : Panic _ = Ok _ |- _ => discriminate H
  | H : Hang _ = Ok _ |- _ => discriminate H
  end; simplify_eq.

(** Case analysis on the tests of a computed handler, innermost first. *)
Ltac split_tests :=
  repeat (case_match; simplify_eq/=; try done).

(** Computes with [St]: exposes the state a method passes along. *)
Ltac st_unfold_in H :=
  unfold throw in H;
  unfold mbind, St_bind, mret, St_ret, get, gets, lift, modify, zoom in H;
  cbn beta iota in H.
Ltac st_unfold :=
  unfold throw;
  unfold mbind, St_bind, mret, St_ret, get, gets, lift, modify, zoom;
  cbn beta iota.

(** ** Frame reasoning

    [frame R m]: whatever [m] returns, [R] relates the states before and after.
    For a preorder [R] the property is compositional. *)

Definition frame {S A} (R : relation S) (m : St S A) : Prop :=
  forall s s' r, m s = (s', r) -> R s s'.

Section frame.
Context {S : Type} (R : relation S) {PO : PreOrder R}.

Lemma frame_bind {A B} (m : St S A) (f : A -> St S B) :
  frame R m -> (forall a, frame R (f a)) -> frame R (m ≫= f).
Proof.
  intros Hm Hf s s' r H. unfold mbind, St_bind in H.
  destruct (m s) as [s1 [a|e|w|w]] eqn:E; simplify_eq; try (by apply Hm in E).
  transitivity s1; [by eapply Hm|by eapply Hf].
Qed.

Lemma frame_const {A} (r : res A) : frame R (lift r).
Proof. intros s s' r' [= <- <-]. reflexivity. Qed.

Lemma frame_ret {A} (a : A) : frame R (mret a).
Proof. intros s s' r' [= <- <-]. reflexivity. Qed.

Lemma frame_throw {A} e : frame R (throw (A:=A) e).
Proof. intros s s' r' [= <- <-]. reflexivity. Qed.

Lemma frame_gets {A} (f : S -> A) : frame R (gets f).
Proof. intros s s' r' [= <- <-]. reflexivity. Qed.

Lemma frame_get : frame R get.
Proof. intros s s' r' [= <- <-]. reflexivity. Qed.

Lemma frame_modify (f : S -> S) : (forall s, R s (f s)) -> frame R (modify f).
Proof. intros Hf s s' r' [= <- <-]. apply Hf. Qed.

Lemma frame_for_each {X} (xs : list X) (body : X -> St S unit) :
  (forall x, frame R (body x)) -> frame R (for_each xs body).
Proof.
  intros Hb. induction xs as [|x xs IH]; simpl; [apply frame_ret|].
  apply frame_bind; [apply Hb|]. intros _. apply IH.
Qed.
End frame.

(** Discharges a [frame] goal down to its state updates. *)
Ltac solve_frame :=
  repeat first
    [ eassumption
    | solve [eauto 2 with go]
    | solve [apply frame_const; typeclasses eauto]
    | solve [apply frame_ret; typeclasses eauto]
    | solve [apply frame_throw; typeclasses eauto]
    | solve [apply frame_gets; typeclasses eauto]
    | solve [apply frame_get; typeclasses eauto]
    | apply frame_modify; intros ?
    | match goal with |- frame _ (match _ with _ => _ end) => case_match end
    | apply frame_bind; [typeclasses eauto| |intros ?] ].

(** States that agree on an observation. *)
Definition same_on {S X} (f : S -> X) : relation S := fun s s' => f s' = f s.

#[export] Instance same_on_preorder {S X} (f : S -> X) : PreOrder (same_on f).
Proof. split; unfold same_on; [by intros ?|]. intros x y z H1 H2. congruence. Qed.

(** Running a method on a component preserves what the component's method
    preserves. *)
Lemma frame_zoom {S T A} (prj : S -> T) (upd : T -> S -> S) (m : St T A) (R : relation S) :
  (forall s t, R s (upd t s)) -> frame R (zoom prj upd m).
Proof.
  intros Hu s s' r H. unfold zoom in H. destruct (m (prj s)) as [t r'].
  injection H as <- <-. apply Hu.
Qed.
