(* ===== verification/Prog.v ===== *)
(** Programs that interact with other goroutines, the network or a
    collaborator behind an interface: finite trees of requests [e : E X], each
    awaiting an answer of type [X].  [runs] relates a program to the sequences
    of requests and answers it may produce, whatever the environment answers;
    [interp] runs it against a handler that answers from a state. *)

From S2P Require Import Prelude.

Section prog.
Context {E : Type -> Type}.

Inductive prog (A : Type) : Type :=
| Ret (a : A)
| Vis (X : Type) (e : E X) (k : X -> prog A).
Arguments Ret {A} _.
Arguments Vis {A X} _ _.

Fixpoint pbind {A B} (p : prog A) (f : A -> prog B) : prog B :=
  match p with
  | Ret a => f a
  | Vis e k => Vis e (fun x => pbind (k x) f)
  end.

(** One request and its answer. *)
Inductive occ : Type := Occ (X : Type) (e : E X) (x : X).
Arguments Occ {X} _ _.

(** [runs p tr a]: answered as recorded in [tr], [p] makes exactly the
    requests of [tr], in that order, and returns [a]. *)
Fixpoint runs {A} (p : prog A) (tr : list occ) (r : A) : Prop :=
  match p with
  | Ret a => tr = [] /\ r = a
  | Vis e k => exists x tr', tr = Occ e x :: tr' /\ runs (k x) tr' r
  end.

Definition handler (S : Type) : Type := forall X, E X -> S -> S * X.

Fixpoint interp {S A} (h : handler S) (p : prog A) (s : S) : S * A :=
  match p with
  | Ret a => (s, a)
  | Vis e k => let '(s', x) := h _ e s in interp h (k x) s'
  end.

Lemma runs_pbind {A B} (p : prog A) (f : A -> prog B) tr r :
  runs (pbind p f) tr r <->
  exists tr1 tr2 a, tr = tr1 ++ tr2 /\ runs p tr1 a /\ runs (f a) tr2 r.
Proof.
  revert tr. induction p as [a|X e k IH]; intros tr; simpl.
  - split.
    + intros H. by exists [], tr, a.
    + intros (tr1 & tr2 & a' & -> & [-> ->] & H). done.
  - split.
    + intros (x & tr' & -> & (tr1 & tr2 & a & -> & H1 & H2)%IH).
      exists (Occ e x :: tr1), tr2, a. split_and!; [done| |done]. eauto.
    + intros (tr1 & tr2 & a & -> & (x & tr' & -> & H1) & H2).
      exists x, (tr' ++ tr2). split; [done|]. apply IH. eauto 10.
Qed.

Lemma interp_pbind {S A B} (h : handler S) (p : prog A) (f : A -> prog B) s :
  interp h (pbind p f) s = (let '(s', a) := interp h p s in interp h (f a) s').
Proof.
  revert s. induction p as [a|X e k IH]; intros s; simpl; [done|].
  destruct (h X e s) as [s' x]. apply IH.
Qed.

(** The requests and answers of an interpretation, and its result. *)
Fixpoint record {S A} (h : handler S) (p : prog A) (s : S) : list occ * A :=
  match p with
  | Ret a => ([], a)
  | Vis e k =>
      let '(s', x) := h _ e s in
      let '(tr, a) := record h (k x) s' in (Occ e x :: tr, a)
  end.

Lemma record_runs {S A} (h : handler S) (p : prog A) s :
  runs p (record h p s).1 (record h p s).2.
Proof.
  revert s. induction p as [a|X e k IH]; intros s; simpl; [done|].
  destruct (h X e s) as [s' x]. specialize (IH x s').
  destruct (record h (k x) s') as [tr a]. simpl in *. eauto.
Qed.

(** Whatever a handler computes is one of the runs of the program. *)
Lemma interp_runs {S A} (h : handler S) (p : prog A) s :
  exists tr, runs p tr (interp h p s).2.
Proof.
  revert s. induction p as [a|X e k IH]; intros s; simpl; [by exists []|].
  destruct (h X e s) as [s' x]. destruct (IH x s') as [tr H].
  exists (Occ e x :: tr). eauto.
Qed.
(** *** Programs part-way through

    [residual p tr p']: after the requests and answers of [tr], [p'] is left of
    [p]. *)
Inductive residual {A} (p : prog A) : list occ -> prog A -> Prop :=
| residual_start : residual p [] p
| residual_answer tr X (e : E X) k x :
    residual p tr (Vis e k) -> residual p (tr ++ [Occ e x]) (k x).

Lemma residual_runs {A} (p : prog A) tr p' tr' r :
  residual p tr p' -> runs p' tr' r -> runs p (tr ++ tr') r.
Proof.
  intros H. revert tr'. induction H as [|tr X e k x H IH]; intros tr' Hr; [done|].
  rewrite <- app_assoc. apply IH. simpl. eauto.
Qed.

(** With an answer for every request, a program runs to its end. *)
Lemma runs_to_end {A} (answer : forall X, E X -> X) (p : prog A) :
  exists tr r, runs p tr r /\ Forall (fun o => exists X (e : E X), o = Occ e (answer X e)) tr.
Proof.
  induction p as [a|X e k IH]; [by exists [], a|].
  destruct (IH (answer X e)) as (tr & r & H & Ht). exists (Occ e (answer X e) :: tr), r.
  split; [simpl; eauto|]. constructor; eauto.
Qed.

End prog.
Arguments prog : clear implicits.
Arguments Ret {E A} _.
Arguments Vis {E A X} _ _.
Arguments occ : clear implicits.
Arguments Occ {E X} _ _.
Arguments handler : clear implicits.

(** A program of one component as part of a larger one, which makes its requests
    under another name. *)
Section translate.
Context {E F : Type -> Type} (f : forall X, E X -> F X).

Fixpoint translate {A} (p : prog E A) : prog F A :=
  match p with
  | Ret a => Ret a
  | Vis e k => Vis (f _ e) (fun x => translate (k x))
  end.

Definition renamed (o : occ E) : occ F := let '@Occ _ X e x := o in Occ (f X e) x.

Lemma runs_translate {A} (p : prog E A) tr r :
  runs (translate p) tr r <-> exists tr', tr = map renamed tr' /\ runs p tr' r.
Proof.
  revert tr. induction p as [a|X e k IH]; intros tr; simpl.
  - split; [intros [-> ->]; by exists []|intros (tr' & -> & -> & ->); done].
  - split.
    + intros (x & tr' & -> & (tr0 & -> & H)%IH). exists (Occ e x :: tr0). split; [done|]. eauto.
    + intros (tr' & -> & x & tr0 & -> & H). exists x, (map renamed tr0). split; [done|].
      apply IH. eauto.
Qed.

(** Where the larger program's handler answers the requests from a part of its
    state, the program acts on that part only. *)
Lemma interp_translate {S T A} (h : handler E S) (h' : handler F (S * T)) (p : prog E A) s t :
  (forall X (e : E X) s t, h' X (f X e) (s, t) = ((h X e s).1, t, (h X e s).2)) ->
  interp h' (translate p) (s, t) = ((interp h p s).1, t, (interp h p s).2).
Proof.
  intros Hh. revert s. induction p as [a|X e k IH]; intros s; simpl; [done|].
  rewrite Hh. destruct (h X e s) as [s' x]. apply IH.
Qed.
End translate.

(** ** Programs that may also fail or panic *)

Definition G (E : Type -> Type) (A : Type) : Type := prog E (res A).

Definition gbind {E A B} (p : G E A) (f : A -> G E B) : G E B :=
  pbind p (fun r =>
    match r with
    | Ok a => f a
    | Err e => Ret (Err e)
    | Panic w => Ret (Panic w)
    | Hang w => Ret (Hang w)
    end).

#[export] Instance G_ret E : MRet (G E) := fun A a => Ret (Ok a).
#[export] Instance G_bind E : MBind (G E) := fun A B f p => gbind p f.

(** A request whose answer is a Go result. *)
Definition call {E X} (e : E (res X)) : G E X := Vis e Ret.

(** A request that cannot fail. *)
Definition ask {E X} (e : E X) : G E X := Vis e (fun x => Ret (Ok x)).

Definition lit {E A} (r : res A) : G E A := Ret r.

(** [x, err := p(); ...]: the error as a value, so that the caller inspects it;
    a panic still unwinds. *)
Definition attempt {E A} (p : G E A) : G E (A + error) :=
  pbind p (fun r =>
    match r with
    | Ok a => Ret (Ok (inl a))
    | Err e => Ret (Ok (inr e))
    | Panic w => Ret (Panic w)
    | Hang w => Ret (Hang w)
    end).

(** [defer func() { if recover() != nil { res = d } }()] *)
Definition recovering {E A} (d : A) (p : G E A) : G E A :=
  pbind p (fun r => match r with Panic _ => Ret (Ok d) | r => Ret r end).

(** [defer d()]: [d] runs however [p] ends, its own error is dropped. *)
Definition deferring {E A} (d : G E unit) (p : G E A) : G E A :=
  pbind p (fun r =>
    match r with
    | Hang w => Ret (Hang w)
    | _ => pbind d (fun r' =>
        match r' with
        | Panic w => Ret (Panic w)
        | Hang w => Ret (Hang w)
        | _ => Ret r
        end)
    end).

(** [for _, x := range xs { if err := body(x); err != nil { return err } }] *)
Fixpoint gfor {E X} (xs : list X) (body : X -> G E unit) : G E unit :=
  match xs with
  | [] => mret tt
  | x :: xs' => body x ;; gfor xs' body
  end.

Section G_lemmas.
Context {E : Type -> Type}.

(** A run of [x ← p; f x] either goes through [f] or stops where [p] failed. *)
Lemma runs_gbind {A B} (p : G E A) (f : A -> G E B) tr r :
  runs (p ≫= f) tr r ->
  (exists tr1 tr2 a, tr = tr1 ++ tr2 /\ runs p tr1 (Ok a) /\ runs (f a) tr2 r) \/
  (exists r', runs p tr r' /\ is_Ok r' = false /\ is_Ok r = false).
Proof.
  unfold mbind, G_bind, gbind.
  intros (tr1 & tr2 & [a|e|w|w] & -> & H1 & H2)%runs_pbind; [by left; eauto 10|..];
    destruct H2 as [-> ->]; rewrite app_nil_r; right; eauto.
Qed.

Lemma runs_gbind_Ok {A B} (p : G E A) (f : A -> G E B) tr b :
  runs (p ≫= f) tr (Ok b) ->
  exists tr1 tr2 a, tr = tr1 ++ tr2 /\ runs p tr1 (Ok a) /\ runs (f a) tr2 (Ok b).
Proof.
  intros [?|(r' & _ & _ & ?)]%runs_gbind; [done|]. done.
Qed.

Lemma runs_call {X} (e : E (res X)) tr r :
  runs (call e) tr r <-> tr = [Occ e r].
Proof.
  unfold call. simpl. split.
  - intros (x & tr' & -> & -> & ->). done.
  - intros ->. eauto.
Qed.

Lemma runs_lit {A} (x : res A) tr r : runs (lit (E:=E) x) tr r <-> tr = [] /\ r = x.
Proof. done. Qed.

Lemma interp_gbind {S A B} (h : handler E S) (p : G E A) (f : A -> G E B) s :
  interp h (p ≫= f) s =
  (let '(s', r) := interp h p s in
   match r with
   | Ok a => interp h (f a) s'
   | Err e => (s', Err e)
   | Panic w => (s', Panic w)
   | Hang w => (s', Hang w)
   end).
Proof.
  unfold mbind, G_bind, gbind. rewrite interp_pbind.
  destruct (interp h p s) as [s' [a|e|w|w]]; done.
Qed.
End G_lemmas.

(** What the rest of a program does with a result: an error or a panic ends it. *)
Definition after_res {E A B} (x : res A) (f : A -> G E B) : G E B :=
  match x with
  | Ok a => f a
  | Err e => Ret (Err e)
  | Panic w => Ret (Panic w)
  | Hang w => Ret (Hang w)
  end.

Definition after_attempt {E A B} (x : res A) (f : A + error -> G E B) : G E B :=
  match x with
  | Ok a => f (inl a)
  | Err e => f (inr e)
  | Panic w => Ret (Panic w)
  | Hang w => Ret (Hang w)
  end.

Section run_steps.
Context {E : Type -> Type}.

Lemma runs_ret {A} (a : A) tr (r : A) : runs (Ret (E:=E) a) tr r <-> tr = [] /\ r = a.
Proof. done. Qed.

Lemma runs_lit_bind {A B} (x : res A) (f : A -> G E B) tr r :
  runs (lit x ≫= f) tr r <-> runs (after_res x f) tr r.
Proof. by destruct x. Qed.

Lemma runs_call_bind {X B} (e : E (res X)) (f : X -> G E B) tr r :
  runs (call e ≫= f) tr r <->
  exists x tr', tr = Occ e x :: tr' /\ runs (after_res x f) tr' r.
Proof. done. Qed.

Lemma runs_ask_bind {X B} (e : E X) (f : X -> G E B) tr r :
  runs (ask e ≫= f) tr r <-> exists x tr', tr = Occ e x :: tr' /\ runs (f x) tr' r.
Proof. done. Qed.

Lemma runs_attempt_lit {A B} (x : res A) (f : A + error -> G E B) tr r :
  runs (attempt (lit x) ≫= f) tr r <-> runs (after_attempt x f) tr r.
Proof. by destruct x. Qed.

Lemma runs_attempt_call {X B} (e : E (res X)) (f : X + error -> G E B) tr r :
  runs (attempt (call e) ≫= f) tr r <->
  exists x tr', tr = Occ e x :: tr' /\ runs (after_attempt x f) tr' r.
Proof.
  unfold attempt, mbind, G_bind, gbind, call. simpl.
  split; intros (x & tr' & -> & H); exists x, tr'; (split; [done|]); by destruct x.
Qed.

Lemma runs_attempt_bind {A B} (p : G E A) (f : A + error -> G E B) tr r :
  runs (attempt p ≫= f) tr r <->
  exists tr1 tr2 x, tr = tr1 ++ tr2 /\ runs p tr1 x /\ runs (after_attempt x f) tr2 r.
Proof.
  unfold attempt, mbind, G_bind, gbind. split.
  - intros (tr1 & tr2 & y & -> & (tr3 & tr4 & x & -> & H1 & H2)%runs_pbind & H3)%runs_pbind.
    exists tr3, (tr4 ++ tr2), x. rewrite app_assoc. split_and!; [done..|].
    destruct x; destruct H2 as [-> ->]; done.
  - intros (tr1 & tr2 & x & -> & H1 & H2). apply runs_pbind.
    destruct x as [a|e|w|w]; simpl in H2.
    + exists tr1, tr2, (Ok (inl a)). split_and!; [done| |done]. apply runs_pbind.
      exists tr1, [], (Ok a). by rewrite app_nil_r.
    + exists tr1, tr2, (Ok (inr e)). split_and!; [done| |done]. apply runs_pbind.
      exists tr1, [], (Err e). by rewrite app_nil_r.
    + exists tr1, tr2, (Panic w). split_and!; [done| |done]. apply runs_pbind.
      exists tr1, [], (Panic w). by rewrite app_nil_r.
    + exists tr1, tr2, (Hang w). split_and!; [done| |done]. apply runs_pbind.
      exists tr1, [], (Hang w). by rewrite app_nil_r.
Qed.
End run_steps.

Section deferred.
Context {E : Type -> Type}.

Lemma runs_deferring {A} (d : G E unit) (p : G E A) tr r :
  runs (deferring d p) tr r ->
  exists tr1 tr2 r1, tr = tr1 ++ tr2 /\ runs p tr1 r1 /\
    (tr2 = [] \/ exists x, runs d tr2 x).
Proof.
  intros (tr1 & tr2 & r1 & -> & H1 & H2)%runs_pbind. exists tr1, tr2, r1. split_and!; try done.
  destruct r1; try (by left; destruct H2); right;
    apply runs_pbind in H2 as (tr3 & tr4 & x & -> & H3 & H4);
    (assert (tr4 = []) as -> by (by destruct x; destruct H4)); rewrite app_nil_r; eauto.
Qed.
End deferred.

Section interp_steps.
Context {E : Type -> Type} {S : Type} (h : handler E S).

Lemma interp_lit_bind {A B} (x : res A) (f : A -> G E B) s :
  interp h (lit x ≫= f) s = interp h (after_res x f) s.
Proof. by destruct x. Qed.

Lemma interp_call_bind {X B} (e : E (res X)) (f : X -> G E B) s :
  interp h (call e ≫= f) s = interp h (after_res (h _ e s).2 f) (h _ e s).1.
Proof.
  unfold call, mbind, G_bind, gbind. simpl. destruct (h _ e s) as [s' x]. by destruct x.
Qed.

Lemma interp_ask_bind {X B} (e : E X) (f : X -> G E B) s :
  interp h (ask e ≫= f) s = interp h (f (h _ e s).2) (h _ e s).1.
Proof. unfold ask, mbind, G_bind, gbind. simpl. by destruct (h _ e s). Qed.

Lemma interp_attempt_bind {A B} (p : G E A) (f : A + error -> G E B) s :
  interp h (attempt p ≫= f) s = interp h (after_attempt (interp h p s).2 f) (interp h p s).1.
Proof.
  unfold attempt, mbind, G_bind, gbind. rewrite !interp_pbind.
  destruct (interp h p s) as [s' x]. by destruct x.
Qed.

Lemma interp_attempt_call {X B} (e : E (res X)) (f : X + error -> G E B) s :
  interp h (attempt (call e) ≫= f) s = interp h (after_attempt (h _ e s).2 f) (h _ e s).1.
Proof. rewrite interp_attempt_bind. simpl. by destruct (h _ e s). Qed.

(** What every request preserves, a program preserves. *)
Lemma interp_preserves {A} (P : S -> Prop) (p : prog E A) s :
  (forall X (e : E X) s, P s -> P (h X e s).1) -> P s -> P (interp h p s).1.
Proof.
  intros Hh. revert s. induction p as [a|X e k IH]; intros s Hs; simpl; [done|].
  specialize (Hh X e s Hs). destruct (h X e s) as [s' x]. by apply IH.
Qed.
End interp_steps.

(** ** Goroutines

    [par choices ps] runs the programs [ps] concurrently: each choice names the
    program that makes the next request; when the choices are used up the
    programs finish one after the other.  Over all choices these are exactly
    the interleavings of runs of the programs ([runs_par], [par_complete]). *)

Section par.
Context {E : Type -> Type} {A : Type}.

Fixpoint sequence (ps : list (prog E A)) : prog E (list A) :=
  match ps with
  | [] => Ret []
  | p :: ps' => pbind p (fun a => pbind (sequence ps') (fun l => Ret (a :: l)))
  end.

Fixpoint par (choices : list nat) (ps : list (prog E A)) : prog E (list A) :=
  match choices with
  | [] => sequence ps
  | c :: choices' =>
      match (ps !! c : option (prog E A)) with
      | Some (Vis e k) => Vis e (fun x => par choices' (<[c := k x]> ps))
      | _ => par choices' ps
      end
  end.

Inductive interleaving {X} : list (list X) -> list X -> Prop :=
| il_done trs : Forall (eq []) trs -> interleaving trs []
| il_next trs i o tr' tr : trs !! i = Some (o :: tr') ->
    interleaving (<[i := tr']> trs) tr -> interleaving trs (o :: tr).

Lemma interleaving_cons_nil {X} (trs : list (list X)) tr :
  interleaving trs tr -> interleaving ([] :: trs) tr.
Proof.
  induction 1 as [trs H|trs i o tr' tr Hi H IH].
  - constructor. by constructor.
  - by apply (il_next _ (S i) o tr').
Qed.

Lemma interleaving_app {X} (t : list X) trs tr :
  interleaving trs tr -> interleaving (t :: trs) (t ++ tr).
Proof.
  intros H. induction t as [|o t IH]; [by apply interleaving_cons_nil|].
  by apply (il_next _ 0%nat o t).
Qed.

Lemma interleaving_In {X} (trs : list (list X)) tr o :
  interleaving trs tr -> o ∈ tr -> exists i t, trs !! i = Some t /\ o ∈ t.
Proof.
  induction 1 as [trs H|trs i o' tr' tr Hi H IH]; [by intros ?%elem_of_nil|].
  intros [->|Ho]%elem_of_cons; [by exists i, (o' :: tr'); set_solver|].
  destruct (IH Ho) as (j & t & Hj & Ht).
  destruct (decide (i = j)) as [<-|Hne].
  - rewrite list_lookup_insert_eq in Hj by (by eapply lookup_lt_Some).
    injection Hj as <-. exists i, (o' :: tr'). split; [done|]. by right.
  - rewrite list_lookup_insert_ne in Hj by done. eauto.
Qed.

Lemma concat_insert {X} (trs : list (list X)) i o t :
  trs !! i = Some (o :: t) -> concat trs ≡ₚ o :: concat (<[i := t]> trs).
Proof.
  revert i. induction trs as [|t' trs IH]; intros [|i] H; simplify_eq/=; [done|].
  rewrite (IH _ H). symmetry. apply Permutation_middle.
Qed.

(** An interleaving has the requests of the runs, each as often. *)
Lemma interleaving_perm {X} (trs : list (list X)) tr : interleaving trs tr -> tr ≡ₚ concat trs.
Proof.
  induction 1 as [trs H|trs i o tr' tr Hi H IH].
  - induction H as [|t trs <- _ IH]; [done|exact IH].
  - by rewrite (concat_insert _ _ _ _ Hi), IH.
Qed.

Lemma runs_sequence ps tr rs :
  runs (sequence ps) tr rs ->
  exists trs, Forall3 runs ps trs rs /\ interleaving trs tr.
Proof.
  revert tr rs. induction ps as [|p ps IH]; intros tr rs H; simpl in H.
  { destruct H as [-> ->]. exists []. split; [constructor|]. by apply il_done. }
  apply runs_pbind in H as (t & tr2 & a & -> & H1 & H2).
  apply runs_pbind in H2 as (tr3 & tr4 & l & -> & H2 & -> & ->).
  destruct (IH _ _ H2) as (trs & H & Hi). rewrite app_nil_r.
  exists (t :: trs). split; [by constructor|]. by apply interleaving_app.
Qed.

Lemma Forall3_step (ps : list (prog E A)) trs rs c p X (e : E X) (k : X -> prog E A) x :
  ps !! c = Some (Vis e k) -> p = k x ->
  Forall3 runs (<[c := p]> ps) trs rs ->
  exists t, trs !! c = Some t /\ Forall3 runs ps (<[c := Occ e x :: t]> trs) rs.
Proof.
  intros Hc ->. revert trs rs c Hc. induction ps as [|q ps IH]; intros trs rs [|c] Hc H;
    simplify_eq/=; inversion H; simplify_eq.
  - eexists. split; [done|]. constructor; [|done]. simpl. eauto.
  - edestruct IH as (t & Ht & ?); [done..|]. exists t. split; [done|]. by constructor.
Qed.

Lemma runs_par choices ps tr rs :
  runs (par choices ps) tr rs ->
  exists trs, Forall3 runs ps trs rs /\ interleaving trs tr.
Proof.
  revert ps tr. induction choices as [|c choices IH]; intros ps tr H; cbn [par] in H.
  { by apply runs_sequence. }
  destruct (ps !! c : option (prog E A)) as [[a|X e k]|] eqn:Ec; [by apply IH| |by apply IH].
  destruct H as (x & tr' & -> & H). destruct (IH _ _ H) as (trs & Hr & Hi).
  destruct (Forall3_step _ _ _ _ _ _ _ _ _ Ec eq_refl Hr) as (t & Ht & Hr').
  eexists. split; [exact Hr'|]. eapply il_next.
  - apply list_lookup_insert_eq. by eapply lookup_lt_Some.
  - by rewrite list_insert_insert_eq, list_insert_id.
Qed.

Lemma Forall3_requested (ps : list (prog E A)) trs rs i o t :
  Forall3 runs ps trs rs -> trs !! i = Some (o :: t) ->
  exists X (e : E X) (k : X -> prog E A) x, ps !! i = Some (Vis e k) /\ o = Occ e x /\
    Forall3 runs (<[i := k x]> ps) (<[i := t]> trs) rs.
Proof.
  intros H. revert i. induction H as [|p t' r ps trs rs Hp H IH]; intros [|i] Hi; simplify_eq/=.
  - destruct p as [a|X e k]; [by destruct Hp|]. destruct Hp as (x & tr' & [= -> ->] & Hp).
    eexists _, e, k, x. split_and!; [done..|]. by constructor.
  - destruct (IH i Hi) as (X & e & k & x & ? & ? & ?). eexists _, e, k, x. split_and!; [done..|].
    by constructor.
Qed.

Lemma sequence_finished ps trs rs :
  Forall3 runs ps trs rs -> Forall (eq []) trs -> runs (sequence ps) [] rs.
Proof.
  induction 1 as [|p t r ps trs rs Hp H IH]; intros Ht; [done|].
  apply Forall_cons in Ht as [<- Ht]. simpl. apply runs_pbind.
  exists [], [], r. split_and!; [done..|]. apply runs_pbind. exists [], [], rs. by split_and!; [|apply IH|].
Qed.

Lemma par_complete ps trs rs tr :
  Forall3 runs ps trs rs -> interleaving trs tr -> exists choices, runs (par choices ps) tr rs.
Proof.
  intros Hr Hi. revert ps Hr. induction Hi as [trs H|trs i o tr' tr Hi H IH]; intros ps Hr.
  - exists []. by eapply sequence_finished.
  - destruct (Forall3_requested _ _ _ _ _ _ Hr Hi) as (X & e & k & x & Hp & -> & Hr').
    destruct (IH _ Hr') as [choices Hc]. exists (i :: choices). cbn [par]. rewrite Hp.
    by exists x, tr.
Qed.
End par.

(** Opens up a run one request or one computed result at a time. *)
Ltac run_step H :=
  match type of H with
  | runs (Ret _) _ _ => apply runs_ret in H as [? ?]
  | runs (mret _) _ _ => apply runs_ret in H as [? ?]
  | runs (lit _) _ _ => apply runs_lit in H as [? ?]
  | runs (call _) _ _ => apply runs_call in H
  | runs (lit _ ≫= _) _ _ => apply (proj1 (runs_lit_bind _ _ _ _)) in H
  | runs (call _ ≫= _) _ _ => apply (proj1 (runs_call_bind _ _ _ _)) in H as (? & ? & ? & H)
  | runs (ask _ ≫= _) _ _ => apply (proj1 (runs_ask_bind _ _ _ _)) in H as (? & ? & ? & H)
  | runs (attempt (lit _) ≫= _) _ _ => apply (proj1 (runs_attempt_lit _ _ _ _)) in H
  | runs (attempt (call _) ≫= _) _ _ => apply (proj1 (runs_attempt_call _ _ _ _)) in H as (? & ? & ? & H)
  | runs (after_res ?x _) _ _ => let Ex := fresh "Ex" in
      destruct x eqn:Ex; unfold after_res in H; cbn beta iota in H
  | runs (after_attempt ?x _) _ _ => let Ex := fresh "Ex" in
      destruct x eqn:Ex; unfold after_attempt in H; cbn beta iota in H
  end.

(** [runs] computes on the program; this opens up a run of a straight-line
    program down to its requests. *)
Ltac run_inv :=
  repeat match goal with
  | H : runs (_ ≫= _) _ (Ok _) |- _ => apply runs_gbind_Ok in H as (? & ? & ? & -> & ? & H)
  | H : runs (call _) _ _ |- _ => apply runs_call in H as ->
  | H : runs (lit _) _ _ |- _ => apply runs_lit in H as [-> H]
  | H : runs (mret _) _ _ |- _ => apply runs_lit in H as [-> H]
  | H : Ok _ = Ok _ |- _ => injection H as H
  | H : Ok _ = Err _ |- _ => discriminate H
  | H : Err _ = Ok _ |- _ => discriminate H
  end.
