(* ===== verification/Sha256.v ===== *)
(** The two standard-library routines the program identifies its objects with:
    [crypto/sha256] (FIPS 180-4) and the [%X] verb of [fmt.Sprintf] on a byte
    slice.  Both are executable. *)

From S2P Require Import Prelude.

(** ** 32-bit words *)

Definition w32 (x : Z) : Z := Z.land x 4294967295.
Definition rotr (n x : Z) : Z := Z.lor (Z.shiftr x n) (w32 (Z.shiftl x (32 - n))).
Definition not32 (x : Z) : Z := Z.lxor x 4294967295.

Definition byte_of_Z (z : Z) : byte :=
  match Byte.of_N (Z.to_N (Z.land z 255)) with Some b => b | None => x00 end.
Definition Z_of_byte (b : byte) : Z := Z.of_N (Byte.to_N b).

Definition be32 (x : Z) : bytes :=
  [byte_of_Z (Z.shiftr x 24); byte_of_Z (Z.shiftr x 16);
   byte_of_Z (Z.shiftr x 8); byte_of_Z x].

Fixpoint words (l : bytes) : list Z :=
  match l with
  | a :: b :: c :: d :: l' =>
      Z.lor (Z.shiftl (Z_of_byte a) 24)
        (Z.lor (Z.shiftl (Z_of_byte b) 16)
           (Z.lor (Z.shiftl (Z_of_byte c) 8) (Z_of_byte d))) :: words l'
  | _ => []
  end.

(** ** Padding: a 1 bit, zeros, and the bit length on 64 bits *)

Definition pad (m : bytes) : bytes :=
  let bits := 8 * Z.of_nat (length m) in
  let zeros := (55 - Z.of_nat (length m)) mod 64 in
  m ++ [x80] ++ repeat x00 (Z.to_nat zeros)
    ++ be32 (w32 (Z.shiftr bits 32)) ++ be32 (w32 bits).

(** ** Compression *)

Definition K256 : list Z :=
  [1116352408; 1899447441; 3049323471; 3921009573; 961987163; 1508970993; 2453635748; 2870763221;
   3624381080; 310598401; 607225278; 1426881987; 1925078388; 2162078206; 2614888103; 3248222580;
   3835390401; 4022224774; 264347078; 604807628; 770255983; 1249150122; 1555081692; 1996064986;
   2554220882; 2821834349; 2952996808; 3210313671; 3336571891; 3584528711; 113926993; 338241895;
   666307205; 773529912; 1294757372; 1396182291; 1695183700; 1986661051; 2177026350; 2456956037;
   2730485921; 2820302411; 3259730800; 3345764771; 3516065817; 3600352804; 4094571909; 275423344;
   430227734; 506948616; 659060556; 883997877; 958139571; 1322822218; 1537002063; 1747873779;
   1955562222; 2024104815; 2227730452; 2361852424; 2428436474; 2756734187; 3204031479; 3329325298].

Record digest := Digest { h0 : Z; h1 : Z; h2 : Z; h3 : Z; h4 : Z; h5 : Z; h6 : Z; h7 : Z }.

Definition H256 : digest :=
  Digest 1779033703 3144134277 1013904242 2773480762
         1359893119 2600822924 528734635 1541459225.

Definition bsig0 x := Z.lxor (rotr 2 x) (Z.lxor (rotr 13 x) (rotr 22 x)).
Definition bsig1 x := Z.lxor (rotr 6 x) (Z.lxor (rotr 11 x) (rotr 25 x)).
Definition ssig0 x := Z.lxor (rotr 7 x) (Z.lxor (rotr 18 x) (Z.shiftr x 3)).
Definition ssig1 x := Z.lxor (rotr 17 x) (Z.lxor (rotr 19 x) (Z.shiftr x 10)).

(** The message schedule, most recent word first. *)
Fixpoint schedule (n : nat) (rev : list Z) : list Z :=
  match n with
  | O => rev
  | S n' =>
      let w i := nth i rev 0 in
      schedule n' (w32 (ssig1 (w 1%nat) + w 6%nat + ssig0 (w 14%nat) + w 15%nat) :: rev)
  end.

Definition round256 (d : digest) (kw : Z * Z) : digest :=
  let '(Digest a b c d' e f g h) := d in
  let '(k, w) := kw in
  let ch := Z.lxor (Z.land e f) (Z.land (not32 e) g) in
  let maj := Z.lxor (Z.land a b) (Z.lxor (Z.land a c) (Z.land b c)) in
  let t1 := w32 (h + bsig1 e + ch + k + w) in
  let t2 := w32 (bsig0 a + maj) in
  Digest (w32 (t1 + t2)) a b c (w32 (d' + t1)) e f g.

Definition compress (d : digest) (block : list Z) : digest :=
  let ws := rev (schedule 48 (rev block)) in
  let '(Digest a b c d' e f g h) := fold_left round256 (combine K256 ws) d in
  Digest (w32 (h0 d + a)) (w32 (h1 d + b)) (w32 (h2 d + c)) (w32 (h3 d + d'))
         (w32 (h4 d + e)) (w32 (h5 d + f)) (w32 (h6 d + g)) (w32 (h7 d + h)).

Fixpoint blocks (n : nat) (ws : list Z) (d : digest) : digest :=
  match n with
  | O => d
  | S n' => blocks n' (skipn 16 ws) (compress d (firstn 16 ws))
  end.

Definition digest_bytes (d : digest) : bytes :=
  be32 (h0 d) ++ be32 (h1 d) ++ be32 (h2 d) ++ be32 (h3 d)
    ++ be32 (h4 d) ++ be32 (h5 d) ++ be32 (h6 d) ++ be32 (h7 d).

(** [h := sha256.New(); h.Write(m); h.Sum(nil)] *)
Definition sha256 (m : bytes) : bytes :=
  let ws := words (pad m) in
  digest_bytes (blocks (length ws / 16) ws H256).

Definition sha256_Size : Z := 32.

Lemma sha256_length m : length (sha256 m) = 32%nat.
Proof. reflexivity. Qed.

Arguments sha256 : simpl never.

(** FIPS 180-4 test vector "abc", and the empty string. *)
Example sha256_abc :
  map Z_of_byte (sha256 [x61; x62; x63]) =
  [186;120;22;191;143;1;207;234;65;65;64;222;93;174;34;35;
   176;3;97;163;150;23;122;156;180;16;255;97;242;0;21;173].
Proof. vm_compute. reflexivity. Qed.

Example sha256_empty :
  map Z_of_byte (sha256 []) =
  [227;176;196;66;152;252;28;20;154;251;244;200;153;111;185;36;
   39;174;65;228;100;155;147;76;164;149;153;27;120;82;184;85].
Proof. vm_compute. reflexivity. Qed.

(** A message of two blocks (FIPS 180-4, 448-bit vector). *)
Example sha256_two_blocks :
  map Z_of_byte (firstn 4 (sha256
    (map (fun n => byte_of_Z (97 + Z.of_nat (n mod 4 + n / 4)))
         (seq 0 56)))) = [36; 141; 106; 97].
Proof. vm_compute. reflexivity. Qed.

(** ** [fmt.Sprintf("%X", b)]: two upper-case hexadecimal digits per byte *)

Definition hex_digit (n : N) : byte :=
  match Byte.of_N (if (n <? 10)%N then 48 + n else 55 + n) with
  | Some b => b
  | None => x00
  end.

Definition hex_byte (b : byte) : bytes :=
  [hex_digit (N.div (Byte.to_N b) 16); hex_digit (N.modulo (Byte.to_N b) 16)].

Fixpoint sprintf_X (b : bytes) : bytes :=
  match b with
  | [] => []
  | x :: b' => hex_byte x ++ sprintf_X b'
  end.

Definition unhex_digit (b : byte) : N :=
  let n := Byte.to_N b in if (n <? 65)%N then (n - 48)%N else (n - 55)%N.

Definition unhex_byte (l : bytes) : option byte :=
  match l with
  | [a; b] => Byte.of_N (unhex_digit a * 16 + unhex_digit b)
  | _ => None
  end.

Lemma unhex_hex x : unhex_byte (hex_byte x) = Some x.
Proof. destruct x; reflexivity. Qed.

Lemma hex_byte_inj x y : hex_byte x = hex_byte y -> x = y.
Proof. intros H%(f_equal unhex_byte). rewrite !unhex_hex in H. congruence. Qed.

(** Distinct byte strings print differently, so a [%X] string may serve as a
    map key for the bytes it prints. *)
#[export] Instance sprintf_X_inj : Inj (=) (=) sprintf_X.
Proof.
  intros a. induction a as [|x a IH]; intros [|y b] H; try done.
  change (hex_byte x ++ sprintf_X a = hex_byte y ++ sprintf_X b) in H.
  apply app_inj_1 in H as [H1 H2]; [|done].
  apply hex_byte_inj in H1. apply IH in H2. by subst.
Qed.

Lemma sprintf_X_length b : length (sprintf_X b) = (2 * length b)%nat.
Proof. induction b as [|x b IH]; simpl in *; lia. Qed.
