(* ===== verification/Crypto.v ===== *)
(** Signatures and keys: package [crypto] ([api_keys.go], [api_sign.go]), its
    ed25519 implementation ([crypto/ed25519/ed25519.go]) and the local signer
    ([crypto/local/signer.go]).

    The interfaces [PubKey], [PrivKey] and [Signer] are type classes.  The
    elliptic-curve arithmetic of Go's [crypto/ed25519] is the class [Ed25519]
    with the law of RFC 8032 that a generated key verifies what it signed; the
    entry points of that package (length checks, panics, dynamic type tests)
    are definitions. *)

From S2P Require Import Prelude.

(** ** Interfaces (api_keys.go, api_sign.go) *)

Class PubKey (K : Type) := {
  VerifySignature : K -> bytes -> bytes -> res bool;
  Bytes : K -> slice;
  Equals : K -> bytes -> bool;
  KeyTypeOf : K -> string;
}.

(** What the stake arithmetic relies on: a key only equals its own bytes. *)
Class PubKeyLaws (K : Type) `{!PubKey K} : Prop :=
  Equals_Bytes : forall k b, Equals k b = true -> sl (Bytes k) = b.

Class PrivKey (P K : Type) := {
  priv_Sign : P -> bytes -> res bytes;
  priv_PubKey : P -> res K;
  priv_Equals : P -> bytes -> bool;
  priv_Type : P -> string;
}.

Record Signature := MkSignature { Body : slice; Signer : slice }.

#[export] Instance Signature_eq_dec : EqDecision Signature.
Proof. solve_decision. Defined.

Class SignerI (S : Type) := {
  ID : S -> slice;
  Sign : S -> bytes -> res Signature;
  Verify : S -> bytes -> Signature -> res unit;
}.

(** ** Go's crypto/ed25519 *)

Definition PublicKeySize : Z := 32.
Definition PrivateKeySize : Z := 64.
Definition SignatureSize : Z := 64.

(** The curve computations on well-sized inputs. *)
Class Ed25519 := {
  ed_generate : bytes -> bytes;                  (* seed -> seed ++ public key *)
  ed_sign : bytes -> bytes -> bytes;             (* private key, message *)
  ed_verify : bytes -> bytes -> bytes -> bool;   (* public key, message, signature *)
}.

Class Ed25519Laws `{!Ed25519} : Prop := {
  ed_generate_length : forall seed, length seed = 32%nat -> length (ed_generate seed) = 64%nat;
  ed_sign_length : forall sk m, length sk = 64%nat -> length (ed_sign sk m) = 64%nat;
  ed_correct : forall seed m, length seed = 32%nat ->
    ed_verify (drop 32 (ed_generate seed)) m (ed_sign (ed_generate seed) m) = true;
}.

(** A value of interface type, as [Equal] receives it: what it can observe is
    the dynamic type. *)
Inductive dyn :=
| DynBytes (b : slice)
| DynPublicKey (b : slice)
| DynPrivateKey (b : slice).

Module stded25519.
Section stded25519.
Context {ED : Ed25519}.

(** [ed25519.Verify]: "It will panic if len(publicKey) is not PublicKeySize." *)
Definition Verify (publicKey message sig : bytes) : res bool :=
  if bool_decide (Z.of_nat (length publicKey) <> PublicKeySize)
  then Panic "ed25519: bad public key length"
  else if bool_decide (Z.of_nat (length sig) <> SignatureSize) then Ok false
  else Ok (ed_verify publicKey message sig).

(** [PrivateKey.Sign] with [crypto.Hash(0)]: "It will panic if
    len(privateKey) is not PrivateKeySize." *)
Definition Sign (privateKey message : bytes) : res bytes :=
  if bool_decide (Z.of_nat (length privateKey) <> PrivateKeySize)
  then Panic "ed25519: bad private key length"
  else Ok (ed_sign privateKey message).

(** [PrivateKey.Public]: [copy(publicKey, priv[32:])] into a fresh 32-byte
    slice; slicing panics below 32 bytes. *)
Definition Public (privateKey : bytes) : res bytes :=
  if bool_decide (Z.of_nat (length privateKey) < 32)
  then Panic "slice bounds out of range"
  else
    let tail := drop 32 privateKey in
    Ok (take 32 tail ++ repeat x00 (32 - length tail)).

(** [PublicKey.Equal(x crypto.PublicKey)]: the argument must have dynamic
    type [ed25519.PublicKey]. *)
Definition PublicKey_Equal (pub : slice) (x : dyn) : bool :=
  match x with
  | DynPublicKey xx => bool_decide (sl pub = sl xx)
  | _ => false
  end.

(** [PrivateKey.Equal(x crypto.PrivateKey)]: likewise. *)
Definition PrivateKey_Equal (priv : slice) (x : dyn) : bool :=
  match x with
  | DynPrivateKey xx => bool_decide (sl priv = sl xx)
  | _ => false
  end.
End stded25519.
End stded25519.

(** ** crypto/ed25519/ed25519.go *)

Module ed25519.
Section ed25519.
Context {ED : Ed25519}.

Definition KeyType : string := "ed25519".

(** [type PublicKey []byte], [type PrivateKey []byte]. *)
Record PublicKey := MkPublicKey { pub : slice }.
Record PrivateKey := MkPrivateKey { priv : slice }.

Definition PublicKey_VerifySignature (pubKey : PublicKey) (msg sig : bytes) : res bool :=
  if bool_decide (Z.of_nat (length sig) <> SignatureSize) then Ok false
  else stded25519.Verify (sl (pub pubKey)) msg sig.

(** [other] is converted to [ed25519.PublicKey] before the comparison. *)
Definition PublicKey_Equals (pubKey : PublicKey) (other : bytes) : bool :=
  if bool_decide (Z.of_nat (length other) <> PublicKeySize) then false
  else stded25519.PublicKey_Equal (pub pubKey) (DynPublicKey (Some other)).

Definition PublicKey_Bytes (pubKey : PublicKey) : slice := pub pubKey.

Definition PrivateKey_Sign (privKey : PrivateKey) (msg : bytes) : res bytes :=
  stded25519.Sign (sl (priv privKey)) msg.

Definition PrivateKey_PubKey (privKey : PrivateKey) : res PublicKey :=
  public ← stded25519.Public (sl (priv privKey));
  mret (MkPublicKey (Some public)).

(** [other] is passed as it is, a [[]byte]. *)
Definition PrivateKey_Equals (privKey : PrivateKey) (other : bytes) : bool :=
  if bool_decide (Z.of_nat (length other) <> PrivateKeySize) then false
  else stded25519.PrivateKey_Equal (priv privKey) (DynBytes (Some other)).

(** The seed stands for the bytes [rand.Reader] yields; [None] for its error. *)
Definition GenKeys (seed : option bytes) : res (PublicKey * PrivateKey) :=
  match seed with
  | None => Err (ErrNew "rand: read")
  | Some seed =>
      let privK := ed_generate seed in
      Ok (MkPublicKey (Some (drop 32 privK)), MkPrivateKey (Some privK))
  end.

Definition BytesToPubKey (b : bytes) : res PublicKey :=
  if bool_decide (Z.of_nat (length b) <> PublicKeySize)
  then Err (ErrNew "invalid key length")
  else Ok (MkPublicKey (Some b)).

#[global] Instance PublicKey_PubKey : PubKey PublicKey := {|
  VerifySignature := PublicKey_VerifySignature;
  Bytes := PublicKey_Bytes;
  Equals := PublicKey_Equals;
  KeyTypeOf _ := KeyType;
|}.

#[global] Instance PrivateKey_PrivKey : PrivKey PrivateKey PublicKey := {|
  priv_Sign := PrivateKey_Sign;
  priv_PubKey := PrivateKey_PubKey;
  priv_Equals := PrivateKey_Equals;
  priv_Type _ := KeyType;
|}.

Lemma PublicKey_Equals_spec k b :
  PublicKey_Equals k b = true <-> length b = 32%nat /\ sl (pub k) = b.
Proof.
  unfold PublicKey_Equals, PublicKeySize. simpl.
  repeat case_bool_decide; split; intros; destruct_and?; try done; [lia|].
  split; [lia|done].
Qed.

#[global] Instance PublicKey_laws : PubKeyLaws PublicKey.
Proof. intros k b H. by apply PublicKey_Equals_spec in H as [_ ?]. Qed.
End ed25519.
End ed25519.

(** ** crypto/local/signer.go *)

Module local.
Section local.
Context {ED : Ed25519}.
Context {P K : Type} {PK : PubKey K} {PV : PrivKey P K}.

Record Signer := MkSigner { privKey : P; pubKey : K }.

Definition NewSigner (privKey : P) : res Signer :=
  pubKey ← priv_PubKey privKey;
  pubKey' ← priv_PubKey (K:=K) privKey;
  if negb (Equals pubKey' (sl (Bytes pubKey)))
  then Err (ErrNew "invalid pubKey received")
  else Ok (MkSigner privKey pubKey).

Definition Signer_ID (s : Signer) : slice := Bytes (pubKey s).

Definition Signer_Sign (s : Signer) (msg : bytes) : res Signature :=
  signature ← priv_Sign (K:=K) (privKey s) msg;
  mret (MkSignature (Some signature) (Signer_ID s)).

(** The key is the one the signature names, whatever its length. *)
Definition Signer_Verify (s : Signer) (msg : bytes) (signature : Signature) : res unit :=
  let pubK := ed25519.MkPublicKey (Crypto.Signer signature) in
  ok ← ed25519.PublicKey_VerifySignature pubK msg (sl (Body signature));
  if negb ok then Err (ErrNew "signature is invalid") else Ok tt.

#[global] Instance Signer_SignerI : SignerI Signer := {|
  ID := Signer_ID;
  Sign := Signer_Sign;
  Verify := Signer_Verify;
|}.
End local.
Arguments Signer : clear implicits.
End local.

(** ** Signing and verifying with local ed25519 signers *)

Abbreviation ed25519_signer := (local.Signer ed25519.PrivateKey ed25519.PublicKey).

Section signing.
Context {ED : Ed25519} {EL : Ed25519Laws}.
Lemma new_signer_keys seed pubK privK (s : ed25519_signer) :
  length seed = 32%nat -> ed25519.GenKeys (Some seed) = Ok (pubK, privK) ->
  local.NewSigner privK = Ok s ->
  local.privKey s = ed25519.MkPrivateKey (Some (ed_generate seed)) /\
  local.pubKey s = ed25519.MkPublicKey (Some (drop 32 (ed_generate seed))).
Proof.
  intros Hl Hg Hn. simpl in Hg. injection Hg as <- <-.
  pose proof (ed_generate_length seed Hl) as Hlen.
  unfold local.NewSigner in Hn. simpl in Hn.
  unfold ed25519.PrivateKey_PubKey, stded25519.Public in Hn.
  simpl in Hn. rewrite bool_decide_eq_false_2 in Hn by lia. simpl in Hn.
  rewrite take_ge in Hn by (rewrite length_drop; lia).
  rewrite length_drop, Hlen in Hn. simpl in Hn. rewrite app_nil_r in Hn.
  destruct (negb _); [done|]. by injection Hn as <-.
Qed.

(** A signer of a generated key signs everything. *)
Lemma sign_works seed pubK privK (s : ed25519_signer) msg :
  length seed = 32%nat -> ed25519.GenKeys (Some seed) = Ok (pubK, privK) ->
  local.NewSigner privK = Ok s -> exists sig, Sign s msg = Ok sig.
Proof.
  intros Hl Hg Hn. destruct (new_signer_keys _ _ _ _ Hl Hg Hn) as [Hp Hk].
  cbn [Sign local.Signer_SignerI]. unfold local.Signer_Sign. rewrite Hp.
  cbn [priv_Sign ed25519.PrivateKey_PrivKey]. unfold ed25519.PrivateKey_Sign, stded25519.Sign. simpl.
  rewrite bool_decide_eq_false_2; [by eexists|].
  unfold PrivateKeySize. rewrite (ed_generate_length seed Hl). lia.
Qed.

(** What a local signer signs, every local signer verifies. *)
Lemma sign_verify seed pubK privK (s s' : ed25519_signer) msg sig sig' :
  length seed = 32%nat -> ed25519.GenKeys (Some seed) = Ok (pubK, privK) ->
  local.NewSigner privK = Ok s -> Sign s msg = Ok sig ->
  sl (Body sig') = sl (Body sig) -> sl (Crypto.Signer sig') = sl (Crypto.Signer sig) ->
  Verify s' msg sig' = Ok tt.
Proof.
  intros Hl Hg Hn Hs Eb Es. destruct (new_signer_keys _ _ _ _ Hl Hg Hn) as [Hp Hk].
  pose proof (ed_generate_length seed Hl) as Hlen.
  cbn [Sign local.Signer_SignerI] in Hs. unfold local.Signer_Sign in Hs. rewrite Hp in Hs.
  simpl in Hs. unfold ed25519.PrivateKey_Sign, stded25519.Sign in Hs. simpl in Hs.
  rewrite bool_decide_eq_false_2 in Hs by (unfold PrivateKeySize; lia). simpl in Hs.
  injection Hs as <-. unfold local.Signer_ID in Es. rewrite Hk in Es. simpl in Eb, Es.
  cbn [Verify local.Signer_SignerI]. unfold local.Signer_Verify, ed25519.PublicKey_VerifySignature.
  rewrite Eb. cbn [ed25519.pub]. rewrite Es.
  pose proof (ed_sign_length (ed_generate seed) msg Hlen) as Hsl.
  rewrite bool_decide_eq_false_2 by (unfold SignatureSize; lia).
  unfold stded25519.Verify. cbn [sl default from_option].
  rewrite bool_decide_eq_false_2
    by (unfold PublicKeySize; rewrite length_drop; lia).
  rewrite bool_decide_eq_false_2 by (unfold SignatureSize; lia).
  simpl. by rewrite ed_correct.
Qed.

Lemma signed_key seed pubK privK (s : ed25519_signer) msg sig :
  length seed = 32%nat -> ed25519.GenKeys (Some seed) = Ok (pubK, privK) ->
  local.NewSigner privK = Ok s -> Sign s msg = Ok sig ->
  sl (Crypto.Signer sig) = sl (Bytes pubK).
Proof.
  intros Hl Hg Hn Hs. destruct (new_signer_keys _ _ _ _ Hl Hg Hn) as [Hp Hk].
  cbn [Sign local.Signer_SignerI] in Hs. unfold local.Signer_Sign in Hs.
  apply res_bind_Ok in Hs as (b & _ & [= <-]). simpl. unfold local.Signer_ID. rewrite Hk.
  simpl in Hg. by injection Hg as <- _.
Qed.

(** A signature of the right length that names a key of another length makes
    [Verify] panic. *)
Lemma Verify_panics (s : ed25519_signer) msg sig :
  length (sl (Body sig)) = 64%nat ->
  (exists w, Verify s msg sig = Panic w) <-> length (sl (Signer sig)) <> 32%nat.
Proof.
  intros Hl. cbn [Verify local.Signer_SignerI].
  unfold local.Signer_Verify, ed25519.PublicKey_VerifySignature. rewrite Hl.
  rewrite bool_decide_eq_false_2 by (unfold SignatureSize; lia).
  unfold stded25519.Verify. cbn [ed25519.pub]. rewrite Hl.
  case_bool_decide as Hk; unfold PublicKeySize in Hk.
  - split; [lia|]. by eexists.
  - rewrite bool_decide_eq_false_2 by (unfold SignatureSize; lia). simpl.
    split; [|lia]. intros [w Hw]. by destruct (negb _).
Qed.

(** A signature of another length is refused, whatever key it names. *)
Lemma Verify_refuses (s : ed25519_signer) msg sig :
  length (sl (Body sig)) <> 64%nat -> exists e, Verify s msg sig = Err e.
Proof.
  intros Hl. cbn [Verify local.Signer_SignerI].
  unfold local.Signer_Verify, ed25519.PublicKey_VerifySignature.
  rewrite bool_decide_eq_true_2 by (unfold SignatureSize; lia). simpl. by eexists.
Qed.
End signing.
