(* ===== verification/CryptoInstance.v ===== *)
(** A concrete [Ed25519] that satisfies [Ed25519Laws], to evaluate the
    definitions on concrete inputs: the public key is the seed reversed, and
    a signature is a digest of the public key and the message.  (It is not
    unforgeable, which no law asks for.) *)

From S2P Require Import Prelude Sha256 Crypto.

Module ToyEd25519.

Definition toy_tag (pub m : bytes) : bytes := sha256 (pub ++ m) ++ sha256 (m ++ pub).

#[global] Instance toy : Ed25519 := {|
  ed_generate seed := seed ++ rev seed;
  ed_sign sk m := toy_tag (drop 32 sk) m;
  ed_verify pub m sig := bool_decide (sig = toy_tag pub m);
|}.

#[global] Instance toy_laws : Ed25519Laws.
Proof.
  split; cbn [ed_generate ed_sign ed_verify toy].
  - intros seed H. rewrite length_app, length_rev. lia.
  - intros sk m _. unfold toy_tag. rewrite length_app, !sha256_length. done.
  - intros seed m _. by apply bool_decide_eq_true.
Qed.

(** Sample keys: 32 copies of a byte. *)
Definition seed_of (b : byte) : bytes := repeat b 32.
Definition key_of (b : byte) : ed25519.PublicKey := ed25519.MkPublicKey (Some (repeat b 32)).
Definition priv_of (b : byte) : ed25519.PrivateKey :=
  ed25519.MkPrivateKey (Some (ed_generate (seed_of b))).

End ToyEd25519.
