(* ===== verification/Capnp.v ===== *)
(** Cap'n Proto messages.  The library [capnproto.org/go/capnp/v3] is third
    party: its operations are the class [Capnp], and the documented behaviour
    the code relies on (a field reads back what was set, the other fields are
    untouched, decoding a marshalled message within the reader's traversal
    limits gives the same fields) is the class [CapnpLaws].  The accessors
    generated from the three schemas are definitions over that interface,
    modules [gossipmsg], [blockmsg] and [batchmsg].

    A message under construction is represented by its root struct; setters
    return the updated struct. *)

From S2P Require Import Prelude.

(** ** The library interface *)

Class Capnp := {
  Segment : Type;
  Message : Type;
  Struct : Type;
  Ptr : Type;
  DataList : Type;

  NewMessage : res Segment;                       (* NewMessage(SingleSegment(nil)) *)
  NewRootStruct : Segment -> Z -> Z -> res Struct; (* ObjectSize{DataSize, PointerCount} *)
  DataSize : Struct -> Z;
  PointerCount : Struct -> Z;

  Uint16 : Struct -> Z -> Z;
  SetUint16 : Struct -> Z -> Z -> Struct;
  Uint64 : Struct -> Z -> Z;
  SetUint64 : Struct -> Z -> Z -> Struct;

  Struct_Ptr : Struct -> Z -> res Ptr;
  SetPtr : Struct -> Z -> Ptr -> res Struct;
  SetData : Struct -> Z -> slice -> res Struct;
  Ptr_Data : Ptr -> slice;
  Ptr_List : Ptr -> DataList;
  Ptr_Struct : Ptr -> Struct;

  NewDataList : Struct -> Z -> res DataList;
  DataList_ToPtr : DataList -> Ptr;
  DataList_Len : DataList -> Z;
  DataList_At : DataList -> Z -> res slice;
  DataList_Set : DataList -> Z -> slice -> res DataList;

  Marshal : Struct -> res bytes;                  (* of the message rooted there *)
  Unmarshal : bytes -> res Message;
  Root : Message -> res Ptr;

  (** The reader's traversal and depth limits admit the message. *)
  within_limits : bytes -> Prop;
}.

Section equiv.
Context {CP : Capnp}.

(** What a program can read through a pointer: its bytes and, as a list of
    data, the bytes of its elements. *)
Definition list_view (l : DataList) : res (list bytes) :=
  foldr (fun i (r : res (list bytes)) =>
           d ← DataList_At l i; ds ← r; mret (sl d :: ds))
        (Ok []) (seqZ 0 (DataList_Len l)).

Definition ptr_equiv (p q : Ptr) : Prop :=
  sl (Ptr_Data p) = sl (Ptr_Data q) /\
  DataList_Len (Ptr_List p) = DataList_Len (Ptr_List q) /\
  list_view (Ptr_List p) = list_view (Ptr_List q).

Definition res_ptr_equiv (r1 r2 : res Ptr) : Prop :=
  match r1, r2 with
  | Ok p, Ok q => ptr_equiv p q
  | Err _, Err _ | Panic _, Panic _ | Hang _, Hang _ => True
  | _, _ => False
  end.

(** Structs no accessor tells apart. *)
#[export] Instance struct_equiv : Equiv Struct := fun s t =>
  DataSize s = DataSize t /\ PointerCount s = PointerCount t /\
  (forall off, Uint64 s off = Uint64 t off) /\
  (forall off, Uint16 s off = Uint16 t off) /\
  (forall i, res_ptr_equiv (Struct_Ptr s i) (Struct_Ptr t i)).

#[export] Instance struct_equiv_equivalence : Equivalence (≡@{Struct}).
Proof.
  split; unfold equiv, struct_equiv.
  - intros s. split_and!; try done. intros i.
    destruct (Struct_Ptr s i); simpl; [|done..]. by split_and!.
  - intros s t (?&?&?&?&Hp). split_and!; try done. intros i.
    specialize (Hp i). destruct (Struct_Ptr s i), (Struct_Ptr t i); simpl in *; try done.
    destruct Hp as (?&?&?). by split_and!.
  - intros s t u (?&?&H1&H2&Hp) (?&?&H3&H4&Hq). split_and!; try congruence.
    intros i. specialize (Hp i). specialize (Hq i).
    destruct (Struct_Ptr s i), (Struct_Ptr t i), (Struct_Ptr u i); simpl in *; try done.
    destruct Hp as (?&?&?), Hq as (?&?&?). split_and!; congruence.
Qed.

#[export] Instance Uint64_proper : Proper ((≡) ==> (=) ==> (=)) Uint64.
Proof. intros s t (_&_&H&_) off ? <-. apply H. Qed.
#[export] Instance Uint16_proper : Proper ((≡) ==> (=) ==> (=)) Uint16.
Proof. intros s t (_&_&_&H&_) off ? <-. apply H. Qed.
End equiv.

Class CapnpLaws {CP : Capnp} : Prop := {
  NewRootStruct_size : forall seg d p s, NewRootStruct seg d p = Ok s ->
    DataSize s = d /\ PointerCount s = p;

  SetUint64_size : forall s off v,
    DataSize (SetUint64 s off v) = DataSize s /\
    PointerCount (SetUint64 s off v) = PointerCount s;
  SetUint64_get : forall s off v, 0 <= off -> off + 8 <= DataSize s -> uint64_range v ->
    Uint64 (SetUint64 s off v) off = v;
  SetUint64_ptr : forall s off v i, Struct_Ptr (SetUint64 s off v) i = Struct_Ptr s i;

  SetUint16_size : forall s off v,
    DataSize (SetUint16 s off v) = DataSize s /\
    PointerCount (SetUint16 s off v) = PointerCount s;
  SetUint16_get : forall s off v, 0 <= off -> off + 2 <= DataSize s -> 0 <= v < 2 ^ 16 ->
    Uint16 (SetUint16 s off v) off = v;
  SetUint16_ptr : forall s off v i, Struct_Ptr (SetUint16 s off v) i = Struct_Ptr s i;

  SetPtr_frame : forall s s' i p, SetPtr s i p = Ok s' ->
    DataSize s' = DataSize s /\ PointerCount s' = PointerCount s /\
    (forall off, Uint64 s' off = Uint64 s off) /\
    (forall off, Uint16 s' off = Uint16 s off) /\
    (forall j, j <> i -> Struct_Ptr s' j = Struct_Ptr s j);
  SetPtr_get : forall s s' i p, SetPtr s i p = Ok s' -> Struct_Ptr s' i = Ok p;

  SetData_frame : forall s s' i v, SetData s i v = Ok s' ->
    DataSize s' = DataSize s /\ PointerCount s' = PointerCount s /\
    (forall off, Uint64 s' off = Uint64 s off) /\
    (forall off, Uint16 s' off = Uint16 s off) /\
    (forall j, j <> i -> Struct_Ptr s' j = Struct_Ptr s j);
  SetData_get : forall s s' i v, SetData s i v = Ok s' ->
    exists p, Struct_Ptr s' i = Ok p /\ sl (Ptr_Data p) = sl v;

  NewDataList_Len : forall s n l, 0 <= n -> NewDataList s n = Ok l -> DataList_Len l = n;
  DataList_Set_Len : forall l l' i v, DataList_Set l i v = Ok l' ->
    DataList_Len l' = DataList_Len l;
  DataList_Set_get : forall l l' i v, DataList_Set l i v = Ok l' ->
    exists d, DataList_At l' i = Ok d /\ sl d = sl v;
  DataList_Set_other : forall l l' i j v, DataList_Set l i v = Ok l' -> j <> i ->
    DataList_At l' j = DataList_At l j;
  Ptr_List_ToPtr : forall l, Ptr_List (DataList_ToPtr l) = l;

  Marshal_Unmarshal : forall s b, Marshal s = Ok b -> within_limits b ->
    exists m p, Unmarshal b = Ok m /\ Root m = Ok p /\ Ptr_Struct p ≡ s;
}.

(** ** Generated accessors *)

(** [p, err := s.Ptr(i); return []byte(p.Data()), err] *)
Definition data_at {CP : Capnp} (s : Struct) (i : Z) : res slice :=
  p ← Struct_Ptr s i; mret (Ptr_Data p).

(** [p, err := s.Ptr(i); return capnp.DataList(p.List()), err] *)
Definition list_at {CP : Capnp} (s : Struct) (i : Z) : res DataList :=
  p ← Struct_Ptr s i; mret (Ptr_List p).

(** [root, err := msg.Root(); return T(root.Struct()), err] *)
Definition read_root {CP : Capnp} (m : Message) : res Struct :=
  p ← Root m; mret (Ptr_Struct p).

Module gossipmsg.
Section gossipmsg.
Context {CP : Capnp}.
Definition Gossip_Which_signature : Z := 0.
Definition Gossip_Which_data : Z := 1.
Definition NewRootGossip (seg : Segment) : res Struct := NewRootStruct seg 8 3.
Definition ReadRootGossip (m : Message) : res Struct := read_root m.
Definition Which (s : Struct) : Z := Uint16 s 0.
Definition Id (s : Struct) : res slice := data_at s 0.
Definition SetId (s : Struct) (v : slice) : res Struct := SetData s 0 v.
Definition SetSignature (s : Struct) : Struct := SetUint16 s 0 0.
Definition Signature_Signer (s : Struct) : res slice := data_at s 1.
Definition Signature_SetSigner (s : Struct) (v : slice) : res Struct := SetData s 1 v.
Definition Signature_Signature (s : Struct) : res slice := data_at s 2.
Definition Signature_SetSignature (s : Struct) (v : slice) : res Struct := SetData s 2 v.
Definition SetData' (s : Struct) : Struct := SetUint16 s 0 1.
Definition Data_Data (s : Struct) : res slice := data_at s 1.
Definition Data_SetData (s : Struct) (v : slice) : res Struct := SetData s 1 v.
End gossipmsg.
End gossipmsg.

Module blockmsg.
Section blockmsg.
Context {CP : Capnp}.
Definition NewRootBlock (seg : Segment) : res Struct := NewRootStruct seg 8 3.
Definition ReadRootBlock (m : Message) : res Struct := read_root m.
Definition Block_Round (s : Struct) : Z := Uint64 s 0.
Definition Block_SetRound (s : Struct) (v : Z) : Struct := SetUint64 s 0 v.
Definition Block_Signer (s : Struct) : res slice := data_at s 0.
Definition Block_SetSigner (s : Struct) (v : slice) : res Struct := SetData s 0 v.
Definition Block_Batches (s : Struct) : res DataList := list_at s 1.
Definition Block_SetBatches (s : Struct) (l : DataList) : res Struct :=
  SetPtr s 1 (DataList_ToPtr l).
Definition Block_NewBatches (s : Struct) (n : Z) : res (Struct * DataList) :=
  l ← NewDataList s n;
  s' ← SetPtr s 1 (DataList_ToPtr l);
  mret (s', l).
Definition Block_Parents (s : Struct) : res DataList := list_at s 2.
Definition Block_SetParents (s : Struct) (l : DataList) : res Struct :=
  SetPtr s 2 (DataList_ToPtr l).
Definition Block_NewParents (s : Struct) (n : Z) : res (Struct * DataList) :=
  l ← NewDataList s n;
  s' ← SetPtr s 2 (DataList_ToPtr l);
  mret (s', l).
Definition NewRootBlockID (seg : Segment) : res Struct := NewRootStruct seg 8 2.
Definition ReadRootBlockID (m : Message) : res Struct := read_root m.
Definition BlockID_Round (s : Struct) : Z := Uint64 s 0.
Definition BlockID_SetRound (s : Struct) (v : Z) : Struct := SetUint64 s 0 v.
Definition BlockID_Signer (s : Struct) : res slice := data_at s 0.
Definition BlockID_SetSigner (s : Struct) (v : slice) : res Struct := SetData s 0 v.
Definition BlockID_Hash (s : Struct) : res slice := data_at s 1.
Definition BlockID_SetHash (s : Struct) (v : slice) : res Struct := SetData s 1 v.
End blockmsg.
End blockmsg.

Module batchmsg.
Section batchmsg.
Context {CP : Capnp}.
Definition NewRootBatch (seg : Segment) : res Struct := NewRootStruct seg 0 3.
Definition ReadRootBatch (m : Message) : res Struct := read_root m.
Definition Data (s : Struct) : res slice := data_at s 0.
Definition SetData_ (s : Struct) (v : slice) : res Struct := SetData s 0 v.
Definition Signature_Signer (s : Struct) : res slice := data_at s 1.
Definition Signature_SetSigner (s : Struct) (v : slice) : res Struct := SetData s 1 v.
Definition Signature_Signature (s : Struct) : res slice := data_at s 2.
Definition Signature_SetSignature (s : Struct) (v : slice) : res Struct := SetData s 2 v.
End batchmsg.
End batchmsg.

(** ** Reading back what was written *)

Section laws.
Context {CP : Capnp} {CL : CapnpLaws}.

Lemma data_at_equiv s t i d :
  s ≡ t -> data_at t i = Ok d -> exists d', data_at s i = Ok d' /\ sl d' = sl d.
Proof.
  intros (_&_&_&_&Hp) H. specialize (Hp i). unfold data_at in *.
  apply res_bind_Ok in H as (p & E & [= <-]). rewrite E in Hp.
  destruct (Struct_Ptr s i) as [q|e|w|w]; simpl in *; try done.
  destruct Hp as (Hd&_). eauto.
Qed.

Lemma list_at_equiv s t i l :
  s ≡ t -> list_at t i = Ok l ->
  exists l', list_at s i = Ok l' /\ DataList_Len l' = DataList_Len l /\
             list_view l' = list_view l.
Proof.
  intros (_&_&_&_&Hp) H. specialize (Hp i). unfold list_at in *.
  apply res_bind_Ok in H as (p & E & [= <-]). rewrite E in Hp.
  destruct (Struct_Ptr s i) as [q|e|w|w]; simpl in *; try done.
  destruct Hp as (_&Hl&Hv). eauto.
Qed.

Lemma SetData_data_at s s' i v :
  SetData s i v = Ok s' -> exists d, data_at s' i = Ok d /\ sl d = sl v.
Proof.
  intros (p & E & H)%SetData_get. unfold data_at. rewrite E. simpl. eauto.
Qed.

Lemma SetData_data_at_other s s' i j v :
  SetData s i v = Ok s' -> j <> i -> data_at s' j = data_at s j.
Proof.
  intros (_&_&_&_&H)%SetData_frame Hj. unfold data_at. by rewrite H.
Qed.

Lemma SetPtr_data_at_other s s' i j p :
  SetPtr s i p = Ok s' -> j <> i -> data_at s' j = data_at s j.
Proof.
  intros (_&_&_&_&H)%SetPtr_frame Hj. unfold data_at. by rewrite H.
Qed.

Lemma SetPtr_list_at s s' i l :
  SetPtr s i (DataList_ToPtr l) = Ok s' -> list_at s' i = Ok l.
Proof.
  intros H%SetPtr_get. unfold list_at. rewrite H. simpl.
  unfold mret, res_ret. by rewrite Ptr_List_ToPtr.
Qed.

Lemma SetPtr_list_at_other s s' i j p :
  SetPtr s i p = Ok s' -> j <> i -> list_at s' j = list_at s j.
Proof.
  intros (_&_&_&_&H)%SetPtr_frame Hj. unfold list_at. by rewrite H.
Qed.

(** Decoding a marshalled message gives a struct with the same fields. *)
Lemma unmarshal_root s b :
  Marshal s = Ok b -> within_limits b ->
  exists m s', Unmarshal b = Ok m /\ read_root m = Ok s' /\ s' ≡ s.
Proof.
  intros Hm Hw. destruct (Marshal_Unmarshal _ _ Hm Hw) as (m & p & H1 & H2 & H3).
  exists m, (Ptr_Struct p). unfold read_root. rewrite H2. eauto.
Qed.
End laws.
