(* ===== verification/CapnpInstance.v ===== *)
(** A concrete implementation of the [Capnp] interface that satisfies
    [CapnpLaws], used to evaluate the definitions on concrete inputs.  It is
    not the wire format of the library, only an injective encoding of the
    fields. *)

From S2P Require Import Prelude Capnp.

Module ToyCapnp.

Record tstruct := TStruct {
  dsize : Z;
  psize : Z;
  u16s : gmap Z Z;
  u64s : gmap Z Z;
  ptrs : gmap Z (bytes + list bytes);
}.

Definition tptr : Type := option ((bytes + list bytes) + tstruct).

(** *** The encoding: every field delimits itself. *)

Definition parser (A : Type) : Type := bytes -> option (A * bytes).

(** [enc] and [dec] fit when [dec] reads back what [enc] wrote, whatever
    follows it. *)
Definition fits {A} (enc : A -> bytes) (dec : parser A) : Prop :=
  forall a rest, dec (enc a ++ rest) = Some (a, rest).

Fixpoint enc_list {A} (enc : A -> bytes) (xs : list A) : bytes :=
  match xs with
  | [] => [x00]
  | x :: xs' => x01 :: enc x ++ enc_list enc xs'
  end.

Fixpoint dec_list_upto {A} (dec : parser A) (fuel : nat) : parser (list A) := fun b =>
  match fuel, b with
  | S fuel', x01 :: b' =>
      match dec b' with
      | Some (x, b'') =>
          match dec_list_upto dec fuel' b'' with
          | Some (xs, rest) => Some (x :: xs, rest)
          | None => None
          end
      | None => None
      end
  | S _, x00 :: b' => Some ([], b')
  | _, _ => None
  end.

Definition dec_list {A} (dec : parser A) : parser (list A) := fun b =>
  dec_list_upto dec (length b) b.

Lemma fits_list {A} (enc : A -> bytes) dec : fits enc dec -> fits (enc_list enc) (dec_list dec).
Proof.
  intros Hf xs rest. unfold dec_list.
  assert (forall fuel, (length (enc_list enc xs ++ rest) <= fuel)%nat ->
    dec_list_upto dec fuel (enc_list enc xs ++ rest) = Some (xs, rest)) as G; [|by apply G].
  induction xs as [|x xs IH]; intros [|fuel] Hfuel; simpl in *; try done; try lia.
  rewrite <- app_assoc, Hf, IH; [done|]. rewrite <- app_assoc, length_app in Hfuel. lia.
Qed.

Definition enc_byte (x : byte) : bytes := [x].
Definition dec_byte : parser byte := fun b => match b with x :: b' => Some (x, b') | [] => None end.

Lemma fits_byte : fits enc_byte dec_byte.
Proof. done. Qed.

Definition enc_pair {A B} (f : A -> bytes) (g : B -> bytes) (p : A * B) : bytes := f p.1 ++ g p.2.
Definition dec_pair {A B} (f : parser A) (g : parser B) : parser (A * B) := fun b =>
  match f b with
  | Some (x, b') => match g b' with Some (y, rest) => Some ((x, y), rest) | None => None end
  | None => None
  end.

Lemma fits_pair {A B} (f : A -> bytes) (g : B -> bytes) df dg :
  fits f df -> fits g dg -> fits (enc_pair f g) (dec_pair df dg).
Proof.
  intros Hf Hg [x y] rest. unfold enc_pair, dec_pair. simpl. by rewrite <- app_assoc, Hf, Hg.
Qed.

Definition enc_sum {A B} (f : A -> bytes) (g : B -> bytes) (s : A + B) : bytes :=
  match s with inl x => x00 :: f x | inr y => x01 :: g y end.
Definition dec_sum {A B} (f : parser A) (g : parser B) : parser (A + B) := fun b =>
  match b with
  | x00 :: b' => match f b' with Some (x, rest) => Some (inl x, rest) | None => None end
  | _ :: b' => match g b' with Some (y, rest) => Some (inr y, rest) | None => None end
  | [] => None
  end.

Lemma fits_sum {A B} (f : A -> bytes) (g : B -> bytes) df dg :
  fits f df -> fits g dg -> fits (enc_sum f g) (dec_sum df dg).
Proof. intros Hf Hg [x|y] rest; simpl; by rewrite ?Hf, ?Hg. Qed.

Definition via {A B} (f : A -> B) (enc : B -> bytes) (a : A) : bytes := enc (f a).
Definition dec_via {A B} (g : B -> A) (dec : parser B) : parser A := fun b =>
  match dec b with Some (x, rest) => Some (g x, rest) | None => None end.

Lemma fits_via {A B} (f : A -> B) (g : B -> A) enc dec :
  (forall a, g (f a) = a) -> fits enc dec -> fits (via f enc) (dec_via g dec).
Proof. intros Hgf Hf a rest. unfold via, dec_via. by rewrite Hf, Hgf. Qed.

(** Integers as the bits of their code. *)
Fixpoint bits_of_pos (p : positive) : bytes :=
  match p with
  | xH => []
  | xO p' => x00 :: bits_of_pos p'
  | xI p' => x01 :: bits_of_pos p'
  end.

Fixpoint pos_of_bits (b : bytes) : positive :=
  match b with
  | [] => xH
  | x00 :: b' => xO (pos_of_bits b')
  | _ :: b' => xI (pos_of_bits b')
  end.

Lemma pos_of_bits_of_pos p : pos_of_bits (bits_of_pos p) = p.
Proof. induction p; simpl; congruence. Qed.

Definition enc_bytes : bytes -> bytes := enc_list enc_byte.
Definition dec_bytes : parser bytes := dec_list dec_byte.
Definition enc_Z : Z -> bytes := via (fun z => bits_of_pos (encode z)) enc_bytes.
Definition dec_Z : parser Z := dec_via (fun b => default 0 (decode (pos_of_bits b))) dec_bytes.

Definition enc_map {A} (enc : A -> bytes) : gmap Z A -> bytes :=
  via map_to_list (enc_list (enc_pair enc_Z enc)).
Definition dec_map {A} (dec : parser A) : parser (gmap Z A) :=
  dec_via list_to_map (dec_list (dec_pair dec_Z dec)).

Lemma fits_Z : fits enc_Z dec_Z.
Proof.
  apply fits_via; [|apply fits_list, fits_byte].
  intros z. by rewrite pos_of_bits_of_pos, decode_encode.
Qed.

Lemma fits_map {A} (enc : A -> bytes) dec : fits enc dec -> fits (enc_map enc) (dec_map dec).
Proof.
  intros H. apply fits_via; [|by apply fits_list, fits_pair; [apply fits_Z|]].
  intros m. apply list_to_map_to_list.
Qed.

Definition fields (s : tstruct) := (dsize s, psize s, u16s s, u64s s, ptrs s).
Definition of_fields f := let '(d, p, a, c, q) := f in TStruct d p a c q.

Definition enc_struct : tstruct -> bytes :=
  via fields (enc_pair (enc_pair (enc_pair (enc_pair enc_Z enc_Z) (enc_map enc_Z)) (enc_map enc_Z))
                (enc_map (enc_sum enc_bytes (enc_list enc_bytes)))).
Definition dec_struct : parser tstruct :=
  dec_via of_fields (dec_pair (dec_pair (dec_pair (dec_pair dec_Z dec_Z) (dec_map dec_Z)) (dec_map dec_Z))
                (dec_map (dec_sum dec_bytes (dec_list dec_bytes)))).

Lemma fits_struct : fits enc_struct dec_struct.
Proof.
  assert (fits enc_bytes dec_bytes) as Hb by apply fits_list, fits_byte.
  apply fits_via; [by intros []|].
  repeat apply fits_pair; try apply fits_Z; apply fits_map; [apply fits_Z..|].
  apply fits_sum; [done|]. by apply fits_list.
Qed.

Definition unmarshal (b : bytes) : res tstruct :=
  match dec_struct b with
  | Some (s, []) => Ok s
  | _ => Err (ErrNew "capnp: decode")
  end.

Definition ptr_of (o : option (bytes + list bytes)) : tptr := inl <$> o.

Definition set_ptr (s : tstruct) (i : Z) (q : option (bytes + list bytes)) : tstruct :=
  TStruct (dsize s) (psize s) (u16s s) (u64s s) (partial_alter (fun _ => q) i (ptrs s)).

#[global] Instance toy : Capnp := {|
  Segment := unit;
  Message := tstruct;
  Struct := tstruct;
  Ptr := tptr;
  DataList := list bytes;
  NewMessage := Ok tt;
  NewRootStruct _ d p := Ok (TStruct d p ∅ ∅ ∅);
  DataSize := dsize;
  PointerCount := psize;
  Uint16 s off := default 0 (u16s s !! off);
  SetUint16 s off v := TStruct (dsize s) (psize s) (<[off:=v]> (u16s s)) (u64s s) (ptrs s);
  Uint64 s off := default 0 (u64s s !! off);
  SetUint64 s off v := TStruct (dsize s) (psize s) (u16s s) (<[off:=v]> (u64s s)) (ptrs s);
  Struct_Ptr s i := Ok (ptr_of (ptrs s !! i));
  SetPtr s i p :=
    match p with
    | None => Ok (set_ptr s i None)
    | Some (inl q) => Ok (set_ptr s i (Some q))
    | Some (inr _) => Err (ErrNew "capnp: struct pointer")
    end;
  SetData s i v := Ok (set_ptr s i (inl <$> v));
  Ptr_Data p := match p with Some (inl (inl b)) => Some b | _ => None end;
  Ptr_List p := match p with Some (inl (inr l)) => l | _ => [] end;
  Ptr_Struct p := match p with Some (inr s) => s | _ => TStruct 0 0 ∅ ∅ ∅ end;
  NewDataList _ n := Ok (replicate (Z.to_nat n) []);
  DataList_ToPtr l := Some (inl (inr l));
  DataList_Len l := Z.of_nat (length l);
  DataList_At l i :=
    if bool_decide (i < 0) then Panic "index out of range"
    else match l !! Z.to_nat i with Some b => Ok (Some b) | None => Panic "index out of range" end;
  DataList_Set l i v :=
    if bool_decide (0 <= i < Z.of_nat (length l))
    then Ok (<[Z.to_nat i := sl v]> l) else Panic "index out of range";
  Marshal s := Ok (enc_struct s);
  Unmarshal := unmarshal;
  Root m := Ok (Some (inr m));
  within_limits _ := True;
|}.

#[global] Instance toy_laws : CapnpLaws (CP:=toy).
Proof.
  split; simpl.
  - intros ???? [= <-]. done.
  - done.
  - intros. by rewrite lookup_insert_eq.
  - done.
  - done.
  - intros. by rewrite lookup_insert_eq.
  - done.
  - intros s s' i [[[b|l]|t]|] [= <-]; simpl; split_and!; try done;
      intros j Hj; by rewrite lookup_partial_alter_ne.
  - intros s s' i [[[b|l]|t]|] [= <-]; simpl; by rewrite lookup_partial_alter_eq.
  - intros s s' i v [= <-]; simpl. split_and!; try done.
    intros j Hj. by rewrite lookup_partial_alter_ne.
  - intros s s' i v [= <-]; simpl. rewrite lookup_partial_alter_eq.
    destruct v as [b|]; simpl; eauto.
  - intros _ n l Hn [= <-]. rewrite length_replicate. lia.
  - intros l l' i v H. case_bool_decide; simplify_eq/=. by rewrite length_insert.
  - intros l l' i v H. case_bool_decide; simplify_eq/=.
    rewrite bool_decide_eq_false_2 by lia.
    rewrite list_lookup_insert_eq by lia. eauto.
  - intros l l' i j v H Hj. case_bool_decide; simplify_eq/=. case_bool_decide; [done|].
    rewrite list_lookup_insert_ne by lia. done.
  - done.
  - intros s b [= <-] _. eexists s, _. split; [|done].
    unfold unmarshal. pose proof (fits_struct s []) as E. rewrite app_nil_r in E. by rewrite E.
Qed.

End ToyCapnp.
