(* ===== verification/Rebro.v ===== *)
(** The reliable-broadcast API: messages and their identifiers
    ([rebro/api_message.go]), certificates and the quorum certificate that
    accumulates them ([rebro/api_certificate.go]), certifiers and hashers
    ([rebro/api.go]).  Interfaces are type classes; [QuorumLaws] is what the
    round state machine relies on. *)

From S2P Require Import Prelude Prog Crypto.

(** ** Messages (api_message.go) *)

Class MessageID (I : Type) := {
  Round : I -> Z;
  mid_Signer : I -> slice;
  mid_Hash : I -> slice;
  mid_String : I -> bytes;
  mid_MarshalBinary : I -> res bytes;
  mid_Validate : I -> res unit;
}.

(** [ID] is an interface value: [None] is the nil interface. *)
Record Message (I : Type) := MkMessage { msgID : option I; msgData : slice }.
Arguments MkMessage {I} _ _.
Arguments msgID {I} _.
Arguments msgData {I} _.

Definition Message_Validate {I} `{!MessageID I} (m : Message I) : res unit :=
  if bool_decide (len (msgData m) = 0) || negb (bool_decide (is_Some (msgID m)))
  then Err (ErrNew "empty data or id of the message")
  else id ← nonnil (msgID m); mid_Validate id.

(** ** Certificates (api_certificate.go)

    [Certificate] is the type of pointers to the certificates a quorum owns;
    the state [Q] is the quorum together with the objects reachable from it. *)

Class QuorumCertificate (I Q : Type) := {
  Certificate : Type;
  Cert_Message : Certificate -> Q -> Message I;
  Cert_Signatures : Certificate -> Q -> list Signature;
  Cert_AddSignature : Certificate -> Signature -> St Q bool;
  Add : Message I -> St Q unit;
  Get : I -> Q -> option Certificate;
  Delete : I -> St Q bool;
  List : Q -> list Certificate;
  Finalize : St Q bool;
}.

(** A quorum certificate is a map from printed identifiers: [Add] binds the
    identifier of its message, [Delete] unbinds, signatures and finalization
    leave the bindings alone, and failing calls change no binding. *)
Class QuorumLaws (I Q : Type) `{!MessageID I, !QuorumCertificate I Q} : Prop := {
  Get_String : forall q id id', mid_String id = mid_String id' -> Get id q = Get id' q;
  Add_Ok : forall q q' msg id, Add msg q = (q', Ok tt) -> msgID msg = Some id ->
    is_Some (Get id q') /\
    forall id', mid_String id' <> mid_String id -> Get id' q' = Get id' q;
  Add_Ok_ID : forall q q' msg, Add msg q = (q', Ok tt) -> is_Some (msgID msg);
  Add_fail : forall q q' msg r, Add msg q = (q', r) -> is_Ok r = false ->
    forall id', Get id' q' = Get id' q;
  Delete_Get : forall q q' id r, Delete id q = (q', r) ->
    forall id', mid_String id' <> mid_String id -> Get id' q' = Get id' q;
  Delete_false : forall q q' id, Delete id q = (q', Ok false) -> forall id', Get id' q' = Get id' q;
  Delete_gone : forall q q' id, Delete id q = (q', Ok true) -> Get id q' = None;
  AddSignature_Get : forall q q' c s r, Cert_AddSignature c s q = (q', r) ->
    forall id', Get id' q' = Get id' q;
  Finalize_Get : forall q q' r, Finalize q = (q', r) ->
    forall id', Get id' q' = Get id' q;
}.

(** On the states [QInv] describes every method comes back and leads to such a
    state again. *)
Class QuorumTotal (I Q : Type) `{!QuorumCertificate I Q} (QInv : Q -> Prop) : Prop := {
  Add_total : forall q q' msg r, QInv q -> is_Some (msgID msg) ->
    Add msg q = (q', r) -> QInv q' /\ returns r;
  Delete_total : forall q q' id r, QInv q ->
    Delete id q = (q', r) -> QInv q' /\ exists b, r = Ok b;
  AddSignature_total : forall q q' id c s r, QInv q -> Get id q = Some c ->
    Cert_AddSignature c s q = (q', r) -> QInv q' /\ returns r;
  Finalize_total : forall q q' r, QInv q ->
    Finalize q = (q', r) -> QInv q' /\ returns r;
}.

(** ** The interfaces of api.go

    A method that takes a context talks to the world: it is a program whose
    requests [E] name what it asks for. *)

Class HasherI (I H : Type) := Hash : H -> Message I -> res bytes.

Class CertifierI (I C : Type) (E : Type -> Type) := certifier_Certify : C -> Message I -> G E unit.

(** [Broadcast] takes ownership of the quorum. *)
Class BroadcasterI (I Q B : Type) (E : Type -> Type) :=
  broadcaster_Broadcast : B -> Message I -> Q -> G E unit.

(** [type NetworkID string]. *)
Definition NetworkID : Type := bytes.
Definition NetworkID_String (nid : NetworkID) : bytes := nid.

(** The broadcaster is returned beside the error. *)
Class OrchestratorI (O Sg Cf Hs Dc B : Type) (E : Type -> Type) :=
  orchestrator_NewBroadcaster :
    O -> NetworkID -> Sg -> Cf -> Hs -> Dc -> prog E (B * res unit).
