(* ===== verification/Bapl.v ===== *)
(** Batches ([bapl/api.go]). *)

From S2P Require Import Prelude Prog Sha256 Crypto.

Record Batch := MkBatch { Data : slice; BatchSignature : Signature }.

#[export] Instance Batch_eq_dec : EqDecision Batch.
Proof. solve_decision. Defined.

Definition Batch_Hash (b : Batch) : slice := Some (sha256 (sl (Data b))).

Lemma Batch_Hash_len b : len (Batch_Hash b) = sha256_Size.
Proof. reflexivity. Qed.

(** The interfaces of pools and verifiers; their methods take a context and
    are programs. *)
Class BatchPoolI (P : Type) (E : Type -> Type) := {
  pool_Push : P -> Batch -> G E unit;
  pool_Pull : P -> slice -> G E Batch;
  pool_ListBySigner : P -> slice -> G E (list Batch);
  pool_Delete : P -> slice -> G E unit;
  pool_Size : P -> G E Z;
}.

Class BatchVerifierI (V : Type) (E : Type -> Type) := verifier_Verify : V -> Batch -> G E bool.
