(* ===== verification/Multicast.v ===== *)
(** The batch pool that signs, stores and multicasts its node's batches and
    stores the verified batches of others ([bapl/multicast.go]), as programs
    over the requests it makes to the local pool, the host's streams and the
    batch verifier. *)

From S2P Require Import Prelude Prog Sha256 Crypto CryptoInstance Capnp CapnpInstance Rebro Bapl.

(** What the pool asks of other components.  A stream is named by its peer; the
    incoming stream [rcvBatch] handles has none. *)
Inductive mcastE (R : Type) : Type -> Type :=
| PoolPush (batch : Batch) : mcastE R (res unit)
| PoolPull (hash : slice) : mcastE R (res Batch)
| PoolListBySigner (signer : slice) : mcastE R (res (list Batch))
| PoolDelete (hash : slice) : mcastE R (res unit)
| PoolSize : mcastE R (res Z)
| FetchIncluders : mcastE R (res (list R))
| NewStream (to : R) : mcastE R (res unit)
| SetDeadline (to : R) : mcastE R (res unit)
| Write (to : R) (b : bytes) : mcastE R (res unit)
| CloseWrite (to : R) : mcastE R (res unit)
| ReadAck (to : R) : mcastE R (res unit)
| CloseStream (to : R) : mcastE R (res unit)
| ReadAll : mcastE R (res bytes)
| CloseIncoming : mcastE R (res unit)
| VerifyBatch (batch : Batch) : mcastE R (res bool).
Arguments PoolPush {R} _.
Arguments PoolPull {R} _.
Arguments PoolListBySigner {R} _.
Arguments PoolDelete {R} _.
Arguments PoolSize {R}.
Arguments FetchIncluders {R}.
Arguments NewStream {R} _.
Arguments SetDeadline {R} _.
Arguments Write {R} _ _.
Arguments CloseWrite {R} _.
Arguments ReadAck {R} _.
Arguments CloseStream {R} _.
Arguments ReadAll {R}.
Arguments CloseIncoming {R}.
Arguments VerifyBatch {R} _.

(** [wg.Wait()] over goroutines that log their errors: a panic ends the
    process, a goroutine that stays blocked blocks the wait. *)
Fixpoint waited (rs : list (res unit)) : res unit :=
  match rs with
  | [] => Ok tt
  | r :: rs' =>
      match r, waited rs' with
      | Panic w, _ => Panic w
      | _, Panic w => Panic w
      | Hang w, _ => Hang w
      | _, r' => r'
      end
  end.

Section multicast.
Context {R S : Type} {CP : Capnp} {SI : SignerI S}.
Context (signer : S).

Abbreviation E := (mcastE R).

(** The wire form of a batch ([sendBatch] up to [Marshal]). *)
Definition encode_batch (batch : Batch) : res bytes :=
  msgSegment ← NewMessage;
  msg ← batchmsg.NewRootBatch msgSegment;
  msg ← batchmsg.SetData_ msg (Data batch);
  msg ← batchmsg.Signature_SetSignature msg (Body (BatchSignature batch));
  msg ← batchmsg.Signature_SetSigner msg (Signer (BatchSignature batch));
  Marshal msg.

(** The exchange on the opened stream. *)
Definition exchange (batch : Batch) (to : R) : G E unit :=
  b ← lit (encode_batch batch);
  written ← attempt (call (Write to b));
  match written with
  | inr err => lit (Err (wrapf "writing Batch to stream" err))
  | inl _ =>
      call (CloseWrite to) ;;
      acked ← attempt (call (ReadAck to));
      match acked with
      | inl _ => mret tt
      | inr err =>
          if errors_Is err SEOF then mret tt
          else lit (Err (wrapf "awaiting acknowledgement" err))
      end
  end.

(** [deadline]: whether the context has one; failing to set it is logged. *)
Definition sendBatch (deadline : bool) (batch : Batch) (to : R) : G E unit :=
  opened ← attempt (call (NewStream to));
  match opened with
  | inr err => lit (Err (wrapf "failed to open stream" err))
  | inl _ =>
      deferring (call (CloseStream to)) (
        (if deadline then attempt (call (SetDeadline to)) ;; mret tt else mret tt) ;;
        exchange batch to)
  end.

Definition multicastBatch (schedule : list nat) (deadline : bool) (batch : Batch) : G E unit :=
  recipients ← call FetchIncluders;
  if bool_decide (length recipients = 0%nat) then mret tt
  else pbind (par schedule (map (sendBatch deadline batch) recipients))
             (fun rs => Ret (waited rs)).

(** The batch after the first statement of [Push], which signs it in place
    unless it carries a signature. *)
Definition signed (batch : Batch) : res Batch :=
  match Body (BatchSignature batch) with
  | None => sig ← Sign signer (sl (Data batch)); mret (MkBatch (Data batch) sig)
  | Some _ => mret batch
  end.

Definition Push (schedule : list nat) (deadline : bool) (batch : Batch) : G E unit :=
  batch ← lit (signed batch);
  call (PoolPush batch) ;;
  multicastBatch schedule deadline batch.

Definition Pull (hash : slice) : G E Batch := call (PoolPull hash).
Definition ListBySigner (b : slice) : G E (list Batch) := call (PoolListBySigner b).
Definition Delete (hash : slice) : G E unit := call (PoolDelete hash).
Definition Size : G E Z := call PoolSize.

Definition rcvBatch : G E unit :=
  read ← attempt (call ReadAll);
  match read with
  | inr err => lit (Err (wrapf "reading Batch" err))
  | inl batchData =>
      msgMsg ← lit (Unmarshal batchData);
      msg ← lit (batchmsg.ReadRootBatch msgMsg);
      closed ← attempt (call CloseIncoming);
      match closed with
      | inr err => lit (Err (wrapf "closing Stream" err))
      | inl _ =>
          data ← lit (batchmsg.Data msg);
          body ← lit (batchmsg.Signature_Signature msg);
          key ← lit (batchmsg.Signature_Signer msg);
          let batch := MkBatch data (MkSignature body key) in
          lit (Verify signer (sl (Data batch)) (BatchSignature batch)) ;;
          verified ← attempt (call (VerifyBatch batch));
          match verified with
          | inr err => lit (Err (wrapf "verifying Batch" err))
          | inl ok =>
              if negb ok then lit (Err (ErrNew "batch verification failed"))
              else
                pushed ← attempt (call (PoolPush batch));
                match pushed with
                | inr err => lit (Err (wrapf "pushing Batch" err))
                | inl _ => mret tt
                end
          end
      end
  end.

(** The function given to the host: the error of [rcvBatch] is logged. *)
Definition stream_handler : G E unit := attempt rcvBatch ;; mret tt.

(** ** Observations *)

Definition pushed_of (o : occ E) : option (Batch * res unit) :=
  let '@Occ _ X e x := o in
  match e in mcastE _ X return X -> option (Batch * res unit) with
  | PoolPush b => fun x => Some (b, x)
  | _ => fun _ => None
  end x.

Definition write_of (o : occ E) : option (R * bytes) :=
  let '@Occ _ X e x := o in
  match e in mcastE _ X return X -> option (R * bytes) with
  | Write to b => fun _ => Some (to, b)
  | _ => fun _ => None
  end x.

(** What was read from the incoming stream. *)
Definition read_of (o : occ E) : option (res bytes) :=
  let '@Occ _ X e x := o in
  match e in mcastE _ X return X -> option (res bytes) with
  | ReadAll => fun x => Some x
  | _ => fun _ => None
  end x.

(** ** Runs *)

(** What a request writes to a stream, other than the encoding of the batch
    to [to], is nothing; and nothing is put into the pool. *)
Definition sends (batch : Batch) (to : R) (o : occ E) : Prop :=
  pushed_of o = None /\
  forall to' b, write_of o = Some (to', b) -> to' = to /\ encode_batch batch = Ok b.

Lemma sends_silent batch to o : pushed_of o = None -> write_of o = None -> sends batch to o.
Proof. intros H1 H2. split; [done|]. by rewrite H2. Qed.

Lemma runs_exchange batch to tr r :
  runs (exchange batch to) tr r -> Forall (sends batch to) tr.
Proof.
  unfold exchange. intros H. run_step H.
  destruct (encode_batch batch) as [b|e|w|w] eqn:Eb; cbn [after_res] in H;
    try (run_step H; subst; by constructor).
  run_step H. subst. constructor.
  { split; [done|]. by intros to' b' [= -> ->]. }
  run_step H; try (run_step H; subst; by constructor).
  run_step H. subst. constructor; [by apply sends_silent|].
  run_step H; try (run_step H; subst; by constructor).
  run_step H. subst. constructor; [by apply sends_silent|].
  run_step H; try case_match; run_step H; subst; by constructor.
Qed.

(** The stream to [to] carries nothing but the encoding of the batch. *)
Lemma runs_sendBatch deadline batch to tr r :
  runs (sendBatch deadline batch to) tr r -> forall o, o ∈ tr -> sends batch to o.
Proof.
  unfold sendBatch. intros H. apply Forall_forall. run_step H. subst tr.
  constructor; [by apply sends_silent|].
  run_step H; try (run_step H; subst; by constructor).
  apply runs_deferring in H as (tr1 & tr2 & r1 & -> & H & H2). apply Forall_app_2.
  2:{ destruct H2 as [->|(y & ->%runs_call)]; [done|]. constructor; [by apply sends_silent|done]. }
  destruct deadline.
  - apply runs_gbind in H as [(t1 & t2 & u & -> & H1 & H)|(r' & H1 & Hr' & Hr)];
      run_step H1; subst; (constructor; [by apply sends_silent|]);
      (match type of H1 with runs _ ?t _ => assert (t = []) as -> by (run_step H1; by run_step H1) end);
      [by eapply runs_exchange|by constructor].
  - apply runs_gbind in H as [(t1 & t2 & u & -> & H1 & H)|(r' & H1 & Hr' & Hr)];
      run_step H1; subst; [by eapply runs_exchange|done].
Qed.

Lemma Forall3_map {X Y Z W} (P : Y -> Z -> W -> Prop) (f : X -> Y) xs zs ws :
  Forall3 P (map f xs) zs ws -> Forall2 (fun x z => exists w, P (f x) z w) xs zs.
Proof.
  revert zs ws. induction xs as [|x xs IH]; intros zs ws H; inversion H; simplify_eq;
    constructor; eauto.
Qed.

Lemma waited_no_error rs e : waited rs <> Err e.
Proof.
  revert e. induction rs as [|r rs IH]; intros e; simpl; [done|].
  destruct r, (waited rs) eqn:E; try done; by specialize (IH e0).
Qed.

Lemma runs_multicastBatch schedule deadline batch tr r :
  runs (multicastBatch schedule deadline batch) tr r ->
  (exists x, is_Ok x = false /\ is_Ok r = false /\ tr = [Occ FetchIncluders x]) \/
  exists recipients trs tr', tr = Occ FetchIncluders (Ok recipients) :: tr' /\
    Forall2 (fun to t => exists x, runs (sendBatch deadline batch to) t x) recipients trs /\
    interleaving trs tr' /\ forall e, r <> Err e.
Proof.
  unfold multicastBatch. intros H. run_step H. subst.
  run_step H; try (run_step H; subst; left; eexists; by split; [|split; [|reflexivity]]).
  right. rename a into recipients. exists recipients. case_bool_decide as Hl.
  - run_step H. subst. apply nil_length_inv in Hl as ->.
    exists [], []. split_and!; [done|constructor|by constructor|done].
  - apply runs_pbind in H as (tr1 & tr2 & rs & -> & H & -> & ->). rewrite app_nil_r.
    apply runs_par in H as (trs & H & Hi). exists trs, tr1. split_and!; [done| |done|].
    + exact (Forall3_map runs (sendBatch deadline batch) recipients trs rs H).
    + apply waited_no_error.
Qed.

(** What a multicast writes, and that it puts nothing into the pool. *)
Lemma multicastBatch_sends schedule deadline batch tr r :
  runs (multicastBatch schedule deadline batch) tr r ->
  omap pushed_of tr = [] /\
  forall to data, (to, data) ∈ omap write_of tr -> encode_batch batch = Ok data /\
    exists recipients, Occ FetchIncluders (Ok recipients) ∈ tr /\ to ∈ recipients.
Proof.
  intros [(y & _ & _ & ->)|(rec & trs & tr' & -> & Hs & Hi & _)]%runs_multicastBatch.
  { split; [done|]. by intros to data ?%elem_of_nil. }
  assert (Forall (fun o => exists to, to ∈ rec /\ sends batch to o) tr') as Htr.
  { apply Forall_forall. intros o Ho. destruct (interleaving_In _ _ _ Hi Ho) as (i & t & Ht & Hot).
    destruct (Forall2_lookup_r _ _ _ _ _ Hs Ht) as (to & Hto & y & Hx). exists to.
    split; [by eapply list_elem_of_lookup_2|by eapply runs_sendBatch]. }
  split.
  - simpl. clear -Htr. induction Htr as [|o tr' (to & _ & Ho & _) _ IH]; [done|]. simpl. by rewrite Ho.
  - intros to data (o & Ho & Hw)%list_elem_of_omap. apply elem_of_cons in Ho as [->|Ho]; [done|].
    rewrite Forall_forall in Htr. destruct (Htr o Ho) as (to' & Hto & _ & Hsend).
    destruct (Hsend _ _ Hw) as [-> ?]. split; [done|]. exists rec. split; [left|done].
Qed.

(** A batch that can be signed is put into the pool once. *)
Lemma Push_pushes schedule deadline batch b tr r :
  runs (Push schedule deadline batch) tr r -> signed batch = Ok b ->
  exists x, omap pushed_of tr = [(b, x)].
Proof.
  unfold Push. intros H Hs. run_step H. rewrite Hs in H. cbn [after_res] in H. run_step H. subst.
  eexists. cbn [omap list_omap pushed_of]. f_equal.
  run_step H; try (run_step H; by subst). by eapply multicastBatch_sends.
Qed.

(** ** Properties *)

(** [Push] first signs a batch that carries no signature, then stores it,
    and sends it only once it is stored: concurrently to every includer, one
    [sendBatch] each, whose failures are not failures of [Push]. *)
Theorem Push_stores_then_multicasts schedule deadline batch tr r :
  runs (Push schedule deadline batch) tr r ->
  (tr = [] /\ is_Ok r = false /\ is_Ok (signed batch) = false) \/
  exists b x tr', signed batch = Ok b /\ Data b = Data batch /\
    tr = Occ (PoolPush b) x :: tr' /\
    ((is_Ok x = false /\ is_Ok r = false /\ tr' = []) \/
     (exists y, is_Ok y = false /\ is_Ok r = false /\ tr' = [Occ FetchIncluders y]) \/
     exists recipients trs tr'', tr' = Occ FetchIncluders (Ok recipients) :: tr'' /\
       Forall2 (fun to t => exists x, runs (sendBatch deadline b to) t x) recipients trs /\
       interleaving trs tr'' /\ forall e, r <> Err e).
Proof.
  unfold Push. intros H. run_step H.
  destruct (signed batch) as [b|e|w|w] eqn:Es; cbn [after_res] in H;
    try (run_step H; subst; by left).
  right. run_step H. subst. exists b. eexists _, _. split_and!; [done| |done|].
  { unfold signed in Es. destruct (Body (BatchSignature batch)); [by injection Es as <-|].
    apply res_bind_Ok in Es as (sig & _ & [= <-]). done. }
  run_step H; try (run_step H; subst; by left).
  right. destruct (runs_multicastBatch _ _ _ _ _ H) as [(y & ?)|Hm]; [left; eauto|by right].
Qed.

(** Only the encoding of the stored batch is written, only to includers,
    and nothing but that batch is put into the pool. *)
Theorem Push_writes_stored_batch schedule deadline batch tr r to data :
  runs (Push schedule deadline batch) tr r -> (to, data) ∈ omap write_of tr ->
  exists b recipients, omap pushed_of tr = [(b, Ok tt)] /\ encode_batch b = Ok data /\
    Occ FetchIncluders (Ok recipients) ∈ tr /\ to ∈ recipients.
Proof.
  unfold Push. intros H Hin. run_step H.
  destruct (signed batch) as [b|e|w|w] eqn:Es; cbn [after_res] in H;
    try (run_step H; subst; by apply elem_of_nil in Hin).
  run_step H. subst. run_step H; try (run_step H; subst; by apply elem_of_nil in Hin).
  destruct a. destruct (multicastBatch_sends _ _ _ _ _ H) as [Hp Hw].
  destruct (Hw to data Hin) as (Hb & rec & Hrec & Hto).
  exists b, rec. cbn [omap list_omap pushed_of].
  split_and!; [by f_equal|done|by right|done].
Qed.

(** C34: A batch from the network reaches the pool only when the stream was
    read and closed, the bytes decode to it, its signature verifies and the
    batch verifier accepted it. *)
Theorem rcvBatch_pushes_verified tr r b x :
  runs rcvBatch tr r -> (b, x) ∈ omap pushed_of tr ->
  exists data m msg,
    tr = [Occ ReadAll (Ok data); Occ CloseIncoming (Ok tt); Occ (VerifyBatch b) (Ok true);
          Occ (PoolPush b) x] /\
    Unmarshal data = Ok m /\ batchmsg.ReadRootBatch m = Ok msg /\
    batchmsg.Data msg = Ok (Data b) /\
    batchmsg.Signature_Signature msg = Ok (Body (BatchSignature b)) /\
    batchmsg.Signature_Signer msg = Ok (Signer (BatchSignature b)) /\
    Verify signer (sl (Data b)) (BatchSignature b) = Ok tt /\ is_Ok r = is_Ok x.
Proof.
  unfold rcvBatch. intros H Hin.
  run_step H. subst tr. run_step H; try (run_step H; subst; by apply elem_of_nil in Hin).
  run_step H. run_step H; try (run_step H; subst; by apply elem_of_nil in Hin).
  run_step H. run_step H; try (run_step H; subst; by apply elem_of_nil in Hin).
  run_step H. subst. run_step H; try (run_step H; subst; by apply elem_of_nil in Hin).
  do 4 (run_step H; run_step H; try (run_step H; subst; by apply elem_of_nil in Hin)).
  run_step H. subst. run_step H; try (run_step H; subst; by apply elem_of_nil in Hin).
  destruct a7; cbn [negb] in H; [|run_step H; subst; by apply elem_of_nil in Hin].
  run_step H. subst. destruct a2, a6.
  match type of H with runs (after_attempt ?y _) ?t _ =>
    assert (t = [] /\ is_Ok r = is_Ok y) as [-> Hr] by (run_step H; run_step H; subst; done)
  end.
  apply list_elem_of_singleton in Hin as [= -> ->].
  eexists _, _, _. by split_and!.
Qed.
End multicast.

(** ** The pool as an object *)

Definition defaultProtocolID : bytes := String.list_byte_of_string "/multicastpool/v0.0.1".

(** The wrapped pool, the host, the function that fetches the includers and
    the verifier are what the requests go to. *)
Record MulticastPool (P H F V S : Type) := MkMulticastPool {
  pool : P;
  host : H;
  includers : F;
  verifier : V;
  mc_signer : S;
  protocolID : bytes;
}.
Arguments MkMulticastPool {P H F V S} _ _ _ _ _ _.
Arguments mc_signer {P H F V S} _.
Arguments protocolID {P H F V S} _.

Definition NewMulticastPool {P H F V S} (pool : P) (host : H) (includers : F) (signer : S)
    (verifier : V) : MulticastPool P H F V S :=
  MkMulticastPool pool host includers verifier signer defaultProtocolID.

Section object.
Context {P H F V R S : Type} {CP : Capnp} {SI : SignerI S}.
Abbreviation Pool := (MulticastPool P H F V S).
Abbreviation E := (mcastE R).

(** The host's stream handlers, by protocol. *)
Definition Start (p : Pool) (handlers : gmap bytes (G E unit)) : gmap bytes (G E unit) :=
  <[protocolID p := stream_handler (mc_signer p)]> handlers.

Definition Stop (p : Pool) (handlers : gmap bytes (G E unit)) : gmap bytes (G E unit) :=
  delete (protocolID p) handlers.

(** The multicast pool is a batch pool, for every interleaving of its senders
    and every kind of context. *)
#[export] Instance MulticastPool_BatchPoolI (schedule : list nat) (deadline : bool)
    : BatchPoolI Pool E := {|
  pool_Push p := Push (mc_signer p) schedule deadline;
  pool_Pull _ := Pull;
  pool_ListBySigner _ := ListBySigner;
  pool_Delete _ := Delete;
  pool_Size _ := Size;
|}.

(** Between [Start] and [Stop] a stream of the pool's protocol is handled by
    [rcvBatch], whose error stays in the handler; after [Stop] there is no
    handler, and other protocols keep theirs. *)
Theorem streams_are_received_while_started pl hs fs (s : S) vf handlers proto :
  let p : Pool := NewMulticastPool pl hs fs s vf in
  Start p handlers !! proto =
    (if decide (proto = defaultProtocolID) then Some (stream_handler s) else handlers !! proto) /\
  Stop p (Start p handlers) !! proto =
    (if decide (proto = defaultProtocolID) then None else handlers !! proto) /\
  forall tr r, runs (stream_handler (R:=R) s) tr r -> exists x, runs (rcvBatch (R:=R) s) tr x /\
    r = match x with Panic w => Panic w | Hang w => Hang w | _ => Ok tt end.
Proof.
  split; [|split].
  - unfold Start; cbn. case_decide as Hd; [subst; apply lookup_insert_eq|by apply lookup_insert_ne].
  - unfold Stop, Start; cbn. case_decide as Hd; [subst; apply lookup_delete_eq|].
    by rewrite lookup_delete_ne, lookup_insert_ne.
  - intros tr r (tr1 & tr2 & x & -> & H1 & H2)%runs_attempt_bind. exists x.
    assert (tr2 = [] /\ r = match x with Panic w => Panic w | Hang w => Hang w | _ => Ok tt end)
      as [-> ->] by (destruct x; run_step H2; run_step H2; by subst).
    by rewrite app_nil_r.
Qed.
End object.

(** ** From one node to another *)

Section wire.
Context {CP : Capnp} {CL : CapnpLaws}.

(** Batches with the same contents. *)
Definition same_batch (b b' : Batch) : Prop :=
  sl (Data b') = sl (Data b) /\
  sl (Body (BatchSignature b')) = sl (Body (BatchSignature b)) /\
  sl (Signer (BatchSignature b')) = sl (Signer (BatchSignature b)).

Lemma same_batch_Hash b b' : same_batch b b' -> Batch_Hash b' = Batch_Hash b.
Proof. intros [H _]. unfold Batch_Hash. by rewrite H. Qed.

(** What the receiver decodes from the bytes of a batch. *)
Lemma encode_batch_read batch data :
  encode_batch batch = Ok data -> within_limits data ->
  exists m msg batch', Unmarshal data = Ok m /\ batchmsg.ReadRootBatch m = Ok msg /\
    batchmsg.Data msg = Ok (Data batch') /\
    batchmsg.Signature_Signature msg = Ok (Body (BatchSignature batch')) /\
    batchmsg.Signature_Signer msg = Ok (Signer (BatchSignature batch')) /\
    same_batch batch batch'.
Proof.
  unfold encode_batch. intros H Hw.
  apply res_bind_Ok in H as (seg & _ & H).
  apply res_bind_Ok in H as (s0 & H0 & H).
  apply res_bind_Ok in H as (s1 & H1 & H).
  apply res_bind_Ok in H as (s2 & H2 & H).
  apply res_bind_Ok in H as (s3 & H3 & Hm).
  destruct (unmarshal_root _ _ Hm Hw) as (m & msg & E1 & E2 & Heq).
  destruct (SetData_data_at _ _ _ _ H1) as (d0 & Hd0 & Sd0).
  destruct (SetData_data_at _ _ _ _ H2) as (b0 & Hb0 & Sb0).
  destruct (SetData_data_at _ _ _ _ H3) as (k0 & Hk0 & Sk0).
  rewrite <- (SetData_data_at_other _ _ _ 0 _ H2), <- (SetData_data_at_other _ _ _ 0 _ H3) in Hd0 by lia.
  rewrite <- (SetData_data_at_other _ _ _ 2 _ H3) in Hb0 by lia.
  destruct (data_at_equiv _ _ _ _ Heq Hd0) as (d & Hd & Sd).
  destruct (data_at_equiv _ _ _ _ Heq Hb0) as (body & Hbody & Sbody).
  destruct (data_at_equiv _ _ _ _ Heq Hk0) as (key & Hkey & Skey).
  exists m, msg, (MkBatch d (MkSignature body key)).
  split_and!; try done. unfold same_batch. simpl. split_and!; congruence.
Qed.

Context {R S : Type} {SI : SignerI S} (s : S).

(** How the receiver goes on after reading those bytes. *)
Lemma runs_rcvBatch_of data m msg batch tr r :
  Unmarshal data = Ok m -> batchmsg.ReadRootBatch m = Ok msg ->
  batchmsg.Data msg = Ok (Data batch) ->
  batchmsg.Signature_Signature msg = Ok (Body (BatchSignature batch)) ->
  batchmsg.Signature_Signer msg = Ok (Signer (BatchSignature batch)) ->
  runs (rcvBatch (R:=R) s) tr r -> head (omap read_of tr) = Some (Ok data) ->
  (exists x, is_Ok x = false /\ is_Ok r = false /\
     tr = [Occ ReadAll (Ok data); Occ CloseIncoming x]) \/
  exists tr', tr = Occ ReadAll (Ok data) :: Occ CloseIncoming (Ok tt) :: tr' /\
    runs (lit (Verify s (sl (Data batch)) (BatchSignature batch)) ;;
          verified ← attempt (call (VerifyBatch batch));
          match verified with
          | inr err => lit (Err (wrapf "verifying Batch" err))
          | inl ok =>
              if negb ok then lit (Err (ErrNew "batch verification failed"))
              else
                pushed ← attempt (call (PoolPush batch));
                match pushed with
                | inr err => lit (Err (wrapf "pushing Batch" err))
                | inl _ => mret tt
                end
          end) tr' r.
Proof.
  intros E1 E2 E3 E4 E5 H Hread. unfold rcvBatch in H. run_step H. subst tr.
  injection Hread as ->. cbn [after_attempt] in H.
  apply (proj1 (runs_lit_bind _ _ _ _)) in H. rewrite E1 in H. cbn [after_res] in H.
  apply (proj1 (runs_lit_bind _ _ _ _)) in H. rewrite E2 in H. cbn [after_res] in H.
  run_step H. subst.
  run_step H; try (run_step H; subst; left; eexists; by split; [|split; [|reflexivity]]).
  right. destruct a. eexists. split; [done|].
  apply (proj1 (runs_lit_bind _ _ _ _)) in H. rewrite E3 in H. cbn [after_res] in H.
  apply (proj1 (runs_lit_bind _ _ _ _)) in H. rewrite E4 in H. cbn [after_res] in H.
  apply (proj1 (runs_lit_bind _ _ _ _)) in H. rewrite E5 in H. cbn [after_res] in H.
  by destruct batch as [? []].
Qed.
End wire.

Section nodes.
Context {CP : Capnp} {CL : CapnpLaws} {ED : Ed25519} {EL : Ed25519Laws} {R : Type}.

(** C33: The batch a node signs and sends reaches the pool of every node that
    reads the bytes it sent, under the same hash and with the same signature,
    if the receiver's batch verifier accepts it: the sender's signature always
    verifies. *)
Theorem sent_batch_is_received seed pubK privK (s s' : ed25519_signer) batch b data tr r :
  length seed = 32%nat -> ed25519.GenKeys (Some seed) = Ok (pubK, privK) ->
  local.NewSigner privK = Ok s -> Body (BatchSignature batch) = None ->
  signed s batch = Ok b -> encode_batch b = Ok data -> within_limits data ->
  runs (rcvBatch (R:=R) s') tr r -> head (omap read_of tr) = Some (Ok data) ->
  (exists x, is_Ok x = false /\ is_Ok r = false /\
     tr = [Occ ReadAll (Ok data); Occ CloseIncoming x]) \/
  exists b' x tr', same_batch b b' /\ Batch_Hash b' = Batch_Hash b /\
    tr = Occ ReadAll (Ok data) :: Occ CloseIncoming (Ok tt) :: Occ (VerifyBatch b') x :: tr' /\
    (x = Ok true -> tr' = [Occ (PoolPush b') r] \/
                    exists y, is_Ok y = false /\ is_Ok r = false /\ tr' = [Occ (PoolPush b') y]) /\
    (x <> Ok true -> tr' = [] /\ is_Ok r = false).
Proof.
  intros Hl Hg Hn Hnil Hs Henc Hw H Hread.
  destruct (encode_batch_read _ _ Henc Hw) as (m & msg & b' & E1 & E2 & E3 & E4 & E5 & Hb).
  destruct (runs_rcvBatch_of _ _ _ _ _ _ _ E1 E2 E3 E4 E5 H Hread) as [?|(tr0 & -> & H')];
    [by left|right].
  unfold signed in Hs. rewrite Hnil in Hs. apply res_bind_Ok in Hs as (sig & Hs & [= <-]).
  destruct Hb as (Hd & Hbody & Hkey). cbn [Data BatchSignature] in Hd, Hbody, Hkey.
  assert (Verify s' (sl (Data b')) (BatchSignature b') = Ok tt) as Hv
    by (rewrite Hd; by eapply sign_verify).
  apply (proj1 (runs_lit_bind _ _ _ _)) in H'. rewrite Hv in H'. cbn [after_res] in H'.
  run_step H'. subst. exists b'. eexists _, _.
  split_and!; [by split_and!|by unfold Batch_Hash; rewrite Hd|done|..].
  - intros ->. cbn [after_attempt negb] in H'. run_step H'. subst.
    run_step H'; run_step H'; subst; [left; by destruct a|right; eexists; by split; [|split; [|reflexivity]]..].
  - intros Hne. run_step H'; try (by run_step H'; subst).
    destruct a; cbn [negb] in H'; [done|]. by run_step H'; subst.
Qed.

(** A peer that sends a batch whose signature has 64 bytes and names a key
    of another length than 32 bytes makes the receiving handler panic: neither
    [rcvBatch] nor the stream handler recovers. *)
Theorem rcvBatch_panics_on_key (s : ed25519_signer) b data tr r :
  length (sl (Body (BatchSignature b))) = 64%nat ->
  length (sl (Signer (BatchSignature b))) <> 32%nat ->
  encode_batch b = Ok data -> within_limits data ->
  runs (rcvBatch (R:=R) s) tr r -> head (omap read_of tr) = Some (Ok data) ->
  (exists x, is_Ok x = false /\ tr = [Occ ReadAll (Ok data); Occ CloseIncoming x]) \/
  exists w, r = Panic w /\ tr = [Occ ReadAll (Ok data); Occ CloseIncoming (Ok tt)].
Proof.
  intros Hbody Hkey Henc Hw H Hread.
  destruct (encode_batch_read _ _ Henc Hw) as (m & msg & b' & E1 & E2 & E3 & E4 & E5 & Hd & Hb & Hk).
  destruct (runs_rcvBatch_of _ _ _ _ _ _ _ E1 E2 E3 E4 E5 H Hread) as [(x & ? & _ & ?)|(tr0 & -> & H')];
    [left; eauto|right].
  destruct (proj2 (Verify_panics s (sl (Data b')) (BatchSignature b') ltac:(congruence)))
    as [w Hv]; [congruence|].
  apply (proj1 (runs_lit_bind _ _ _ _)) in H'. rewrite Hv in H'. cbn [after_res] in H'.
  run_step H'. subst. eauto.
Qed.
End nodes.

(** ** Executions

    Node 1 pushes a batch to peers 1 and 2, of which only the first can be
    reached; node 2 receives it, and a batch with a one-byte key. *)
Module Executions.

Definition node_of (b : byte) : ed25519_signer :=
  local.MkSigner (ToyEd25519.priv_of b) (ToyEd25519.key_of b).

Definition answering (incoming : bytes) : handler (mcastE nat) unit :=
  fun X e s =>
    (s, match e in mcastE _ X return X with
        | PoolPush _ => Ok tt
        | PoolPull _ => Err (Sent SBatchDeleted)
        | PoolListBySigner _ => Ok []
        | PoolDelete _ => Ok tt
        | PoolSize => Ok 0
        | FetchIncluders => Ok [1%nat; 2%nat]
        | NewStream to => if bool_decide (to = 1%nat) then Ok tt else Err (ErrNew "no route")
        | SetDeadline _ => Ok tt
        | Write _ _ => Ok tt
        | CloseWrite _ => Ok tt
        | ReadAck _ => Err (Sent SEOF)
        | CloseStream _ => Ok tt
        | ReadAll => Ok incoming
        | CloseIncoming => Ok tt
        | VerifyBatch _ => Ok true
        end).

Definition fresh : Batch := MkBatch (Some [x0a; x0b]) (MkSignature None None).

Definition stored : Batch :=
  match signed (node_of x01) fresh with Ok b => b | _ => fresh end.

Definition wire (b : Batch) : bytes :=
  match encode_batch (CP:=ToyCapnp.toy) b with Ok data => data | _ => [] end.

Definition pushing :=
  record (answering []) (Push (CP:=ToyCapnp.toy) (R:=nat) (node_of x01) [0; 1; 0]%nat true fresh) tt.

Lemma pushing_runs :
  runs (Push (CP:=ToyCapnp.toy) (R:=nat) (node_of x01) [0; 1; 0]%nat true fresh) pushing.1 pushing.2.
Proof. exact (record_runs (answering []) _ tt). Qed.

Definition receiving (data : bytes) :=
  record (answering data) (rcvBatch (CP:=ToyCapnp.toy) (R:=nat) (node_of x02)) tt.

Lemma receiving_runs data :
  runs (rcvBatch (CP:=ToyCapnp.toy) (R:=nat) (node_of x02)) (receiving data).1 (receiving data).2.
Proof. exact (record_runs (answering data) _ tt). Qed.

Lemma Push_stores_then_multicasts_witness :
  pushing.2 = Ok tt /\
  ((pushing.1 = [] /\ is_Ok pushing.2 = false /\ is_Ok (signed (node_of x01) fresh) = false) \/
   exists b x tr', signed (node_of x01) fresh = Ok b /\ Data b = Data fresh /\
     pushing.1 = Occ (PoolPush b) x :: tr' /\
     ((is_Ok x = false /\ is_Ok pushing.2 = false /\ tr' = []) \/
      (exists y, is_Ok y = false /\ is_Ok pushing.2 = false /\ tr' = [Occ FetchIncluders y]) \/
      exists recipients trs tr'', tr' = Occ FetchIncluders (Ok recipients) :: tr'' /\
        Forall2 (fun to t => exists x, runs (sendBatch (CP:=ToyCapnp.toy) true b to) t x) recipients trs /\
        interleaving trs tr'' /\ forall e, pushing.2 <> Err e)).
Proof.
  split; [vm_compute; reflexivity|].
  exact (Push_stores_then_multicasts (node_of x01) [0; 1; 0]%nat true fresh _ _ pushing_runs).
Defined.

Lemma Push_writes_stored_batch_witness :
  exists b recipients, omap pushed_of pushing.1 = [(b, Ok tt)] /\
    encode_batch (CP:=ToyCapnp.toy) b = Ok (wire stored) /\
    Occ FetchIncluders (Ok recipients) ∈ pushing.1 /\ 1%nat ∈ recipients.
Proof.
  apply (Push_writes_stored_batch (node_of x01) [0; 1; 0]%nat true fresh _ _ 1%nat (wire stored)
    pushing_runs).
  assert (omap write_of pushing.1 = [(1%nat, wire stored)]) as -> by (vm_compute; reflexivity).
  apply list_elem_of_here.
Defined.

Lemma rcvBatch_pushes_verified_witness :
  exists data m msg,
    (receiving (wire stored)).1 =
      [Occ ReadAll (Ok data); Occ CloseIncoming (Ok tt); Occ (VerifyBatch stored) (Ok true);
       Occ (PoolPush stored) (Ok tt)] /\
    Unmarshal data = Ok m /\ batchmsg.ReadRootBatch m = Ok msg /\
    batchmsg.Data msg = Ok (Data stored) /\
    batchmsg.Signature_Signature msg = Ok (Body (BatchSignature stored)) /\
    batchmsg.Signature_Signer msg = Ok (Signer (BatchSignature stored)) /\
    Verify (node_of x02) (sl (Data stored)) (BatchSignature stored) = Ok tt /\
    is_Ok (receiving (wire stored)).2 = is_Ok (Ok tt).
Proof.
  apply (rcvBatch_pushes_verified (node_of x02) _ _ stored (Ok tt) (receiving_runs (wire stored))).
  assert (omap pushed_of (receiving (wire stored)).1 = [(stored, Ok tt)]) as ->
    by (vm_compute; reflexivity).
  apply list_elem_of_here.
Defined.

Lemma sent_batch_is_received_witness :
  let '(tr, r) := receiving (wire stored) in
  (exists x, is_Ok x = false /\ is_Ok r = false /\
     tr = [Occ ReadAll (Ok (wire stored)); Occ CloseIncoming x]) \/
  exists b' x tr', same_batch stored b' /\ Batch_Hash b' = Batch_Hash stored /\
    tr = Occ ReadAll (Ok (wire stored)) :: Occ CloseIncoming (Ok tt) :: Occ (VerifyBatch b') x :: tr' /\
    (x = Ok true -> tr' = [Occ (PoolPush b') r] \/
                    exists y, is_Ok y = false /\ is_Ok r = false /\ tr' = [Occ (PoolPush b') y]) /\
    (x <> Ok true -> tr' = [] /\ is_Ok r = false).
Proof.
  pose proof (receiving_runs (wire stored)) as H.
  assert (head (omap read_of (receiving (wire stored)).1) = Some (Ok (wire stored))) as Hread
    by (vm_compute; reflexivity).
  destruct (receiving (wire stored)) as [tr r].
  apply (sent_batch_is_received (ToyEd25519.seed_of x01) (ToyEd25519.key_of x01)
    (ToyEd25519.priv_of x01) (node_of x01) (node_of x02) fresh stored (wire stored) tr r);
    first [exact H | exact Hread | exact I | vm_compute; reflexivity].
Defined.

(** A signature of the right length under a one-byte key. *)
Definition malformed : Batch :=
  MkBatch (Some [x0a]) (MkSignature (Some (repeat x00 64)) (Some [x01])).

Lemma rcvBatch_panics_on_key_witness :
  let '(tr, r) := receiving (wire malformed) in
  (exists x, is_Ok x = false /\ tr = [Occ ReadAll (Ok (wire malformed)); Occ CloseIncoming x]) \/
  exists w, r = Panic w /\ tr = [Occ ReadAll (Ok (wire malformed)); Occ CloseIncoming (Ok tt)].
Proof.
  pose proof (receiving_runs (wire malformed)) as H.
  assert (head (omap read_of (receiving (wire malformed)).1) = Some (Ok (wire malformed))) as Hread
    by (vm_compute; reflexivity).
  destruct (receiving (wire malformed)) as [tr r].
  apply (rcvBatch_panics_on_key (node_of x02) malformed (wire malformed) tr r);
    first [exact H | exact Hread | exact I | vm_compute; reflexivity | vm_compute; discriminate].
Defined.
End Executions.
