(* ===== verification/Randomizer.v ===== *)
(** The load generator of the demo node ([unison-poc/randomizer.go]): a loop that
    starts a goroutine at every tick, each of which pushes a batch of random
    bytes into the multicast pool. *)

From S2P Require Import Prelude Prog Crypto CryptoInstance Capnp CapnpInstance Bapl Multicast.

(** The loop: its select (true for a tick, false when the context is done), the
    [go] statement and the ticker. *)
Inductive randE : Type -> Type :=
| Select : randE bool
| Spawn : randE unit
| StopTicker : randE (res unit).

(** [time.NewTicker] *)
Definition NewTicker (d : Z) : res unit :=
  if bool_decide (d <= 0) then Panic "non-positive interval for NewTicker" else Ok tt.

(** [n] bounds the iterations: a loop that has not ended by then is [running]. *)
Definition running {A} : res A := Hang "still running".

Fixpoint loop (n : nat) : G randE unit :=
  match n with
  | O => lit running
  | S n' =>
      fired ← ask Select;
      if fired : bool then ask Spawn ;; loop n' else mret tt
  end.

Definition RandomBatches (n : nat) (batchTime : Z) : G randE unit :=
  lit (NewTicker batchTime) ;;
  deferring (call StopTicker) (loop n).

(** ** A goroutine *)

(** The random bytes read, then the requests of the pool. *)
Inductive pushE (R : Type) : Type -> Type :=
| RandRead (n : nat) : pushE R bytes
| Pool X (e : mcastE R X) : pushE R X.
Arguments RandRead {R} _.
Arguments Pool {R} X _.

Definition maxAlloc : Z := 2 ^ 48.

(** [make([]byte, n)] *)
Definition make_bytes (n : Z) : res bytes :=
  if bool_decide (n < 0 \/ maxAlloc < n) then Panic "makeslice: len out of range"
  else Ok (replicate (Z.to_nat n) x00).

(** A buffer into which [b] was read. *)
Definition filled (buf b : bytes) : bytes :=
  take (length buf) b ++ drop (length b) buf.

Section push.
Context {R S : Type} {CP : Capnp} {SI : SignerI S}.
Context (signer : S).

(** The error of [rand.Read] is dropped, that of [Push] logged. *)
Definition pushBatch (schedule : list nat) (deadline : bool) (batchSize : Z) : G (pushE R) unit :=
  batchData ← lit (make_bytes batchSize);
  read ← ask (RandRead (length batchData));
  let batch := MkBatch (Some (filled batchData read)) (MkSignature None None) in
  attempt (translate Pool (Push signer schedule deadline batch)) ;;
  mret tt.

Definition pool_of (o : occ (pushE R)) : option (occ (mcastE R)) :=
  let '@Occ _ X e x := o in
  match e in pushE _ X return X -> option (occ (mcastE R)) with
  | Pool _ e => fun x => Some (Occ e x)
  | RandRead _ => fun _ => None
  end x.

Lemma pool_of_renamed tr : omap pool_of (map (renamed Pool) tr) = tr.
Proof. induction tr as [|[X e x] tr IH]; [done|]. simpl. by f_equal. Qed.

Lemma filled_length buf b : length (filled buf b) = length buf.
Proof. unfold filled. rewrite length_app, length_take, length_drop. lia. Qed.

Lemma make_bytes_ok n : 0 <= n <= maxAlloc -> make_bytes n = Ok (replicate (Z.to_nat n) x00).
Proof. intros H. unfold make_bytes. rewrite bool_decide_eq_false_2; [done|lia]. Qed.

(** What a goroutine does to the pool is a push of [batchSize] bytes. *)
Lemma runs_pushBatch schedule deadline batchSize tr r : 0 <= batchSize <= maxAlloc ->
  runs (pushBatch schedule deadline batchSize) tr r ->
  exists data r', length data = Z.to_nat batchSize /\
    runs (Push signer schedule deadline (MkBatch (Some data) (MkSignature None None)))
      (omap pool_of tr) r'.
Proof.
  intros Hn H. unfold pushBatch in H. rewrite (make_bytes_ok _ Hn) in H. run_step H.
  cbn [after_res] in H. run_step H. subst.
  apply runs_attempt_bind in H as (t1 & t2 & y & -> & (tr' & -> & Hp)%runs_translate & H).
  assert (t2 = []) as -> by (destruct y; run_step H; by run_step H). rewrite app_nil_r.
  eexists _, y. split; [by rewrite filled_length, length_replicate|].
  cbn [omap list_omap pool_of]. by rewrite pool_of_renamed.
Qed.
End push.

(** ** Properties *)

(** The number of ticks a run of the loop took. *)
Definition ticks (n : nat) : list (occ randE) := mjoin (replicate n [Occ Select true; Occ Spawn tt]).

Lemma runs_loop n tr r :
  runs (loop n) tr r <->
  (tr = ticks n /\ r = running) \/
  exists k, (k < n)%nat /\ tr = ticks k ++ [Occ Select false] /\ r = Ok tt.
Proof.
  revert tr. induction n as [|n IH]; intros tr.
  { simpl. split; [by left|]. intros [?|(k & ? & _)]; [done|lia]. }
  cbn [loop]. rewrite runs_ask_bind. split.
  - intros ([|] & tr' & -> & H).
    + apply runs_ask_bind in H as ([] & tr2 & -> & [[-> ->]|(k & Hk & -> & ->)]%IH); [by left|].
      right. exists (S k). split; [lia|done].
    + run_step H. subst. right. exists 0%nat. split; [lia|done].
  - intros [[-> ->]|(k & Hk & -> & ->)].
    + exists true. eexists. split; [done|]. apply runs_ask_bind. exists tt. eexists.
      split; [done|]. apply IH. by left.
    + destruct k as [|k].
      * exists false, []. split; done.
      * exists true. eexists. split; [done|]. apply runs_ask_bind. exists tt. eexists.
        split; [done|]. apply IH. right. exists k. split; [lia|done].
Qed.

(** The loop starts one goroutine per tick and returns at the first select that
    finds the context done, its ticker stopped; with a ticker interval that is
    not positive it panics before the first tick. *)
Theorem RandomBatches_runs n batchTime tr r :
  runs (RandomBatches n batchTime) tr r <->
  (batchTime <= 0 /\ tr = [] /\ exists w, NewTicker batchTime = Panic w /\ r = Panic w) \/
  (0 < batchTime /\ tr = ticks n /\ r = running) \/
  (0 < batchTime /\ exists k x, (k < n)%nat /\
     tr = ticks k ++ [Occ Select false; Occ StopTicker x] /\
     r = match x with Panic w => Panic w | Hang w => Hang w | _ => Ok tt end).
Proof.
  unfold RandomBatches. rewrite runs_lit_bind. unfold NewTicker. case_bool_decide as Ht.
  { split.
    - intros [-> ->]. left. eauto.
    - intros [(_ & -> & w & [= <-] & ->)|[[? _]|[? _]]]; [done|lia..]. }
  cbn [after_res]. unfold deferring. rewrite runs_pbind. split.
  - intros (t1 & t2 & r1 & -> & [[-> ->]|(k & Hk & -> & ->)]%runs_loop & H).
    + destruct H as [-> ->]. rewrite app_nil_r. right. left. split; [lia|done].
    + apply runs_pbind in H as (t3 & t4 & x & -> & ->%runs_call & H). right. right.
      split; [lia|]. exists k, x. rewrite <- app_assoc. split; [done|].
      destruct x; destruct H as [-> ->]; done.
  - intros [[? _]|[(_ & -> & ->)|(_ & k & x & Hk & -> & ->)]]; [lia|..].
    + exists (ticks n), [], running. rewrite app_nil_r. split_and!; [done| |done].
      apply runs_loop. by left.
    + exists (ticks k ++ [Occ Select false]), [Occ StopTicker x], (Ok tt). rewrite <- app_assoc.
      split_and!; [done|apply runs_loop; eauto|]. apply runs_pbind.
      exists [Occ StopTicker x], [], x. split_and!; [done|by apply runs_call|]. by destruct x.
Qed.

Section pushed.
Context {R : Type} {CP : Capnp} {ED : Ed25519} {EL : Ed25519Laws}.

Definition pushed (o : occ (pushE R)) : option (Batch * res unit) := o' ← pool_of o; pushed_of o'.

Lemma omap_pushed (tr : list (occ (pushE R))) : omap pushed tr = omap pushed_of (omap pool_of tr).
Proof.
  induction tr as [|[X e x] tr IH]; [done|]. cbn [omap list_omap]. unfold pushed at 1.
  destruct (pool_of (Occ e x)); simpl; [|exact IH].
  destruct (pushed_of o); [f_equal|]; exact IH.
Qed.

(** The batches of an interleaving are those of the goroutines. *)
Lemma omap_concat {A B} (f : A -> option B) (ls : list (list A)) :
  omap f (concat ls) = concat (map (omap f) ls).
Proof. induction ls as [|l ls IH]; [done|]. simpl. by rewrite omap_app, IH. Qed.

(** The goroutines of [k] ticks push [k] batches, however they interleave and
    whatever the pool, the peers and the source of randomness answer; each has
    exactly [batchSize] bytes and the signature of the node's key, which every
    node verifies. *)
Theorem ticks_push_signed_batches seed pubK privK (s s' : ed25519_signer) schedules deadline batchSize
    choices tr rs :
  length seed = 32%nat -> ed25519.GenKeys (Some seed) = Ok (pubK, privK) ->
  local.NewSigner privK = Ok s -> 0 <= batchSize <= maxAlloc ->
  runs (par choices (map (fun l => pushBatch (R:=R) s l deadline batchSize) schedules)) tr rs ->
  length (omap pushed tr) = length schedules /\
  Forall (fun p => Z.of_nat (length (sl (Data p.1))) = batchSize /\
    sl (Signer (BatchSignature p.1)) = sl (Bytes pubK) /\
    Verify s' (sl (Data p.1)) (BatchSignature p.1) = Ok tt) (omap pushed tr).
Proof.
  intros Hl Hg Hn Hb (trs & Hr & Hi)%runs_par.
  assert (Forall (fun t => exists p, omap pushed t = [p] /\
    Z.of_nat (length (sl (Data p.1))) = batchSize /\
    sl (Signer (BatchSignature p.1)) = sl (Bytes pubK) /\
    Verify s' (sl (Data p.1)) (BatchSignature p.1) = Ok tt) trs) as Ht.
  { apply (Forall3_map runs (fun l => pushBatch s l deadline batchSize)) in Hr.
    apply Forall_forall. intros t (i & Hit)%list_elem_of_lookup.
    destruct (Forall2_lookup_r _ _ _ _ _ Hr Hit) as (l & _ & r & Hrun).
    destruct (runs_pushBatch _ _ _ _ _ _ Hb Hrun) as (data & r' & Hlen & Hp).
    destruct (sign_works seed pubK privK s data Hl Hg Hn) as [sig Hs].
    destruct (Push_pushes s l deadline _ (MkBatch (Some data) sig) _ _ Hp) as [x Hx].
    { unfold signed. cbn [BatchSignature Body Data sl]. change (sl (Some data)) with data. by rewrite Hs. }
    exists (MkBatch (Some data) sig, x). rewrite omap_pushed, Hx. cbn [fst Data BatchSignature sl].
    change (sl (Some data)) with data.
    split_and!; [done|lia|by eapply signed_key|by eapply sign_verify]. }
  pose proof (omap_Permutation pushed _ _ (interleaving_perm _ _ Hi)) as Hperm.
  rewrite omap_concat in Hperm. rewrite Hperm.
  assert (length schedules = length trs) as -> by (apply Forall3_length_lm in Hr; by rewrite length_map in Hr).
  clear -Ht. induction Ht as [|t trs (p & Hp & Hs) Ht [IH1 IH2]]; [done|].
  simpl. rewrite Hp. simpl. split; [by rewrite IH1|by constructor].
Qed.

(** A negative [batch-size], which the flag accepts, ends the process at the
    first tick. *)
Theorem negative_size_panics (s : ed25519_signer) schedule deadline batchSize tr r :
  batchSize < 0 -> runs (pushBatch (R:=R) s schedule deadline batchSize) tr r ->
  tr = [] /\ exists w, r = Panic w.
Proof.
  intros Hb H. unfold pushBatch, make_bytes in H. rewrite bool_decide_eq_true_2 in H by lia.
  run_step H. cbn [after_res] in H. run_step H. subst. eauto.
Qed.
End pushed.

(** ** Executions *)
Module Executions.

(** Two ticks on node 1, whose only peer cannot be reached; the second read of
    random bytes falls short. *)
Definition answering : handler (pushE nat) nat :=
  fun X e s =>
    match e in pushE _ X return nat * X with
    | RandRead n => (Datatypes.S s, repeat x07 (n - s))
    | Pool X e => (s, (Multicast.Executions.answering [] X e tt).2)
    end.

Definition schedules : list (list nat) := [[]; []].
Definition goroutines :=
  map (fun l => pushBatch (CP:=ToyCapnp.toy) (R:=nat) (Multicast.Executions.node_of x01) l false 3)
    schedules.

Definition pushing := record answering (par [0; 1; 1; 0]%nat goroutines) 0%nat.

Lemma goroutines_run : runs (par [0; 1; 1; 0]%nat goroutines) pushing.1 pushing.2.
Proof. exact (record_runs answering _ 0%nat). Qed.

Lemma ticks_push_signed_batches_witness :
  map (fun p => Data p.1) (omap pushed pushing.1) =
    [Some [x07; x07; x00]; Some [x07; x07; x07]] /\
  length (omap pushed pushing.1) = 2%nat /\
  Forall (fun p => Z.of_nat (length (sl (Data p.1))) = 3 /\
    sl (Signer (BatchSignature p.1)) = sl (Bytes (ToyEd25519.key_of x01)) /\
    Verify (Multicast.Executions.node_of x02) (sl (Data p.1)) (BatchSignature p.1) = Ok tt)
    (omap pushed pushing.1).
Proof.
  split; [vm_compute; reflexivity|].
  refine (ticks_push_signed_batches (ToyEd25519.seed_of x01) (ToyEd25519.key_of x01)
    (ToyEd25519.priv_of x01) (Multicast.Executions.node_of x01) (Multicast.Executions.node_of x02)
    schedules false 3 [0; 1; 1; 0]%nat pushing.1 pushing.2 _ _ _ _ goroutines_run);
    first [vm_compute; reflexivity | unfold maxAlloc; lia].
Defined.
End Executions.
