(* ===== verification/Block.v ===== *)
(** Block identifiers and blocks: [dag/block/id.go] and [dag/block/block.go],
    over the Cap'n Proto interface. *)

From S2P Require Import Prelude Sha256 Crypto CryptoInstance Capnp CapnpInstance Rebro Bapl.

Section block.
Context {CP : Capnp}.

(** ** id.go *)

Record blockID := MkBlockID { round : Z; signer : slice; hash : slice }.

Definition blockID_String (id : blockID) : bytes := sprintf_X (sl (hash id)).

Definition blockID_MarshalBinary (id : blockID) : res bytes :=
  seg ← map_err (wrapf "creating a segemnt for capnp") NewMessage;
  s ← map_err (wrapf "converting segment to message id") (blockmsg.NewRootBlockID seg);
  s ← blockmsg.BlockID_SetHash s (hash id);
  let s := blockmsg.BlockID_SetRound s (round id) in
  s ← blockmsg.BlockID_SetSigner s (signer id);
  Marshal s.

(** The receiver is mutated as the fields are read, also when a later field
    cannot be read.  (A field that cannot be read ends the method; the value
    Go assigns to it then is dropped by every caller.) *)
Definition blockID_UnmarshalBinary (data : bytes) : St blockID unit :=
  msg ← lift (Unmarshal data);
  msgID ← lift (map_err (wrapf "converting received binary data to messageID")
                  (blockmsg.ReadRootBlockID msg));
  modify (fun id => MkBlockID (blockmsg.BlockID_Round msgID) (signer id) (hash id)) ;;
  h ← lift (blockmsg.BlockID_Hash msgID);
  modify (fun id => MkBlockID (round id) (signer id) h) ;;
  s ← lift (blockmsg.BlockID_Signer msgID);
  modify (fun id => MkBlockID (round id) s (hash id)).

Definition blockID_Validate (id : blockID) : res unit :=
  if bool_decide (len (hash id) <> sha256_Size)
  then Err (ErrNew "invalid hash")
  else Ok tt.

(** [id := blockID{}; return &id, id.UnmarshalBinary(bytes)] *)
Definition UnmarshalBlockID (b : bytes) : res blockID :=
  let '(id, r) := blockID_UnmarshalBinary b (MkBlockID 0 None None) in
  r ≫= fun _ => Ok id.

#[export] Instance blockID_MessageID : MessageID blockID := {|
  Round := round;
  mid_Signer := signer;
  mid_Hash := hash;
  mid_String := blockID_String;
  mid_MarshalBinary := blockID_MarshalBinary;
  mid_Validate := blockID_Validate;
|}.

(** ** block.go *)

Record Block := MkBlock {
  blk_id : option blockID;      (* *blockID *)
  blk_batches : list slice;
  blk_parents : list slice;
}.

Definition NewBlock (round : Z) (signer : slice) (batches : list Batch)
    (parents : list slice) : Block :=
  MkBlock (Some (MkBlockID round signer None)) (map Batch_Hash batches) parents.

Definition Block_ID (b : Block) : option blockID := blk_id b.
Definition Block_Round (b : Block) : res Z := id ← nonnil (blk_id b); mret (round id).
Definition Block_Signer (b : Block) : res slice := id ← nonnil (blk_id b); mret (hash id).
Definition Block_Batches (b : Block) : list slice := blk_batches b.
Definition Block_Validate (b : Block) : res unit := Ok tt.

(** [for i, x := range xs { err = l.Set(i, x) ... }], starting at index [i]. *)
Fixpoint set_from (l : DataList) (i : Z) (xs : list slice) : res DataList :=
  match xs with
  | [] => Ok l
  | x :: xs' => l' ← DataList_Set l i x; set_from l' (i + 1) xs'
  end.

Definition Block_MarshalBinary (b : Block) : res bytes :=
  seg ← map_err (wrapf "creating a segemnt for capnp") NewMessage;
  s ← map_err (wrapf "converting segment to message id") (blockmsg.NewRootBlock seg);
  id ← nonnil (blk_id b);
  let s := blockmsg.Block_SetRound s (round id) in
  s ← blockmsg.Block_SetSigner s (signer id);
  '(s, bList) ← blockmsg.Block_NewBatches s (i32 (Z.of_nat (length (blk_batches b))));
  bList ← set_from bList 0 (blk_batches b);
  s ← blockmsg.Block_SetBatches s bList;
  '(s, pList) ← blockmsg.Block_NewParents s (i32 (Z.of_nat (length (blk_parents b))));
  pList ← set_from pList 0 (blk_parents b);
  s ← blockmsg.Block_SetParents s pList;
  Marshal s.

(** [for i := range xs { data, err := l.At(i) ...; xs[i] = data }] over a
    slice of [l.Len()] elements. *)
Definition read_list (l : DataList) : res (list slice) :=
  mapM (DataList_At l) (seqZ 0 (DataList_Len l)).

Definition Block_UnmarshalBinary (data : bytes) : St Block unit :=
  msg ← lift (Unmarshal data);
  block ← lift (map_err (wrapf "converting received binary data to messageID")
                  (blockmsg.ReadRootBlock msg));
  modify (fun b => MkBlock (Some (MkBlockID (blockmsg.Block_Round block) None None))
                     (blk_batches b) (blk_parents b)) ;;
  s ← lift (blockmsg.Block_Signer block);
  modify (fun b => MkBlock (Some (MkBlockID (blockmsg.Block_Round block) s None))
                     (blk_batches b) (blk_parents b)) ;;
  batchList ← lift (blockmsg.Block_Batches block);
  batches ← lift (read_list batchList);
  parentsList ← lift (blockmsg.Block_Parents block);
  parents ← lift (read_list parentsList);
  modify (fun b => MkBlock (blk_id b) batches parents).

(** The zero block, [&block.Block{}]. *)
Definition zero_Block : Block := MkBlock None [] [].

Definition UnmarshalBlock (data : bytes) : res Block :=
  let '(b, r) := Block_UnmarshalBinary data zero_Block in
  r ≫= fun _ => Ok b.

(** The hash is computed once, from the encoding of a block without it. *)
Definition Block_Hash : St Block slice := fun b =>
  match blk_id b with
  | None => (b, Panic "nil dereference")
  | Some id =>
      match hash id with
      | Some h => (b, Ok (Some h))
      | None =>
          match Block_MarshalBinary b with
          | Ok bin =>
              let h := Some (sha256 bin) in
              (MkBlock (Some (MkBlockID (round id) (signer id) h))
                 (blk_batches b) (blk_parents b), Ok h)
          | Err e => (b, Panic "marshalling block")
          | Panic w => (b, Panic w)
          | Hang w => (b, Hang w)
          end
      end
  end.

Definition Block_String : St Block bytes :=
  h ← Block_Hash; mret (sprintf_X (sl h)).
End block.

(** ** Round trips *)

Section roundtrip.
Context {CP : Capnp} {CL : CapnpLaws}.

#[export] Instance blockID_equiv : Equiv blockID := fun a b =>
  round a = round b /\ sl (signer a) = sl (signer b) /\ sl (hash a) = sl (hash b).

Lemma blockID_Marshal_struct id b :
  blockID_MarshalBinary id = Ok b -> uint64_range (round id) ->
  exists s, Marshal s = Ok b /\ blockmsg.BlockID_Round s = round id /\
    (exists h, blockmsg.BlockID_Hash s = Ok h /\ sl h = sl (hash id)) /\
    (exists g, blockmsg.BlockID_Signer s = Ok g /\ sl g = sl (signer id)).
Proof.
  unfold blockID_MarshalBinary, blockmsg.NewRootBlockID, blockmsg.BlockID_SetHash,
    blockmsg.BlockID_SetRound, blockmsg.BlockID_SetSigner, blockmsg.BlockID_Round,
    blockmsg.BlockID_Hash, blockmsg.BlockID_Signer.
  intros H Hr. res_inv.
  match goal with
  | H1 : NewRootStruct _ _ _ = Ok ?s1, H2 : SetData ?s1 1 _ = Ok ?s2,
    H3 : SetData _ 0 _ = Ok ?s4 |- _ =>
      destruct (NewRootStruct_size _ _ _ _ H1) as [Hd _];
      pose proof (SetData_frame _ _ _ _ H2) as (Hd2&_);
      pose proof (SetData_frame _ _ _ _ H3) as (_&_&Hu&_);
      exists s4; split_and!; [done| | |]
  end.
  - rewrite Hu, SetUint64_get; [done|lia| |done]. rewrite Hd2, Hd. lia.
  - erewrite SetData_data_at_other by (done || lia).
    unfold data_at. rewrite SetUint64_ptr. by eapply SetData_data_at.
  - by eapply SetData_data_at.
Qed.

Lemma UnmarshalBlockID_struct m s b h g :
  Unmarshal b = Ok m -> blockmsg.ReadRootBlockID m = Ok s ->
  blockmsg.BlockID_Hash s = Ok h -> blockmsg.BlockID_Signer s = Ok g ->
  UnmarshalBlockID b = Ok (MkBlockID (blockmsg.BlockID_Round s) g h).
Proof.
  intros H1 H2 H3 H4. unfold UnmarshalBlockID, blockID_UnmarshalBinary.
  unfold mbind, St_bind, lift, modify.
  rewrite H1, H2. simpl. rewrite H3. simpl. by rewrite H4.
Qed.

Lemma blockID_roundtrip id b :
  blockID_MarshalBinary id = Ok b -> uint64_range (round id) -> within_limits b ->
  exists id', UnmarshalBlockID b = Ok id' /\ id' ≡ id.
Proof.
  intros Hm Hr Hw.
  destruct (blockID_Marshal_struct _ _ Hm Hr) as (s & Hs & Er & (h & Eh & Sh) & (g & Eg & Sg)).
  destruct (unmarshal_root _ _ Hs Hw) as (m & s' & H1 & H2 & Heq).
  destruct (data_at_equiv _ _ _ _ Heq Eh) as (h' & Eh' & Sh').
  destruct (data_at_equiv _ _ _ _ Heq Eg) as (g' & Eg' & Sg').
  eexists. split.
  { by apply (UnmarshalBlockID_struct m s'). }
  unfold equiv, blockID_equiv. cbn [round signer hash]. split_and!; [|congruence..].
  rewrite <- Er. unfold blockmsg.BlockID_Round. by rewrite Heq.
Qed.

(** [read_list] reads the bytes [list_view] shows. *)
Lemma read_list_view l bs :
  list_view l = Ok bs -> exists ds, read_list l = Ok ds /\ map sl ds = bs.
Proof.
  unfold list_view, read_list. generalize (seqZ 0 (DataList_Len l)) as ns.
  intros ns. revert bs. induction ns as [|i ns IH]; intros bs H.
  { exists []. split; [done|]. simpl in H. by injection H. }
  simpl in H. apply res_bind_Ok in H as (d & Hd & H).
  apply res_bind_Ok in H as (bs' & Hbs & [= <-]).
  destruct (IH _ Hbs) as (ds & Eds & <-).
  exists (d :: ds). split; [|done].
  cbn [mapM]. rewrite Hd. simpl. rewrite Eds. done.
Qed.

Lemma set_from_At xs : forall l l' i,
  set_from l i xs = Ok l' ->
  DataList_Len l' = DataList_Len l /\
  (forall j, j < i -> DataList_At l' j = DataList_At l j) /\
  (forall k x, xs !! k = Some x ->
     exists d, DataList_At l' (i + Z.of_nat k) = Ok d /\ sl d = sl x).
Proof.
  induction xs as [|x xs IH]; intros l l' i H.
  { injection H as <-. split_and!; try done. }
  simpl in H. apply res_bind_Ok in H as (l1 & H1 & H).
  destruct (IH _ _ _ H) as (E1 & E2 & E3). split_and!.
  - rewrite E1. by eapply DataList_Set_Len.
  - intros j Hj. rewrite E2 by lia. eapply DataList_Set_other; [done|lia].
  - intros [|k] y Hy; simpl in Hy.
    + injection Hy as <-. rewrite Z.add_0_r, E2 by lia. by eapply DataList_Set_get.
    + destruct (E3 _ _ Hy) as (d & Hd & Hs). exists d. split; [|done].
      rewrite <- Hd. f_equal. lia.
Qed.

Lemma list_view_set_from s l l' xs n :
  NewDataList s n = Ok l -> n = Z.of_nat (length xs) -> set_from l 0 xs = Ok l' ->
  list_view l' = Ok (map sl xs).
Proof.
  intros Hn -> Hs. destruct (set_from_At _ _ _ _ Hs) as (E1 & _ & E3).
  apply NewDataList_Len in Hn; [|lia]. unfold list_view. rewrite E1, Hn.
  assert (forall ys off, (forall k x, ys !! k = Some x ->
      exists d, DataList_At l' (off + Z.of_nat k) = Ok d /\ sl d = sl x) ->
    foldr (fun i (r : res (list bytes)) =>
             d ← DataList_At l' i; ds ← r; mret (sl d :: ds))
          (Ok []) (seqZ off (Z.of_nat (length ys))) = Ok (map sl ys)) as G.
  { clear. induction ys as [|y ys IH]; intros off H; [done|].
    rewrite seqZ_cons by (simpl; lia). simpl.
    replace (Z.pred (Z.of_nat (S (length ys)))) with (Z.of_nat (length ys)) by lia.
    rewrite (IH (Z.succ off)).
    - destruct (H 0%nat y) as (d & Hd & Hsl); [done|].
      rewrite Z.add_0_r in Hd. rewrite Hd. simpl. by rewrite Hsl.
    - intros k x Hk. destruct (H (S k) x) as (d & Hd & ?); [done|].
      exists d. split; [|done]. rewrite <- Hd. f_equal. lia. }
  apply (G xs 0). intros k x Hk. destruct (E3 k x Hk) as (d & Hd & ?). eauto.
Qed.

Lemma Block_Marshal_struct b id bin :
  Block_MarshalBinary b = Ok bin -> blk_id b = Some id -> uint64_range (round id) ->
  Z.of_nat (length (blk_batches b)) < 2 ^ 31 ->
  Z.of_nat (length (blk_parents b)) < 2 ^ 31 ->
  exists s, Marshal s = Ok bin /\ blockmsg.Block_Round s = round id /\
    (exists g, blockmsg.Block_Signer s = Ok g /\ sl g = sl (signer id)) /\
    (exists l, blockmsg.Block_Batches s = Ok l /\
               list_view l = Ok (map sl (blk_batches b))) /\
    (exists l, blockmsg.Block_Parents s = Ok l /\
               list_view l = Ok (map sl (blk_parents b))).
Proof.
  unfold Block_MarshalBinary, blockmsg.NewRootBlock, blockmsg.Block_NewBatches,
    blockmsg.Block_NewParents, blockmsg.Block_SetBatches, blockmsg.Block_SetParents,
    blockmsg.Block_SetRound, blockmsg.Block_SetSigner.
  intros H Hid Hr Hb Hp. rewrite Hid in H.
  rewrite !i32_id in H by lia.
  apply res_bind_Ok in H as (seg & _ & H).
  apply res_bind_Ok in H as (s0 & H0%map_err_Ok & H).
  apply res_bind_Ok in H as (id' & [= <-] & H).
  apply res_bind_Ok in H as (s1 & H1 & H).
  apply res_bind_Ok in H as ([s2 l2] & H2 & H).
  apply res_bind_Ok in H2 as (l2' & Hl2 & H2).
  apply res_bind_Ok in H2 as (s2' & H2 & [= -> ->]).
  apply res_bind_Ok in H as (l3 & Hl3 & H).
  apply res_bind_Ok in H as (s3 & H3 & H).
  apply res_bind_Ok in H as ([s4 l4] & H4 & H).
  apply res_bind_Ok in H4 as (l4' & Hl4 & H4).
  apply res_bind_Ok in H4 as (s4' & H4 & [= -> ->]).
  apply res_bind_Ok in H as (l5 & Hl5 & H).
  apply res_bind_Ok in H as (s5 & H5 & H).
  destruct (NewRootStruct_size _ _ _ _ H0) as [Hd _].
  exists s5. unfold blockmsg.Block_Round, blockmsg.Block_Signer, blockmsg.Block_Batches,
    blockmsg.Block_Parents.
  split_and!; [done| | | |].
  - pose proof (SetPtr_frame _ _ _ _ H5) as (_&_&U5&_).
    pose proof (SetPtr_frame _ _ _ _ H4) as (_&_&U4&_).
    pose proof (SetPtr_frame _ _ _ _ H3) as (_&_&U3&_).
    pose proof (SetPtr_frame _ _ _ _ H2) as (_&_&U2&_).
    pose proof (SetData_frame _ _ _ _ H1) as (_&_&U1&_).
    rewrite U5, U4, U3, U2, U1, SetUint64_get; [done|lia|lia|done].
  - rewrite (SetPtr_data_at_other _ _ _ _ _ H5), (SetPtr_data_at_other _ _ _ _ _ H4),
      (SetPtr_data_at_other _ _ _ _ _ H3), (SetPtr_data_at_other _ _ _ _ _ H2) by lia.
    by eapply SetData_data_at.
  - rewrite (SetPtr_list_at_other _ _ _ _ _ H5), (SetPtr_list_at_other _ _ _ _ _ H4) by lia.
    exists l3. split; [by apply (SetPtr_list_at _ _ _ _ H3)|].
    by apply (list_view_set_from _ _ _ _ _ Hl2 eq_refl Hl3).
  - exists l5. split; [by apply (SetPtr_list_at _ _ _ _ H5)|].
    by apply (list_view_set_from _ _ _ _ _ Hl4 eq_refl Hl5).
Qed.

Lemma UnmarshalBlock_struct bin m s g bl ps bs pl :
  Unmarshal bin = Ok m -> blockmsg.ReadRootBlock m = Ok s ->
  blockmsg.Block_Signer s = Ok g -> blockmsg.Block_Batches s = Ok bl ->
  read_list bl = Ok bs -> blockmsg.Block_Parents s = Ok pl -> read_list pl = Ok ps ->
  UnmarshalBlock bin =
    Ok (MkBlock (Some (MkBlockID (blockmsg.Block_Round s) g None)) bs ps).
Proof.
  intros H1 H2 H3 H4 H5 H6 H7. unfold UnmarshalBlock, Block_UnmarshalBinary.
  unfold mbind, St_bind, lift, modify.
  rewrite H1, H2. simpl. rewrite H3. simpl. rewrite H4. simpl.
  rewrite H5. simpl. rewrite H6. simpl. by rewrite H7.
Qed.

(** Blocks that agree on everything an encoding carries (the hash is not part
    of it). *)
Definition block_content (b : Block) : option (Z * bytes) * list bytes * list bytes :=
  ((fun id => (round id, sl (signer id))) <$> blk_id b,
   map sl (blk_batches b), map sl (blk_parents b)).

Lemma block_roundtrip_lemma b id bin :
  Block_MarshalBinary b = Ok bin -> blk_id b = Some id -> uint64_range (round id) ->
  Z.of_nat (length (blk_batches b)) < 2 ^ 31 ->
  Z.of_nat (length (blk_parents b)) < 2 ^ 31 ->
  within_limits bin ->
  exists b', UnmarshalBlock bin = Ok b' /\ block_content b' = block_content b.
Proof.
  intros Hm Hid Hr Hb Hp Hw.
  destruct (Block_Marshal_struct _ _ _ Hm Hid Hr Hb Hp)
    as (s & Hs & Er & (g & Eg & Sg) & (bl & Ebl & Vbl) & (pl & Epl & Vpl)).
  destruct (unmarshal_root _ _ Hs Hw) as (m & s' & H1 & H2 & Heq).
  destruct (data_at_equiv _ _ _ _ Heq Eg) as (g' & Eg' & Sg').
  destruct (list_at_equiv _ _ _ _ Heq Ebl) as (bl' & Ebl' & _ & Vbl').
  destruct (list_at_equiv _ _ _ _ Heq Epl) as (pl' & Epl' & _ & Vpl').
  rewrite Vbl in Vbl'. rewrite Vpl in Vpl'.
  destruct (read_list_view _ _ Vbl') as (bs & Rbs & Ebs).
  destruct (read_list_view _ _ Vpl') as (ps & Rps & Eps).
  eexists. split.
  { by apply (UnmarshalBlock_struct bin m s' g' bl' ps bs pl'). }
  unfold block_content. simpl. rewrite Hid. simpl.
  rewrite <- Er. unfold blockmsg.Block_Round. rewrite Heq. congruence.
Qed.
End roundtrip.

(** ** Hashing *)

Section hash.
Context {CP : Capnp}.

(** The encoding of a block does not depend on the hash it caches. *)
Lemma Block_MarshalBinary_hash r g h1 h2 bs ps :
  Block_MarshalBinary (MkBlock (Some (MkBlockID r g h1)) bs ps) =
  Block_MarshalBinary (MkBlock (Some (MkBlockID r g h2)) bs ps).
Proof. reflexivity. Qed.

Lemma Block_Hash_fresh r g bs ps bin :
  Block_MarshalBinary (MkBlock (Some (MkBlockID r g None)) bs ps) = Ok bin ->
  Block_Hash (MkBlock (Some (MkBlockID r g None)) bs ps) =
    (MkBlock (Some (MkBlockID r g (Some (sha256 bin)))) bs ps, Ok (Some (sha256 bin))).
Proof. intros H. unfold Block_Hash. cbn [blk_id hash]. by rewrite H. Qed.

(** What the producer of a block relies on: hashing leaves the encoding
    unchanged, and the identifier it fills in is the hash of that encoding. *)
Lemma NewBlock_Hash r g batches parents b h :
  Block_Hash (NewBlock r g batches parents) = (b, Ok h) ->
  exists bin, Block_MarshalBinary b = Ok bin /\ h = Some (sha256 bin) /\
    Block_ID b = Some (MkBlockID r g h) /\ blk_batches b = map Batch_Hash batches /\
    blk_parents b = parents /\ Block_Hash b = (b, Ok h).
Proof.
  unfold NewBlock. intros H.
  destruct (Block_MarshalBinary (MkBlock (Some (MkBlockID r g None))
              (map Batch_Hash batches) parents)) as [bin|e|w|w] eqn:E.
  - rewrite (Block_Hash_fresh _ _ _ _ _ E) in H. injection H as <- <-.
    exists bin. by split_and!.
  - unfold Block_Hash in H. cbn [blk_id hash] in H. by rewrite E in H.
  - unfold Block_Hash in H. cbn [blk_id hash] in H. by rewrite E in H.
  - unfold Block_Hash in H. cbn [blk_id hash] in H. by rewrite E in H.
Qed.
End hash.

(** ** What a producer hands out and a receiver reads *)

Section produced.
Context {CP : Capnp} {CL : CapnpLaws}.

(** C21: A block that its producer created, hashed and encoded, and whose
    identifier it encoded, are read back by the receiver.  The identifier has
    the same round, signer and hash; it is valid, and its hash is the hash of
    the block's bytes.  The block has the same round, the same signer, the same
    batch hashes and the same parents. *)
Theorem produced_block_roundtrip r g batches parents b h bin id idb :
  Block_Hash (NewBlock r g batches parents) = (b, Ok h) ->
  uint64_range r -> Z.of_nat (length batches) < 2 ^ 31 -> Z.of_nat (length parents) < 2 ^ 31 ->
  Block_MarshalBinary b = Ok bin -> within_limits bin ->
  Block_ID b = Some id -> blockID_MarshalBinary id = Ok idb -> within_limits idb ->
  exists b' id', UnmarshalBlock bin = Ok b' /\ UnmarshalBlockID idb = Ok id' /\
    id' ≡ id /\ round id' = r /\ sl (signer id') = sl g /\ sl (hash id') = sha256 bin /\
    blockID_Validate id' = Ok tt /\
    Block_Round b' = Ok r /\
    (exists i, Block_ID b' = Some i /\ round i = r /\ sl (signer i) = sl g) /\
    map sl (Block_Batches b') = map (fun x => sha256 (sl (Data x))) batches /\
    map sl (blk_parents b') = map sl parents.
Proof.
  intros Hh Hr Hb Hp Hbin Hw Hid Hidb Hwid.
  destruct (NewBlock_Hash _ _ _ _ _ _ Hh) as (bin' & E & -> & Eid & Ebs & Eps & _).
  rewrite Hbin in E. injection E as <-. rewrite Hid in Eid. injection Eid as ->.
  destruct (blockID_roundtrip _ _ Hidb Hr Hwid) as (id' & Eid' & Hid').
  destruct (block_roundtrip_lemma b _ bin Hbin Hid Hr) as (b' & Eb' & Hc);
    [by rewrite Ebs, length_map|by rewrite Eps|done|].
  exists b', id'. pose proof Hid' as (E1 & E2 & E3). simpl in E1, E2, E3.
  unfold block_content in Hc. unfold Block_ID in Hid. rewrite Hid in Hc. simpl in Hc.
  injection Hc as Hbid Hbb Hbp.
  split_and!; try done.
  - unfold blockID_Validate. rewrite bool_decide_eq_false_2; [done|].
    unfold len. rewrite E3. rewrite sha256_length. intros Hne. by apply Hne.
  - unfold Block_Round. destruct (blk_id b') as [i|]; [|done]. injection Hbid as Hri _. cbn. by rewrite Hri.
  - unfold Block_ID. destruct (blk_id b') as [i|]; [|done]. injection Hbid as Hri Hsi. by exists i.
  - unfold Block_Batches. rewrite Hbb, Ebs, map_map. done.
  - by rewrite Hbp, Eps.
Qed.
End produced.

Module Executions.

Definition batch_of (b : byte) : Batch := MkBatch (Some [b]) (MkSignature None None).

Definition hashed_block : Block * res slice :=
  Block_Hash (CP:=ToyCapnp.toy)
    (NewBlock 5 (Some (repeat x01 32)) [batch_of x0a; batch_of x0b] [Some (repeat x07 32)]).

Definition block_bytes : bytes :=
  match Block_MarshalBinary (CP:=ToyCapnp.toy) hashed_block.1 with Ok b => b | _ => [] end.

Definition block_hash : bytes := sha256 block_bytes.

Definition block_id : blockID := MkBlockID 5 (Some (repeat x01 32)) (Some block_hash).

Definition id_bytes : bytes :=
  match blockID_MarshalBinary (CP:=ToyCapnp.toy) block_id with Ok b => b | _ => [] end.

Lemma produced_block_roundtrip_witness :
  exists b' id', UnmarshalBlock (CP:=ToyCapnp.toy) block_bytes = Ok b' /\
    UnmarshalBlockID (CP:=ToyCapnp.toy) id_bytes = Ok id' /\
    id' ≡ block_id /\ round id' = 5 /\ sl (signer id') = repeat x01 32 /\
    sl (hash id') = sha256 block_bytes /\ blockID_Validate id' = Ok tt /\
    Block_Round b' = Ok 5 /\
    (exists i, Block_ID b' = Some i /\ round i = 5 /\ sl (signer i) = repeat x01 32) /\
    map sl (Block_Batches b') = map (fun x => sha256 (sl (Data x))) [batch_of x0a; batch_of x0b] /\
    map sl (blk_parents b') = [repeat x07 32].
Proof.
  apply (produced_block_roundtrip (CP:=ToyCapnp.toy) 5 (Some (repeat x01 32))
    [batch_of x0a; batch_of x0b] [Some (repeat x07 32)] hashed_block.1 (Some block_hash)
    block_bytes block_id id_bytes); try exact I; try (vm_compute; reflexivity).
  split; [discriminate|reflexivity].
Defined.
End Executions.
