(* ===== verification/Includers.v ===== *)
(** The weighted includer set of [dag/quorum/includer.go]: validation, lookup by
    public key, saturating 64-bit stake arithmetic, the cached total and the
    ordering by stake. *)

From S2P Require Import Prelude Crypto CryptoInstance.
From Stdlib Require Import Sorting.Sorted.

(** ** Saturating arithmetic *)

Definition safeAdd (a b : Z) : Z * bool :=
  if (0 <? b) && (i64 (MaxInt64 - b) <? a) then (-1, true)
  else if (b <? 0) && (a <? i64 (MinInt64 - b)) then (-1, true)
  else (i64 (a + b), false).

Definition safeAddClip (a b : Z) : Z :=
  let '(c, overflow) := safeAdd a b in
  if overflow then (if b <? 0 then MinInt64 else MaxInt64) else c.

Ltac i64_lia :=
  unfold int64_range, MaxInt64, MinInt64 in *; lia.

(** [safeAdd] detects exactly the sums that leave the [int64] range, and is
    exact on the others. *)
Lemma safeAdd_spec a b :
  int64_range a -> int64_range b ->
  safeAdd a b = (if bool_decide (int64_range (a + b)) then (a + b, false) else (-1, true)).
Proof.
  intros Ha Hb. unfold safeAdd.
  destruct (Z.ltb_spec 0 b); simpl.
  - rewrite (i64_id (MaxInt64 - b)) by i64_lia.
    destruct (Z.ltb_spec (MaxInt64 - b) a); simpl.
    + rewrite bool_decide_eq_false_2 by i64_lia. done.
    + destruct (Z.ltb_spec b 0); simpl; [lia|].
      rewrite bool_decide_eq_true_2 by i64_lia. rewrite i64_id by i64_lia. done.
  - destruct (Z.ltb_spec b 0); simpl.
    + rewrite (i64_id (MinInt64 - b)) by i64_lia.
      destruct (Z.ltb_spec a (MinInt64 - b)); simpl.
      * rewrite bool_decide_eq_false_2 by i64_lia. done.
      * rewrite bool_decide_eq_true_2 by i64_lia. rewrite i64_id by i64_lia. done.
    + rewrite bool_decide_eq_true_2 by i64_lia. rewrite i64_id by i64_lia. done.
Qed.

Lemma safeAddClip_clamp_lemma a b :
  int64_range a -> int64_range b ->
  safeAddClip a b = Z.max MinInt64 (Z.min MaxInt64 (a + b)).
Proof.
  intros Ha Hb. unfold safeAddClip. rewrite safeAdd_spec by done.
  case_bool_decide as E; [i64_lia|].
  destruct (Z.ltb_spec b 0); i64_lia.
Qed.

Lemma safeAddClip_exact a b :
  int64_range a -> int64_range b -> int64_range (a + b) -> safeAddClip a b = a + b.
Proof. intros. rewrite safeAddClip_clamp_lemma by done. i64_lia. Qed.

(** ** The includer set *)

(** [MaxStake = int64(math.MaxInt64) / 8] *)
Definition MaxStake : Z := Z.quot MaxInt64 8.

(** [*Includer] values may be nil, and so may the [crypto.PubKey] interface. *)
Record Includer (K : Type) := MkIncluder { PubKey : option K; Stake : Z }.
Arguments MkIncluder {K} _ _.
Arguments PubKey {K} _.
Arguments Stake {K} _.

Record Includers (K : Type) := MkIncluders {
  includers : list (option (Includer K));
  totalStake : Z;
}.
Arguments MkIncluders {K} _ _.
Arguments includers {K} _.
Arguments totalStake {K} _.

Section includers.
Context {K : Type} {PK : Crypto.PubKey K}.

Definition NewIncluder (pK : option K) (stake : Z) : option (Includer K) :=
  Some (MkIncluder pK stake).

Definition Includer_Validate (i : option (Includer K)) : res unit :=
  match i with
  | None => Err (ErrNew "nil includer")
  | Some i =>
      match PubKey i with
      | None => Err (ErrNew "includer does not have a public key")
      | Some _ =>
          if Stake i <? 0 then Err (ErrNew "includer has negative stake") else Ok tt
      end
  end.

Fixpoint validate_from (l : list (option (Includer K))) : res unit :=
  match l with
  | [] => Ok tt
  | i :: l' => map_err (wrapf "invalid includer") (Includer_Validate i) ;; validate_from l'
  end.

Definition Includers_Validate (incl : option (Includers K)) : res unit :=
  match incl with
  | None => Err (ErrNew "includers are nil or empty")
  | Some incl =>
      match includers incl with
      | [] => Err (ErrNew "includers are nil or empty")
      | l => validate_from l
      end
  end.

Fixpoint find_includer (l : list (option (Includer K))) (pubK : bytes)
  : res (option (Includer K)) :=
  match l with
  | [] => Ok None
  | v :: l' =>
      v ← nonnil v;
      k ← nonnil (PubKey v);
      if Equals k pubK then Ok (Some v) else find_includer l' pubK
  end.

Definition GetByPubKey (incl : Includers K) (pubK : slice) : res (option (Includer K)) :=
  find_includer (includers incl) (sl pubK).

(** The loop of [updateTotalStake], from a partial sum. *)
Fixpoint sum_stakes (sum : Z) (l : list (option (Includer K))) : res Z :=
  match l with
  | [] => Ok sum
  | val :: l' =>
      val ← nonnil val;
      let sum := safeAddClip sum (Stake val) in
      if MaxStake <? sum then Panic "Total stake exceeds MaxStake" else sum_stakes sum l'
  end.

Definition updateTotalStake : St (Includers K) unit := fun incl =>
  match sum_stakes 0 (includers incl) with
  | Ok sum => (MkIncluders (includers incl) sum, Ok tt)
  | r => (incl, r ≫= fun _ => Ok tt)
  end.

Definition TotalStake : St (Includers K) Z := fun incl =>
  (if bool_decide (totalStake incl = 0) then updateTotalStake ;; gets totalStake
   else gets totalStake) incl.

Definition Len (incl : Includers K) : Z := Z.of_nat (length (includers incl)).

(** [Less] on the elements at the two indices. *)
Definition less (x y : option (Includer K)) : res bool :=
  x ← nonnil x;
  y ← nonnil y;
  if bool_decide (Stake x = Stake y) then
    kx ← nonnil (PubKey x);
    ky ← nonnil (PubKey y);
    Ok (bool_decide (bytes_Compare (sl (Bytes kx)) (sl (Bytes ky)) = -1))
  else Ok (bool_decide (Stake y < Stake x)).

Definition Less (incl : Includers K) (i j : nat) : res bool :=
  match includers incl !! i, includers incl !! j with
  | Some x, Some y => less x y
  | _, _ => Panic "index out of range"
  end.

Definition Swap (i j : nat) : St (Includers K) unit := fun incl =>
  match includers incl !! i, includers incl !! j with
  | Some x, Some y =>
      (MkIncluders (<[j:=x]> (<[i:=y]> (includers incl))) (totalStake incl), Ok tt)
  | _, _ => (incl, Panic "index out of range")
  end.

(** [sort.Sort]: each element in turn is moved left past the elements it is
    [Less] than (the insertion sort of package [sort]; [sorted_unique] shows
    that the algorithm does not matter when the keys are distinct). *)
Fixpoint insert_less (x : option (Includer K)) (l : list (option (Includer K)))
  : res (list (option (Includer K))) :=
  match l with
  | [] => Ok [x]
  | y :: l' =>
      b ← less x y;
      if (b : bool) then Ok (x :: y :: l')
      else l'' ← insert_less x l'; Ok (y :: l'')
  end.

Fixpoint sort_less (sorted l : list (option (Includer K)))
  : res (list (option (Includer K))) :=
  match l with
  | [] => Ok sorted
  | x :: l' => sorted' ← insert_less x sorted; sort_less sorted' l'
  end.

Definition NewIncludersSet (v : list (option (Includer K))) : res (Includers K) :=
  l ← sort_less [] v; mret (MkIncluders l 0).

(** ** Valid sets *)

(** An entry [Validate] accepts (stakes are [int64]s). *)
Definition valid_entry (o : option (Includer K)) : Prop :=
  match o with
  | Some i => is_Some (PubKey i) /\ 0 <= Stake i <= MaxInt64
  | None => False
  end.

Definition valid (l : list (option (Includer K))) : Prop := Forall valid_entry l.

Definition entry_stake (o : option (Includer K)) : Z :=
  match o with Some i => Stake i | None => 0 end.

(** The true total, as an unbounded integer. *)
Definition total (l : list (option (Includer K))) : Z := sumZ entry_stake l.

(** The stake behind a public key. *)
Definition stake_of (l : list (option (Includer K))) (pubK : bytes) : Z :=
  match find_includer l pubK with Ok (Some i) => Stake i | _ => 0 end.

Lemma valid_entry_Validate o :
  (forall i, o = Some i -> int64_range (Stake i)) ->
  valid_entry o <-> Includer_Validate o = Ok tt.
Proof.
  intros Hr. unfold valid_entry, Includer_Validate. destruct o as [i|]; [|done].
  specialize (Hr i eq_refl). unfold int64_range in Hr.
  destruct (PubKey i) as [k|].
  - destruct (Z.ltb_spec (Stake i) 0); split; try done; try lia.
    intros _. split; [eauto|lia].
  - split; [|done]. by intros [[? ?] _].
Qed.

Lemma entry_stake_nonneg l o : valid l -> o ∈ l -> 0 <= entry_stake o.
Proof.
  intros Hv Ho. unfold valid in Hv. rewrite Forall_forall in Hv. specialize (Hv o Ho).
  destruct o; simpl in *; [lia|done].
Qed.

Lemma total_nonneg l : valid l -> 0 <= total l.
Proof. intros H. apply sumZ_nonneg. intros o. by apply entry_stake_nonneg. Qed.

Lemma find_includer_valid l pubK :
  valid l -> exists o, find_includer l pubK = Ok o.
Proof.
  induction 1 as [|o l Ho Hl IH]; simpl; [by eexists|].
  destruct o as [i|]; [|done]. destruct Ho as [[k Hk] Hi]. simpl.
  rewrite Hk. simpl. destruct (Equals k pubK); [by eexists|done].
Qed.

Lemma find_includer_In l pubK i :
  find_includer l pubK = Ok (Some i) -> Some i ∈ l.
Proof.
  induction l as [|[j|] l IH]; simpl; [done| |done].
  destruct (PubKey j) as [k|]; simpl; [|done].
  destruct (Equals k pubK); intros H; [|by right; apply IH].
  injection H as ->. by left.
Qed.

Lemma stake_of_nonneg l pubK : valid l -> 0 <= stake_of l pubK.
Proof.
  intros Hv. unfold stake_of.
  destruct (find_includer l pubK) as [[i|]|e|w|w] eqn:E; try done.
  by apply (entry_stake_nonneg l (Some i) Hv), (find_includer_In _ pubK).
Qed.

Lemma find_includer_stake l pubK i :
  find_includer l pubK = Ok (Some i) -> Stake i = stake_of l pubK.
Proof. intros H. unfold stake_of. by rewrite H. Qed.

(** *** Stake of a set of distinct signers *)

Context {PL : PubKeyLaws K}.

(** At most one of several distinct byte strings names a given key. *)
Lemma one_key_le (k : K) (st : Z) (bs : list bytes) :
  0 <= st -> NoDup bs ->
  sumZ (fun _ => st) (filter (fun b => Equals k b = true) bs) <= st.
Proof.
  intros Hst Hnd.
  assert (forall b, b ∈ filter (fun b => Equals k b = true) bs -> b = sl (Bytes k)) as Hall.
  { intros b [Hb _]%list_elem_of_filter. symmetry. by apply Equals_Bytes. }
  apply (NoDup_filter (fun b => Equals k b = true)) in Hnd.
  destruct (filter _ bs) as [|b1 [|b2 l]]; simpl; [lia|lia|].
  exfalso. rewrite !NoDup_cons in Hnd. destruct Hnd as [Hn _]. apply Hn.
  rewrite (Hall b1), (Hall b2) by set_solver. set_solver.
Qed.

Lemma distinct_le_total l bs :
  valid l -> NoDup bs -> sumZ (stake_of l) bs <= total l.
Proof.
  intros Hv. revert bs. induction Hv as [|o l Ho Hv IH]; intros bs Hnd.
  { unfold total. simpl. induction bs as [|b bs IHb]; [done|].
    apply NoDup_cons in Hnd as [_ Hnd]. simpl. specialize (IHb Hnd).
    change (stake_of [] b) with 0. lia. }
  destruct o as [i|]; [|done]. destruct Ho as [[k Hk] Hi].
  assert (forall b, stake_of (Some i :: l) b =
            if Equals k b then Stake i else stake_of l b) as E.
  { intros b. unfold stake_of. simpl. rewrite Hk. simpl. by destruct (Equals k b). }
  rewrite (sumZ_filter_split _ (fun b => Equals k b = true)).
  rewrite (sumZ_ext _ (fun _ => Stake i) (filter (fun b => Equals k b = true) bs)).
  2:{ intros b [Hb _]%list_elem_of_filter. by rewrite E, Hb. }
  rewrite (sumZ_ext _ (stake_of l) (filter (fun b => ~ Equals k b = true) bs)).
  2:{ intros b [Hb _]%list_elem_of_filter. rewrite E. by destruct (Equals k b). }
  unfold total. rewrite sumZ_cons. fold (total l). simpl.
  pose proof (one_key_le k (Stake i) bs ltac:(lia) Hnd).
  pose proof (IH _ (NoDup_filter (fun b => ~ Equals k b = true) _ Hnd)). lia.
Qed.

Lemma stake_of_le_total l b : valid l -> stake_of l b <= total l.
Proof.
  intros Hv. pose proof (distinct_le_total l [b] Hv (NoDup_singleton b)) as H.
  simpl in H. lia.
Qed.
End includers.

(** ** The total *)

Section total_stake.
Context {K : Type}.
Implicit Type l : list (option (Includer K)).

Lemma MaxStake_val : MaxStake = 1152921504606846975.
Proof. reflexivity. Qed.

Lemma sum_stakes_spec l sum :
  valid l -> 0 <= sum <= MaxStake ->
  sum_stakes sum l =
    if bool_decide (sum + total l <= MaxStake) then Ok (sum + total l)
    else Panic "Total stake exceeds MaxStake".
Proof.
  intros Hv. revert sum. induction Hv as [|o l Ho Hv IH]; intros sum Hs.
  { simpl. unfold total. simpl. rewrite Z.add_0_r, bool_decide_eq_true_2; [done|lia]. }
  destruct o as [i|]; [|done]. destruct Ho as [Hk Hi].
  pose proof (total_nonneg l Hv) as Ht. pose proof MaxStake_val.
  simpl sum_stakes. unfold total. rewrite sumZ_cons. fold (total l). simpl entry_stake.
  rewrite safeAddClip_clamp_lemma by i64_lia.
  destruct (Z.ltb_spec MaxStake (Z.max MinInt64 (Z.min MaxInt64 (sum + Stake i)))).
  - rewrite bool_decide_eq_false_2; [done|]. i64_lia.
  - rewrite Z.min_r, Z.max_r by i64_lia. rewrite IH by i64_lia.
    rewrite Z.add_assoc. done.
Qed.

(** A total fits [MaxStake] and the cache, when filled, holds it. *)
Definition wf_includers (incl : Includers K) : Prop :=
  valid (includers incl) /\ total (includers incl) <= MaxStake /\
  (totalStake incl = 0 \/ totalStake incl = total (includers incl)).

Lemma TotalStake_wf incl :
  wf_includers incl ->
  exists incl', TotalStake incl = (incl', Ok (total (includers incl))) /\
    includers incl' = includers incl /\ wf_includers incl'.
Proof.
  intros (Hv & Hm & Hc). pose proof MaxStake_val. pose proof (total_nonneg _ Hv).
  unfold TotalStake. case_bool_decide as E.
  - exists (MkIncluders (includers incl) (total (includers incl))).
    unfold mbind, St_bind, updateTotalStake, gets.
    rewrite sum_stakes_spec by (done || lia).
    rewrite bool_decide_eq_true_2 by lia. simpl.
    split; [done|]. split; [done|]. split_and!; [done|done|by right].
  - destruct Hc as [?|Hc]; [done|]. exists incl. unfold gets. rewrite Hc.
    split; [done|]. split; [done|]. by split_and!; [..|right].
Qed.
End total_stake.

(** ** The order *)

Section compare.
Lemma bytes_Compare_range a b :
  bytes_Compare a b = -1 \/ bytes_Compare a b = 0 \/ bytes_Compare a b = 1.
Proof.
  revert b. induction a as [|x a IH]; intros [|y b]; simpl; try lia.
  destruct (N.compare _ _); auto.
Qed.

Lemma bytes_Compare_opp a b : bytes_Compare b a = - bytes_Compare a b.
Proof.
  revert b. induction a as [|x a IH]; intros [|y b]; simpl; try done.
  rewrite N.compare_antisym. destruct (N.compare (Byte.to_N x) (Byte.to_N y)); simpl; auto.
Qed.

Lemma to_N_inj x y : Byte.to_N x = Byte.to_N y -> x = y.
Proof. intros H%(f_equal Byte.of_N). rewrite !Byte.of_to_N in H. congruence. Qed.

Lemma bytes_Compare_eq a b : bytes_Compare a b = 0 -> a = b.
Proof.
  revert b. induction a as [|x a IH]; intros [|y b]; simpl; try done.
  destruct (N.compare_spec (Byte.to_N x) (Byte.to_N y)) as [E|E|E]; try done.
  intros H. apply to_N_inj in E. by rewrite E, (IH b).
Qed.

Lemma bytes_Compare_trans a b c :
  bytes_Compare a b = -1 -> bytes_Compare b c = -1 -> bytes_Compare a c = -1.
Proof.
  revert b c. induction a as [|x a IH]; intros [|y b] [|z c]; simpl; try done.
  destruct (N.compare_spec (Byte.to_N x) (Byte.to_N y)) as [E1|E1|E1];
    destruct (N.compare_spec (Byte.to_N y) (Byte.to_N z)) as [E2|E2|E2];
    destruct (N.compare_spec (Byte.to_N x) (Byte.to_N z)) as [E3|E3|E3];
    try done; try lia. apply IH.
Qed.
End compare.

Section sort.
Context {K : Type} {PK : Crypto.PubKey K}.
Implicit Type l : list (option (Includer K)).

Definition key_bytes (o : option (Includer K)) : bytes :=
  match o with
  | Some i => match PubKey i with Some k => sl (Bytes k) | None => [] end
  | None => []
  end.

(** Decreasing stake, ties by increasing key bytes. *)
Definition before (x y : option (Includer K)) : Prop :=
  entry_stake y < entry_stake x \/
  (entry_stake x = entry_stake y /\ bytes_Compare (key_bytes x) (key_bytes y) = -1).

Lemma less_spec x y b :
  valid_entry x -> valid_entry y -> less x y = Ok b -> (b = true <-> before x y).
Proof.
  destruct x as [x|]; [|done]. destruct y as [y|]; [|done].
  intros [[kx Hx] _] [[ky Hy] _]. unfold less, before, key_bytes. simpl.
  rewrite Hx, Hy. simpl. case_bool_decide; intros [= <-]; rewrite bool_decide_eq_true; lia.
Qed.

Lemma less_valid x y :
  valid_entry x -> valid_entry y -> exists b, less x y = Ok b.
Proof.
  destruct x as [x|]; [|done]. destruct y as [y|]; [|done].
  intros [[kx Hx] _] [[ky Hy] _]. unfold less. simpl. rewrite Hx, Hy. simpl.
  case_bool_decide; eauto.
Qed.

Lemma before_trans x y z : before x y -> before y z -> before x z.
Proof.
  unfold before. intros [?|[? H1]] [?|[? H2]]; try (left; lia).
  right. split; [lia|]. by eapply bytes_Compare_trans.
Qed.

Lemma not_before x y : ~ before x y -> before y x \/
  (entry_stake x = entry_stake y /\ key_bytes x = key_bytes y).
Proof.
  unfold before. intros H.
  pose proof (bytes_Compare_opp (key_bytes x) (key_bytes y)).
  destruct (bytes_Compare_range (key_bytes x) (key_bytes y)) as [E|[E|E]];
    destruct (Z.lt_trichotomy (entry_stake x) (entry_stake y)) as [?|[?|?]]; try lia.
  right. split; [done|]. by apply bytes_Compare_eq.
Qed.

Lemma before_irrefl x : ~ before x x.
Proof.
  unfold before. pose proof (bytes_Compare_opp (key_bytes x) (key_bytes x)). lia.
Qed.

(** Not out of order. *)
Definition ordered (x y : option (Includer K)) : Prop := ~ before y x.

#[export] Instance ordered_trans : Transitive ordered.
Proof.
  unfold ordered. intros x y z H1 H2 H3.
  apply not_before in H1 as [H1|[S1 K1]]; [eauto using before_trans|].
  apply H2. unfold before in *. rewrite S1, K1. done.
Qed.

Lemma insert_less_sorted x l :
  valid_entry x -> valid l -> StronglySorted ordered l ->
  exists l', insert_less x l = Ok l' /\ l' ≡ₚ x :: l /\ StronglySorted ordered l'.
Proof.
  intros Hx Hv. induction Hv as [|y l Hy Hv IH]; intros Hs; simpl.
  { exists [x]. by repeat constructor. }
  destruct (less_valid x y Hx Hy) as [b Hb].
  pose proof (less_spec x y b Hx Hy Hb) as Hspec. rewrite Hb. simpl.
  apply StronglySorted_inv in Hs as [Hs Hall].
  destruct b.
  - assert (before x y) as Hxy by (by apply Hspec).
    exists (x :: y :: l). split_and!; [done..|]. constructor; [by constructor|].
    assert (ordered x y) as Hord.
    { intros ?. by apply (before_irrefl x), (before_trans x y x). }
    constructor; [done|]. eapply Forall_impl; [done|]. intros z Hz. by transitivity y.
  - destruct (IH Hs) as (l' & E & Hp & Hs'). rewrite E. simpl.
    exists (y :: l'). split_and!; [done| |].
    { rewrite Hp. apply perm_swap. }
    constructor; [done|]. rewrite Hp. constructor; [|done].
    intros ?%Hspec. done.
Qed.

Lemma sort_less_sorted l acc :
  valid acc -> valid l -> StronglySorted ordered acc ->
  exists l', sort_less acc l = Ok l' /\ l' ≡ₚ acc ++ l /\ StronglySorted ordered l'.
Proof.
  intros Ha Hl. revert acc Ha. induction Hl as [|x l Hx Hl IH]; intros acc Ha Hs; simpl.
  { exists acc. by rewrite app_nil_r. }
  destruct (insert_less_sorted x acc Hx Ha Hs) as (acc' & E & Hp & Hs'). rewrite E. simpl.
  destruct (IH acc') as (l' & E' & Hp' & Hs''); [|done|].
  { unfold valid. rewrite Hp. by constructor. }
  exists l'. split_and!; [done| |done]. rewrite Hp', Hp. simpl.
  by rewrite Permutation_middle.
Qed.

(** With distinct keys there is one sorted arrangement, so every sorting
    algorithm gives the same list. *)
Lemma sorted_unique l1 l2 :
  l1 ≡ₚ l2 -> NoDup (map key_bytes l1) ->
  StronglySorted ordered l1 -> StronglySorted ordered l2 -> l1 = l2.
Proof.
  revert l2. induction l1 as [|x l1 IH]; intros l2 Hp Hnd Hs1 Hs2.
  { by apply Permutation_nil_l in Hp as ->. }
  destruct l2 as [|y l2]; [by apply Permutation_nil_r in Hp|].
  apply StronglySorted_inv in Hs1 as [Hs1 Ha1].
  apply StronglySorted_inv in Hs2 as [Hs2 Ha2].
  assert (x = y) as ->.
  { assert (x ∈ y :: l2) as Hx by (rewrite <- Hp; left).
    assert (y ∈ x :: l1) as Hy by (rewrite Hp; left).
    apply elem_of_cons in Hx as [?|Hx]; [done|].
    apply elem_of_cons in Hy as [?|Hy]; [done|].
    rewrite Forall_forall in Ha1, Ha2.
    pose proof (Ha1 _ Hy) as H1. pose proof (Ha2 _ Hx) as H2.
    apply not_before in H2 as [?|[_ Hk]]; [done|].
    exfalso. simpl in Hnd. apply NoDup_cons in Hnd as [Hn _]. apply Hn.
    rewrite Hk. by apply list_elem_of_fmap_2. }
  f_equal. apply IH; [by apply Permutation_cons_inv in Hp|by apply NoDup_cons in Hnd as [_ ?]|done..].
Qed.
End sort.

(** ** Properties *)

Lemma TotalStake_unfold {K} (incl : Includers K) :
  TotalStake incl =
    if bool_decide (totalStake incl = 0) then
      match sum_stakes 0 (includers incl) with
      | Ok s => (MkIncluders (includers incl) s, Ok s)
      | Err e => (incl, Err e)
      | Panic w => (incl, Panic w)
      | Hang w => (incl, Hang w)
      end
    else (incl, Ok (totalStake incl)).
Proof.
  unfold TotalStake, updateTotalStake. st_unfold.
  case_bool_decide; [|done]. by destruct (sum_stakes 0 (includers incl)).
Qed.

(** The stake addition saturates: on [int64] operands [safeAddClip] is the
    true sum clamped to the [int64] range, so it neither wraps around nor
    clips a sum that fits. *)
Theorem safeAddClip_clamp (a b : Z) :
  int64_range a -> int64_range b ->
  safeAddClip a b = Z.max MinInt64 (Z.min MaxInt64 (a + b)).
Proof. apply safeAddClip_clamp_lemma. Qed.

Lemma safeAddClip_clamp_witness :
  safeAddClip MaxInt64 5 = MaxInt64 /\ safeAddClip MinInt64 (-1) = MinInt64.
Proof.
  split; [rewrite (safeAddClip_clamp MaxInt64 5)|rewrite (safeAddClip_clamp MinInt64 (-1))];
    first [reflexivity | split; discriminate].
Defined.

(** C37: On validated includers whose total is not cached yet, [TotalStake]
    returns the exact sum of the stakes and caches it when the sum is within
    [MaxStake], and otherwise panics leaving the set as it was; a cached total
    is returned again by the next call. *)
Theorem TotalStake_exact {K} (incl : Includers K) :
  valid (includers incl) -> totalStake incl = 0 ->
  (total (includers incl) <= MaxStake ->
     TotalStake incl = (MkIncluders (includers incl) (total (includers incl)),
                        Ok (total (includers incl))) /\
     TotalStake (MkIncluders (includers incl) (total (includers incl))) =
       (MkIncluders (includers incl) (total (includers incl)), Ok (total (includers incl)))) /\
  (MaxStake < total (includers incl) ->
     TotalStake incl = (incl, Panic "Total stake exceeds MaxStake")).
Proof.
  intros Hv Hz. pose proof MaxStake_val. pose proof (total_nonneg _ Hv) as Hnn.
  pose proof (sum_stakes_spec (includers incl) 0 Hv ltac:(lia)) as Hs. rewrite Z.add_0_l in Hs.
  rewrite !TotalStake_unfold. cbn [totalStake includers].
  rewrite Hz, (bool_decide_eq_true_2 (0 = 0)), Hs by done.
  split; intros Hm.
  - rewrite bool_decide_eq_true_2 by lia. split; [done|].
    by destruct (bool_decide (total (includers incl) = 0)).
  - by rewrite bool_decide_eq_false_2 by lia.
Qed.

(** [NewIncludersSet] on valid includers succeeds with a rearrangement of
    its argument in decreasing order of stake, ties in increasing order of
    public key; when the keys are distinct every ordered rearrangement is the
    one it returns, so the result does not depend on the sorting algorithm. *)
Theorem NewIncludersSet_sorted {K} {PK : Crypto.PubKey K} (v : list (option (Includer K))) :
  valid v ->
  exists l, NewIncludersSet v = Ok (MkIncluders l 0) /\ l ≡ₚ v /\
    StronglySorted ordered l /\
    (NoDup (map key_bytes v) ->
     forall l', l' ≡ₚ v -> StronglySorted ordered l' -> l' = l).
Proof.
  intros Hv. destruct (sort_less_sorted v [] ltac:(constructor) Hv ltac:(constructor))
    as (l & E & Hp & Hs). simpl in Hp.
  exists l. unfold NewIncludersSet. rewrite E. split_and!; [done..|].
  intros Hnd l' Hp' Hs'. apply sorted_unique; [by rewrite Hp', Hp| |done..].
  by rewrite Hp'.
Qed.

Section witness.
Import CryptoInstance.ToyEd25519.

Definition sample_entry (b : byte) (stake : Z) : option (Includer ed25519.PublicKey) :=
  NewIncluder (Some (key_of b)) stake.

Lemma TotalStake_exact_witness :
  let incl := MkIncluders [sample_entry x01 5; sample_entry x02 7] 0 in
  (TotalStake incl).2 = Ok 12.
Proof.
  intros incl. destruct (TotalStake_exact incl) as [H _].
  - repeat constructor; try (by eexists); vm_compute; discriminate.
  - reflexivity.
  - destruct H as [H _]; [vm_compute; discriminate|]. rewrite H. reflexivity.
Defined.

Lemma NewIncludersSet_sorted_witness :
  exists l, NewIncludersSet [sample_entry x02 5; sample_entry x01 5; sample_entry x03 7] =
              Ok (MkIncluders l 0) /\
            l = [sample_entry x03 7; sample_entry x01 5; sample_entry x02 5].
Proof.
  destruct (NewIncludersSet_sorted
    [sample_entry x02 5; sample_entry x01 5; sample_entry x03 7]) as (l & E & _).
  - repeat constructor; try (by eexists); vm_compute; discriminate.
  - exists l. split; [exact E|].
    assert (NewIncludersSet [sample_entry x02 5; sample_entry x01 5; sample_entry x03 7] =
      Ok (MkIncluders [sample_entry x03 7; sample_entry x01 5; sample_entry x02 5] 0)) as E'
      by (vm_compute; reflexivity).
    rewrite E' in E. injection E as E. symmetry. exact E.
Defined.
End witness.
