(* ===== verification/Quorum.v ===== *)
(** The stake-weighted quorum and its certificates: [dag/quorum/quorum.go] and
    [dag/quorum/certificate.go].

    Certificates are shared objects: the quorum's map, the callers of [Get] and
    the result of [List] hold pointers to them.  The state [Quorum] holds the
    quorum's fields and the heap of the certificates it has allocated; a
    [*certificate] is an index in that heap. *)

From S2P Require Import Prelude Crypto Rebro Includers.

Definition faultDenominator : Z := 3.
Definition faultNumerator : Z := 2.

Record certificate (I : Type) := MkCertificate {
  cert_msg : Message I;
  cert_signatures : list Signature;
  cert_activeStake : Z;
  cert_completed : bool;
}.
Arguments MkCertificate {I} _ _ _ _.
Arguments cert_msg {I} _.
Arguments cert_signatures {I} _.
Arguments cert_activeStake {I} _.
Arguments cert_completed {I} _.

Record Quorum (I K : Type) := MkQuorum {
  q_includers : Includers K;
  q_certificates : gmap bytes nat;
  q_activeStake : Z;
  q_heap : list (certificate I);
}.
Arguments MkQuorum {I K} _ _ _ _.
Arguments q_includers {I K} _.
Arguments q_certificates {I K} _.
Arguments q_activeStake {I K} _.
Arguments q_heap {I K} _.

Section quorum.
Context {I K : Type} {MI : MessageID I} {PK : Crypto.PubKey K} {MO : MapOrder}.

Definition set_includers (i : Includers K) (q : Quorum I K) : Quorum I K :=
  MkQuorum i (q_certificates q) (q_activeStake q) (q_heap q).
Definition set_certificates (m : gmap bytes nat) (q : Quorum I K) : Quorum I K :=
  MkQuorum (q_includers q) m (q_activeStake q) (q_heap q).
Definition set_activeStake (s : Z) (q : Quorum I K) : Quorum I K :=
  MkQuorum (q_includers q) (q_certificates q) s (q_heap q).
Definition set_heap (h : list (certificate I)) (q : Quorum I K) : Quorum I K :=
  MkQuorum (q_includers q) (q_certificates q) (q_activeStake q) h.

(** ** quorum.go *)

Definition NewQuorum (incl : Includers K) : Quorum I K := MkQuorum incl ∅ 0 [].

Definition newCertificate (msg : Message I) : St (Quorum I K) nat := fun q =>
  (set_heap (q_heap q ++ [MkCertificate msg [] 0 false]) q, Ok (length (q_heap q))).

Definition Quorum_Add (msg : Message I) : St (Quorum I K) unit :=
  id ← lift (nonnil (msgID msg));
  incl ← gets q_includers;
  signer ← lift (GetByPubKey incl (mid_Signer id));
  match signer with
  | None => throw (ErrNew "signer is not a part of the includers set")
  | Some _ =>
      certs ← gets q_certificates;
      match certs !! mid_String id with
      | Some _ => throw (ErrNew "certificate exists")
      | None =>
          cert ← newCertificate msg;
          modify (fun q => set_certificates (<[mid_String id := cert]> (q_certificates q)) q)
      end
  end.

Definition Quorum_Get (id : I) (q : Quorum I K) : option nat :=
  q_certificates q !! mid_String id.

Definition Quorum_Delete (id : I) : St (Quorum I K) bool := fun q =>
  match q_certificates q !! mid_String id with
  | None => (q, Ok false)
  | Some _ => (set_certificates (delete (mid_String id) (q_certificates q)) q, Ok true)
  end.

Definition Quorum_List (q : Quorum I K) : list nat :=
  omap (fun '(_, c) =>
          match q_heap q !! c with
          | Some cert => if cert_completed cert then Some c else None
          | None => None
          end) (range (q_certificates q)).

Definition stakeRequired : St (Quorum I K) Z :=
  t ← zoom q_includers set_includers TotalStake;
  mret (i64 (Z.quot (i64 (t * faultNumerator)) faultDenominator + 1)).

Definition Quorum_Finalize : St (Quorum I K) bool :=
  stake ← gets q_activeStake;
  req ← stakeRequired;
  mret (bool_decide (req <= stake)).

(** Dereferencing a [*certificate]. *)
Definition load (c : nat) : St (Quorum I K) (certificate I) := fun q =>
  (q, nonnil (q_heap q !! c)).

Definition store (c : nat) (f : certificate I -> certificate I) : St (Quorum I K) unit :=
  modify (fun q => set_heap (alter f c (q_heap q)) q).

Definition append_signature (s : Signature) (stake : Z) (cert : certificate I) : certificate I :=
  MkCertificate (cert_msg cert) (cert_signatures cert ++ [s])
    (safeAddClip (cert_activeStake cert) stake) (cert_completed cert).

Definition set_completed (b : bool) (cert : certificate I) : certificate I :=
  MkCertificate (cert_msg cert) (cert_signatures cert) (cert_activeStake cert) b.

(** [for _, signature := range cert.signatures { if bytes.Equal(...) }] *)
Definition has_signer (s : Signature) (sigs : list Signature) : bool :=
  existsb (fun signature => bytes_Equal (Signer signature) (Signer s)) sigs.

Definition addSignature (s : Signature) (c : nat) : St (Quorum I K) bool :=
  incl ← gets q_includers;
  signer ← lift (GetByPubKey incl (Signer s));
  match signer with
  | None => throw (ErrNew "the signer is not a part of includers set")
  | Some signer =>
      cert ← load c;
      if has_signer s (cert_signatures cert)
      then throw (ErrNew "duplicate signature from the signer")
      else
        store c (append_signature s (Stake signer)) ;;
        if cert_completed cert then mret true
        else
          req ← stakeRequired;
          cert ← load c;
          store c (set_completed (bool_decide (req <= cert_activeStake cert))) ;;
          if negb (bool_decide (req <= cert_activeStake cert)) then mret false
          else
            id ← lift (nonnil (msgID (cert_msg cert)));
            incl ← gets q_includers;
            includer ← lift (GetByPubKey incl (mid_Signer id));
            includer ← lift (nonnil includer);
            modify (fun q => set_activeStake (safeAddClip (q_activeStake q) (Stake includer)) q) ;;
            mret true
  end.

(** ** certificate.go *)

Definition empty_message : Message I := MkMessage None None.

Definition certificate_Message (c : nat) (q : Quorum I K) : Message I :=
  from_option cert_msg empty_message (q_heap q !! c).
Definition certificate_Signatures (c : nat) (q : Quorum I K) : list Signature :=
  from_option cert_signatures [] (q_heap q !! c).
Definition certificate_AddSignature (c : nat) (s : Signature) : St (Quorum I K) bool :=
  addSignature s c.

#[export] Instance Quorum_QuorumCertificate : QuorumCertificate I (Quorum I K) := {|
  Certificate := nat;
  Cert_Message := certificate_Message;
  Cert_Signatures := certificate_Signatures;
  Cert_AddSignature := certificate_AddSignature;
  Add := Quorum_Add;
  Get := Quorum_Get;
  Delete := Quorum_Delete;
  List := Quorum_List;
  Finalize := Quorum_Finalize;
|}.
End quorum.

(** ** Signing never moves the bindings of the quorum *)

Section frame.
Context {I K : Type} {MI : MessageID I} {PK : Crypto.PubKey K} {MO : MapOrder}.
Implicit Type q : Quorum I K.

Lemma Quorum_eq q q' :
  q_includers q = q_includers q' -> q_certificates q = q_certificates q' ->
  q_activeStake q = q_activeStake q' -> q_heap q = q_heap q' -> q = q'.
Proof. destruct q, q'; simpl; congruence. Qed.

(** What a signature may not change. *)
Abbreviation certs_frame := (same_on (q_certificates (I:=I) (K:=K))).

Lemma stakeRequired_frame q q' r :
  stakeRequired q = (q', r) ->
  q_certificates q' = q_certificates q /\ q_activeStake q' = q_activeStake q /\
  q_heap q' = q_heap q.
Proof.
  unfold stakeRequired. intros H. st_unfold_in H.
  destruct (TotalStake (q_includers q)) as [i [a|e|w|w]]; by simplify_eq/=.
Qed.

Lemma addSignature_certificates s c :
  frame certs_frame (addSignature s c).
Proof.
  assert (frame certs_frame stakeRequired) by (by intros q q' r (?&_)%stakeRequired_frame).
  unfold addSignature, load, store. solve_frame; try done.
  all: by intros q q' r [= <- <-].
Qed.
End frame.

Section laws.
Context {I K : Type} {MI : MessageID I} {PK : Crypto.PubKey K} {MO : MapOrder}.
Implicit Type q : Quorum I K.

(** [Add] either fails and changes nothing, or binds a fresh certificate. *)
Lemma Quorum_Add_inv msg q q' r :
  Quorum_Add msg q = (q', r) ->
  (is_Ok r = false /\ q' = q) \/
  (exists id i, r = Ok tt /\ msgID msg = Some id /\
     GetByPubKey (q_includers q) (mid_Signer id) = Ok (Some i) /\
     q_certificates q !! mid_String id = None /\
     q' = MkQuorum (q_includers q)
            (<[mid_String id := length (q_heap q)]> (q_certificates q))
            (q_activeStake q) (q_heap q ++ [MkCertificate msg [] 0 false])).
Proof.
  unfold Quorum_Add, newCertificate. intros H. st_unfold_in H.
  destruct (msgID msg) as [id|] eqn:Eid; simpl in H; [|by (simplify_eq; left)].
  destruct (GetByPubKey (q_includers q) (mid_Signer id)) as [[i|]|e|w|w] eqn:Eg;
    simpl in H; [|by (simplify_eq; left)..].
  destruct (q_certificates q !! mid_String id) eqn:Ec; simpl in H;
    [by simplify_eq; left|].
  injection H as <- <-. right. by exists id, i.
Qed.

#[export] Instance Quorum_laws : QuorumLaws I (Quorum I K).
Proof.
  split; unfold Get, Add, Delete, Finalize, Cert_AddSignature, Quorum_QuorumCertificate,
    Quorum_Get.
  - intros q id id' H. by rewrite H.
  - intros q q' msg id H Hid.
    apply Quorum_Add_inv in H as [[? _]|(id' & i & _ & Hid' & _ & _ & ->)]; [done|].
    simplify_eq/=. split; [by rewrite lookup_insert_eq|].
    intros id'' Hne. by rewrite lookup_insert_ne.
  - intros q q' msg H.
    apply Quorum_Add_inv in H as [[? _]|(id' & i & _ & Hid' & _)]; [done|]. by eexists.
  - intros q q' msg r H Hr id'.
    apply Quorum_Add_inv in H as [[_ ->]|(id & i & -> & _)]; done.
  - intros q q' id r H id' Hne. unfold Quorum_Delete in H.
    case_match; simplify_eq/=; [|done]. by rewrite lookup_delete_ne.
  - intros q q' id H. unfold Quorum_Delete in H. case_match; by simplify_eq/=.
  - intros q q' id H. unfold Quorum_Delete in H.
    case_match; simplify_eq/=. by rewrite lookup_delete_eq.
  - intros q q' c s r H id'. by rewrite (addSignature_certificates s c q q' r H).
  - intros q q' r H id'. unfold Quorum_Finalize in H. st_unfold_in H.
    destruct (stakeRequired q) as [q1 [a|e|w|w]] eqn:E; simplify_eq/=;
      apply stakeRequired_frame in E as (E & _ & _); by rewrite E.
Qed.
End laws.

(** ** The quorum invariant *)

Section invariant.
Context {I K : Type} {MI : MessageID I} {PK : Crypto.PubKey K} {PL : PubKeyLaws K}
  {MO : MapOrder}.
Implicit Type q : Quorum I K.

(** [TotalStake*2/3 + 1], as an unbounded integer. *)
Definition required (t : Z) : Z := Z.quot (t * 2) 3 + 1.

(** More than two thirds of the stake, and not one unit more than needed. *)
Lemma required_two_thirds t x : 0 <= t -> required t <= x <-> 2 * t < 3 * x.
Proof.
  intros Ht. unfold required. rewrite Z.quot_div_nonneg by lia.
  pose proof (Z.div_mod (t * 2) 3 ltac:(lia)).
  pose proof (Z.mod_pos_bound (t * 2) 3 ltac:(lia)). lia.
Qed.

Lemma required_pos t : 0 <= t -> 1 <= required t.
Proof. intros. unfold required. pose proof (Z.quot_pos (t * 2) 3). lia. Qed.

Definition members q : list (option (Includer K)) := includers (q_includers q).

Definition signers (cert : certificate I) : list bytes :=
  map (fun s => sl (Signer s)) (cert_signatures cert).

Definition producer (cert : certificate I) : option bytes :=
  (fun id => sl (mid_Signer id)) <$> msgID (cert_msg cert).

Definition producer_stake (l : list (option (Includer K))) (cert : certificate I) : Z :=
  match producer cert with Some b => stake_of l b | None => 0 end.

Definition is_member (l : list (option (Includer K))) (b : bytes) : Prop :=
  exists i, find_includer l b = Ok (Some i).

(** A certificate: issued by a member, signed by distinct members, its stake
    the sum of theirs, completed when that stake reaches the requirement. *)
Record wf_cert (l : list (option (Includer K))) (cert : certificate I) : Prop := {
  wc_producer : exists b, producer cert = Some b /\ is_member l b;
  wc_nodup : NoDup (signers cert);
  wc_members : forall b, b ∈ signers cert -> is_member l b;
  wc_stake : cert_activeStake cert = sumZ (stake_of l) (signers cert);
  wc_completed : cert_completed cert = bool_decide (required (total l) <= cert_activeStake cert);
}.

Definition completed (h : list (certificate I)) : list (certificate I) :=
  filter (fun c => cert_completed c = true) h.

Record wf_quorum q : Prop := {
  wq_includers : wf_includers (q_includers q);
  wq_certs : forall c cert, q_heap q !! c = Some cert -> wf_cert (members q) cert;
  wq_stake : q_activeStake q =
    Z.min MaxInt64 (sumZ (producer_stake (members q)) (completed (q_heap q)));
  wq_bind : forall k c, q_certificates q !! k = Some c ->
    exists cert id, q_heap q !! c = Some cert /\ msgID (cert_msg cert) = Some id /\
      mid_String id = k;
}.

Lemma wf_quorum_valid q : wf_quorum q -> valid (members q).
Proof. by intros [[? _] _ _ _]. Qed.

Lemma wf_total_bounds q : wf_quorum q -> 0 <= total (members q) <= MaxStake.
Proof. intros [[Hv [Hm _]] _ _ _]. split; [by apply total_nonneg|done]. Qed.

Lemma required_i64 t :
  0 <= t <= MaxStake ->
  i64 (Z.quot (i64 (t * faultNumerator)) faultDenominator + 1) = required t.
Proof.
  intros Ht. unfold faultNumerator, faultDenominator, required.
  pose proof MaxStake_val. rewrite (i64_id (t * 2)) by i64_lia.
  rewrite i64_id; [done|]. rewrite Z.quot_div_nonneg by lia.
  pose proof (Z.div_le_upper_bound (t * 2) 3 (t * 2)). pose proof (Z.div_pos (t * 2) 3).
  i64_lia.
Qed.

Lemma stakeRequired_wf q :
  wf_includers (q_includers q) ->
  exists i, stakeRequired q = (set_includers i q, Ok (required (total (members q)))) /\
    includers i = members q /\ wf_includers i.
Proof.
  intros Hw. destruct (TotalStake_wf _ Hw) as (i & E & Hi & Hw').
  exists i. split; [|done]. unfold stakeRequired. st_unfold. rewrite E. simpl.
  unfold members. rewrite required_i64; [done|].
  destruct Hw as (Hv & Hm & _). split; [by apply total_nonneg|done].
Qed.

Lemma has_signer_iff s cert :
  has_signer s (cert_signatures cert) = true <-> sl (Signer s) ∈ signers cert.
Proof.
  unfold has_signer, signers, bytes_Equal. rewrite existsb_exists, list_elem_of_fmap.
  split.
  - intros (x & Hx & E%bool_decide_eq_true). exists x.
    split; [done|]. by apply list_elem_of_In.
  - intros (x & -> & Hx%list_elem_of_In). exists x. split; [done|].
    by apply bool_decide_eq_true.
Qed.

Lemma signers_stake_bounds l bs : valid l -> NoDup bs ->
  0 <= sumZ (stake_of l) bs <= total l.
Proof.
  intros Hv Hnd. split; [|by apply distinct_le_total].
  apply sumZ_nonneg. intros. by apply stake_of_nonneg.
Qed.

(** *** What a signature does *)

(** The certificate after a fresh signature by a member. *)
Definition signed (l : list (option (Includer K))) (s : Signature) (cert : certificate I)
  : certificate I :=
  let stake := cert_activeStake cert + stake_of l (sl (Signer s)) in
  MkCertificate (cert_msg cert) (cert_signatures cert ++ [s]) stake
    (bool_decide (required (total l) <= stake)).

Lemma signers_signed l s cert : signers (signed l s cert) = signers cert ++ [sl (Signer s)].
Proof. unfold signers, signed. simpl. by rewrite map_app. Qed.

Lemma wf_signed l s cert :
  wf_cert l cert -> is_member l (sl (Signer s)) -> sl (Signer s) ∉ signers cert ->
  wf_cert l (signed l s cert).
Proof.
  intros [Hp Hn Hm Hs Hc] Hmem Hnew. split; [done|..]; rewrite ?signers_signed; simpl.
  - apply NoDup_app. split_and!; [done| |by apply NoDup_singleton]. set_solver.
  - set_solver.
  - rewrite Hs, sumZ_app. simpl. lia.
  - done.
Qed.

Inductive sign_result q (s : Signature) (c : nat) (cert : certificate I)
  : Quorum I K -> res bool -> Prop :=
| sign_stranger e :
    ~ is_member (members q) (sl (Signer s)) -> sign_result q s c cert q (Err e)
| sign_duplicate e :
    sl (Signer s) ∈ signers cert -> sign_result q s c cert q (Err e)
| sign_fresh i cert' :
    is_member (members q) (sl (Signer s)) -> sl (Signer s) ∉ signers cert ->
    includers i = members q -> wf_includers i ->
    cert' = signed (members q) s cert ->
    sign_result q s c cert
      (MkQuorum i (q_certificates q)
         (if negb (cert_completed cert) && cert_completed cert'
          then safeAddClip (q_activeStake q) (producer_stake (members q) cert)
          else q_activeStake q)
         (<[c := cert']> (q_heap q)))
      (Ok (cert_completed cert')).

(** What the two stores of [addSignature] make of the certificate. *)
Lemma append_signature_exact q s cert i :
  wf_quorum q -> wf_cert (members q) cert -> sl (Signer s) ∉ signers cert ->
  find_includer (members q) (sl (Signer s)) = Ok (Some i) ->
  append_signature s (Stake i) cert =
    MkCertificate (cert_msg cert) (cert_signatures cert ++ [s])
      (cert_activeStake cert + stake_of (members q) (sl (Signer s))) (cert_completed cert) /\
  0 <= stake_of (members q) (sl (Signer s)).
Proof.
  intros Hw Hwc Hnew Ei. pose proof (wf_quorum_valid q Hw) as Hv.
  pose proof (wf_total_bounds q Hw) as Ht.
  pose proof (wf_signed _ s cert Hwc ltac:(by eexists) Hnew) as Hwc'.
  pose proof (signers_stake_bounds (members q) _ Hv (wc_nodup _ _ Hwc')) as Hb'.
  rewrite <- (wc_stake _ _ Hwc') in Hb'. simpl in Hb'.
  pose proof (signers_stake_bounds (members q) _ Hv (wc_nodup _ _ Hwc)) as Hb.
  rewrite <- (wc_stake _ _ Hwc) in Hb. pose proof MaxStake_val.
  pose proof (stake_of_nonneg (members q) (sl (Signer s)) Hv) as Hst0. split; [|done].
  unfold append_signature. rewrite (find_includer_stake _ _ _ Ei).
  rewrite safeAddClip_exact; [done|i64_lia..].
Qed.

Lemma has_signer_new s cert : sl (Signer s) ∉ signers cert -> has_signer s (cert_signatures cert) = false.
Proof.
  intros H. destruct (has_signer s (cert_signatures cert)) eqn:E; [|done].
  by apply has_signer_iff in E.
Qed.

(** A new signature of a member, once the certificate is complete. *)
Lemma addSignature_completed q s c cert i :
  wf_quorum q -> q_heap q !! c = Some cert -> sl (Signer s) ∉ signers cert ->
  find_includer (members q) (sl (Signer s)) = Ok (Some i) -> cert_completed cert = true ->
  exists q' r, addSignature s c q = (q', r) /\ sign_result q s c cert q' r.
Proof.
  intros Hw Hc Hnew Ei Ecomp. pose proof (wq_certs q Hw c cert Hc) as Hwc.
  destruct (append_signature_exact q s cert i Hw Hwc Hnew Ei) as [Eapp Hst0].
  rewrite Ecomp in Eapp. assert (is_member (members q) (sl (Signer s))) as Hmem by (by eexists).
  unfold addSignature, load, store, GetByPubKey. st_unfold. fold (members q).
  rewrite Ei. cbn beta iota. rewrite Hc. cbn [nonnil].
  rewrite (has_signer_new _ _ Hnew).
  rewrite Ecomp. assert (signed (members q) s cert = append_signature s (Stake i) cert) as Esig.
  { rewrite Eapp. unfold signed. f_equal. apply bool_decide_eq_true.
    rewrite (wc_completed _ _ Hwc) in Ecomp. apply bool_decide_eq_true in Ecomp. lia. }
  eexists _, _. split; [done|]. rewrite (alter_insert_hd _ _ _ _ Hc). rewrite <- Esig.
  replace true with (cert_completed (signed (members q) s cert)) at 1 by (by rewrite Esig, Eapp).
  change (set_heap _ q) with (MkQuorum (q_includers q) (q_certificates q)
    (q_activeStake q) (<[c:=signed (members q) s cert]> (q_heap q))).
  pose proof (sign_fresh q s c cert (q_includers q) _ Hmem Hnew eq_refl
                (wq_includers q Hw) eq_refl) as G.
  by rewrite Ecomp in G.
Qed.

(** A new signature of a member that may complete the certificate. *)
Lemma addSignature_open q s c cert i :
  wf_quorum q -> q_heap q !! c = Some cert -> sl (Signer s) ∉ signers cert ->
  find_includer (members q) (sl (Signer s)) = Ok (Some i) -> cert_completed cert = false ->
  exists q' r, addSignature s c q = (q', r) /\ sign_result q s c cert q' r.
Proof.
  intros Hw Hc Hnew Ei Ecomp. pose proof (wq_certs q Hw c cert Hc) as Hwc.
  destruct (append_signature_exact q s cert i Hw Hwc Hnew Ei) as [Eapp Hst0].
  rewrite Ecomp in Eapp. assert (is_member (members q) (sl (Signer s))) as Hmem by (by eexists).
  unfold addSignature, load, store, GetByPubKey. st_unfold. fold (members q).
  rewrite Ei. cbn beta iota. rewrite Hc. cbn [nonnil].
  rewrite (has_signer_new _ _ Hnew).
  rewrite Ecomp. set (q1 := set_heap (alter (append_signature s (Stake i)) c (q_heap q)) q).
  destruct (stakeRequired_wf q1 (wq_includers q Hw)) as (j & Ej & Hj & Hwj).
  change (members q1) with (members q) in Ej, Hj.
  rewrite Ej. cbn beta iota. cbn [q_heap set_includers q1 set_heap].
  rewrite list_lookup_alter_eq, Hc. cbn [nonnil fmap option_fmap option_map].
  rewrite list_alter_fuse, (alter_insert_hd _ _ _ _ Hc), Eapp.
  unfold set_completed. cbn [cert_activeStake cert_msg cert_signatures].
  change (MkCertificate (cert_msg cert) (cert_signatures cert ++ [s]) _
    (bool_decide (required (total (members q)) <= _))) with (signed (members q) s cert).
  pose proof (sign_fresh q s c cert j _ Hmem Hnew Hj Hwj eq_refl) as G.
  rewrite Ecomp in G. simpl negb in G. rewrite andb_true_l in G.
  change (cert_completed (signed (members q) s cert)) with
    (bool_decide (required (total (members q)) <=
       cert_activeStake cert + stake_of (members q) (sl (Signer s)))) in G.
  destruct (bool_decide (required (total (members q)) <=
    cert_activeStake cert + stake_of (members q) (sl (Signer s)))) eqn:Ereq; cbn [negb]; cbn beta iota;
    [|by eexists _, _].
  destruct (wc_producer _ _ Hwc) as (b & Hb1 & (p & Hp)).
  unfold producer_stake in G. rewrite Hb1 in G.
  unfold producer in Hb1. destruct (msgID (cert_msg cert)) as [id|]; [|done].
  injection Hb1 as <-. cbn [nonnil q_includers set_includers set_heap negb]. cbn beta iota.
  cbn [q_includers set_includers set_heap].
  rewrite Hj, Hp. cbn [nonnil]. eexists _, _. split; [done|].
  rewrite (find_includer_stake _ _ _ Hp). exact G.
Qed.

Lemma addSignature_spec q s c cert :
  wf_quorum q -> q_heap q !! c = Some cert ->
  exists q' r, addSignature s c q = (q', r) /\ sign_result q s c cert q' r.
Proof.
  intros Hw Hc. pose proof (wf_quorum_valid q Hw) as Hv.
  destruct (find_includer_valid (members q) (sl (Signer s)) Hv) as [[i|] Ei].
  - destruct (has_signer s (cert_signatures cert)) eqn:Hs.
    + unfold addSignature, load, store, GetByPubKey. st_unfold. fold (members q).
      rewrite Ei. cbn beta iota. rewrite Hc. cbn [nonnil]. rewrite Hs.
      eexists _, _. split; [done|]. by apply sign_duplicate, has_signer_iff.
    + assert (sl (Signer s) ∉ signers cert) as Hnew by (rewrite <- has_signer_iff, Hs; done).
      destruct (cert_completed cert) eqn:Ecomp;
        [by eapply addSignature_completed|by eapply addSignature_open].
  - unfold addSignature, load, store, GetByPubKey. st_unfold. fold (members q).
    rewrite Ei. cbn beta iota. eexists _, _. split; [done|]. apply sign_stranger. intros [? ?]; congruence.
Qed.
End invariant.

(** ** Every operation preserves the invariant *)

Section preservation.
Context {I K : Type} {MI : MessageID I} {PK : Crypto.PubKey K} {PL : PubKeyLaws K}
  {MO : MapOrder}.
Implicit Type q : Quorum I K.

(** The stake of a certificate, counted only once it is completed. *)
Definition counted (l : list (option (Includer K))) (cert : certificate I) : Z :=
  if cert_completed cert then producer_stake l cert else 0.

Lemma completed_sum l h : sumZ (producer_stake l) (completed h) = sumZ (counted l) h.
Proof.
  unfold completed. induction h as [|c h IH]; [done|].
  rewrite filter_cons, sumZ_cons, <- IH. unfold counted.
  destruct (cert_completed c); [rewrite decide_True by done|rewrite decide_False by done]; done.
Qed.

Lemma producer_stake_nonneg l cert : valid l -> 0 <= producer_stake l cert.
Proof. intros. unfold producer_stake. destruct (producer cert); [by apply stake_of_nonneg|lia]. Qed.

Lemma counted_nonneg l cert : valid l -> 0 <= counted l cert.
Proof. intros. unfold counted. destruct (cert_completed cert); [by apply producer_stake_nonneg|lia]. Qed.

Lemma producer_stake_le l cert : valid l -> producer_stake l cert <= total l.
Proof.
  intros Hv. unfold producer_stake. destruct (producer cert); [by apply stake_of_le_total|].
  by apply total_nonneg.
Qed.

Lemma wf_NewQuorum (incl : Includers K) :
  wf_includers incl -> wf_quorum (NewQuorum (I:=I) incl).
Proof. intros H. split; simpl; [done| | |]; done. Qed.

(** Saturating addition tracks the saturated sum. *)
Lemma clip_saturates a b :
  0 <= a -> 0 <= b <= MaxInt64 ->
  safeAddClip (Z.min MaxInt64 a) b = Z.min MaxInt64 (a + b).
Proof. intros. rewrite safeAddClip_clamp_lemma by i64_lia. i64_lia. Qed.

Lemma wf_sign_result q s c cert q' r :
  wf_quorum q -> q_heap q !! c = Some cert -> sign_result q s c cert q' r -> wf_quorum q'.
Proof.
  intros Hw Hc Hr. destruct Hr as [e Hm|e Hd|i cert' Hm Hnew Hi Hwi ->]; [done..|].
  pose proof (wf_quorum_valid q Hw) as Hv. pose proof (wf_total_bounds q Hw) as Ht.
  pose proof (wq_certs q Hw c cert Hc) as Hwc.
  pose proof (wf_signed _ s cert Hwc Hm Hnew) as Hwc'.
  pose proof (lookup_lt_Some _ _ _ Hc) as Hlt.
  split; unfold members; cbn [q_includers q_certificates q_activeStake q_heap];
    rewrite ?Hi; fold (members q).
  - done.
  - intros d dcert Hd. destruct (decide (d = c)) as [->|Hne].
    + rewrite list_lookup_insert_eq in Hd by done. injection Hd as <-. done.
    + rewrite list_lookup_insert_ne in Hd by done. by apply (wq_certs q Hw d).
  - rewrite completed_sum, (sumZ_insert _ _ _ _ _ Hc), <- completed_sum.
    pose proof (wq_stake q Hw) as Hs.
    set (S := sumZ (producer_stake (members q)) (completed (q_heap q))) in *.
    assert (0 <= S) by (apply sumZ_nonneg; intros; by apply producer_stake_nonneg).
    pose proof (producer_stake_le (members q) cert Hv).
    pose proof (producer_stake_nonneg (members q) cert Hv).
    assert (producer_stake (members q) (signed (members q) s cert) =
            producer_stake (members q) cert) as Eps by done.
    unfold counted. rewrite Eps. pose proof MaxStake_val.
    assert (cert_completed cert = true -> cert_completed (signed (members q) s cert) = true) as Hmono.
    { rewrite (wc_completed _ _ Hwc), !bool_decide_eq_true. simpl.
      pose proof (stake_of_nonneg (members q) (sl (Signer s)) Hv).
      rewrite bool_decide_eq_true. lia. }
    destruct (cert_completed cert) eqn:E1.
    + rewrite Hmono by done. simpl. rewrite Hs. f_equal. lia.
    + simpl negb. rewrite andb_true_l.
      destruct (cert_completed (signed (members q) s cert)).
      * rewrite Hs, clip_saturates by i64_lia. f_equal. lia.
      * rewrite Hs. f_equal. lia.
  - intros k d Hk. destruct (wq_bind q Hw k d Hk) as (dc & id & Hd & Hid & Es).
    destruct (decide (d = c)) as [->|Hne].
    + rewrite list_lookup_insert_eq by done. rewrite Hc in Hd. injection Hd as ->.
      eexists _, id. by split_and!.
    + rewrite list_lookup_insert_ne by done. eauto.
Qed.

Lemma wf_Add q msg q' r :
  wf_quorum q -> is_Some (msgID msg) -> Quorum_Add msg q = (q', r) ->
  wf_quorum q' /\ (r = Ok tt \/ exists e, r = Err e).
Proof.
  intros Hw [id Hid] H. pose proof (wf_quorum_valid q Hw) as Hv.
  assert (r = Ok tt \/ exists e, r = Err e) as Hr.
  { unfold Quorum_Add, newCertificate in H. rewrite Hid in H. st_unfold_in H. simpl in H.
    unfold GetByPubKey in H.
    destruct (find_includer_valid _ (sl (mid_Signer id)) Hv) as [[i|] E];
      unfold members in E; rewrite E in H; simpl in H.
    - destruct (q_certificates q !! mid_String id); simpl in H; simplify_eq; eauto.
    - simplify_eq; eauto. }
  split; [|done].
  apply Quorum_Add_inv in H as [[_ ->]|(id' & i & _ & Hid' & Hg & Hfresh & ->)]; [done|].
  simplify_eq. destruct Hw as [Hi Hcs Hst Hb].
  split; unfold members; cbn [q_includers q_certificates q_activeStake q_heap].
  - done.
  - intros c cert Hc. apply lookup_app_Some in Hc as [Hc|[_ Hc]]; [by apply (Hcs c)|].
    apply list_lookup_singleton_Some in Hc as [_ <-].
    split; simpl; [|by constructor|by intros b ?%elem_of_nil|done|].
    + exists (sl (mid_Signer id)). unfold producer. simpl. rewrite Hid. simpl.
      split; [done|]. by exists i.
    + symmetry. apply bool_decide_eq_false.
      pose proof (required_pos (total (includers (q_includers q))) (total_nonneg _ Hv)). lia.
  - rewrite Hst, !completed_sum, sumZ_app. f_equal. simpl.
    change (counted _ (MkCertificate msg [] 0 false)) with 0. unfold members. lia.
  - intros k c Hk. destruct (decide (k = mid_String id)) as [->|Hne].
    + rewrite lookup_insert_eq in Hk. injection Hk as <-.
      rewrite list_lookup_middle by done. eexists _, id. by split_and!.
    + rewrite lookup_insert_ne in Hk by done.
      destruct (Hb k c Hk) as (cert & id' & E1 & E2 & E3).
      exists cert, id'. split_and!; [|done..].
      by apply lookup_app_l_Some.
Qed.

Lemma wf_Delete q id q' r :
  wf_quorum q -> Quorum_Delete id q = (q', r) -> wf_quorum q' /\ exists b, r = Ok b.
Proof.
  intros Hw H. unfold Quorum_Delete in H.
  destruct (q_certificates q !! mid_String id); simplify_eq; [|eauto].
  destruct Hw as [Hi Hcs Hst Hb]. split; [|eauto]. split; [done..|].
  intros k c Hk. simpl in *. apply lookup_delete_Some in Hk as [_ Hk]. by apply Hb.
Qed.

Lemma Finalize_spec q :
  wf_quorum q ->
  exists i, Quorum_Finalize q =
      (set_includers i q, Ok (bool_decide (required (total (members q)) <= q_activeStake q))) /\
    includers i = members q /\ wf_includers i.
Proof.
  intros Hw. destruct (stakeRequired_wf q (wq_includers q Hw)) as (i & E & Hi & Hwi).
  exists i. split; [|done]. unfold Quorum_Finalize. st_unfold. by rewrite E.
Qed.

Lemma wf_set_includers q i :
  wf_quorum q -> includers i = members q -> wf_includers i -> wf_quorum (set_includers i q).
Proof.
  intros [Hi Hcs Hst Hb] Hm Hwi. split; unfold members in *; simpl; rewrite ?Hm; done.
Qed.
End preservation.

(** ** Reachable quorums *)

Section reachable.
Context {I K : Type} {MI : MessageID I} {PK : Crypto.PubKey K} {PL : PubKeyLaws K}
  {MO : MapOrder}.
Implicit Type q : Quorum I K.

(** The calls a holder of the quorum and of its certificates can make. *)
Inductive qop :=
| OpAdd (msg : Message I)
| OpSign (c : nat) (s : Signature)
| OpDelete (id : I)
| OpFinalize.

Definition exec (op : qop) : St (Quorum I K) bool :=
  match op with
  | OpAdd msg => Quorum_Add msg ;; mret true
  | OpSign c s => certificate_AddSignature c s
  | OpDelete id => Quorum_Delete id
  | OpFinalize => Quorum_Finalize
  end.

(** Messages carry an identifier, and certificate pointers are ones the
    quorum handed out. *)
Definition op_ok q (op : qop) : Prop :=
  match op with
  | OpAdd msg => is_Some (msgID msg)
  | OpSign c _ => is_Some (q_heap q !! c)
  | _ => True
  end.

Inductive reachable (incl : Includers K) : Quorum I K -> Prop :=
| reach_new : reachable incl (NewQuorum incl)
| reach_op q op : reachable incl q -> op_ok q op -> reachable incl (exec op q).1.

(** [Includers] freshly built from valid includers within [MaxStake]. *)
Definition fresh_includers (incl : Includers K) : Prop :=
  valid (includers incl) /\ total (includers incl) <= MaxStake /\ totalStake incl = 0.

Lemma exec_wf q op :
  wf_quorum q -> op_ok q op ->
  wf_quorum (exec op q).1 /\ returns (exec op q).2 /\ members (exec op q).1 = members q.
Proof.
  intros Hw Hok. destruct op as [msg|c s|id|]; simpl in *.
  - destruct (Quorum_Add msg q) as [q' r] eqn:E.
    pose proof (wf_Add q msg q' r Hw Hok E) as [Hw' Hr].
    assert (members q' = members q).
    { by apply Quorum_Add_inv in E as [[_ ->]|(?&?&_&_&_&_&->)]. }
    st_unfold. rewrite E. destruct Hr as [->|[e ->]]; done.
  - destruct Hok as [cert Hc]. unfold certificate_AddSignature.
    destruct (addSignature_spec q s c cert Hw Hc) as (q' & r & E & Hr).
    rewrite E. split; [by eapply wf_sign_result|].
    destruct Hr; simpl; try done.
  - destruct (Quorum_Delete id q) as [q' r] eqn:E.
    destruct (wf_Delete q id q' r Hw E) as [Hw' [b ->]].
    split; [done|]. split; [done|]. unfold Quorum_Delete in E. case_match; by simplify_eq.
  - destruct (Finalize_spec q Hw) as (i & E & Hi & Hwi). rewrite E. simpl.
    split; [by apply wf_set_includers|]. by unfold members.
Qed.

Lemma reachable_wf incl q :
  fresh_includers incl -> reachable incl q -> wf_quorum q /\ members q = includers incl.
Proof.
  intros (Hv & Hm & Hz) Hr. induction Hr as [|q op Hr [IH1 IH2] Hok].
  - split; [|done]. apply wf_NewQuorum. split; [done|]. split; [done|by left].
  - destruct (exec_wf q op IH1 Hok) as (? & _ & E). split; [done|congruence].
Qed.

Lemma wf_cert_supermajority l cert :
  valid l -> wf_cert l cert ->
  cert_completed cert = true <-> 2 * total l < 3 * sumZ (stake_of l) (signers cert).
Proof.
  intros Hv [_ _ _ Hs Hc]. rewrite Hc, bool_decide_eq_true, Hs.
  apply required_two_thirds. by apply total_nonneg.
Qed.

(** Two lists of distinct members: what they have in common and what only
    the first has add up, and the latter fits beside the second. *)
Lemma overlap_stake l bs1 bs2 :
  valid l -> NoDup bs1 -> NoDup bs2 ->
  sumZ (stake_of l) bs1 + sumZ (stake_of l) bs2 - total l <=
    sumZ (stake_of l) (filter (fun b => b ∈ bs2) bs1).
Proof.
  intros Hv H1 H2. rewrite (sumZ_filter_split (stake_of l) (fun b => b ∈ bs2) bs1).
  assert (NoDup (filter (fun b => b ∉ bs2) bs1 ++ bs2)) as Hnd.
  { apply NoDup_app. split_and!; [by apply NoDup_filter| |done].
    by intros b [? _]%list_elem_of_filter. }
  pose proof (distinct_le_total l _ Hv Hnd) as Hle. rewrite sumZ_app in Hle. lia.
Qed.
End reachable.
Arguments qop : clear implicits.

(** ** The contract the round state machine uses *)

Section total.
Context {I K : Type} {MI : MessageID I} {PK : Crypto.PubKey K} {PL : PubKeyLaws K}
  {MO : MapOrder}.

#[export] Instance Quorum_total : QuorumTotal I (Quorum I K) wf_quorum.
Proof.
  split; unfold Add, Delete, Finalize, Cert_AddSignature, Get, Quorum_QuorumCertificate.
  - intros q q' msg r Hw Hid H. destruct (wf_Add q msg q' r Hw Hid H) as [? [->|[e ->]]]; done.
  - intros q q' id r Hw H. by apply (wf_Delete q id q' r).
  - intros q q' id c s r Hw Hg H.
    destruct (wq_bind q Hw _ _ Hg) as (cert & id' & Hc & _).
    destruct (addSignature_spec q s c cert Hw Hc) as (q1 & r1 & E & Hr).
    unfold certificate_AddSignature in H. rewrite E in H. simplify_eq.
    split; [by eapply wf_sign_result|]. by destruct Hr.
  - intros q q' r Hw H. destruct (Finalize_spec q Hw) as (i & E & Hi & Hwi).
    rewrite E in H. simplify_eq. split; [|done]. by apply wf_set_includers.
Qed.
End total.
