(* ===== verification/QuorumProps.v ===== *)
(** Properties of the stake-weighted quorum ([Quorum.v]), with the histories
    that show which of them depend on how its certificates are issued. *)

From S2P Require Import Prelude Sha256 Crypto CryptoInstance Capnp CapnpInstance Rebro Bapl Block Includers Quorum.

(** ** Sample quorums *)

Module Sample.
#[global] Existing Instance ToyCapnp.toy.
#[global] Existing Instance ToyEd25519.toy.
#[global] Existing Instance sorted_order.

Definition id_of (signer : byte) (h : byte) : blockID :=
  MkBlockID 1 (Some (repeat signer 32)) (Some (repeat h 32)).
Definition msg_of (signer h : byte) : Message blockID :=
  MkMessage (Some (id_of signer h)) (Some [h]).
Definition sig_of (signer : byte) : Signature :=
  MkSignature (Some [signer]) (Some (repeat signer 32)).

(** Four members of equal stake: three signatures complete a certificate. *)
Definition four : Includers ed25519.PublicKey :=
  MkIncluders [sample_entry x01 1; sample_entry x02 1; sample_entry x03 1; sample_entry x04 1] 0.

Lemma four_fresh : fresh_includers four.
Proof.
  split; [|split; [vm_compute; discriminate|done]].
  repeat constructor; try (by eexists); vm_compute; discriminate.
Qed.

Fixpoint execs (ops : list (qop blockID)) (q : Quorum blockID ed25519.PublicKey) :=
  match ops with
  | [] => q
  | op :: ops' => execs ops' (exec op q).1
  end.

Definition op_okb (q : Quorum blockID ed25519.PublicKey) (op : qop blockID) : bool :=
  match op with
  | OpAdd msg => bool_decide (is_Some (msgID msg))
  | OpSign c _ => bool_decide (is_Some (q_heap q !! c))
  | _ => true
  end.

Fixpoint ops_okb (ops : list (qop blockID)) (q : Quorum blockID ed25519.PublicKey) : bool :=
  match ops with
  | [] => true
  | op :: ops' => op_okb q op && ops_okb ops' (exec op q).1
  end.

Lemma execs_reachable ops q incl :
  reachable incl q -> ops_okb ops q = true -> reachable incl (execs ops q).
Proof.
  revert q. induction ops as [|op ops IH]; intros q Hq Hok; simpl in *; [done|].
  apply andb_prop in Hok as [H1 H2]. apply IH; [|done].
  apply reach_op; [done|]. destruct op; simpl in *; try done; by apply bool_decide_eq_true in H1.
Qed.

(** Member [p] issues a block with hash [h]; members 1, 2 and 3 sign it. *)
Definition certify (p h : byte) (c : nat) : list (qop blockID) :=
  [OpAdd (msg_of p h); OpSign c (sig_of x01); OpSign c (sig_of x02); OpSign c (sig_of x03)].

Definition q_one : Quorum blockID ed25519.PublicKey :=
  execs (certify x01 xaa 0) (NewQuorum four).

Lemma q_one_reachable : reachable four q_one.
Proof. apply execs_reachable; [constructor|]. vm_compute. done. Qed.
End Sample.

Section properties.
Context {I K : Type} {MI : MessageID I} {PK : Crypto.PubKey K} {PL : PubKeyLaws K}
  {MO : MapOrder}.
Implicit Types (incl : Includers K) (q : Quorum I K).

(** C28: From a fresh quorum over valid includers whose stake is within
    [MaxStake], no sequence of [Add], [AddSignature], [Delete] and [Finalize]
    ever panics or blocks: in every reachable quorum each call returns a
    value or an error. In particular the producer looked up when a
    certificate completes is never nil and no stake sum wraps around. *)
Theorem quorum_never_panics incl q op :
  fresh_includers incl -> reachable incl q -> op_ok q op ->
  returns (exec op q).2.
Proof.
  intros Hf Hr Hok. destruct (reachable_wf incl q Hf Hr) as [Hw _].
  by destruct (exec_wf q op Hw Hok) as (_ & ? & _).
Qed.

(** C13: A certificate of a reachable quorum is completed exactly when the
    stake of its signers exceeds two thirds of the total stake; the signers
    counted are distinct members of the includer set. *)
Theorem completed_iff_supermajority incl q c cert :
  fresh_includers incl -> reachable incl q -> q_heap q !! c = Some cert ->
  NoDup (signers cert) /\
  (forall b, b ∈ signers cert -> is_member (includers incl) b) /\
  (cert_completed cert = true <->
   2 * total (includers incl) < 3 * sumZ (stake_of (includers incl)) (signers cert)).
Proof.
  intros Hf Hr Hc. destruct (reachable_wf incl q Hf Hr) as [Hw Em].
  pose proof (wq_certs q Hw c cert Hc) as Hwc. rewrite Em in Hwc.
  split_and!; [apply Hwc|apply (wc_members _ _ Hwc)|].
  apply wf_cert_supermajority; [apply Hf|done].
Qed.

(** Quorum intersection: any two completed certificates, of the same
    quorum or of quorums of different nodes over the same includers, have
    common signers that hold more than a third of the total stake. *)
Theorem completed_certificates_intersect incl q1 q2 c1 c2 cert1 cert2 :
  fresh_includers incl -> reachable incl q1 -> reachable incl q2 ->
  q_heap q1 !! c1 = Some cert1 -> q_heap q2 !! c2 = Some cert2 ->
  cert_completed cert1 = true -> cert_completed cert2 = true ->
  total (includers incl) <
    3 * sumZ (stake_of (includers incl)) (filter (fun b => b ∈ signers cert2) (signers cert1)).
Proof.
  intros Hf Hr1 Hr2 Hc1 Hc2 H1 H2.
  destruct (reachable_wf incl q1 Hf Hr1) as [Hw1 Em1].
  destruct (reachable_wf incl q2 Hf Hr2) as [Hw2 Em2].
  pose proof (wq_certs q1 Hw1 c1 cert1 Hc1) as W1. rewrite Em1 in W1.
  pose proof (wq_certs q2 Hw2 c2 cert2 Hc2) as W2. rewrite Em2 in W2.
  destruct Hf as (Hv & _ & _).
  apply (wf_cert_supermajority _ _ Hv W1) in H1. apply (wf_cert_supermajority _ _ Hv W2) in H2.
  pose proof (overlap_stake _ _ _ Hv (wc_nodup _ _ W1) (wc_nodup _ _ W2)). lia.
Qed.

(** [Finalize] decides whether the stakes behind the certificates
    completed so far exceed two thirds of the total; when no producer has two
    completed certificates, a true answer means that distinct members with
    more than two thirds of the stake have each produced a completed one. *)
Theorem Finalize_supermajority incl q :
  fresh_includers incl -> reachable incl q ->
  exists q' b, Quorum_Finalize q = (q', Ok b) /\
    (b = true <->
     2 * total (includers incl) <
       3 * Z.min MaxInt64 (sumZ (producer_stake (includers incl)) (completed (q_heap q)))) /\
    (b = true -> NoDup (map producer (completed (q_heap q))) ->
     exists ps : list bytes, NoDup ps /\
       (forall p, p ∈ ps -> is_member (includers incl) p /\
          exists c cert, q_heap q !! c = Some cert /\ cert_completed cert = true /\
            producer cert = Some p) /\
       2 * total (includers incl) < 3 * sumZ (stake_of (includers incl)) ps).
Proof.
  intros Hf Hr. destruct (reachable_wf incl q Hf Hr) as [Hw Em].
  destruct (Finalize_spec q Hw) as (i & E & _ & _).
  eexists _, _. split; [exact E|].
  pose proof (total_nonneg _ (wf_quorum_valid q Hw)) as Ht.
  pose proof (wq_stake q Hw) as Hs. rewrite Em in *.
  assert (bool_decide (required (total (includers incl)) <= q_activeStake q) = true <->
    2 * total (includers incl) < 3 * Z.min MaxInt64
      (sumZ (producer_stake (includers incl)) (completed (q_heap q)))) as Hb.
  { rewrite bool_decide_eq_true, Hs. by apply required_two_thirds. }
  split; [exact Hb|]. intros Hfin Hnd. apply Hb in Hfin.
  assert (forall cert, cert ∈ completed (q_heap q) ->
    exists c b, q_heap q !! c = Some cert /\ cert_completed cert = true /\
      producer cert = Some b /\ is_member (includers incl) b) as Hall.
  { intros cert [Hcomp Hin]%list_elem_of_filter.
    apply list_elem_of_lookup in Hin as [c Hc].
    pose proof (wq_certs q Hw c cert Hc) as W. rewrite Em in W.
    destruct (wc_producer _ _ W) as (b & Hb1 & Hb2). eauto 10. }
  exists (omap producer (completed (q_heap q))). split_and!.
  - apply (NoDup_fmap_1 Some). replace (Some <$> omap producer (completed (q_heap q)))
      with (map producer (completed (q_heap q))); [done|].
    clear - Hall. induction (completed (q_heap q)) as [|cert h IH]; [done|].
    destruct (Hall cert ltac:(left)) as (_ & b & _ & _ & Hp & _).
    cbn. rewrite Hp. cbn. f_equal. apply IH. intros. apply Hall. by right.
  - intros p (cert & Hin & Hp)%list_elem_of_omap.
    destruct (Hall cert Hin) as (c & b & Hc & Hcomp & Hp' & Hm).
    simplify_eq. split; [done|]. eauto.
  - assert (sumZ (producer_stake (includers incl)) (completed (q_heap q)) =
      sumZ (stake_of (includers incl)) (omap producer (completed (q_heap q)))) as <-; [|lia].
    clear - Hall. induction (completed (q_heap q)) as [|cert h IH]; [done|].
    destruct (Hall cert ltac:(left)) as (_ & b & _ & _ & Hp & _).
    cbn. unfold producer_stake at 1. rewrite Hp. cbn. f_equal.
    apply IH. intros. apply Hall. by right.
Qed.

(** A signature changes one certificate only, and only when it is the
    first by a member: strangers and repeated signers get an error and leave
    the quorum as it was; otherwise the signature is appended, the answer is
    whether the certificate is now completed, and the producer's stake is
    added to the quorum's exactly when this signature completes it. *)
Theorem addSignature_effect incl q c cert s :
  fresh_includers incl -> reachable incl q -> q_heap q !! c = Some cert ->
  let l := includers incl in
  let q' := (certificate_AddSignature c s q).1 in
  let r := (certificate_AddSignature c s q).2 in
  (is_member l (sl (Signer s)) /\ sl (Signer s) ∉ signers cert ->
     exists cert', q_heap q' = <[c := cert']> (q_heap q) /\
       q_certificates q' = q_certificates q /\
       cert_msg cert' = cert_msg cert /\
       cert_signatures cert' = cert_signatures cert ++ [s] /\
       r = Ok (cert_completed cert') /\
       q_activeStake q' =
         (if negb (cert_completed cert) && cert_completed cert'
          then Z.min MaxInt64 (q_activeStake q + producer_stake l cert)
          else q_activeStake q)) /\
  (~ is_member l (sl (Signer s)) \/ sl (Signer s) ∈ signers cert ->
     q' = q /\ is_Ok r = false).
Proof.
  intros Hf Hr Hc. destruct (reachable_wf incl q Hf Hr) as [Hw Em].
  destruct (addSignature_spec q s c cert Hw Hc) as (q1 & r1 & E & Hres).
  intros l q' r. subst q' r l. unfold certificate_AddSignature.
  rewrite E. cbn [fst snd]. pose proof (wf_quorum_valid q Hw) as Hv. rewrite Em in Hv.
  destruct Hres as [e Hm|e Hd|i cert' Hm Hnew Hi Hwi ->].
  - rewrite Em in Hm. split; [|done]. tauto.
  - split; [|done]. tauto.
  - rewrite Em in *. split; [|tauto]. intros _. eexists. split_and!; try done.
    cbn [q_activeStake].
    destruct (negb (cert_completed cert) && cert_completed (signed (includers incl) s cert));
      [|done].
    rewrite safeAddClip_clamp_lemma.
    + pose proof (producer_stake_nonneg (includers incl) cert Hv).
      pose proof (wq_stake q Hw) as Hs. rewrite Em in Hs.
      assert (0 <= sumZ (producer_stake (includers incl)) (completed (q_heap q)))
        by (apply sumZ_nonneg; intros; by apply producer_stake_nonneg).
      i64_lia.
    + pose proof (wq_stake q Hw) as Hs. rewrite Em in Hs.
      assert (0 <= sumZ (producer_stake (includers incl)) (completed (q_heap q)))
        by (apply sumZ_nonneg; intros; by apply producer_stake_nonneg).
      i64_lia.
    + pose proof (producer_stake_nonneg (includers incl) cert Hv).
      pose proof (producer_stake_le (includers incl) cert Hv).
      pose proof (wf_total_bounds q Hw) as Hb. rewrite Em in Hb.
      pose proof MaxStake_val. i64_lia.
Qed.

(** [List] returns the completed certificates the quorum still holds,
    each exactly once, in whatever order the map is visited. *)
Theorem List_completed incl q :
  fresh_includers incl -> reachable incl q ->
  NoDup (Quorum_List q) /\
  forall c, c ∈ Quorum_List q <->
    exists k cert, q_certificates q !! k = Some c /\ q_heap q !! c = Some cert /\
      cert_completed cert = true.
Proof.
  intros Hf Hr. destruct (reachable_wf incl q Hf Hr) as [Hw _].
  assert (forall k c, (k, c) ∈ range (q_certificates q) -> q_certificates q !! k = Some c)
    as Hin by (intros; by apply elem_of_range).
  split.
  - unfold Quorum_List. pose proof (NoDup_range (q_certificates q)) as Hnd.
    revert Hnd Hin. induction (range (q_certificates q)) as [|[k c] kcs IH]; intros Hnd Hin.
    { constructor. }
    simpl in Hnd. apply NoDup_cons in Hnd as [Hk Hnd].
    assert (NoDup (omap (fun '(_, c0) => match q_heap q !! c0 with
        | Some cert => if cert_completed cert then Some c0 else None | None => None end) kcs))
      as IH' by (apply IH; [done|]; intros; apply Hin; by right).
    cbn. destruct (q_heap q !! c) as [cert|] eqn:Ec; [|done].
    destruct (cert_completed cert); [|done]. constructor; [|done].
    intros ([k' c'] & Hkc & Hs)%list_elem_of_omap.
    assert (c' = c) as -> by (repeat case_match; by simplify_eq).
    apply Hk. replace k with k'; [by apply (list_elem_of_fmap_2 fst _ (k', c))|].
    destruct (wq_bind q Hw k c) as (d1 & id1 & E1 & E2 & <-); [apply Hin; left|].
    destruct (wq_bind q Hw k' c) as (d2 & id2 & E3 & E4 & <-); [apply Hin; by right|].
    by simplify_eq.
  - intros c. unfold Quorum_List. rewrite list_elem_of_omap. split.
    + intros ([k c'] & Hkc%Hin & Hs). repeat case_match; simplify_eq. eauto 10.
    + intros (k & cert & Hk & Hh & Hcomp). exists (k, c).
      split; [by apply elem_of_range|]. cbn in *. by rewrite Hh, Hcomp.
Qed.
End properties.

(** ** Witnesses *)

Section witnesses.
Import Sample.

Lemma quorum_never_panics_witness :
  returns (exec (OpSign 0 (sig_of x04)) q_one).2.
Proof.
  apply (quorum_never_panics four q_one (OpSign 0 (sig_of x04)) four_fresh q_one_reachable).
  vm_compute. by eexists.
Defined.

Lemma completed_iff_supermajority_witness :
  exists cert, q_heap q_one !! 0%nat = Some cert /\ cert_completed cert = true /\
    8 < 3 * sumZ (stake_of (includers four)) (signers cert).
Proof.
  destruct (q_heap q_one !! 0%nat) as [cert|] eqn:E; [|vm_compute in E; discriminate].
  exists cert. split; [done|].
  destruct (completed_iff_supermajority four q_one 0 cert four_fresh q_one_reachable E)
    as (_ & _ & H).
  assert (cert_completed cert = true) as Hc by (vm_compute in E; injection E as <-; done).
  split; [exact Hc|]. apply H in Hc. exact Hc.
Defined.

Lemma completed_certificates_intersect_witness :
  exists cert, q_heap q_one !! 0%nat = Some cert /\
    4 < 3 * sumZ (stake_of (includers four))
          (filter (fun b => b ∈ signers cert) (signers cert)).
Proof.
  destruct (q_heap q_one !! 0%nat) as [cert|] eqn:E; [|vm_compute in E; discriminate].
  exists cert. split; [done|].
  assert (cert_completed cert = true) as Hc by (vm_compute in E; injection E as <-; done).
  exact (completed_certificates_intersect four q_one q_one 0 0 cert cert
           four_fresh q_one_reachable q_one_reachable E E Hc Hc).
Defined.

(** Three producers, each with one completed certificate. *)
Definition q_three : Quorum blockID ed25519.PublicKey :=
  execs (certify x01 xaa 0 ++ certify x02 xbb 1 ++ certify x03 xcc 2) (NewQuorum four).

Lemma Finalize_supermajority_witness :
  reachable four q_three /\ exists q', Quorum_Finalize q_three = (q', Ok true).
Proof.
  assert (reachable four q_three) as Hr
    by (apply execs_reachable; [constructor|]; vm_compute; done).
  split; [exact Hr|].
  destruct (Finalize_supermajority four q_three four_fresh Hr) as (q' & b & E & Hb & _).
  exists q'. rewrite E. f_equal. f_equal. apply Hb. vm_compute. done.
Defined.

Lemma addSignature_effect_witness :
  (certificate_AddSignature 0 (sig_of x01) q_one).1 = q_one.
Proof.
  destruct (q_heap q_one !! 0%nat) as [cert|] eqn:E; [|vm_compute in E; discriminate].
  destruct (addSignature_effect four q_one 0 cert (sig_of x01) four_fresh q_one_reachable E)
    as [_ H].
  apply H. right. vm_compute in E. injection E as <-. vm_compute. left.
Defined.

Lemma List_completed_witness : 0%nat ∈ Quorum_List q_one.
Proof.
  destruct (List_completed four q_one four_fresh q_one_reachable) as [_ H].
  destruct (q_heap q_one !! 0%nat) as [cert|] eqn:E; [|vm_compute in E; discriminate].
  apply H. exists (mid_String (id_of x01 xaa)), cert. split; [vm_compute; reflexivity|].
  split; [exact E|]. vm_compute in E. injection E as <-. reflexivity.
Defined.
End witnesses.

(** ** Histories in which the stake counted is not that of distinct producers *)

Section histories.
Import Sample.

(** One member issuing three blocks, each certified by three members. *)
Definition q_single : Quorum blockID ed25519.PublicKey :=
  execs (certify x04 xaa 0 ++ certify x04 xbb 1 ++ certify x04 xcc 2) (NewQuorum four).

(** The quorum does not limit a producer to one certificate: with four
    members of equal stake, it finalizes once a single member, who holds a
    quarter of the stake, has three certified blocks. *)
Theorem single_producer_finalizes :
  reachable four q_single /\
  (Quorum_Finalize q_single).2 = Ok true /\
  length (Quorum_List q_single) = 3%nat /\
  map producer (q_heap q_single) = replicate 3 (Some (repeat x04 32)) /\
  4 * stake_of (includers four) (repeat x04 32) = total (includers four).
Proof.
  split_and!.
  - apply execs_reachable; [constructor|]. vm_compute. done.
  - vm_compute. reflexivity.
  - vm_compute. reflexivity.
  - vm_compute. reflexivity.
  - vm_compute. reflexivity.
Qed.

(** Three members each have a certified block, and the blocks are deleted
    (as the broadcaster does when certification of the data fails). *)
Definition q_deleted : Quorum blockID ed25519.PublicKey :=
  execs [OpDelete (id_of x01 xaa); OpDelete (id_of x02 xbb); OpDelete (id_of x03 xcc)] q_three.

(** [Delete] does not give back the stake of a completed certificate: a
    quorum whose certificates were all deleted still finalizes, and then
    [List] is empty. *)
Theorem deleted_certificates_finalize :
  reachable four q_deleted /\
  (Quorum_Finalize q_deleted).2 = Ok true /\
  Quorum_List q_deleted = [].
Proof.
  split_and!.
  - apply execs_reachable; [|vm_compute; done].
    apply execs_reachable; [constructor|]. vm_compute. done.
  - vm_compute. reflexivity.
  - vm_compute. reflexivity.
Qed.
End histories.
