(* ===== verification/Round.v ===== *)
(** The state machine of a broadcasting round, sequential part:
    [rebro/gossip/internal/round/round.go] (the four handlers and the dispatch
    of [stateLoop]) and [state_op.go].

    Operations are shared objects ([*stateOp]): the loop, the subscription
    table and the calling goroutine hold pointers to them.  The state [Round]
    holds the round's fields and the heap of operations; a [*stateOp] is an
    index in that heap.  The goroutines that submit operations and the loop
    that executes them are in [RoundConc.v]. *)

From S2P Require Import Prelude Crypto Rebro.

(** ** state_op.go *)

Inductive stateOpKind := addOp | getOp | deleteOp | addSignOp.

#[export] Instance stateOpKind_eq_dec : EqDecision stateOpKind.
Proof. solve_decision. Defined.

(** What a handler sends on [doneCh]. *)
Inductive done_msg (C : Type) :=
| DoneComm (comm : C)
| DoneErr (err : option error).
Arguments DoneComm {C} _.
Arguments DoneErr {C} _.

Record stateOp (I C : Type) := MkStateOp {
  op_kind : stateOpKind;
  op_doneCh : list (done_msg C);       (* buffer of capacity 1 *)
  op_msg : option (Message I);
  op_id : option I;
  op_sig : option Signature;
  op_err : option error;
  op_comm : option C;
}.
Arguments MkStateOp {I C} _ _ _ _ _ _ _.
Arguments op_kind {I C} _.
Arguments op_doneCh {I C} _.
Arguments op_msg {I C} _.
Arguments op_id {I C} _.
Arguments op_sig {I C} _.
Arguments op_err {I C} _.
Arguments op_comm {I C} _.

Definition newStateOp {I C} (kind : stateOpKind) : stateOp I C :=
  MkStateOp kind [] None None None None None.

Definition doneCh_capacity : nat := 1.
Definition stateOperationsChannelSize : nat := 32.

(** ** round.go: the state *)

(** [chan struct{}] fields that are only ever closed are booleans. *)
Record RoundSt (I C Q : Type) := MkRound {
  roundNum : Z;
  quorum : Q;
  stateOpCh : list nat;
  getOpSubs : gmap bytes (gmap nat unit);   (* map[string]map[*stateOp]struct{} *)
  finalCh : bool;
  closeCh : bool;
  closedCh : bool;
  r_ops : list (stateOp I C);
}.
Arguments MkRound {I C Q} _ _ _ _ _ _ _ _.
Arguments roundNum {I C Q} _.
Arguments quorum {I C Q} _.
Arguments stateOpCh {I C Q} _.
Arguments getOpSubs {I C Q} _.
Arguments finalCh {I C Q} _.
Arguments closeCh {I C Q} _.
Arguments closedCh {I C Q} _.
Arguments r_ops {I C Q} _.

Definition ErrClosedRound : error := Sent SClosedRound.

Section round.
Context {I Q : Type} {MI : MessageID I} {QC : QuorumCertificate I Q} {MO : MapOrder}.

Abbreviation C := (Certificate (I:=I) (Q:=Q)).
Abbreviation R := (RoundSt I C Q).

Definition NewRound (roundNum : Z) (quorum : Q) : R :=
  MkRound roundNum quorum [] ∅ false false false [].

Definition set_quorum (q : Q) (r : R) : R :=
  MkRound (roundNum r) q (stateOpCh r) (getOpSubs r) (finalCh r) (closeCh r) (closedCh r) (r_ops r).
Definition set_stateOpCh (c : list nat) (r : R) : R :=
  MkRound (roundNum r) (quorum r) c (getOpSubs r) (finalCh r) (closeCh r) (closedCh r) (r_ops r).
Definition set_getOpSubs (m : gmap bytes (gmap nat unit)) (r : R) : R :=
  MkRound (roundNum r) (quorum r) (stateOpCh r) m (finalCh r) (closeCh r) (closedCh r) (r_ops r).
Definition set_finalCh (b : bool) (r : R) : R :=
  MkRound (roundNum r) (quorum r) (stateOpCh r) (getOpSubs r) b (closeCh r) (closedCh r) (r_ops r).
Definition set_closeCh (b : bool) (r : R) : R :=
  MkRound (roundNum r) (quorum r) (stateOpCh r) (getOpSubs r) (finalCh r) b (closedCh r) (r_ops r).
Definition set_closedCh (b : bool) (r : R) : R :=
  MkRound (roundNum r) (quorum r) (stateOpCh r) (getOpSubs r) (finalCh r) (closeCh r) b (r_ops r).
Definition set_ops (l : list (stateOp I C)) (r : R) : R :=
  MkRound (roundNum r) (quorum r) (stateOpCh r) (getOpSubs r) (finalCh r) (closeCh r) (closedCh r) l.

Definition RoundNumber (r : R) : Z := roundNum r.

(** ** Operations as objects *)

Definition load_op (op : nat) : St R (stateOp I C) := fun r => (r, nonnil (r_ops r !! op)).

Definition update_op (op : nat) (f : stateOp I C -> stateOp I C) : St R unit :=
  modify (fun r => set_ops (alter f op (r_ops r)) r).

Definition push_done (d : done_msg C) (o : stateOp I C) : stateOp I C :=
  MkStateOp (op_kind o) (op_doneCh o ++ [d]) (op_msg o) (op_id o) (op_sig o) (op_err o) (op_comm o).
Definition put_err (e : option error) (o : stateOp I C) : stateOp I C :=
  MkStateOp (op_kind o) (op_doneCh o) (op_msg o) (op_id o) (op_sig o) e (op_comm o).
Definition put_comm (c : C) (o : stateOp I C) : stateOp I C :=
  MkStateOp (op_kind o) (op_doneCh o) (op_msg o) (op_id o) (op_sig o) (op_err o) (Some c).

(** [op.doneCh <- d]: blocks while the buffer is full. *)
Definition send_done (op : nat) (d : done_msg C) : St R unit :=
  o ← load_op op;
  if bool_decide (length (op_doneCh o) < doneCh_capacity)%nat
  then update_op op (push_done d)
  else lift (Hang "send on full doneCh").

Definition SetCertificate (op : nat) (comm : C) : St R unit :=
  update_op op (put_comm comm) ;; send_done op (DoneComm comm).

Definition SetError (op : nat) (err : option error) : St R unit :=
  update_op op (put_err err) ;; send_done op (DoneErr err).

(** Runs a method of the quorum; its error becomes a value. *)
Definition on_quorum {A} (m : St Q A) : St R (A + error) := fun r =>
  let '(q, res) := m (quorum r) in
  (set_quorum q r,
   match res with
   | Ok a => Ok (inl a)
   | Err e => Ok (inr e)
   | Panic w => Panic w
   | Hang w => Hang w
   end).

(** ** The handlers *)

Definition stateAdd (op : nat) : St R unit :=
  o ← load_op op;
  msg ← lift (nonnil (op_msg o));
  res ← on_quorum (Add msg);
  match res with
  | inr err => SetError op (Some err)
  | inl _ =>
      id ← lift (nonnil (msgID msg));
      let key := mid_String id in
      subs ← gets getOpSubs;
      match subs !! key with
      | None => SetError op None
      | Some inner =>
          if bool_decide (size inner = 0%nat) then SetError op None
          else
            q ← gets quorum;
            match Get id q with
            | None => lift (Panic "certificate not found on Get after successful Put")
            | Some comm =>
                for_each (range inner).*1 (fun sub => SetCertificate sub comm) ;;
                modify (fun r => set_getOpSubs (delete key (getOpSubs r)) r) ;;
                SetError op None
            end
      end
  end.

Definition stateGet (op : nat) : St R unit :=
  o ← load_op op;
  id ← lift (nonnil (op_id o));
  q ← gets quorum;
  match Get id q with
  | Some comm => SetCertificate op comm
  | None =>
      let key := mid_String id in
      subs ← gets getOpSubs;
      let inner := default ∅ (subs !! key) in
      match inner !! op with
      | None =>
          modify (fun r => set_getOpSubs (<[key := <[op := tt]> inner]> (getOpSubs r)) r)
      | Some _ =>
          let inner' := delete op inner in
          (if bool_decide (size inner' = 0%nat)
           then modify (fun r => set_getOpSubs (delete key (getOpSubs r)) r)
           else modify (fun r => set_getOpSubs (<[key := inner']> (getOpSubs r)) r)) ;;
          SetError op None
      end
  end.

Definition stateDelete (op : nat) : St R unit :=
  o ← load_op op;
  id ← lift (nonnil (op_id o));
  res ← on_quorum (Delete id);
  match res with
  | inl true => SetError op None
  | inl false => SetError op (Some (ErrNew "coudn't delete Certificate"))
  | inr err => SetError op (Some err)
  end.

Definition stateAddSign (op : nat) : St R unit :=
  o ← load_op op;
  id ← lift (nonnil (op_id o));
  q ← gets quorum;
  match Get id q with
  | None => SetError op (Some (ErrNew "coudn't find Certificate"))
  | Some comm =>
      sig ← lift (nonnil (op_sig o));
      fin ← on_quorum (Cert_AddSignature comm sig);
      match fin with
      | inr err => SetError op (Some err)
      | inl false => SetError op None
      | inl true =>
          ok ← on_quorum Finalize;
          match ok with
          | inr err => SetError op (Some (wrapf "finalizing quorum certificate" err))
          | inl false => SetError op None
          | inl true =>
              closed ← gets finalCh;
              (if (closed : bool) then mret tt else modify (set_finalCh true)) ;;
              SetError op None
          end
      end
  end.

(** [doOp] of [stateLoop]; the kinds are exhaustive, so its default case
    does not arise. *)
Definition doOp (op : nat) : St R unit :=
  o ← load_op op;
  match op_kind o with
  | addOp => stateAdd op
  | getOp => stateGet op
  | deleteOp => stateDelete op
  | addSignOp => stateAddSign op
  end.
End round.

(** ** What each operation does to the quorum, and what it answers *)

Section spec.
Context {I Q : Type} {MI : MessageID I} {QC : QuorumCertificate I Q}.
Abbreviation C := (Certificate (I:=I) (Q:=Q)).

Inductive answer :=
| AnsErr (e : option error)
| AnsComm (c : C)
| AnsPending.

Definition err_of {A} (r : res A) : option error :=
  match r with Err e => Some e | _ => None end.

(** The operation run alone on the quorum. *)
Definition op_spec (o : stateOp I C) (q : Q) : Q * answer :=
  match op_kind o, op_msg o, op_id o, op_sig o with
  | addOp, Some msg, _, _ =>
      let '(q', r) := Add msg q in (q', AnsErr (err_of r))
  | getOp, _, Some id, _ =>
      (q, match Get id q with Some c => AnsComm c | None => AnsPending end)
  | deleteOp, _, Some id, _ =>
      let '(q', r) := Delete id q in
      (q', AnsErr (match r with Ok true => None | _ => Some (ErrNew "coudn't delete Certificate") end))
  | addSignOp, _, Some id, Some sig =>
      match Get id q with
      | None => (q, AnsErr (Some (ErrNew "coudn't find Certificate")))
      | Some c =>
          match Cert_AddSignature c sig q with
          | (q1, Ok true) =>
              let '(q2, r) := Finalize q1 in
              (q2, AnsErr (wrapf "finalizing quorum certificate" <$> err_of r))
          | (q1, r) => (q1, AnsErr (err_of r))
          end
      end
  | _, _, _, _ => (q, AnsPending)
  end.

(** The signature after which the quorum reports that it is final. *)
Definition op_finalizes (o : stateOp I C) (q : Q) : bool :=
  match op_kind o, op_id o, op_sig o with
  | addSignOp, Some id, Some sig =>
      match Get id q with
      | None => false
      | Some c =>
          match Cert_AddSignature c sig q with
          | (q1, Ok true) => match Finalize q1 with (_, Ok true) => true | _ => false end
          | _ => false
          end
      end
  | _, _, _ => false
  end.

(** The request data an operation of each kind carries. *)
Definition op_wf (o : stateOp I C) : Prop :=
  match op_kind o with
  | addOp => exists msg, op_msg o = Some msg /\ is_Some (msgID msg)
  | getOp | deleteOp => is_Some (op_id o)
  | addSignOp => is_Some (op_id o) /\ is_Some (op_sig o)
  end.

(** The operation after its answer was set and sent. *)
Definition answered (a : answer) (o : stateOp I C) : stateOp I C :=
  match a with
  | AnsErr e => push_done (DoneErr e) (put_err e o)
  | AnsComm c => push_done (DoneComm c) (put_comm c o)
  | AnsPending => o
  end.
End spec.

(** ** The invariant of the round *)

Section round_ok.
Context {I Q : Type} {MI : MessageID I} {QC : QuorumCertificate I Q} {MO : MapOrder}
  {QL : QuorumLaws I Q} {QInv : Q -> Prop} {QT : QuorumTotal I Q QInv}.
Abbreviation C := (Certificate (I:=I) (Q:=Q)).
Abbreviation R := (RoundSt I C Q).
Implicit Type r : R.

Definition subscribed r (key : bytes) (o : nat) : Prop :=
  exists inner, getOpSubs r !! key = Some inner /\ inner !! o = Some tt.

Record round_ok r : Prop := {
  ro_nodup : NoDup (stateOpCh r);
  ro_queue : forall o, o ∈ stateOpCh r ->
    exists so, r_ops r !! o = Some so /\ op_wf so /\ op_doneCh so = [];
  ro_subs : forall key o, subscribed r key o ->
    exists so id, r_ops r !! o = Some so /\ op_kind so = getOp /\ op_id so = Some id /\
      mid_String id = key /\ op_doneCh so = [] /\ o ∉ stateOpCh r;
  ro_inner : forall key inner, getOpSubs r !! key = Some inner -> inner <> ∅;
  ro_absent : forall id o, subscribed r (mid_String id) o -> Get id (quorum r) = None;
  ro_inv : QInv (quorum r);
}.

Lemma SetError_spec o so e r :
  r_ops r !! o = Some so -> op_doneCh so = [] ->
  SetError o e r = (set_ops (<[o := answered (AnsErr e) so]> (r_ops r)) r, Ok tt).
Proof.
  intros Ho Hd. unfold SetError, send_done, update_op, load_op. st_unfold.
  cbn [r_ops set_ops]. rewrite list_lookup_alter_eq, Ho. cbn [fmap option_fmap option_map nonnil].
  cbn [op_doneCh put_err]. rewrite Hd. rewrite bool_decide_eq_true_2 by (simpl; unfold doneCh_capacity; lia).
  cbn [r_ops set_ops]. rewrite list_alter_fuse, (alter_insert_hd _ _ _ _ Ho). done.
Qed.

Lemma SetCertificate_spec o so c r :
  r_ops r !! o = Some so -> op_doneCh so = [] ->
  SetCertificate o c r = (set_ops (<[o := answered (AnsComm c) so]> (r_ops r)) r, Ok tt).
Proof.
  intros Ho Hd. unfold SetCertificate, send_done, update_op, load_op. st_unfold.
  cbn [r_ops set_ops]. rewrite list_lookup_alter_eq, Ho. cbn [fmap option_fmap option_map nonnil].
  cbn [op_doneCh put_comm]. rewrite Hd. rewrite bool_decide_eq_true_2 by (simpl; unfold doneCh_capacity; lia).
  cbn [r_ops set_ops]. rewrite list_alter_fuse, (alter_insert_hd _ _ _ _ Ho). done.
Qed.

(** *** The state a handler leaves *)

Definition with_answer (a : answer) (o : nat) (so : stateOp I C) (l : list (stateOp I C)) :=
  match a with AnsPending => l | _ => <[o := answered a so]> l end.

(** What executing the operation [o] at the head of the queue does: its effect
    on the quorum, its answer (or, for a pending [getOp], a subscription),
    and nothing to the other operations but certificates for subscribers. *)
Record handled r (o : nat) (rest : list nat) (so : stateOp I C) (r' : R) : Prop := {
  h_ok : round_ok r';
  h_num : roundNum r' = roundNum r;
  h_queue : stateOpCh r' = rest;
  h_close : closeCh r' = closeCh r;
  h_closed : closedCh r' = closedCh r;
  h_quorum : quorum r' = (op_spec so (quorum r)).1;
  h_final : finalCh r' = finalCh r || op_finalizes so (quorum r);
  h_length : length (r_ops r') = length (r_ops r);
  h_answer : r_ops r' !! o = Some (answered (op_spec so (quorum r)).2 so);
  h_pending : (op_spec so (quorum r)).2 = AnsPending ->
    exists id, op_id so = Some id /\ subscribed r' (mid_String id) o;
  h_subs : forall key x, subscribed r' key x -> x = o \/ subscribed r key x;
  h_others : forall x, x <> o ->
    (r_ops r' !! x = r_ops r !! x /\
     forall key, subscribed r key x -> subscribed r' key x) \/
    exists id sx c, subscribed r (mid_String id) x /\ r_ops r !! x = Some sx /\
      Get id (quorum r') = Some c /\ r_ops r' !! x = Some (answered (AnsComm c) sx);
}.

Lemma queued_not_subscribed r o key :
  round_ok r -> o ∈ stateOpCh r -> ~ subscribed r key o.
Proof. intros Hr Ho Hs. by destruct (ro_subs r Hr key o Hs) as (?&?&_&_&_&_&_&?). Qed.

(** The operation is answered and leaves the queue; the subscription table is
    as before. *)
Lemma ok_answered r o rest q' f so' :
  round_ok r -> stateOpCh r = o :: rest -> QInv q' ->
  (forall id x, subscribed r (mid_String id) x -> Get id q' = None) ->
  round_ok (MkRound (roundNum r) q' rest (getOpSubs r) f (closeCh r) (closedCh r)
              (<[o := so']> (r_ops r))).
Proof.
  intros Hr Hch Hq Habs. pose proof (ro_nodup r Hr) as Hnd. rewrite Hch in Hnd.
  apply NoDup_cons in Hnd as [Hno Hnd].
  split; cbn [stateOpCh getOpSubs quorum r_ops].
  - done.
  - intros x Hx. assert (x <> o) by (by intros ->).
    rewrite list_lookup_insert_ne by done. apply (ro_queue r Hr). rewrite Hch. by right.
  - intros key x Hs. destruct (ro_subs r Hr key x Hs) as (so & id & H1 & H2 & H3 & H4 & H5 & H6).
    assert (x <> o) by (intros ->; apply H6; rewrite Hch; left).
    exists so, id. rewrite list_lookup_insert_ne by done. split_and!; try done.
    intros Hx. apply H6. rewrite Hch. by right.
  - apply (ro_inner r Hr).
  - intros id x Hs. by apply (Habs id x).
  - done.
Qed.

Definition settled r (o : nat) (rest : list nat) (so : stateOp I C) (q' : Q) (f : bool)
    (a : answer) : R :=
  MkRound (roundNum r) q' rest (getOpSubs r) f (closeCh r) (closedCh r)
    (<[o := answered a so]> (r_ops r)).

Lemma handled_answered r o rest so q' f a :
  round_ok r -> stateOpCh r = o :: rest -> r_ops r !! o = Some so -> QInv q' ->
  (forall id x, subscribed r (mid_String id) x -> Get id q' = None) ->
  op_spec so (quorum r) = (q', a) -> a <> AnsPending ->
  f = finalCh r || op_finalizes so (quorum r) ->
  handled r o rest so (settled r o rest so q' f a).
Proof.
  intros Hr Hch Ho Hq Habs Hspec Ha Hf.
  unfold settled. split; cbn [roundNum stateOpCh closeCh closedCh quorum finalCh r_ops]; try done.
  - by apply ok_answered.
  - by rewrite Hspec.
  - by rewrite length_insert.
  - rewrite Hspec. apply list_lookup_insert_eq. by eapply lookup_lt_Some.
  - by rewrite Hspec.
  - intros key x Hs. by right.
  - intros x Hx. left. by rewrite list_lookup_insert_ne.
Qed.

(** *** The subscribers of a key are all notified *)

Definition notify_all (comm : C) (l : list nat) (ops : list (stateOp I C)) :=
  foldl (fun ops x => alter (answered (AnsComm comm)) x ops) ops l.

Lemma notify_all_length comm l ops : length (notify_all comm l ops) = length ops.
Proof.
  revert ops. induction l as [|x l IH]; intros ops; simpl; [done|].
  by rewrite IH, length_alter.
Qed.

Lemma notify_all_other comm l ops x : x ∉ l -> notify_all comm l ops !! x = ops !! x.
Proof.
  revert ops. induction l as [|y l IH]; intros ops Hx; simpl; [done|].
  rewrite IH by set_solver. apply list_lookup_alter_ne. set_solver.
Qed.

Lemma notify_all_in comm l ops x so :
  NoDup l -> x ∈ l -> ops !! x = Some so ->
  notify_all comm l ops !! x = Some (answered (AnsComm comm) so).
Proof.
  revert ops. induction l as [|y l IH]; intros ops Hnd Hx Hs; simpl; [by apply elem_of_nil in Hx|].
  apply NoDup_cons in Hnd as [Hy Hnd]. apply elem_of_cons in Hx as [->|Hx].
  - rewrite notify_all_other by done. by rewrite list_lookup_alter_eq, Hs.
  - apply IH; [done..|]. rewrite list_lookup_alter_ne; [done|]. by intros ->.
Qed.

Lemma notify_subscribers_spec comm l r :
  NoDup l ->
  (forall x, x ∈ l -> exists so, r_ops r !! x = Some so /\ op_doneCh so = []) ->
  for_each l (fun sub => SetCertificate sub comm) r =
    (set_ops (notify_all comm l (r_ops r)) r, Ok tt).
Proof.
  revert r. induction l as [|x l IH]; intros r Hnd Hl; simpl.
  { by destruct r. }
  apply NoDup_cons in Hnd as [Hx Hnd].
  destruct (Hl x ltac:(left)) as (so & Hso & Hd).
  rewrite (St_bind_Ok _ _ _ _ _ (SetCertificate_spec x so comm r Hso Hd)).
  rewrite IH; [|done|].
  - cbn [r_ops set_ops]. by rewrite (alter_insert_hd _ _ _ _ Hso).
  - intros y Hy. cbn [r_ops set_ops]. rewrite list_lookup_insert_ne by (by intros ->).
    apply Hl. by right.
Qed.

(** *** The handlers *)

Lemma notified_subscribed r key inner :
  getOpSubs r !! key = Some inner -> forall x, x ∈ (range inner).*1 -> subscribed r key x.
Proof.
  intros Hk x ([y u] & -> & Hx%elem_of_range)%list_elem_of_fmap. destruct u. by exists inner.
Qed.

Lemma ok_subscribers_notified r o rest q' f so' comm key inner :
  round_ok r -> stateOpCh r = o :: rest -> QInv q' ->
  getOpSubs r !! key = Some inner ->
  (forall id, mid_String id <> key -> Get id q' = Get id (quorum r)) ->
  let ops' := notify_all comm (range inner).*1 (r_ops r) in
  round_ok (MkRound (roundNum r) q' rest (delete key (getOpSubs r)) f (closeCh r)
              (closedCh r) (<[o := so']> ops')).
Proof.
  intros Hr Hch Hq Hk Hget ops'. pose proof (ro_nodup r Hr) as Hnd. rewrite Hch in Hnd.
  apply NoDup_cons in Hnd as [Hno Hnd].
  pose proof (notified_subscribed r key inner Hk) as Hin.
  assert (forall key' x, key' <> key -> subscribed r key' x -> x ∉ (range inner).*1) as Hsep.
  { intros key' x Hne Hs Hx%Hin.
    destruct (ro_subs r Hr key x Hx) as (s1 & id1 & A1 & _ & A2 & A3 & _).
    destruct (ro_subs r Hr key' x Hs) as (s2 & id2 & B1 & _ & B2 & B3 & _). congruence. }
  assert (forall key' x,
    subscribed (MkRound (roundNum r) q' rest (delete key (getOpSubs r)) f (closeCh r)
      (closedCh r) (<[o := so']> ops')) key' x -> key' <> key /\ subscribed r key' x) as Hsub.
  { intros key' x (inner' & Hi & Hx). cbn [getOpSubs] in Hi.
    apply lookup_delete_Some in Hi as [? Hi]. split; [done|]. by exists inner'. }
  split; cbn [stateOpCh quorum r_ops].
  - done.
  - intros x Hx. assert (x <> o) by (by intros ->).
    rewrite list_lookup_insert_ne by done. unfold ops'. rewrite notify_all_other.
    + apply (ro_queue r Hr). rewrite Hch. by right.
    + intros Hx'%Hin. apply (queued_not_subscribed r x key Hr); [|done].
      rewrite Hch. by right.
  - intros key' x [Hne Hs]%Hsub.
    destruct (ro_subs r Hr key' x Hs) as (so & id & H1 & H2 & H3 & H4 & H5 & H6).
    assert (x <> o) by (intros ->; apply H6; rewrite Hch; left).
    exists so, id. rewrite list_lookup_insert_ne by done. unfold ops'.
    rewrite notify_all_other by (by apply (Hsep key')).
    split_and!; try done. intros Hx. apply H6. rewrite Hch. by right.
  - intros key' inner' Hi. cbn [getOpSubs] in Hi.
    apply lookup_delete_Some in Hi as [_ Hi]. by apply (ro_inner r Hr key').
  - intros id x [Hne Hs]%Hsub. rewrite Hget by done. by apply (ro_absent r Hr id x).
  - done.
Qed.

Definition runs_to r (o : nat) (rest : list nat) (so : stateOp I C) (m : St R unit) : Prop :=
  exists r', m (set_stateOpCh rest r) = (r', Ok tt) /\ handled r o rest so r'.

(** An [addOp] that found subscribers: they all have the certificate. *)
Lemma handled_notified r o rest so q' id comm inner :
  round_ok r -> stateOpCh r = o :: rest -> r_ops r !! o = Some so -> QInv q' ->
  getOpSubs r !! mid_String id = Some inner -> Get id q' = Some comm ->
  (forall id', mid_String id' <> mid_String id -> Get id' q' = Get id' (quorum r)) ->
  op_spec so (quorum r) = (q', AnsErr None) -> op_finalizes so (quorum r) = false ->
  handled r o rest so
    (MkRound (roundNum r) q' rest (delete (mid_String id) (getOpSubs r)) (finalCh r) (closeCh r)
       (closedCh r) (<[o := answered (AnsErr None) so]> (notify_all comm (range inner).*1 (r_ops r)))).
Proof.
  intros Hr Hch Ho Hq Esub Hcomm Hget Hspec Hfin.
  split; cbn [roundNum stateOpCh closeCh closedCh quorum finalCh r_ops]; try done.
  - by eapply (ok_subscribers_notified r o rest q').
  - by rewrite Hspec.
  - by rewrite Hfin, orb_false_r.
  - by rewrite length_insert, notify_all_length.
  - rewrite Hspec. apply list_lookup_insert_eq. rewrite notify_all_length.
    by eapply lookup_lt_Some.
  - by rewrite Hspec.
  - intros key x (inner' & Hi & Hx). right. exists inner'. split; [|done].
    cbn [getOpSubs] in Hi. by apply lookup_delete_Some in Hi as [_ ?].
  - intros x Hx. rewrite list_lookup_insert_ne by done.
    destruct (decide (x ∈ (range inner).*1)) as [Hxi|Hxi].
    + right. pose proof (notified_subscribed _ _ _ Esub x Hxi) as Hs.
      destruct (ro_subs r Hr _ _ Hs) as (sx & _ & Hsx & _).
      exists id, sx, comm. split_and!; [done..|].
      apply notify_all_in; [apply NoDup_range|done..].
    + left. rewrite notify_all_other by done. split; [done|].
      intros key (inner' & Hi & Hx'). exists inner'. split; [|done]. cbn [getOpSubs].
      rewrite lookup_delete_ne; [done|]. intros <-. rewrite Esub in Hi. injection Hi as <-.
      apply Hxi. apply list_elem_of_fmap. exists (x, tt). split; [done|]. by apply elem_of_range.
Qed.

(** A handler that ends with [op.SetError(e)]. *)
Lemma settles r o rest so q' e :
  round_ok r -> stateOpCh r = o :: rest -> r_ops r !! o = Some so -> op_doneCh so = [] ->
  QInv q' -> (forall id x, subscribed r (mid_String id) x -> Get id q' = None) ->
  op_spec so (quorum r) = (q', AnsErr e) -> op_finalizes so (quorum r) = false ->
  exists r', SetError o e (set_quorum q' (set_stateOpCh rest r)) = (r', Ok tt) /\
    handled r o rest so r'.
Proof.
  intros Hr Hch Ho Hd Hq Habs Hspec Hfin. rewrite (SetError_spec o so) by done.
  exists (settled r o rest so q' (finalCh r) (AnsErr e)). split; [reflexivity|].
  apply handled_answered; try done. by rewrite Hfin, orb_false_r.
Qed.

Lemma stateAdd_ok r o rest so :
  round_ok r -> stateOpCh r = o :: rest -> r_ops r !! o = Some so ->
  op_kind so = addOp -> op_wf so -> op_doneCh so = [] ->
  runs_to r o rest so (stateAdd o).
Proof.
  intros Hr Hch Ho Hk Hwf Hd. unfold op_wf in Hwf. rewrite Hk in Hwf.
  destruct Hwf as (msg & Hmsg & [id Hid]).
  unfold runs_to, stateAdd, load_op, on_quorum. st_unfold.
  cbn [r_ops set_stateOpCh quorum]. rewrite Ho. cbn [nonnil]. rewrite Hmsg. cbn [nonnil].
  cbn [quorum].
  destruct (Add msg (quorum r)) as [q' ra] eqn:EA.
  destruct (Add_total _ _ _ _ (ro_inv r Hr) ltac:(by eexists) EA) as [Hq Hra].
  assert (op_spec so (quorum r) = (q', AnsErr (err_of ra))) as Hspec
    by (unfold op_spec; by rewrite Hk, Hmsg, EA).
  assert (op_finalizes so (quorum r) = false) as Hfin by (unfold op_finalizes; by rewrite Hk).
  destruct ra as [[]|e|w|w]; try done; cbn beta iota.
  2:{ apply (settles r o rest so q' (Some e)); try done.
      intros id' x Hs. rewrite (Add_fail _ _ _ _ EA) by done. by eapply ro_absent. }
  rewrite Hid. cbn [nonnil getOpSubs set_quorum set_stateOpCh].
  destruct (Add_Ok _ _ _ _ EA Hid) as [[comm Hcomm] Hget].
  destruct (getOpSubs r !! mid_String id) as [inner|] eqn:Esub.
  2:{ apply (settles r o rest so q' None); try done.
      intros id' x Hs. assert (mid_String id' <> mid_String id).
      { intros E. destruct Hs as (inner & Hi & _). congruence. }
      rewrite Hget by done. by eapply ro_absent. }
  rewrite bool_decide_eq_false_2
    by (rewrite map_size_empty_iff; by apply (ro_inner r Hr (mid_String id))).
  cbn [quorum set_quorum]. rewrite Hcomm.
  pose proof (notified_subscribed r _ _ Esub) as Hin.
  rewrite notify_subscribers_spec; [|apply NoDup_range|].
  2:{ intros x Hx%Hin. cbn [r_ops set_quorum set_stateOpCh].
      destruct (ro_subs r Hr _ _ Hx) as (sx & _ & ? & _ & _ & _ & ? & _). eauto. }
  cbn beta iota. cbn [r_ops set_ops set_quorum set_stateOpCh set_getOpSubs getOpSubs].
  assert (o ∉ (range inner).*1) as Hoi.
  { intros Hx%Hin. apply (queued_not_subscribed r o _ Hr) in Hx; [done|]. rewrite Hch. left. }
  rewrite (SetError_spec o so) by (try done; cbn [r_ops set_getOpSubs set_ops]; by rewrite notify_all_other).
  eexists. split; [reflexivity|]. by apply (handled_notified r o rest so q' id comm inner).
Qed.

(** The table after [o] subscribed to [id]. *)
Definition subscribed_to r (o : nat) (id : I) : gmap bytes (gmap nat unit) :=
  <[mid_String id := <[o := tt]> (default ∅ (getOpSubs r !! mid_String id))]> (getOpSubs r).

Lemma subscribed_to_inv r o id key x :
  round_ok r -> o ∈ stateOpCh r ->
  (exists inner, subscribed_to r o id !! key = Some inner /\ inner !! x = Some tt) ->
  (key = mid_String id /\ x = o) \/ (subscribed r key x /\ x <> o).
Proof.
  intros Hr Hoq (inner & Hi & Hx). unfold subscribed_to in Hi.
  assert (subscribed r key x -> x <> o) as Hne.
  { intros Hs ->. by apply (queued_not_subscribed r o key Hr Hoq). }
  apply lookup_insert_Some in Hi as [[<- <-]|[Hkey Hi]].
  - apply lookup_insert_Some in Hx as [[-> _]|[Hxo Hx]]; [by left|].
    right. assert (subscribed r (mid_String id) x); [|by auto].
    destruct (getOpSubs r !! mid_String id) as [inner|] eqn:E; simpl in Hx.
    + by exists inner.
    + by rewrite lookup_empty in Hx.
  - right. assert (subscribed r key x) by (by exists inner). auto.
Qed.

(** A [getOp] that found no certificate is subscribed. *)
Lemma ok_subscribed r o rest so id :
  round_ok r -> stateOpCh r = o :: rest -> r_ops r !! o = Some so ->
  op_kind so = getOp -> op_id so = Some id -> op_doneCh so = [] -> Get id (quorum r) = None ->
  round_ok (MkRound (roundNum r) (quorum r) rest (subscribed_to r o id) (finalCh r) (closeCh r)
              (closedCh r) (r_ops r)).
Proof.
  intros Hr Hch Ho Hk Hid Hd Eg. assert (o ∈ stateOpCh r) as Hoq by (rewrite Hch; left).
  pose proof (ro_nodup r Hr) as Hnd. rewrite Hch in Hnd. apply NoDup_cons in Hnd as [Hno Hnd].
  split; cbn [stateOpCh quorum r_ops].
  - done.
  - intros x Hx. apply (ro_queue r Hr). rewrite Hch. by right.
  - intros key x Hs. apply (subscribed_to_inv r o id key x Hr Hoq) in Hs as [[-> ->]|[Hs Hxo]].
    + exists so, id. by split_and!.
    + destruct (ro_subs r Hr key x Hs) as (sx & idx & H1 & H2 & H3 & H4 & H5 & H6).
      exists sx, idx. split_and!; try done. intros Hx. apply H6. rewrite Hch. by right.
  - intros key inner Hi. cbn [getOpSubs] in Hi. unfold subscribed_to in Hi.
    apply lookup_insert_Some in Hi as [[<- <-]|[_ Hi]].
    + apply insert_non_empty.
    + by apply (ro_inner r Hr key).
  - intros id' x Hs. apply (subscribed_to_inv r o id _ x Hr Hoq) in Hs as [[Hs ->]|[Hs _]].
    + by rewrite (Get_String _ id' id Hs).
    + by apply (ro_absent r Hr id' x).
  - by apply ro_inv.
Qed.

Lemma handled_subscribed r o rest so id :
  round_ok r -> stateOpCh r = o :: rest -> r_ops r !! o = Some so ->
  op_kind so = getOp -> op_id so = Some id -> op_doneCh so = [] -> Get id (quorum r) = None ->
  op_spec so (quorum r) = (quorum r, AnsPending) -> op_finalizes so (quorum r) = false ->
  handled r o rest so
    (MkRound (roundNum r) (quorum r) rest (subscribed_to r o id) (finalCh r) (closeCh r)
       (closedCh r) (r_ops r)).
Proof.
  intros Hr Hch Ho Hk Hid Hd Eg Hspec Hfin. assert (o ∈ stateOpCh r) as Hoq by (rewrite Hch; left).
  split; cbn [roundNum stateOpCh closeCh closedCh quorum finalCh r_ops]; try done.
  - by eapply ok_subscribed.
  - by rewrite Hspec.
  - by rewrite Hfin, orb_false_r.
  - rewrite Hspec. done.
  - intros _. exists id. split; [done|]. eexists. split; [apply lookup_insert_eq|].
    apply lookup_insert_eq.
  - intros key x Hs. apply (subscribed_to_inv r o id key x Hr Hoq) in Hs as [[_ ->]|[? _]];
      [by left|by right].
  - intros x Hx. left. split; [done|]. intros key (inner & Hi & Hxi). cbn [getOpSubs].
    unfold subscribed, subscribed_to. cbn [getOpSubs].
    destruct (decide (key = mid_String id)) as [->|Hne].
    + eexists. split; [apply lookup_insert_eq|].
      rewrite lookup_insert_ne by done. by rewrite Hi.
    + exists inner. by rewrite lookup_insert_ne.
Qed.

Lemma stateGet_ok r o rest so :
  round_ok r -> stateOpCh r = o :: rest -> r_ops r !! o = Some so ->
  op_kind so = getOp -> op_wf so -> op_doneCh so = [] ->
  runs_to r o rest so (stateGet o).
Proof.
  intros Hr Hch Ho Hk Hwf Hd. unfold op_wf in Hwf. rewrite Hk in Hwf. destruct Hwf as [id Hid].
  assert (o ∈ stateOpCh r) as Hoq by (rewrite Hch; left).
  unfold runs_to, stateGet, load_op. st_unfold.
  cbn [r_ops set_stateOpCh quorum getOpSubs]. rewrite Ho. cbn [nonnil]. rewrite Hid.
  cbn [nonnil quorum set_stateOpCh].
  assert (op_finalizes so (quorum r) = false) as Hfin by (unfold op_finalizes; by rewrite Hk).
  destruct (Get id (quorum r)) as [c|] eqn:Eg.
  { rewrite (SetCertificate_spec o so) by done.
    exists (settled r o rest so (quorum r) (finalCh r) (AnsComm c)). split; [reflexivity|].
    apply handled_answered; try done.
    - by apply ro_inv.
    - intros id' x Hs. by eapply ro_absent.
    - unfold op_spec. rewrite Hk, Hid, Eg. by destruct (op_msg so).
    - by rewrite Hfin, orb_false_r. }
  cbn [getOpSubs set_stateOpCh].
  assert (op_spec so (quorum r) = (quorum r, AnsPending)) as Hspec
    by (unfold op_spec; rewrite Hk, Hid, Eg; by destruct (op_msg so)).
  destruct (default ∅ (getOpSubs r !! mid_String id) !! o) eqn:Eo.
  { exfalso. apply (queued_not_subscribed r o (mid_String id) Hr Hoq).
    destruct (getOpSubs r !! mid_String id) as [inner|] eqn:E; simpl in Eo.
    - destruct u. by exists inner.
    - by rewrite lookup_empty in Eo. }
  exists (MkRound (roundNum r) (quorum r) rest (subscribed_to r o id) (finalCh r) (closeCh r)
            (closedCh r) (r_ops r)).
  split; [reflexivity|]. by apply handled_subscribed.
Qed.

Lemma stateDelete_ok r o rest so :
  round_ok r -> stateOpCh r = o :: rest -> r_ops r !! o = Some so ->
  op_kind so = deleteOp -> op_wf so -> op_doneCh so = [] ->
  runs_to r o rest so (stateDelete o).
Proof.
  intros Hr Hch Ho Hk Hwf Hd. unfold op_wf in Hwf. rewrite Hk in Hwf. destruct Hwf as [id Hid].
  unfold runs_to, stateDelete, load_op, on_quorum. st_unfold.
  cbn [r_ops set_stateOpCh quorum]. rewrite Ho. cbn [nonnil]. rewrite Hid. cbn [nonnil quorum].
  assert (op_finalizes so (quorum r) = false) as Hfin by (unfold op_finalizes; by rewrite Hk).
  destruct (Delete id (quorum r)) as [q' rd] eqn:ED.
  destruct (Delete_total _ _ _ _ (ro_inv r Hr) ED) as [Hq [b ->]].
  assert (op_spec so (quorum r) =
    (q', AnsErr (if b then None else Some (ErrNew "coudn't delete Certificate")))) as Hspec.
  { unfold op_spec. rewrite Hk, Hid, ED. destruct (op_msg so); by destruct b. }
  assert (forall id' x, subscribed r (mid_String id') x -> Get id' q' = None) as Habs.
  { intros id' x Hs. destruct (decide (mid_String id' = mid_String id)) as [E|E].
    - destruct b.
      + rewrite (Get_String _ id' id E). by eapply Delete_gone.
      + pose proof (ro_absent r Hr id' x Hs) as Hg.
        by rewrite (Delete_false _ _ _ ED).
    - rewrite (Delete_Get _ _ _ _ ED) by done. by eapply ro_absent. }
  destruct b; cbn beta iota; by apply (settles r o rest so q').
Qed.

Lemma stateAddSign_ok r o rest so :
  round_ok r -> stateOpCh r = o :: rest -> r_ops r !! o = Some so ->
  op_kind so = addSignOp -> op_wf so -> op_doneCh so = [] ->
  runs_to r o rest so (stateAddSign o).
Proof.
  intros Hr Hch Ho Hk Hwf Hd. unfold op_wf in Hwf. rewrite Hk in Hwf.
  destruct Hwf as [[id Hid] [sig Hsig]].
  unfold runs_to, stateAddSign, load_op, on_quorum. st_unfold.
  cbn [r_ops set_stateOpCh quorum]. rewrite Ho. cbn [nonnil]. rewrite Hid. cbn [nonnil quorum].
  assert (forall a f, op_spec so (quorum r) = a -> op_finalizes so (quorum r) = f ->
    op_spec so (quorum r) = a /\ op_finalizes so (quorum r) = f) as Hboth by done.
  unfold op_spec at 1, op_finalizes at 1 in Hboth. rewrite Hk, Hid, Hsig in Hboth.
  assert (forall q' e, QInv q' -> (forall id', Get id' q' = Get id' (quorum r)) ->
    op_spec so (quorum r) = (q', AnsErr e) /\ op_finalizes so (quorum r) = false ->
    exists r', SetError o e (set_quorum q' (set_stateOpCh rest r)) = (r', Ok tt) /\
      handled r o rest so r') as Hdone.
  { intros q' e Hq Hget [Hs Hf]. apply settles; try done.
    intros id' x Hsub. rewrite Hget. by eapply ro_absent. }
  destruct (Get id (quorum r)) as [c|] eqn:Eg.
  2:{ apply (Hdone (quorum r)); [by apply ro_inv|done|].
      apply Hboth; [by destruct (op_msg so)|done]. }
  rewrite Hsig. cbn [nonnil quorum set_stateOpCh].
  destruct (Cert_AddSignature c sig (quorum r)) as [q1 r1] eqn:ES.
  destruct (AddSignature_total _ _ _ _ _ _ (ro_inv r Hr) Eg ES) as [Hq1 Hr1].
  pose proof (AddSignature_Get _ _ _ _ _ ES) as Hg1.
  destruct r1 as [[]|e|w|w]; try done; cbn beta iota; cbn [quorum set_quorum].
  2-3: apply (Hdone q1); [done..|]; apply Hboth; [by destruct (op_msg so)|done].
  destruct (Finalize q1) as [q2 r2] eqn:EF.
  destruct (Finalize_total _ _ _ Hq1 EF) as [Hq2 Hr2].
  pose proof (Finalize_Get _ _ _ EF) as Hg2.
  assert (forall id', Get id' q2 = Get id' (quorum r)) as Hg by (intros; by rewrite Hg2, Hg1).
  destruct (Hboth _ _ ltac:(by destruct (op_msg so)) eq_refl) as [Hs Hf].
  destruct r2 as [[]|e|w|w]; try done; cbn beta iota; cbn [finalCh set_quorum];
    [|by apply (Hdone q2)..].
  exists (settled r o rest so q2 true (AnsErr None)). split.
  - cbn [set_stateOpCh finalCh].
    destruct (finalCh r) eqn:Efin; rewrite (SetError_spec o so) by done;
      unfold settled, set_ops, set_finalCh, set_quorum, set_stateOpCh; simpl; by rewrite ?Efin.
  - apply handled_answered; try done; [|by rewrite Hf, orb_true_r].
    intros id' x Hsub. rewrite Hg. by eapply ro_absent.
Qed.

(** Executing the operation at the head of the queue neither panics nor
    blocks, and does what [handled] says. *)
Lemma doOp_ok r o rest :
  round_ok r -> stateOpCh r = o :: rest ->
  exists so, r_ops r !! o = Some so /\ op_wf so /\ runs_to r o rest so (doOp o).
Proof.
  intros Hr Hch. destruct (ro_queue r Hr o) as (so & Ho & Hwf & Hd); [rewrite Hch; left|].
  exists so. split_and!; [done..|].
  assert (forall m, (doOp o (set_stateOpCh rest r)) = m (set_stateOpCh rest r) ->
    runs_to r o rest so m -> runs_to r o rest so (doOp o)) as Heq.
  { intros m E (r' & Hm & Hh). exists r'. by rewrite E. }
  destruct (op_kind so) eqn:Hk.
  - apply (Heq (stateAdd o)); [|by apply stateAdd_ok].
    unfold doOp, load_op. st_unfold. cbn [r_ops set_stateOpCh]. rewrite Ho. cbn [nonnil].
    by rewrite Hk.
  - apply (Heq (stateGet o)); [|by apply stateGet_ok].
    unfold doOp, load_op. st_unfold. cbn [r_ops set_stateOpCh]. rewrite Ho. cbn [nonnil].
    by rewrite Hk.
  - apply (Heq (stateDelete o)); [|by apply stateDelete_ok].
    unfold doOp, load_op. st_unfold. cbn [r_ops set_stateOpCh]. rewrite Ho. cbn [nonnil].
    by rewrite Hk.
  - apply (Heq (stateAddSign o)); [|by apply stateAddSign_ok].
    unfold doOp, load_op. st_unfold. cbn [r_ops set_stateOpCh]. rewrite Ho. cbn [nonnil].
    by rewrite Hk.
Qed.
End round_ok.
