(* ===== verification/RoundConc.v ===== *)
(** The goroutines of a broadcasting round
    ([rebro/gossip/internal/round/round.go]: [execOp], [stateLoop],
    [GetCertificate], [Stop], [Finalize]).

    One goroutine runs [stateLoop]; any number of others call the methods of
    the round.  A state [sys] holds the round, the position of the loop and of
    every caller.  One atomic step per channel operation: which branch of a
    [select] is taken, which goroutine moves and when a context ends are the
    labels, so [exec_label] is a function and an execution is a list of labels.

    A handler is one step, taken when all its sends can proceed: only the loop
    reads the quorum and the subscriptions, and a send that would block leaves
    the loop where it is. *)

From S2P Require Import Prelude Crypto Rebro Round.

Inductive caller_pc (C : Type) :=
| PSubmit (o : nat) (retry : option error)    (* first select of execOp *)
| PAwait (o : nat) (retry : option error)     (* second select of execOp *)
| PStopCheck                                  (* Stop: the select on closeCh *)
| PStopClose                                  (* Stop: close(r.closeCh) *)
| PStopWait                                   (* Stop: the select on closedCh *)
| PFinalize                                   (* Finalize: its select *)
| PReturned (comm : option C) (err : option error).
Arguments PSubmit {C} _ _.
Arguments PAwait {C} _ _.
Arguments PStopCheck {C}.
Arguments PStopClose {C}.
Arguments PStopWait {C}.
Arguments PFinalize {C}.
Arguments PReturned {C} _ _.

(** [ctxErr] is [ctx.Err()] of the context the caller is using. *)
Record caller (C : Type) := MkCaller { pc : caller_pc C; ctxErr : option error }.
Arguments MkCaller {C} _ _.
Arguments pc {C} _.
Arguments ctxErr {C} _.

Inductive loop_pc :=
| LSelect (draining : bool)
| LExec (draining : bool) (o : nat)
| LStopped.

(** The methods of the round that other goroutines call. *)
Inductive request (I : Type) :=
| AddCertificate (msg : Message I)
| GetCertificate (id : I)
| DeleteCertificate (id : I)
| AddSignature (id : I) (sig : Signature)
| StopRequest
| FinalizeRequest.
Arguments AddCertificate {I} _.
Arguments GetCertificate {I} _.
Arguments DeleteCertificate {I} _.
Arguments AddSignature {I} _ _.
Arguments StopRequest {I}.
Arguments FinalizeRequest {I}.

Inductive label (I : Type) :=
| LCall (t : nat) (rq : request I)     (* a goroutine enters a method *)
| LExpire (t : nat) (e : error)        (* its context ends *)
| LSend (t : nat)                      (* case r.stateOpCh <- op *)
| LDone (t : nat)                      (* case <-op.doneCh *)
| LClosed (t : nat)                    (* case <-r.closedCh *)
| LCtx (t : nat)                       (* case <-ctx.Done() *)
| LStopStep (t : nat)                  (* Stop up to its second select *)
| LFinal (t : nat)                     (* case <-r.finalCh *)
| LLoopRecv | LLoopExec | LLoopClose | LLoopDrained.
Arguments LCall {I} _ _.
Arguments LExpire {I} _ _.
Arguments LSend {I} _.
Arguments LDone {I} _.
Arguments LClosed {I} _.
Arguments LCtx {I} _.
Arguments LStopStep {I} _.
Arguments LFinal {I} _.
Arguments LLoopRecv {I}.
Arguments LLoopExec {I}.
Arguments LLoopClose {I}.
Arguments LLoopDrained {I}.

(** [s_submitted], [s_log], [s_stops] and [s_resubmitted] are history: the
    operations sent on [stateOpCh], those executed, the goroutines that called
    [Stop], and whether some [GetCertificate] ran its operation over. *)
Record sys (I C Q : Type) := MkSys {
  s_round : RoundSt I C Q;
  s_loop : loop_pc;
  s_callers : gmap nat (caller C);
  s_crash : option string;
  s_submitted : list nat;
  s_log : list nat;
  s_stops : list nat;
  s_resubmitted : bool;
}.
Arguments MkSys {I C Q} _ _ _ _ _ _ _ _.
Arguments s_round {I C Q} _.
Arguments s_loop {I C Q} _.
Arguments s_callers {I C Q} _.
Arguments s_crash {I C Q} _.
Arguments s_submitted {I C Q} _.
Arguments s_log {I C Q} _.
Arguments s_stops {I C Q} _.
Arguments s_resubmitted {I C Q} _.

Section conc.
Context {I Q : Type} {MI : MessageID I} {QC : QuorumCertificate I Q} {MO : MapOrder}.
Abbreviation C := (Certificate (I:=I) (Q:=Q)).
Abbreviation R := (RoundSt I C Q).
Abbreviation Sys := (sys I C Q).

(** [NewRound] starts the loop. *)
Definition start (num : Z) (q : Q) : Sys :=
  MkSys (NewRound num q) (LSelect false) ∅ None [] [] [] false.

Definition with_round (r : R) (s : Sys) : Sys :=
  MkSys r (s_loop s) (s_callers s) (s_crash s) (s_submitted s) (s_log s) (s_stops s)
    (s_resubmitted s).
Definition with_loop (l : loop_pc) (s : Sys) : Sys :=
  MkSys (s_round s) l (s_callers s) (s_crash s) (s_submitted s) (s_log s) (s_stops s)
    (s_resubmitted s).
Definition with_caller (t : nat) (c : caller C) (s : Sys) : Sys :=
  MkSys (s_round s) (s_loop s) (<[t := c]> (s_callers s)) (s_crash s) (s_submitted s) (s_log s)
    (s_stops s) (s_resubmitted s).
Definition with_crash (w : string) (s : Sys) : Sys :=
  MkSys (s_round s) (s_loop s) (s_callers s) (Some w) (s_submitted s) (s_log s) (s_stops s)
    (s_resubmitted s).
Definition with_submitted (o : nat) (s : Sys) : Sys :=
  MkSys (s_round s) (s_loop s) (s_callers s) (s_crash s) (s_submitted s ++ [o]) (s_log s)
    (s_stops s) (s_resubmitted s).
Definition with_logged (o : nat) (s : Sys) : Sys :=
  MkSys (s_round s) (s_loop s) (s_callers s) (s_crash s) (s_submitted s) (s_log s ++ [o])
    (s_stops s) (s_resubmitted s).
Definition with_stop (t : nat) (s : Sys) : Sys :=
  MkSys (s_round s) (s_loop s) (s_callers s) (s_crash s) (s_submitted s) (s_log s)
    (s_stops s ++ [t]) (s_resubmitted s).
Definition with_resubmitted (s : Sys) : Sys :=
  MkSys (s_round s) (s_loop s) (s_callers s) (s_crash s) (s_submitted s) (s_log s)
    (s_stops s) true.

(** The operation a method creates; the message and the signature are passed
    by value. *)
Definition op_of (rq : request I) : option (stateOp I C) :=
  match rq with
  | AddCertificate msg => Some (MkStateOp addOp [] (Some msg) None None None None)
  | GetCertificate id => Some (MkStateOp getOp [] None (Some id) None None None)
  | DeleteCertificate id => Some (MkStateOp deleteOp [] None (Some id) None None None)
  | AddSignature id sig => Some (MkStateOp addSignOp [] None (Some id) (Some sig) None None)
  | StopRequest | FinalizeRequest => None
  end.

Definition enter (t : nat) (rq : request I) (s : Sys) : Sys :=
  match op_of rq with
  | Some so =>
      let r := s_round s in
      with_caller t (MkCaller (PSubmit (length (r_ops r)) None) None)
        (with_round (set_ops (r_ops r ++ [so]) r) s)
  | None =>
      match rq with
      | StopRequest => with_caller t (MkCaller PStopCheck None) (with_stop t s)
      | _ => with_caller t (MkCaller PFinalize None) s
      end
  end.

(** [execOp] returned [err] to the method that called it.  [GetCertificate]
    runs the operation over, under a context of its own, when its context
    ended; the other methods return. *)
Definition after_execOp (t : nat) (cl : caller C) (o : nat) (retry : option error)
    (err : option error) (s : Sys) : option Sys :=
  so ← r_ops (s_round s) !! o;
  match op_kind so, retry with
  | getOp, None =>
      match err, ctxErr cl with
      | Some e, Some _ =>
          Some (with_caller t (MkCaller (PSubmit o (Some e)) None) (with_resubmitted s))
      | _, _ => Some (with_caller t (MkCaller (PReturned (op_comm so) err) (ctxErr cl)) s)
      end
  | getOp, Some e =>
      Some (with_caller t (MkCaller (PReturned None (errors_Join [Some e; err])) (ctxErr cl)) s)
  | _, _ => Some (with_caller t (MkCaller (PReturned None err) (ctxErr cl)) s)
  end.

Definition take_done (o : stateOp I C) : stateOp I C :=
  MkStateOp (op_kind o) (drop 1 (op_doneCh o)) (op_msg o) (op_id o) (op_sig o) (op_err o)
    (op_comm o).

Definition caller_label (t : nat) (l : label I) (cl : caller C) (s : Sys) : option Sys :=
  let r := s_round s in
  match l, pc cl with
  | LExpire _ e, PReturned _ _ => None
  | LExpire _ e, p =>
      match ctxErr cl with
      | None => Some (with_caller t (MkCaller p (Some e)) s)
      | Some _ => None
      end
  (* execOp, first select *)
  | LSend _, PSubmit o retry =>
      if bool_decide (length (stateOpCh r) < stateOperationsChannelSize)%nat
      then Some (with_caller t (MkCaller (PAwait o retry) (ctxErr cl))
                  (with_submitted o (with_round (set_stateOpCh (stateOpCh r ++ [o]) r) s)))
      else None
  | LClosed _, PSubmit o retry | LClosed _, PAwait o retry =>
      if closedCh r then after_execOp t cl o retry (Some ErrClosedRound) s else None
  | LCtx _, PSubmit o retry | LCtx _, PAwait o retry =>
      match ctxErr cl with
      | Some e => after_execOp t cl o retry (Some e) s
      | None => None
      end
  (* execOp, second select *)
  | LDone _, PAwait o retry =>
      so ← r_ops r !! o;
      match op_doneCh so with
      | [] => None
      | _ :: _ =>
          after_execOp t cl o retry (op_err so)
            (with_round (set_ops (alter take_done o (r_ops r)) r) s)
      end
  (* Stop *)
  | LStopStep _, PStopCheck =>
      if closeCh r
      then Some (with_caller t (MkCaller (PReturned None (Some ErrClosedRound)) (ctxErr cl)) s)
      else Some (with_caller t (MkCaller PStopClose (ctxErr cl)) s)
  | LStopStep _, PStopClose =>
      if closeCh r then Some (with_crash "close of closed channel" s)
      else Some (with_caller t (MkCaller PStopWait (ctxErr cl)) (with_round (set_closeCh true r) s))
  | LClosed _, PStopWait =>
      if closedCh r
      then Some (with_caller t (MkCaller (PReturned None None) (ctxErr cl)) s) else None
  (* Finalize *)
  | LFinal _, PFinalize =>
      if finalCh r
      then Some (with_caller t (MkCaller (PReturned None None) (ctxErr cl)) s) else None
  | LCtx _, PStopWait | LCtx _, PFinalize =>
      match ctxErr cl with
      | Some e => Some (with_caller t (MkCaller (PReturned None (Some e)) (ctxErr cl)) s)
      | None => None
      end
  | _, _ => None
  end.

(** [execOpAsync]: the first select of [execOp] without the case of [closedCh]
    and without the wait.  [send] is the case that is taken, [ctx] is
    [ctx.Err()]. *)
Definition execOpAsync (send : bool) (ctx : option error) (o : nat) (r : R)
    : option (R * option error) :=
  if send then
    if bool_decide (length (stateOpCh r) < stateOperationsChannelSize)%nat
    then Some (set_stateOpCh (stateOpCh r ++ [o]) r, None) else None
  else match ctx with Some e => Some (r, Some e) | None => None end.

(** [stateLoop] and the draining it defers. *)
Definition loop_label (l : label I) (s : Sys) : option Sys :=
  let r := s_round s in
  match l, s_loop s with
  | LLoopRecv, LSelect d =>
      match stateOpCh r with
      | o :: rest => Some (with_loop (LExec d o) (with_round (set_stateOpCh rest r) s))
      | [] => None
      end
  | LLoopExec, LExec d o =>
      match doOp o r with
      | (r', Ok _) => Some (with_loop (LSelect d) (with_logged o (with_round r' s)))
      | (r', Panic w) => Some (with_crash w (with_round r' s))
      | _ => None
      end
  | LLoopClose, LSelect false => if closeCh r then Some (with_loop (LSelect true) s) else None
  | LLoopDrained, LSelect true =>
      match stateOpCh r with
      | [] =>
          if closedCh r then Some (with_crash "close of closed channel" s)
          else Some (with_loop LStopped (with_round (set_closedCh true r) s))
      | _ => None
      end
  | _, _ => None
  end.

(** A panic ends the process: no label is enabled after it. *)
Definition exec_label (l : label I) (s : Sys) : option Sys :=
  match s_crash s with
  | Some _ => None
  | None =>
      match l with
      | LCall t rq =>
          match s_callers s !! t with
          | None => Some (enter t rq s)
          | Some _ => None
          end
      | LExpire t _ | LSend t | LDone t | LClosed t | LCtx t | LStopStep t | LFinal t =>
          cl ← s_callers s !! t; caller_label t l cl s
      | _ => loop_label l s
      end
  end.

Fixpoint run_labels (ls : list (label I)) (s : Sys) : option Sys :=
  match ls with
  | [] => Some s
  | l :: ls' => s' ← exec_label l s; run_labels ls' s'
  end.

Lemma run_labels_app ls1 ls2 s :
  run_labels (ls1 ++ ls2) s = (s' ← run_labels ls1 s; run_labels ls2 s').
Proof.
  revert s. induction ls1 as [|l ls1 IH]; intros s; simpl; [done|].
  destruct (exec_label l s); simpl; [apply IH|done].
Qed.

(** A submission by [execOpAsync] is the first step of [execOp]. *)
Lemma execOpAsync_submits t cl s o retry :
  pc cl = PSubmit o retry ->
  caller_label t (LSend t) cl s =
    (x ← execOpAsync true (ctxErr cl) o (s_round s);
     Some (with_caller t (MkCaller (PAwait o retry) (ctxErr cl))
            (with_submitted o (with_round x.1 s)))).
Proof. intros E. unfold caller_label, execOpAsync. rewrite E. by case_bool_decide. Qed.

(** It is accepted after the loop has stopped, while [execOp] reports
    [ErrClosedRound]: nothing takes the operation from the channel any more. *)
Lemma execOpAsync_after_stop s o :
  s_loop s = LStopped -> stateOpCh (s_round s) = [] ->
  exists r, execOpAsync true None o (s_round s) = Some (r, None) /\
    stateOpCh r = [o] /\ forall l, loop_label l (with_round r s) = None.
Proof.
  intros Hl Hch. unfold execOpAsync. rewrite Hch.
  rewrite bool_decide_eq_true_2 by (cbn; unfold stateOperationsChannelSize; lia).
  eexists. split_and!; [done|done|]. intros []; cbn; by rewrite ?Hl.
Qed.
End conc.
