(* ===== verification/RoundInv.v ===== *)
(** The invariant of a round and its goroutines ([RoundConc.v]), for executions
    in which no cancelled [GetCertificate] runs its operation over, and the
    facts about [Stop] that hold in every execution. *)

From S2P Require Import Prelude Crypto Rebro Round RoundConc.

(** ** Replaying the executed operations on the quorum alone *)

Section replay.
Context {I Q : Type} {MI : MessageID I} {QC : QuorumCertificate I Q}.
Abbreviation C := (Certificate (I:=I) (Q:=Q)).

(** Quorum and "the quorum certificate is final" after one operation. *)
Definition replay1 (ops : list (stateOp I C)) (qf : Q * bool) (o : nat) : Q * bool :=
  match ops !! o with
  | Some so => ((op_spec so qf.1).1, qf.2 || op_finalizes so qf.1)
  | None => qf
  end.

Definition replay (ops : list (stateOp I C)) (log : list nat) (q0 : Q) : Q * bool :=
  foldl (replay1 ops) (q0, false) log.

Lemma replay_app ops l1 l2 q0 :
  replay ops (l1 ++ l2) q0 = foldl (replay1 ops) (replay ops l1 q0) l2.
Proof. apply foldl_app. Qed.

(** Operations that carry the same request. *)
Definition same_req (so so' : stateOp I C) : Prop :=
  op_kind so' = op_kind so /\ op_msg so' = op_msg so /\
  op_id so' = op_id so /\ op_sig so' = op_sig so.

(** The operations still exist and carry the same requests. *)
Definition reqs_le (ops ops' : list (stateOp I C)) : Prop :=
  forall o so, ops !! o = Some so -> exists so', ops' !! o = Some so' /\ same_req so so'.

#[export] Instance same_req_preorder : PreOrder same_req.
Proof.
  split; [done|]. intros x y z (?&?&?&?) (?&?&?&?). unfold same_req. split_and!; congruence.
Qed.

#[export] Instance reqs_le_preorder : PreOrder reqs_le.
Proof.
  split; [by intros l o so; exists so|].
  intros l1 l2 l3 H1 H2 o so (so1 & Ho1 & Hs1)%H1.
  destruct (H2 o so1 Ho1) as (so2 & Ho2 & Hs2). exists so2. split; [done|]. by transitivity so1.
Qed.

Lemma op_spec_req so so' q : same_req so so' -> op_spec so' q = op_spec so q.
Proof. intros (H1 & H2 & H3 & H4). unfold op_spec. by rewrite H1, H2, H3, H4. Qed.

Lemma op_finalizes_req so so' q : same_req so so' -> op_finalizes so' q = op_finalizes so q.
Proof. intros (H1 & H2 & H3 & H4). unfold op_finalizes. by rewrite H1, H3, H4. Qed.

Lemma op_wf_req so so' : same_req so so' -> op_wf so -> op_wf so'.
Proof. intros (H1 & H2 & H3 & H4). unfold op_wf. by rewrite H1, H2, H3, H4. Qed.

Lemma replay_reqs ops ops' log q0 :
  reqs_le ops ops' -> (forall o, o ∈ log -> (o < length ops)%nat) ->
  replay ops' log q0 = replay ops log q0.
Proof.
  intros Hle. unfold replay. generalize (q0, false). induction log as [|o log IH]; intros qf Hl; [done|].
  simpl. assert (replay1 ops' qf o = replay1 ops qf o) as ->.
  { destruct (lookup_lt_is_Some_2 ops o) as [so Ho]; [apply Hl; left|].
    destruct (Hle o so Ho) as (so' & Ho' & Hs). unfold replay1. rewrite Ho, Ho'.
    by rewrite (op_spec_req _ _ _ Hs), (op_finalizes_req _ _ _ Hs). }
  apply IH. intros x Hx. apply Hl. by right.
Qed.

(** The quorum is final exactly when some operation finalized it. *)
Lemma replay_final ops log q0 :
  (replay ops log q0).2 = true ->
  exists l1 o l2 so, log = l1 ++ o :: l2 /\ ops !! o = Some so /\
    op_finalizes so (replay ops l1 q0).1 = true.
Proof.
  induction log as [|o log IH] using rev_ind; [done|].
  rewrite replay_app. simpl. unfold replay1 at 1. destruct (ops !! o) as [so|] eqn:Ho; simpl.
  - intros [H|H]%orb_prop.
    + destruct (IH H) as (l1 & x & l2 & sx & -> & Hx & Hf).
      exists l1, x, (l2 ++ [o]), sx. by rewrite <- app_assoc.
    + by exists log, o, [], so.
  - intros (l1 & x & l2 & sx & -> & Hx & Hf)%IH.
    exists l1, x, (l2 ++ [o]), sx. by rewrite <- app_assoc.
Qed.

Lemma same_req_answered a so : same_req so (answered a so).
Proof. by destruct a. Qed.

Lemma same_req_take so : same_req so (take_done so).
Proof. done. Qed.
End replay.

#[export] Hint Resolve same_req_answered same_req_take : go.

(** ** The invariant *)

Section inv.
Context {I Q : Type} {MI : MessageID I} {QC : QuorumCertificate I Q} {MO : MapOrder}
  {QL : QuorumLaws I Q} {QInv : Q -> Prop} {QT : QuorumTotal I Q QInv}.
Abbreviation C := (Certificate (I:=I) (Q:=Q)).
Abbreviation Sys := (sys I C Q).
Implicit Types (s : Sys) (r : RoundSt I C Q).

(** Requests as [Broadcaster] makes them: messages have an identifier. *)
Definition label_ok (l : label I) : Prop :=
  match l with
  | LCall _ (AddCertificate msg) => is_Some (msgID msg)
  | _ => True
  end.

Inductive reach (num : Z) (q0 : Q) : Sys -> Prop :=
| reach_start : reach num q0 (start num q0)
| reach_step s l s' :
    reach num q0 s -> label_ok l -> exec_label l s = Some s' -> reach num q0 s'.

Definition executing s : list nat :=
  match s_loop s with LExec _ o => [o] | _ => [] end.

Definition s_ops s := r_ops (s_round s).

(** The round as if the operation the loop has just received were still at
    the head of the queue. *)
Definition view s := set_stateOpCh (executing s ++ stateOpCh (s_round s)) (s_round s).

(** Where the answer to the operation executed in position [k] of the log is. *)
Definition outcome r (log : list nat) (q0 : Q) (k o : nat) (so : stateOp I C) : Prop :=
  match (op_spec so ((replay (r_ops r) (take k log) q0).1)).2 with
  | AnsErr e => op_err so = e /\ op_comm so = None /\ forall key, ~ subscribed r key o
  | AnsComm c => op_err so = None /\ op_comm so = Some c /\ forall key, ~ subscribed r key o
  | AnsPending =>
      op_err so = None /\ exists id, op_id so = Some id /\
      ((op_comm so = None /\ subscribed r (mid_String id) o) \/
       exists k' c, (k < k' <= length log)%nat /\ op_comm so = Some c /\
         Get id (replay (r_ops r) (take k' log) q0).1 = Some c)
  end.

Record conc_ok (num : Z) (q0 : Q) s : Prop := {
  co_round : round_ok (QInv:=QInv) (view s);
  co_num : roundNum (s_round s) = num;
  co_fifo : s_submitted s = s_log s ++ executing s ++ stateOpCh (s_round s);
  co_nodup : NoDup (s_submitted s);
  co_bound : forall o, o ∈ s_submitted s -> (o < length (s_ops s))%nat;
  co_wf : forall o so, o ∈ s_submitted s -> s_ops s !! o = Some so -> op_wf so;
  co_submit : forall t cl o e, s_callers s !! t = Some cl -> pc cl = PSubmit o e ->
    e = None /\ o ∉ s_submitted s /\ exists so, s_ops s !! o = Some so /\ op_wf so;
  co_await : forall t cl o e, s_callers s !! t = Some cl -> pc cl = PAwait o e ->
    e = None /\ o ∈ s_submitted s;
  co_owner : forall t1 t2 c1 c2 o e1 e2,
    s_callers s !! t1 = Some c1 -> pc c1 = PSubmit o e1 ->
    s_callers s !! t2 = Some c2 -> pc c2 = PSubmit o e2 -> t1 = t2;
  co_replay : (quorum (s_round s), finalCh (s_round s)) = replay (s_ops s) (s_log s) q0;
  co_subs : forall key o, subscribed (s_round s) key o -> o ∈ s_log s;
  co_fresh : forall o so, s_ops s !! o = Some so -> o ∉ s_log s ->
    op_doneCh so = [] /\ op_err so = None /\ op_comm so = None;
  co_outcome : forall k o so, s_log s !! k = Some o -> s_ops s !! o = Some so ->
    outcome (s_round s) (s_log s) q0 k o so;
}.

(** *** What leaves the invariant of the round alone *)

(** [round_ok] looks at the queue, the subscriptions, the quorum and the
    requests and answers of queued and subscribed operations. *)
Lemma round_ok_ops r ops num f b1 b2 :
  round_ok (QInv:=QInv) r ->
  (forall o so, r_ops r !! o = Some so -> op_doneCh so = [] -> ops !! o = Some so) ->
  round_ok (QInv:=QInv)
    (MkRound num (quorum r) (stateOpCh r) (getOpSubs r) f b1 b2 ops).
Proof.
  intros Hr Hops. split; cbn [stateOpCh quorum r_ops].
  - apply Hr.
  - intros o Ho. destruct (ro_queue r Hr o Ho) as (so & ? & ? & ?). exists so. auto.
  - intros key o Ho. destruct (ro_subs r Hr key o Ho) as (so & id & ? & ? & ? & ? & ? & ?).
    exists so, id. split_and!; auto.
  - apply (ro_inner r Hr).
  - apply (ro_absent r Hr).
  - apply (ro_inv r Hr).
Qed.

Lemma round_ok_submit r o so :
  round_ok (QInv:=QInv) r -> o ∉ stateOpCh r -> (forall key, ~ subscribed r key o) ->
  r_ops r !! o = Some so -> op_wf so -> op_doneCh so = [] ->
  round_ok (QInv:=QInv) (set_stateOpCh (stateOpCh r ++ [o]) r).
Proof.
  intros Hr Hq Hs Ho Hwf Hd. split; cbn [stateOpCh quorum r_ops set_stateOpCh].
  - apply NoDup_app. split_and!; [apply Hr|set_solver|apply NoDup_singleton].
  - intros x [Hx| ->%list_elem_of_singleton]%elem_of_app; [by apply (ro_queue r Hr)|eauto].
  - intros key x Hx. destruct (ro_subs r Hr key x Hx) as (sx & id & ? & ? & ? & ? & ? & ?).
    exists sx, id. split_and!; try done.
    intros [?| ->%list_elem_of_singleton]%elem_of_app; [done|]. by apply (Hs key).
  - apply (ro_inner r Hr).
  - apply (ro_absent r Hr).
  - apply (ro_inv r Hr).
Qed.

(** *** The answers already given stay *)

Lemma outcome_mono r r' log log' q0 k o so so' :
  reqs_le (r_ops r) (r_ops r') -> (forall x, x ∈ log -> (x < length (r_ops r))%nat) ->
  same_req so so' -> op_err so' = op_err so -> op_comm so' = op_comm so ->
  (exists l, log' = log ++ l) -> (k <= length log)%nat ->
  (forall key, subscribed r key o <-> subscribed r' key o) ->
  outcome r log q0 k o so -> outcome r' log' q0 k o so'.
Proof.
  intros Hle Hb Hreq He Hc [l ->] Hk Hsub.
  assert (forall n, (n <= length log)%nat ->
    replay (r_ops r') (take n (log ++ l)) q0 = replay (r_ops r) (take n log) q0) as Hrep.
  { intros n Hn. rewrite take_app_le by done. apply replay_reqs; [done|].
    intros x Hx. apply Hb. by apply elem_of_take in Hx as (? & ?%list_elem_of_lookup_2 & _). }
  unfold outcome. rewrite Hrep by done. rewrite (op_spec_req _ _ _ Hreq), He, Hc.
  destruct Hreq as (_ & _ & -> & _).
  destruct (op_spec so _).2;
    [by intros (-> & -> & Hn); split_and!; try done; intros key ?%Hsub; eapply Hn..|].
  intros (? & id & ? & [[? ?]|(k' & c & ? & ? & ?)]); split; try done; exists id; split; try done.
  - left. split; [done|]. by apply Hsub.
  - right. exists k', c. rewrite length_app, Hrep by lia. split_and!; [lia..|done|done].
Qed.

Lemma reqs_le_app (ops l : list (stateOp I C)) : reqs_le ops (ops ++ l).
Proof. intros o so Ho. exists so. split; [by apply lookup_app_l_Some|done]. Qed.

Lemma reqs_le_alter (ops : list (stateOp I C)) f o :
  (forall so, same_req so (f so)) -> reqs_le ops (alter f o ops).
Proof.
  intros Hf x so Hx. destruct (decide (x = o)) as [->|Hne].
  - rewrite list_lookup_alter_eq, Hx. eauto.
  - rewrite list_lookup_alter_ne by done. eexists; split; done.
Qed.

(** The invariant survives a step that executes no operation and submits
    none: the callers move, operations are created or their answers taken. *)
Lemma conc_ok_same num q0 s s' :
  conc_ok num q0 s ->
  let r := s_round s in let r' := s_round s' in
  roundNum r' = roundNum r -> quorum r' = quorum r -> finalCh r' = finalCh r ->
  getOpSubs r' = getOpSubs r ->
  executing s' ++ stateOpCh r' = executing s ++ stateOpCh r ->
  s_submitted s' = s_submitted s -> s_log s' = s_log s ->
  reqs_le (s_ops s) (s_ops s') ->
  (forall o so, s_ops s !! o = Some so -> op_doneCh so = [] -> s_ops s' !! o = Some so) ->
  (forall o so', s_ops s' !! o = Some so' ->
     (s_ops s !! o = None /\ op_doneCh so' = [] /\ op_err so' = None /\ op_comm so' = None) \/
     exists so, s_ops s !! o = Some so /\ op_err so' = op_err so /\ op_comm so' = op_comm so) ->
  (forall t cl o e, s_callers s' !! t = Some cl -> pc cl = PSubmit o e ->
     e = None /\ o ∉ s_submitted s /\ (exists so, s_ops s' !! o = Some so /\ op_wf so) /\
     forall t2 c2 e2, s_callers s' !! t2 = Some c2 -> pc c2 = PSubmit o e2 -> t2 = t) ->
  (forall t cl o e, s_callers s' !! t = Some cl -> pc cl = PAwait o e ->
     e = None /\ o ∈ s_submitted s) ->
  conc_ok num q0 s'.
Proof.
  intros Hc r r' En Eq Ef Es Ech Esub Elog Hle Hd Hnew Hsubm Haw.
  assert (forall key o, subscribed r' key o <-> subscribed r key o) as Hss
    by (intros; unfold subscribed; by rewrite Es).
  assert (forall o, o ∈ s_log s -> (o < length (s_ops s))%nat) as Hb.
  { intros o Ho. apply (co_bound _ _ _ Hc). rewrite (co_fifo _ _ _ Hc). set_solver. }
  split; rewrite ?Esub, ?Elog.
  - pose proof (round_ok_ops (view s) (s_ops s') (roundNum r') (finalCh r') (closeCh r')
      (closedCh r') (co_round _ _ _ Hc)) as Hr.
    unfold view in *. cbn [quorum stateOpCh getOpSubs set_stateOpCh r_ops] in Hr.
    unfold set_stateOpCh. change (s_round s') with r'.
    rewrite Ech, Eq, Es. apply Hr. exact Hd.
  - rewrite <- (co_num _ _ _ Hc). exact En.
  - rewrite (co_fifo _ _ _ Hc). change (s_round s') with r'. by rewrite Ech.
  - apply (co_nodup _ _ _ Hc).
  - intros o Ho. apply (co_bound _ _ _ Hc) in Ho. apply lookup_lt_is_Some_2 in Ho as [so Ho].
    destruct (Hle o so Ho) as (so' & Ho' & _). by eapply lookup_lt_Some.
  - intros o so' Ho Ho'.
    destruct (lookup_lt_is_Some_2 _ _ (co_bound _ _ _ Hc o Ho)) as [so Hso].
    destruct (Hle o so Hso) as (so2 & ? & ?). replace so' with so2 by congruence.
    eapply op_wf_req; [done|]. by apply (co_wf _ _ _ Hc o).
  - intros t cl o e Ht Hp. destruct (Hsubm t cl o e Ht Hp) as (? & ? & ? & _). done.
  - done.
  - intros t1 t2 c1 c2 o e1 e2 H1 P1 H2 P2.
    destruct (Hsubm t2 c2 o e2 H2 P2) as (_ & _ & _ & H). by eapply H.
  - change (s_round s') with r'. rewrite Eq, Ef.
    etransitivity; [apply (co_replay _ _ _ Hc)|]. symmetry. by apply replay_reqs.
  - intros key o Ho. apply (co_subs _ _ _ Hc key). by apply Hss.
  - intros o so' Ho Hl. destruct (Hnew o so' Ho) as [(_ & ? & ? & ?)|(so & Hso & E1 & E2)]; [done|].
    destruct (co_fresh _ _ _ Hc o so Hso Hl) as (E3 & ? & ?).
    rewrite E1, E2. split_and!; try done. rewrite (Hd o so Hso E3) in Ho. congruence.
  - intros k o so' Hk Ho. pose proof (list_elem_of_lookup_2 _ _ _ Hk) as Hin.
    destruct (lookup_lt_is_Some_2 _ _ (Hb o Hin)) as [so Hso].
    destruct (Hle o so Hso) as (so'' & Ho'' & Hreq). replace so'' with so' in * by congruence.
    destruct (Hnew o so' Ho) as [(? & _)|(so2 & Hso2 & E1 & E2)]; [congruence|].
    replace so2 with so in * by congruence.
    eapply (outcome_mono r r' (s_log s)); try done.
    + by exists []; rewrite app_nil_r.
    + apply lookup_lt_Some in Hk. lia.
    + by apply (co_outcome _ _ _ Hc).
Qed.

(** *** Steps that only move a caller *)

(** A caller keeps its position in [execOp] or leaves it. *)
Definition stays s s' : Prop :=
  forall t cl, s_callers s' !! t = Some cl ->
    match pc cl with
    | PSubmit _ _ | PAwait _ _ =>
        exists cl0, s_callers s !! t = Some cl0 /\ pc cl0 = pc cl
    | _ => True
    end.

Lemma stays_same s s' : s_callers s' = s_callers s -> stays s s'.
Proof. intros E t cl H. rewrite E in H. destruct (pc cl) eqn:Ep; by try exists cl. Qed.

Lemma stays_insert s s' t cl :
  s_callers s' = <[t := cl]> (s_callers s) ->
  match pc cl with
  | PSubmit _ _ | PAwait _ _ => exists cl0, s_callers s !! t = Some cl0 /\ pc cl0 = pc cl
  | _ => True
  end -> stays s s'.
Proof.
  intros E Hcl t' cl' H. rewrite E in H. apply lookup_insert_Some in H as [[<- <-]|[_ H]]; [done|].
  destruct (pc cl') eqn:Ep; by try exists cl'.
Qed.

Lemma stays_submit num q0 s s' : conc_ok num q0 s -> stays s s' ->
  forall t cl o e, s_callers s' !! t = Some cl -> pc cl = PSubmit o e ->
  e = None /\ o ∉ s_submitted s /\ (exists so, s_ops s !! o = Some so /\ op_wf so) /\
  forall t2 c2 e2, s_callers s' !! t2 = Some c2 -> pc c2 = PSubmit o e2 -> t2 = t.
Proof.
  intros Hc Hst t cl o e Ht Hp. pose proof (Hst t cl Ht) as H. rewrite Hp in H.
  destruct H as (c0 & H0 & P0). destruct (co_submit _ _ _ Hc t c0 o e H0 P0) as (? & ? & ?).
  split_and!; [done..|]. intros t2 c2 e2 Ht2 P2. pose proof (Hst t2 c2 Ht2) as Hs2.
  rewrite P2 in Hs2. destruct Hs2 as (c1 & Hc1 & P1). by eapply (co_owner _ _ _ Hc t2 t c1 c0).
Qed.

Lemma stays_await num q0 s s' : conc_ok num q0 s -> stays s s' ->
  forall t cl o e, s_callers s' !! t = Some cl -> pc cl = PAwait o e ->
  e = None /\ o ∈ s_submitted s.
Proof.
  intros Hc Hst t cl o e Ht Hp. pose proof (Hst t cl Ht) as H. rewrite Hp in H.
  destruct H as (c0 & H0 & P0). by eapply (co_await _ _ _ Hc t c0).
Qed.

Lemma conc_ok_moved num q0 s s' :
  conc_ok num q0 s -> stays s s' ->
  let r := s_round s in let r' := s_round s' in
  roundNum r' = roundNum r -> quorum r' = quorum r -> finalCh r' = finalCh r ->
  getOpSubs r' = getOpSubs r -> stateOpCh r' = stateOpCh r ->
  executing s' = executing s ->
  s_submitted s' = s_submitted s -> s_log s' = s_log s ->
  (s_ops s' = s_ops s \/ exists o so, s_ops s !! o = Some so /\ op_doneCh so <> [] /\
     s_ops s' = alter take_done o (s_ops s)) ->
  conc_ok num q0 s'.
Proof.
  intros Hc Hst r r' En Eq Ef Es Ech Ex Esub Elog Hops.
  assert (reqs_le (s_ops s) (s_ops s')) as Hle.
  { destruct Hops as [->|(o & so & _ & _ & ->)]; [done|]. apply reqs_le_alter. auto with go. }
  apply (conc_ok_same num q0 s s' Hc); try done.
  - rewrite Ex. by f_equal.
  - intros o so Ho Hd. destruct Hops as [->|(o' & so' & Ho' & Hd' & ->)]; [done|].
    rewrite list_lookup_alter_ne; [done|]. intros ->. congruence.
  - intros o so' Ho. right. destruct Hops as [E|(o' & so & Hso & Hd & E)]; rewrite E in Ho.
    { eauto. }
    destruct (decide (o = o')) as [->|Hne].
    + rewrite list_lookup_alter_eq, Hso in Ho. injection Ho as <-. by exists so.
    + rewrite list_lookup_alter_ne in Ho by done. eauto.
  - intros t cl o e Ht Hp. destruct (stays_submit _ _ _ _ Hc Hst t cl o e Ht Hp)
      as (? & ? & (so & Hso & Hwf) & ?). split_and!; try done.
    destruct (Hle o so Hso) as (so' & ? & ?). exists so'. split; [done|]. by eapply op_wf_req.
  - by eapply stays_await.
Qed.

(** *** A method is entered *)

Lemma op_of_wf rq so t : label_ok (LCall t rq) -> op_of (Q:=Q) rq = Some so ->
  op_wf so /\ op_doneCh so = [] /\ op_err so = None /\ op_comm so = None.
Proof.
  intros Hl E. destruct rq; simpl in E; simplify_eq; unfold op_wf; simpl; split_and!; eauto.
Qed.

Lemma enter_conc_ok num q0 s t rq :
  conc_ok num q0 s -> label_ok (LCall t rq) -> s_callers s !! t = None ->
  conc_ok num q0 (enter t rq s).
Proof.
  intros Hc Hl Ht. unfold enter. destruct (op_of rq) as [so|] eqn:E.
  2:{ destruct rq; try done;
      (apply (conc_ok_moved num q0 s); [done| |try done..]; [|by left];
       by eapply stays_insert). }
  destruct (op_of_wf rq so t Hl E) as (Hwf & Hd & He & Hcm).
  set (s' := with_caller _ _ _). set (n := length (r_ops (s_round s))) in *.
  assert (s_ops s' = s_ops s ++ [so]) as Eops by done.
  assert (s_callers s' = <[t := MkCaller (PSubmit n None) None]> (s_callers s)) as Ecl by done.
  assert (n ∉ s_submitted s) as Hn by (intros H%(co_bound _ _ _ Hc); unfold s_ops in H; lia).
  apply (conc_ok_same num q0 s s' Hc); try done.
  - rewrite Eops. apply reqs_le_app.
  - intros o so' Ho _. rewrite Eops. by apply lookup_app_l_Some.
  - intros o so' Ho. rewrite Eops in Ho. apply lookup_app_Some in Ho as [Ho|[Hge Ho]]; [by right; eauto|].
    left. apply list_lookup_singleton_Some in Ho as [_ <-].
    split_and!; try done. apply lookup_ge_None_2. lia.
  - intros t1 cl o e H1 P1. rewrite Ecl in H1. apply lookup_insert_Some in H1 as [[<- <-]|[Hne H1]].
    + simpl in P1. injection P1 as <- <-. split_and!; [done..| |].
      * exists so. rewrite Eops. split; [|done]. unfold s_ops. by apply list_lookup_middle.
      * intros t2 c2 e2 H2 P2. rewrite Ecl in H2.
        apply lookup_insert_Some in H2 as [[<- _]|[_ H2]]; [done|].
        destruct (co_submit _ _ _ Hc t2 c2 n e2 H2 P2) as (_ & _ & sx & Hx & _).
        apply lookup_lt_Some in Hx. unfold s_ops in Hx. lia.
    + destruct (co_submit _ _ _ Hc t1 cl o e H1 P1) as (? & ? & sx & Hx & ?).
      split_and!; [done..| |].
      * exists sx. rewrite Eops. split; [by apply lookup_app_l_Some|done].
      * intros t2 c2 e2 Ht2 P2. rewrite Ecl in Ht2.
        apply lookup_insert_Some in Ht2 as [[<- <-]|[_ Ht2]].
        { simpl in P2. injection P2 as <- <-. apply lookup_lt_Some in Hx. unfold s_ops in Hx. lia. }
        by eapply (co_owner _ _ _ Hc t2 t1 c2 cl).
  - intros t1 cl o e H1 P1. rewrite Ecl in H1. apply lookup_insert_Some in H1 as [[<- <-]|[_ H1]]; [done|].
    by eapply (co_await _ _ _ Hc t1 cl).
Qed.

(** *** An operation is submitted *)

Lemma send_conc_ok num q0 s t cl o e ctx :
  conc_ok num q0 s -> s_callers s !! t = Some cl -> pc cl = PSubmit o e ->
  conc_ok num q0
    (with_caller t (MkCaller (PAwait o e) ctx)
      (with_submitted o
        (with_round (set_stateOpCh (stateOpCh (s_round s) ++ [o]) (s_round s)) s))).
Proof.
  intros Hc Ht Hp. destruct (co_submit _ _ _ Hc t cl o e Ht Hp) as (-> & Hn & so & Ho & Hwf).
  assert (o ∉ s_log s) as Hlog by (rewrite (co_fifo _ _ _ Hc) in Hn; set_solver).
  destruct (co_fresh _ _ _ Hc o so Ho Hlog) as (Hd & _ & _).
  set (s' := with_caller _ _ _).
  assert (s_callers s' = <[t := MkCaller (PAwait o None) ctx]> (s_callers s)) as Ecl by done.
  assert (s_submitted s' = s_submitted s ++ [o]) as Esub by done.
  assert (s_ops s' = s_ops s) as Eops by done.
  assert (forall t1 c1 o1 e1, s_callers s' !! t1 = Some c1 -> pc c1 = PSubmit o1 e1 ->
    t1 <> t /\ s_callers s !! t1 = Some c1) as Hother.
  { intros t1 c1 o1 e1 H1 P1. rewrite Ecl in H1.
    by apply lookup_insert_Some in H1 as [[_ <-]|[? ?]]. }
  split; rewrite ?Esub, ?Eops; try apply Hc.
  - replace (view s') with (set_stateOpCh (stateOpCh (view s) ++ [o]) (view s))
      by (unfold view, set_stateOpCh; simpl; by rewrite <- app_assoc).
    apply (round_ok_submit _ o so); [apply Hc| | |done..].
    + simpl. rewrite (co_fifo _ _ _ Hc) in Hn. set_solver.
    + intros key Hs. apply Hlog. by apply (co_subs _ _ _ Hc key).
  - rewrite (co_fifo _ _ _ Hc). cbn. by rewrite <- !app_assoc.
  - apply NoDup_app. split_and!; [apply Hc|set_solver|apply NoDup_singleton].
  - intros x [Hx| ->%list_elem_of_singleton]%elem_of_app; [by apply (co_bound _ _ _ Hc)|].
    by eapply lookup_lt_Some.
  - intros x sx [Hx| ->%list_elem_of_singleton]%elem_of_app Hsx; [by apply (co_wf _ _ _ Hc x)|].
    by replace sx with so by congruence.
  - intros t1 c1 o1 e1 H1 P1. destruct (Hother _ _ _ _ H1 P1) as [Hne H2].
    destruct (co_submit _ _ _ Hc t1 c1 o1 e1 H2 P1) as (? & ? & ?). split_and!; try done.
    assert (o1 <> o); [|set_solver]. intros ->. apply Hne.
    by eapply (co_owner _ _ _ Hc t1 t c1 cl).
  - intros t1 c1 o1 e1 H1 P1. rewrite Ecl in H1.
    apply lookup_insert_Some in H1 as [[<- <-]|[_ H1]].
    + simpl in P1. injection P1 as <- <-. set_solver.
    + destruct (co_await _ _ _ Hc t1 c1 o1 e1 H1 P1). set_solver.
  - intros t1 t2 c1 c2 o1 e1 e2 H1 P1 H2 P2.
    destruct (Hother _ _ _ _ H1 P1) as [_ ?], (Hother _ _ _ _ H2 P2) as [_ ?].
    by eapply (co_owner _ _ _ Hc t1 t2 c1 c2).
Qed.

(** *** An operation is executed *)

Lemma handled_reqs r o rest so r' :
  r_ops r !! o = Some so -> handled (QInv:=QInv) r o rest so r' -> reqs_le (r_ops r) (r_ops r').
Proof.
  intros Ho Hh x sx Hx. destruct (decide (x = o)) as [->|Hne].
  - rewrite (h_answer _ _ _ _ _ Hh). replace sx with so by congruence. eauto with go.
  - destruct (h_others _ _ _ _ _ Hh x Hne) as [[E _]|(id & sx' & c & _ & E & _ & E')].
    + rewrite E. exists sx. split; [done|reflexivity].
    + rewrite E'. replace sx with sx' by congruence. eauto with go.
Qed.

(** The answer to the operation just executed. *)
Lemma outcome_new r o rest so r' log q0 :
  handled (QInv:=QInv) r o rest so r' ->
  op_err so = None -> op_comm so = None ->
  (replay (r_ops r') log q0).1 = quorum r ->
  outcome r' (log ++ [o]) q0 (length log) o (answered (op_spec so (quorum r)).2 so).
Proof.
  intros Hh He Hcm Hq. unfold outcome. rewrite take_app_length, Hq.
  rewrite (op_spec_req so _ _ (same_req_answered _ _)).
  assert ((op_spec so (quorum r)).2 <> AnsPending -> forall key, ~ subscribed r' key o) as Hns.
  { intros Hp key Hs. destruct (ro_subs _ (h_ok _ _ _ _ _ Hh) key o Hs) as (sx & _ & Hx & _ & _ & _ & Hd & _).
    rewrite (h_answer _ _ _ _ _ Hh) in Hx. injection Hx as <-.
    destruct (op_spec so (quorum r)).2; simpl in Hd; try done; by apply app_nil in Hd as [_ ?]. }
  destruct ((op_spec so (quorum r)).2) eqn:E; simpl; [split_and!; try done; by apply Hns..|].
  split; [done|]. destruct (h_pending _ _ _ _ _ Hh E) as (id & ? & ?). exists id. eauto.
Qed.

(** The answers given before, one of which may just have arrived. *)
Lemma outcome_old r o rest so r' log q0 k x sx sx' :
  r_ops r !! o = Some so -> handled (QInv:=QInv) r o rest so r' ->
  (forall y, y ∈ log -> (y < length (r_ops r))%nat) -> (k < length log)%nat ->
  x <> o -> round_ok (QInv:=QInv) r ->
  (replay (r_ops r') (log ++ [o]) q0).1 = quorum r' ->
  r_ops r !! x = Some sx -> r_ops r' !! x = Some sx' ->
  outcome r log q0 k x sx -> outcome r' (log ++ [o]) q0 k x sx'.
Proof.
  intros Ho Hh Hb Hk Hne Hr Hq Hx Hx' Hout. pose proof (handled_reqs _ _ _ _ _ Ho Hh) as Hle.
  destruct (h_others _ _ _ _ _ Hh x Hne) as [[E Hsub]|(id & sy & c & Hs & E & Hg & E')].
  - replace sx' with sx by congruence.
    eapply (outcome_mono r r' log); try done; [eauto|lia|].
    intros key. split; [apply Hsub|].
    by intros [->|?]%(h_subs _ _ _ _ _ Hh).
  - replace sy with sx in * by congruence. assert (sx' = answered (AnsComm c) sx) as -> by congruence.
    destruct (ro_subs r Hr _ _ Hs) as (sz & idz & Ez & _ & Eid & Hstr & _).
    replace sz with sx in * by congruence.
    unfold outcome in *. rewrite take_app_le by lia.
    rewrite (replay_reqs (r_ops r) (r_ops r')); [|done|].
    2:{ intros y Hy. apply Hb. by apply elem_of_take in Hy as (? & ?%list_elem_of_lookup_2 & _). }
    rewrite (op_spec_req sx _ _ (same_req_answered _ _)).
    destruct ((op_spec sx _).2);
      [destruct Hout as (_ & _ & Hn); by apply Hn in Hs..|].
    destruct Hout as [He _]. split; [done|]. exists idz. split; [done|]. right.
    exists (length (log ++ [o])), c. rewrite length_app, take_ge by (rewrite length_app; done).
    split_and!; simpl; [lia..|done|]. rewrite Hq. rewrite <- Hg. by apply Get_String.
Qed.

Lemma set_view s : set_stateOpCh (stateOpCh (s_round s)) (view s) = s_round s.
Proof. unfold view, set_stateOpCh. by destruct (s_round s). Qed.

(** The executed operation is new in the log. *)
Lemma executing_not_logged num q0 s d o :
  conc_ok num q0 s -> s_loop s = LExec d o -> executing s = [o] /\ o ∉ s_log s.
Proof.
  intros Hc El. assert (executing s = [o]) as Ex by (unfold executing; by rewrite El).
  split; [done|]. pose proof (co_nodup _ _ _ Hc) as Hnd. rewrite (co_fifo _ _ _ Hc), Ex in Hnd.
  intros Hin. apply NoDup_app in Hnd as (_ & Hdis & _). apply (Hdis o Hin). left.
Qed.

(** The log with it replays to the new quorum, and every answer is the one of
    the specification. *)
Lemma executed_answers num q0 s d o so rest r' :
  conc_ok num q0 s -> s_loop s = LExec d o -> s_ops s !! o = Some so ->
  handled (QInv:=QInv) (view s) o rest so r' ->
  replay (r_ops r') (s_log s ++ [o]) q0 = (quorum r', finalCh r') /\
  forall k x sx', (s_log s ++ [o]) !! k = Some x -> r_ops r' !! x = Some sx' ->
    outcome r' (s_log s ++ [o]) q0 k x sx'.
Proof.
  intros Hc El Ho Hh. destruct (executing_not_logged _ _ _ _ _ Hc El) as [Ex Hno].
  pose proof (handled_reqs (view s) _ _ _ _ Ho Hh) as Hle.
  change (r_ops (view s)) with (s_ops s) in Hle.
  assert (forall x, x ∈ s_log s -> (x < length (s_ops s))%nat) as Hb.
  { intros x Hx. apply (co_bound _ _ _ Hc). rewrite (co_fifo _ _ _ Hc). set_solver. }
  destruct (co_fresh _ _ _ Hc o so Ho Hno) as (Hd & He & Hcm).
  assert (replay (r_ops r') (s_log s) q0 = (quorum (s_round s), finalCh (s_round s))) as Hrep.
  { rewrite (co_replay _ _ _ Hc). by apply replay_reqs. }
  assert (replay (r_ops r') (s_log s ++ [o]) q0 = (quorum r', finalCh r')) as Hrep'.
  { rewrite replay_app, Hrep. simpl. unfold replay1. rewrite (h_answer _ _ _ _ _ Hh).
    rewrite (op_spec_req so _ _ (same_req_answered _ _)),
      (op_finalizes_req so _ _ (same_req_answered _ _)).
    by rewrite (h_quorum _ _ _ _ _ Hh), (h_final _ _ _ _ _ Hh). }
  split; [done|]. intros k x sx' [Hk|[Hge Hk]]%lookup_app_Some Hx.
  - pose proof (list_elem_of_lookup_2 _ _ _ Hk) as Hin. assert (x <> o) by (by intros ->).
    destruct (lookup_lt_is_Some_2 _ _ (Hb x Hin)) as [sx Hsx].
    eapply (outcome_old (view s)); try done.
    + by eapply lookup_lt_Some.
    + apply Hc.
    + by rewrite Hrep'.
    + by apply (co_outcome _ _ _ Hc).
  - apply list_lookup_singleton_Some in Hk as [Hk <-]. replace k with (length (s_log s)) by lia.
    rewrite (h_answer _ _ _ _ _ Hh) in Hx. injection Hx as <-.
    apply (outcome_new (view s) o _ so r' _ q0 Hh); [done..|]. by rewrite Hrep.
Qed.

Lemma exec_conc_ok num q0 s d o :
  conc_ok num q0 s -> s_loop s = LExec d o ->
  exists r', doOp o (s_round s) = (r', Ok tt) /\
    closeCh r' = closeCh (s_round s) /\ closedCh r' = closedCh (s_round s) /\
    conc_ok num q0 (with_loop (LSelect d) (with_logged o (with_round r' s))).
Proof.
  intros Hc El. destruct (executing_not_logged _ _ _ _ _ Hc El) as [Ex Hno].
  destruct (doOp_ok (QInv:=QInv) (view s) o (stateOpCh (s_round s)))
    as (so & Ho & Hwf & r' & Hdo & Hh); [apply Hc|unfold view; by rewrite Ex|].
  rewrite set_view in Hdo.
  exists r'. split; [done|]. split; [apply Hh|]. split; [apply Hh|].
  pose proof (handled_reqs (view s) _ _ _ _ Ho Hh) as Hle.
  destruct (executed_answers _ _ _ _ _ _ _ _ Hc El Ho Hh) as [Hrep' Hout].
  change (r_ops (view s)) with (s_ops s) in *. set (s' := with_loop _ _).
  split; change (s_round s') with r'; change (s_log s') with (s_log s ++ [o]);
    change (s_submitted s') with (s_submitted s); change (s_callers s') with (s_callers s);
    change (s_ops s') with (r_ops r').
  - replace (view s') with r' by (by destruct r'). apply Hh.
  - rewrite (h_num _ _ _ _ _ Hh). apply Hc.
  - rewrite (co_fifo _ _ _ Hc), Ex, (h_queue _ _ _ _ _ Hh). by rewrite <- app_assoc.
  - apply Hc.
  - intros x Hx. rewrite (h_length _ _ _ _ _ Hh). by apply (co_bound _ _ _ Hc).
  - intros x sx' Hx Hsx'.
    destruct (lookup_lt_is_Some_2 _ _ (co_bound _ _ _ Hc x Hx)) as [sx Hsx].
    destruct (Hle x sx Hsx) as (sx2 & ? & ?). replace sx' with sx2 by congruence.
    eapply op_wf_req; [done|]. by apply (co_wf _ _ _ Hc x).
  - intros t cl x e Ht Hp. destruct (co_submit _ _ _ Hc t cl x e Ht Hp) as (? & ? & sx & Hx & Hw).
    split_and!; try done. destruct (Hle x sx Hx) as (sx' & ? & ?). exists sx'.
    split; [done|]. by eapply op_wf_req.
  - apply (co_await _ _ _ Hc).
  - apply (co_owner _ _ _ Hc).
  - by rewrite Hrep'.
  - intros key x [->|Hs]%(h_subs _ _ _ _ _ Hh); [set_solver|].
    apply (co_subs _ _ _ Hc key) in Hs. set_solver.
  - intros x sx' Hx Hnx. assert (x <> o /\ x ∉ s_log s) as [Hne Hnl] by set_solver.
    destruct (h_others _ _ _ _ _ Hh x Hne) as [[E _]|(id & sx & c & Hs & _)].
    + apply (co_fresh _ _ _ Hc x); [|done]. by rewrite E in Hx.
    + exfalso. apply Hnl. by apply (co_subs _ _ _ Hc (mid_String id)).
  - exact Hout.
Qed.

(** *** Every step *)

Lemma start_conc_ok num q0 : QInv q0 -> conc_ok num q0 (start num q0).
Proof.
  intros Hq.
  assert (forall r key o, getOpSubs r = ∅ -> ~ subscribed r key o) as Hns.
  { intros r key o E (inner & Hi & _). rewrite E in Hi. by apply lookup_empty_Some in Hi. }
  split; cbn [s_round s_submitted s_log s_callers start s_ops view executing s_loop]; try done;
    try (by intros; exfalso; set_solver).
  - split; cbn; try done; try (by intros; exfalso; set_solver).
    + apply NoDup_nil_2.
    + intros key o Hs. exfalso. eapply Hns; [|exact Hs]. done.
    + intros id o Hs. exfalso. eapply Hns; [|exact Hs]. done.
  - apply NoDup_nil_2.
  - intros key o Hs. exfalso. eapply Hns; [|exact Hs]. done.
Qed.

(** Once an operation is run over, that is recorded. *)
Lemma after_execOp_mono t cl o retry err s s' :
  after_execOp t cl o retry err s = Some s' -> s_resubmitted s' = false ->
  s_resubmitted s = false.
Proof.
  unfold after_execOp. destruct (r_ops (s_round s) !! o) as [so|]; simpl; [|done].
  intros. destruct (op_kind so), retry; simplify_eq/=; try done; split_tests.
Qed.

Lemma caller_label_mono t l cl s s' :
  caller_label t l cl s = Some s' -> s_resubmitted s' = false -> s_resubmitted s = false.
Proof.
  intros H Hn. destruct l; cbn in H; try done; destruct (pc cl); try done;
    try (destruct (r_ops (s_round s) !! o) as [so|]; [|done]; cbn in H);
    simplify_eq/=; try done; split_tests;
    try (by eapply after_execOp_mono);
    apply after_execOp_mono in H; done.
Qed.

Lemma resubmitted_mono l s s' :
  exec_label l s = Some s' -> s_resubmitted s' = false -> s_resubmitted s = false.
Proof.
  unfold exec_label. destruct (s_crash s); [done|]. intros H Hn.
  destruct l; try (apply bind_Some in H as (cl & _ & H); by eapply caller_label_mono);
    unfold loop_label, enter in H; simplify_eq/=; try done; split_tests.
Qed.

(** When [execOp] returns to its method and the operation is not run over, the
    caller has returned from the method. *)
Lemma after_execOp_inv t cl o err s s' :
  after_execOp t cl o None err s = Some s' -> s_resubmitted s' = false ->
  exists comm so, s_ops s !! o = Some so /\
    comm = match op_kind so with getOp => op_comm so | _ => None end /\
    s' = with_caller t (MkCaller (PReturned comm err) (ctxErr cl)) s.
Proof.
  unfold after_execOp, s_ops. destruct (r_ops (s_round s) !! o) as [so|]; [|done]. simpl.
  intros H Hn. exists (match op_kind so with getOp => op_comm so | _ => None end), so.
  split_and!; [done..|]. destruct (op_kind so); simplify_eq/=; try done; split_tests.
Qed.

Lemma after_execOp_conc_ok num q0 t cl o err s s' :
  conc_ok num q0 s -> after_execOp t cl o None err s = Some s' -> s_resubmitted s' = false ->
  conc_ok num q0 s'.
Proof.
  intros Hc H Hn. destruct (after_execOp_inv _ _ _ _ _ _ H Hn) as (comm & so & _ & _ & ->).
  apply (conc_ok_moved num q0 s); try done; [|by left]. by eapply stays_insert.
Qed.

Lemma take_conc_ok num q0 o so s :
  conc_ok num q0 s -> s_ops s !! o = Some so -> op_doneCh so <> [] ->
  conc_ok num q0
    (with_round (set_ops (alter take_done o (r_ops (s_round s))) (s_round s)) s).
Proof.
  intros Hc Ho Hd. apply (conc_ok_moved num q0 s); try done; [by apply stays_same|].
  right. by exists o, so.
Qed.

(** Moves that leave the round, the loop and the history as they are. *)
Lemma moved_conc_ok num q0 t p ctx s :
  conc_ok num q0 s ->
  match p with
  | PSubmit _ _ | PAwait _ _ => exists cl0, s_callers s !! t = Some cl0 /\ pc cl0 = p
  | _ => True
  end ->
  conc_ok num q0 (with_caller t (MkCaller p ctx) s).
Proof.
  intros Hc Hp. apply (conc_ok_moved num q0 s); try done; [|by left]. by eapply stays_insert.
Qed.

Lemma caller_conc_ok num q0 t l cl s s' :
  conc_ok num q0 s -> s_callers s !! t = Some cl -> caller_label t l cl s = Some s' ->
  s_resubmitted s' = false -> conc_ok num q0 s'.
Proof.
  intros Hc Ht H Hn. destruct cl as [p ctx].
  assert (forall o e, p = PSubmit o e \/ p = PAwait o e -> e = None) as Hnone.
  { intros o e [-> | ->]; [by destruct (co_submit _ _ _ Hc t _ o e Ht)
                          |by destruct (co_await _ _ _ Hc t _ o e Ht)]. }
  destruct l; cbn in H; try done; destruct p as [o rt|o rt| | | | |comm er]; try done;
    try (assert (rt = None) as -> by eauto); simplify_eq/=;
    split_tests; try (by eapply after_execOp_conc_ok);
    try (by apply moved_conc_ok; eauto);
    try (by eapply send_conc_ok).
  - destruct (r_ops (s_round s) !! o) as [so|] eqn:Ho; simplify_eq/=. case_match; [done|].
    eapply after_execOp_conc_ok; [|done..]. by eapply (take_conc_ok num q0 o so); [| |congruence].
  - by apply (conc_ok_moved num q0 s); try done; [|left]; try by apply stays_same.
  - apply (conc_ok_moved num q0 s); try done; [|by left]. by eapply stays_insert.
Qed.

Lemma loop_conc_ok num q0 l s s' :
  conc_ok num q0 s -> loop_label l s = Some s' -> conc_ok num q0 s'.
Proof.
  intros Hc H. unfold loop_label in H.
  destruct l; try done; destruct (s_loop s) as [d|d o|] eqn:El; try done.
  - destruct (stateOpCh (s_round s)) as [|o rest] eqn:Ech; simplify_eq.
    apply (conc_ok_same num q0 s); try done; try (by apply Hc).
    + simpl. by unfold executing; rewrite El, Ech.
    + intros o' so Ho. right. eauto.
    + intros t cl o' e Ht Hp. exact (stays_submit num q0 s s Hc (stays_same s s eq_refl) t cl o' e Ht Hp).
  - destruct (exec_conc_ok num q0 s d o Hc El) as (r' & E & _ & _ & ?).
    rewrite E in H. by simplify_eq.
  - destruct d; [done|]. case_match; simplify_eq.
    apply (conc_ok_moved num q0 s); try done; [by apply stays_same| |by left].
    unfold executing. by rewrite El.
  - destruct d; [|done]. repeat case_match; simplify_eq;
    (apply (conc_ok_moved num q0 s); try done; try (by apply stays_same); try (by left);
     unfold executing; simpl; by rewrite El).
Qed.

Lemma step_conc_ok num q0 l s s' :
  conc_ok num q0 s -> label_ok l -> exec_label l s = Some s' -> s_resubmitted s' = false ->
  conc_ok num q0 s'.
Proof.
  unfold exec_label. intros Hc Hl H Hn. destruct (s_crash s); [done|].
  destruct l; try (by eapply loop_conc_ok);
    try (apply bind_Some in H as (cl & Ht & H); by eapply caller_conc_ok).
  destruct (s_callers s !! t) eqn:Ht; simplify_eq. by apply enter_conc_ok.
Qed.

Lemma reach_conc_ok num q0 s :
  QInv q0 -> reach num q0 s -> s_resubmitted s = false -> conc_ok num q0 s.
Proof.
  intros Hq. induction 1 as [|s l s' Hr IH Hl Hs]; intros Hn; [by apply start_conc_ok|].
  pose proof (resubmitted_mono _ _ _ Hs Hn). by eapply step_conc_ok; eauto.
Qed.

(** *** Stopping *)

(** Callers of [Stop] that have not closed [closeCh]. *)
Definition stopping (p : caller_pc C) : bool :=
  match p with PStopCheck | PStopClose => true | _ => false end.

Record stops_ok s : Prop := {
  so_known : forall t, t ∈ s_stops s -> is_Some (s_callers s !! t);
  so_pc : forall t cl, s_callers s !! t = Some cl -> stopping (pc cl) = true -> t ∈ s_stops s;
  so_close : closeCh (s_round s) = true ->
    exists t cl, t ∈ s_stops s /\ s_callers s !! t = Some cl /\ stopping (pc cl) = false;
  so_closed : closedCh (s_round s) = true <-> s_loop s = LStopped;
  so_drain : s_loop s <> LSelect false -> (forall o, s_loop s <> LExec false o) ->
    closeCh (s_round s) = true;
  so_crash : s_crash s <> None ->
    exists t1 t2, t1 ∈ s_stops s /\ t2 ∈ s_stops s /\ t1 <> t2;
}.

(** A caller moves; [closeCh] may get closed by it. *)
Lemma stops_ok_moved s s' t cl cl' :
  stops_ok s -> s_callers s !! t = Some cl ->
  s_callers s' = <[t := cl']> (s_callers s) -> s_stops s' = s_stops s ->
  s_crash s' = None -> s_loop s' = s_loop s -> closedCh (s_round s') = closedCh (s_round s) ->
  (stopping (pc cl') = true -> stopping (pc cl) = true) ->
  (closeCh (s_round s') = closeCh (s_round s) \/
   closeCh (s_round s') = true /\ stopping (pc cl) = true /\ stopping (pc cl') = false) ->
  stops_ok s'.
Proof.
  intros Hs Ht Ecl Est Ecr El Ecd Hp Hclose.
  split; rewrite ?Est, ?El, ?Ecd, ?Ecr; try done; try apply Hs.
  - intros t' Ht'. rewrite Ecl. apply lookup_insert_is_Some'. right. by apply Hs.
  - intros t' c'. rewrite Ecl. intros [[<- <-]|[_ H]]%lookup_insert_Some Hst.
    + apply (so_pc s Hs t cl); auto.
    + by apply (so_pc s Hs t' c').
  - intros Hc. destruct Hclose as [E|(_ & H1 & H2)].
    + rewrite E in Hc. destruct (so_close s Hs Hc) as (t' & c' & ? & ? & ?).
      destruct (decide (t' = t)) as [->|Hne].
      * exists t, cl'. rewrite Ecl, lookup_insert_eq. split_and!; try done.
        destruct (stopping (pc cl')) eqn:E'; [|done]. replace c' with cl in * by congruence.
        rewrite Hp in *; done.
      * exists t', c'. rewrite Ecl, lookup_insert_ne by done. done.
    + exists t, cl'. rewrite Ecl, lookup_insert_eq. split_and!; try done.
      by apply (so_pc s Hs t cl).
  - intros H1 H2. destruct Hclose as [->|[-> _]]; [|done]. by apply Hs.
Qed.

(** The loop moves. *)
Lemma stops_ok_loop s s' :
  stops_ok s -> s_callers s' = s_callers s -> s_stops s' = s_stops s ->
  s_crash s' = None -> closeCh (s_round s') = closeCh (s_round s) ->
  (closedCh (s_round s') = true <-> s_loop s' = LStopped) ->
  (s_loop s' <> LSelect false -> (forall o, s_loop s' <> LExec false o) ->
    closeCh (s_round s) = true) ->
  stops_ok s'.
Proof.
  intros Hs E1 E2 E3 E4 E5 E6. split; rewrite ?E1, ?E2, ?E3, ?E4; try done; by apply Hs.
Qed.

Lemma enter_stops_ok s t rq :
  stops_ok s -> s_crash s = None -> s_callers s !! t = None -> stops_ok (enter t rq s).
Proof.
  intros Hs Hcr Ht. unfold enter.
  assert (forall cl (s' : Sys), s_callers s' = <[t := cl]> (s_callers s) ->
    s_crash s' = s_crash s -> s_loop s' = s_loop s ->
    closedCh (s_round s') = closedCh (s_round s) -> closeCh (s_round s') = closeCh (s_round s) ->
    (s_stops s' = s_stops s /\ stopping (pc cl) = false) \/ s_stops s' = s_stops s ++ [t] ->
    stops_ok s') as H.
  { intros cl s' E1 E2 E3 E4 E5 E6.
    assert (forall x, x ∈ s_stops s -> x <> t) as Hne.
    { intros x [? Hx]%(so_known s Hs) ->. congruence. }
    assert (forall x, x ∈ s_stops s -> x ∈ s_stops s') as Hsub.
    { intros x Hx. destruct E6 as [[-> _]| ->]; set_solver. }
    split; rewrite ?E2, ?E3, ?E4, ?E5; try done; try apply Hs.
    - intros x Hx. rewrite E1. apply lookup_insert_is_Some'.
      destruct E6 as [[E _]|E]; rewrite E in Hx.
      + right. by apply Hs.
      + apply elem_of_app in Hx as [Hx| ->%list_elem_of_singleton]; [right; by apply Hs|by left].
    - intros x c. rewrite E1. intros [[<- <-]|[_ Hx]]%lookup_insert_Some Hst.
      + destruct E6 as [[_ ?]| ->]; [congruence|set_solver].
      + apply Hsub. by apply (so_pc s Hs x c).
    - intros Hc. destruct (so_close s Hs Hc) as (x & c & Hx & ? & ?). exists x, c.
      rewrite E1, lookup_insert_ne by (intros ->; by apply (Hne x)). auto. }
  destruct (op_of rq) eqn:E; [eapply H; try done; by left|].
  destruct rq; try done; eapply H; try done; [by right|by left].
Qed.

Lemma after_execOp_stops_ok t cl o err s s' s0 :
  stops_ok s0 -> s_callers s0 !! t = Some cl -> s_crash s0 = None ->
  after_execOp t cl o None err s = Some s' -> s_resubmitted s' = false ->
  s_callers s = s_callers s0 -> s_stops s = s_stops s0 -> s_crash s = None ->
  s_loop s = s_loop s0 -> closeCh (s_round s) = closeCh (s_round s0) ->
  closedCh (s_round s) = closedCh (s_round s0) ->
  stops_ok s'.
Proof.
  intros Hs Ht Hcr H Hn E1 E2 E3 E4 E5 E6.
  destruct (after_execOp_inv _ _ _ _ _ _ H Hn) as (comm & so & _ & _ & ->).
  apply (stops_ok_moved s0 _ t cl (MkCaller (PReturned comm err) (ctxErr cl))); try done.
  - simpl. by rewrite E1.
  - by left.
Qed.

Lemma caller_stops_ok num q0 t l cl s s' :
  conc_ok num q0 s -> stops_ok s -> s_crash s = None ->
  s_callers s !! t = Some cl -> caller_label t l cl s = Some s' ->
  s_resubmitted s' = false -> stops_ok s'.
Proof.
  intros Hc Hs Hcr Ht H Hn. destruct cl as [p ctx].
  assert (forall o e, p = PSubmit o e \/ p = PAwait o e -> e = None) as Hnone.
  { intros o e [-> | ->]; [by destruct (co_submit _ _ _ Hc t _ o e Ht)
                          |by destruct (co_await _ _ _ Hc t _ o e Ht)]. }
  destruct l; cbn in H; try done; destruct p as [o rt|o rt| | | | |comm er]; try done;
    try (assert (rt = None) as -> by eauto);
    try (apply bind_Some in H as (so & _ & H)); simplify_eq/=; split_tests;
    try (by eapply (after_execOp_stops_ok t _ _ _ _ _ s Hs Ht Hcr H Hn));
    try (by eapply (stops_ok_moved s _ t _ _ Hs Ht); first [reflexivity|done|by left|by right]).
  (* the second [Stop] closes the closed channel *)
  split; cbn; try apply Hs. intros _.
  destruct (so_close s Hs) as (t1 & c1 & ? & Hc1 & Hst); [done|]. exists t1, t.
  split_and!; [done|by eapply (so_pc s Hs t)|]. intros ->. rewrite Hc1 in Ht. by simplify_eq.
Qed.

Lemma loop_stops_ok num q0 l s s' :
  conc_ok num q0 s -> stops_ok s -> s_crash s = None -> loop_label l s = Some s' -> stops_ok s'.
Proof.
  intros Hc Hs Hcr H. unfold loop_label in H. pose proof (so_closed s Hs) as Hcd.
  pose proof (so_drain s Hs) as Hdr.
  destruct l; try done; destruct (s_loop s) as [d|d o|] eqn:El; try done.
  - destruct (stateOpCh (s_round s)) as [|o rest] eqn:Ech; simplify_eq.
    apply (stops_ok_loop s); try done; cbn; [rewrite Hcd; by split|].
    intros _ Hne. apply Hdr; [|done]. intros [= ->]. by apply (Hne o).
  - destruct (exec_conc_ok num q0 s d o Hc El) as (r' & E & E1 & E2 & _).
    rewrite E in H. simplify_eq.
    apply (stops_ok_loop s); try done; cbn; [by rewrite E2, Hcd; split|].
    intros Hne _. apply Hdr; [done|]. intros o' [= -> _]. done.
  - destruct d; [done|]. case_match; simplify_eq.
    apply (stops_ok_loop s); try done; cbn. rewrite Hcd. by split.
  - destruct d; [|done]. destruct (stateOpCh (s_round s)); [|done].
    destruct (closedCh (s_round s)) eqn:Ecd; [by destruct Hcd as [Hcd%(fun f => f eq_refl) _]|]. simplify_eq.
    apply (stops_ok_loop s); try done; cbn. intros _ _. by apply Hdr.
Qed.

Lemma reach_ok num q0 s :
  QInv q0 -> reach num q0 s -> s_resubmitted s = false -> conc_ok num q0 s /\ stops_ok s.
Proof.
  intros Hq Hr Hn. split; [by apply reach_conc_ok|].
  induction Hr as [|s l s' Hr IH Hl H].
  { split; cbn; try done; intros; set_solver. }
  pose proof (resubmitted_mono _ _ _ H Hn) as Hn0. specialize (IH Hn0).
  pose proof (reach_conc_ok num q0 s Hq Hr Hn0) as Hc.
  unfold exec_label in H. destruct (s_crash s) eqn:Hcr; [done|].
  destruct l; try (by eapply loop_stops_ok);
    try (apply bind_Some in H as (cl & Ht & H); by eapply caller_stops_ok).
  destruct (s_callers s !! t) eqn:Ht; simplify_eq. by apply enter_stops_ok.
Qed.
End inv.
