(* ===== verification/RoundQuorum.v ===== *)
(** What a round does to its quorum, in every execution: whatever happens to
    subscriptions, contexts and answers, the quorum changes only by the methods
    that the submitted operations ask for, called with their requests.  An
    invariant of the quorum under these calls is an invariant of the round. *)

From S2P Require Import Prelude Crypto Rebro Round RoundConc RoundInv.

Section moves.
Context {I Q : Type} {MI : MessageID I} {QC : QuorumCertificate I Q} {MO : MapOrder}.
Abbreviation C := (Certificate (I:=I) (Q:=Q)).
Abbreviation R := (RoundSt I C Q).
Abbreviation Sys := (sys I C Q).
Implicit Types (s : Sys) (r : R).

(** The request data of an operation. *)
Definition req (so : stateOp I C) : stateOpKind * option (Message I) * option I * option Signature :=
  (op_kind so, op_msg so, op_id so, op_sig so).

Definition reqs r := map req (r_ops r).

(** A method of the quorum that a request asks for, called in state [q]. *)
Inductive move (so : stateOp I C) (q : Q) : Q -> Prop :=
| mv_add msg : op_kind so = addOp -> op_msg so = Some msg -> move so q (Add msg q).1
| mv_delete id : op_kind so = deleteOp -> op_id so = Some id -> move so q (Delete id q).1
| mv_sign id sig c : op_kind so = addSignOp -> op_id so = Some id -> op_sig so = Some sig ->
    Get id q = Some c -> move so q (Cert_AddSignature c sig q).1
| mv_final : op_kind so = addSignOp -> move so q (Finalize q).1.

Definition moves (so : stateOp I C) : Q -> Q -> Prop := rtc (move so).

(** [finalCh] is closed when the quorum reports that it is final. *)
Definition effect (so : stateOp I C) r r' : Prop :=
  roundNum r' = roundNum r /\ reqs r' = reqs r /\ moves so (quorum r) (quorum r') /\
  (finalCh r' = finalCh r \/
   exists q, moves so (quorum r) q /\ Finalize q = (quorum r', Ok true)).

(** What answering and subscribing leave alone. *)
Definition kept : R -> Z * Q * bool * list _ := fun r => (roundNum r, quorum r, finalCh r, reqs r).

Lemma kept_effect so r r' : same_on kept r r' -> effect so r r'.
Proof.
  unfold same_on, kept. intros [= E0 E1 E2 E3]. split_and!; [done..| |by left].
  rewrite E1. apply rtc_refl.
Qed.

Lemma reqs_alter f o r : (forall so, req (f so) = req so) ->
  reqs (set_ops (alter f o (r_ops r)) r) = reqs r.
Proof.
  intros Hf. unfold reqs. simpl. apply list_eq. intros i. rewrite !list_lookup_fmap.
  destruct (decide (i = o)) as [->|Hne].
  - rewrite list_lookup_alter_eq. destruct (r_ops r !! o); simpl; [by rewrite Hf|done].
  - by rewrite list_lookup_alter_ne.
Qed.

Lemma update_op_kept o f : (forall so, req (f so) = req so) -> frame (same_on kept) (update_op o f).
Proof.
  intros Hf. apply frame_modify. intros r. unfold same_on, kept. by rewrite reqs_alter.
Qed.

Lemma send_done_kept o d : frame (same_on kept) (send_done o d).
Proof.
  unfold send_done. apply frame_bind; [apply _|by intros s s' r [= <- _]|intros so].
  case_match; [by apply update_op_kept|by intros s s' r [= <- _]].
Qed.

Lemma SetError_kept o e : frame (same_on kept) (SetError o e).
Proof.
  unfold SetError. apply frame_bind; [apply _|by apply update_op_kept|intros _; apply send_done_kept].
Qed.

Lemma SetCertificate_kept o c : frame (same_on kept) (SetCertificate o c).
Proof.
  unfold SetCertificate.
  apply frame_bind; [apply _|by apply update_op_kept|intros _; apply send_done_kept].
Qed.

Lemma stateGet_effect o so r r' res : stateGet o r = (r', res) -> effect so r r'.
Proof.
  intros H. apply kept_effect. revert r r' res H.
  change (frame (same_on kept) (stateGet o)). unfold stateGet.
  apply frame_bind; [apply _|by intros s s' x [= <- _]|intros op].
  apply frame_bind; [apply _|apply frame_const; apply _|intros id].
  apply frame_bind; [apply _|apply frame_gets; apply _|intros q].
  case_match; [apply SetCertificate_kept|].
  apply frame_bind; [apply _|apply frame_gets; apply _|intros subs].
  case_match; [|by apply frame_modify].
  apply frame_bind; [apply _|case_match; by apply frame_modify|intros _]. apply SetError_kept.
Qed.

(** An answer after a call of the quorum. *)
Lemma effect_answered so r r1 r' :
  effect so r r1 -> same_on kept r1 r' -> effect so r r'.
Proof.
  unfold same_on, kept, effect. intros (E0 & E1 & E2 & E3) [= E7 E4 E5 E6]. rewrite E4, E5, E6, E7.
  split_and!; [done..|]. destruct E3 as [->|(q & Hq & E)]; [by left|]. right. by exists q.
Qed.

Lemma effect_moved so r q : moves so (quorum r) q -> effect so r (set_quorum q r).
Proof. intros Hm. split_and!; [done|done|done|by left]. Qed.

Lemma stateDelete_effect o so r r' res :
  r_ops r !! o = Some so -> op_kind so = deleteOp -> stateDelete o r = (r', res) -> effect so r r'.
Proof.
  intros Ho Hk H. unfold stateDelete, load_op, on_quorum in H. st_unfold_in H. rewrite Ho in H.
  cbn [nonnil] in H. destruct (op_id so) as [id|] eqn:Ei; cbn [nonnil] in H;
    [|simplify_eq; by apply kept_effect].
  destruct (Delete id (quorum r)) as [q x] eqn:E.
  assert (effect so r (set_quorum q r)) as He.
  { apply effect_moved, rtc_once. replace q with (Delete id (quorum r)).1 by (by rewrite E).
    by apply mv_delete. }
  destruct x as [[]|e|w|w]; simplify_eq; try done;
    (eapply effect_answered; [exact He|]; by eapply SetError_kept).
Qed.

Lemma stateAdd_effect o so r r' res :
  r_ops r !! o = Some so -> op_kind so = addOp -> stateAdd o r = (r', res) -> effect so r r'.
Proof.
  intros Ho Hk H. unfold stateAdd, load_op, on_quorum in H. st_unfold_in H.
  rewrite Ho in H. cbn [nonnil] in H. destruct (op_msg so) as [msg|] eqn:Em; cbn [nonnil] in H;
    [|simplify_eq; by apply kept_effect].
  destruct (Add msg (quorum r)) as [q x] eqn:E.
  assert (effect so r (set_quorum q r)) as He.
  { apply effect_moved, rtc_once. replace q with (Add msg (quorum r)).1 by (by rewrite E).
    by apply mv_add. }
  eapply effect_answered; [exact He|]. clear He.
  destruct x as [[]|e|w|w]; simplify_eq; try done; try (by eapply SetError_kept).
  destruct (msgID msg) as [id|]; cbn [nonnil] in H; [|by simplify_eq].
  change (getOpSubs (set_quorum q r)) with (getOpSubs r) in H.
  destruct (getOpSubs r !! mid_String id) as [inner|]; [|by eapply SetError_kept].
  case_match; [by eapply SetError_kept|].
  destruct (Get id _) as [c|]; [|by simplify_eq].
  assert (frame (same_on kept) (for_each (range inner).*1 (fun sub => SetCertificate sub c))) as Hf.
  { apply frame_for_each; [apply _|]. intros sub. apply SetCertificate_kept. }
  destruct (for_each _ _ _) as [r1 x] eqn:Ef. apply Hf in Ef.
  destruct x as [[]|e|w|w]; simplify_eq; try done.
  etransitivity; [exact Ef|]. by apply SetError_kept in H.
Qed.

Lemma stateAddSign_effect o so r r' res :
  r_ops r !! o = Some so -> op_kind so = addSignOp -> stateAddSign o r = (r', res) -> effect so r r'.
Proof.
  intros Ho Hk H. unfold stateAddSign, load_op, on_quorum in H. st_unfold_in H.
  rewrite Ho in H. cbn [nonnil] in H. destruct (op_id so) as [id|] eqn:Ei; cbn [nonnil] in H;
    [|simplify_eq; by apply kept_effect].
  destruct (Get id (quorum r)) as [c|] eqn:Eg;
    [|apply kept_effect; by eapply SetError_kept].
  destruct (op_sig so) as [sig|] eqn:Es; cbn [nonnil] in H; [|simplify_eq; by apply kept_effect].
  destruct (Cert_AddSignature c sig (quorum r)) as [q x] eqn:E.
  assert (moves so (quorum r) q) as Hm.
  { apply rtc_once. replace q with (Cert_AddSignature c sig (quorum r)).1 by (by rewrite E).
    by eapply mv_sign. }
  pose proof (effect_moved _ _ _ Hm) as He.
  destruct x as [[]|e|w|w]; simplify_eq; try done;
    try (eapply effect_answered; [exact He|]; by eapply SetError_kept).
  cbn [quorum set_quorum] in H. destruct (Finalize q) as [q1 y] eqn:E1.
  assert (moves so (quorum r) q1) as Hm1.
  { eapply rtc_r; [exact Hm|]. replace q1 with (Finalize q).1 by (by rewrite E1). by apply mv_final. }
  pose proof (effect_moved _ _ _ Hm1) as He1.
  destruct y as [[]|e|w|w]; simplify_eq; try done;
    try (eapply effect_answered; [exact He1|]; by eapply SetError_kept).
  change (finalCh (set_quorum q1 (set_quorum q r))) with (finalCh r) in H.
  destruct (finalCh r) eqn:Ef; [eapply effect_answered; [exact He1|]; by eapply SetError_kept|].
  eapply effect_answered; [|by eapply SetError_kept].
  split_and!; [done|done|exact Hm1|]. right. by exists q.
Qed.

(** Every handler changes the quorum only by the calls its operation asks for. *)
Lemma doOp_effect o so r r' res :
  r_ops r !! o = Some so -> doOp o r = (r', res) -> effect so r r'.
Proof.
  intros Ho H. unfold doOp, load_op in H. st_unfold_in H. rewrite Ho in H. cbn [nonnil] in H.
  destruct (op_kind so) eqn:Ek.
  - by eapply stateAdd_effect.
  - by eapply stateGet_effect.
  - by eapply stateDelete_effect.
  - by eapply stateAddSign_effect.
Qed.

(** ** Steps of the goroutines *)

(** The operation a label creates. *)
Definition created (l : label I) : list (stateOpKind * option (Message I) * option I * option Signature) :=
  match l with
  | LCall _ rq => match op_of (Q:=Q) rq with Some so => [req so] | None => [] end
  | _ => []
  end.

Definition step_effect (l : label I) s s' : Prop :=
  roundNum (s_round s') = roundNum (s_round s) /\
  reqs (s_round s') = reqs (s_round s) ++ created l /\
  ((quorum (s_round s') = quorum (s_round s) /\ finalCh (s_round s') = finalCh (s_round s)) \/
   exists o so, r_ops (s_round s) !! o = Some so /\ effect so (s_round s) (s_round s')).

Lemma kept_step_effect l s s' :
  created l = [] -> same_on kept (s_round s) (s_round s') -> step_effect l s s'.
Proof.
  unfold step_effect, same_on, kept. intros -> [= -> -> -> ->]. rewrite app_nil_r.
  split_and!; [done..|by left].
Qed.

Lemma after_execOp_round t cl o retry err s s' :
  after_execOp t cl o retry err s = Some s' -> s_round s' = s_round s.
Proof.
  unfold after_execOp. destruct (r_ops (s_round s) !! o) as [so|]; simpl; [|done].
  intros. destruct (op_kind so), retry; simplify_eq/=; try done; split_tests.
Qed.

Lemma caller_label_kept t l cl s s' :
  caller_label t l cl s = Some s' -> same_on kept (s_round s) (s_round s').
Proof.
  intros H. destruct l; cbn in H; try done; destruct (pc cl); try done;
    try (destruct (r_ops (s_round s) !! o) as [so|] eqn:Ho; [|done]; cbn in H);
    simplify_eq/=; try done; split_tests;
    try (apply after_execOp_round in H; rewrite H; try done).
  all: unfold same_on, kept; cbn [s_round with_round]; by rewrite reqs_alter.
Qed.

Lemma loop_label_effect l s s' : loop_label l s = Some s' -> created l = [] -> step_effect l s s'.
Proof.
  intros H Hc. unfold loop_label in H.
  destruct l; try done; destruct (s_loop s) as [d|d o|] eqn:El; try done;
    try (apply kept_step_effect; [done|]; split_tests; done).
  destruct (r_ops (s_round s) !! o) as [so|] eqn:Ho.
  - destruct (doOp o (s_round s)) as [r' res] eqn:E. pose proof (doOp_effect _ _ _ _ _ Ho E) as He.
    assert (s_round s' = r') as Er by (destruct res as [[]|?|?|?]; by simplify_eq).
    unfold step_effect. rewrite Er, app_nil_r.
    split_and!; [apply He|apply He|]. right. by exists o, so.
  - unfold doOp, load_op in H. st_unfold_in H. rewrite Ho in H. simplify_eq/=.
    by apply kept_step_effect.
Qed.

Lemma exec_label_effect l s s' : exec_label l s = Some s' -> step_effect l s s'.
Proof.
  unfold exec_label. destruct (s_crash s); [done|]. intros H.
  destruct l as [t rq|t e|t|t|t|t|t|t| | | |];
    try (apply bind_Some in H as (cl & _ & H); apply kept_step_effect; [done|];
         by eapply caller_label_kept);
    try (by apply loop_label_effect).
  destruct (s_callers s !! t); simplify_eq. unfold enter, step_effect, created.
  destruct (op_of rq) as [so|]; [|destruct rq]; simpl;
    rewrite ?app_nil_r; (split_and!; [done| |by left]); try done.
  unfold reqs. simpl. by rewrite fmap_app.
Qed.
End moves.

(** ** Invariants of the quorum *)

Section invariants.
Context {I Q : Type} {MI : MessageID I} {QC : QuorumCertificate I Q} {MO : MapOrder}.
Abbreviation C := (Certificate (I:=I) (Q:=Q)).
Abbreviation Sys := (sys I C Q).
Implicit Types (s : Sys).

(** [V]: what callers of the round promise of their requests; [P]: of the
    quorum; [F]: of a final quorum. *)
Context (V : request I -> Prop) (P F : Q -> Prop).

Definition label_sat (l : label I) : Prop := match l with LCall _ rq => V rq | _ => True end.

(** Executions in which every request satisfies [V]. *)
Inductive execution (num : Z) (q0 : Q) : Sys -> Prop :=
| ex_start : execution num q0 (start num q0)
| ex_step s l s' : execution num q0 s -> label_sat l -> exec_label l s = Some s' ->
    execution num q0 s'.

Record quorum_invariant : Prop := {
  qi_move : forall rq so q q', V rq -> op_of rq = Some so -> P q -> move so q q' -> P q';
  qi_final : forall q q', P q -> Finalize q = (q', Ok true) -> F q';
  qi_stays : forall rq so q q', V rq -> op_of rq = Some so -> P q -> F q -> move so q q' -> F q';
}.
Hypothesis QI : quorum_invariant.

(** The operation carries a request that satisfies [V]. *)
Definition legal (x : stateOpKind * option (Message I) * option I * option Signature) : Prop :=
  exists rq so, V rq /\ op_of (Q:=Q) rq = Some so /\ req so = x.

Lemma move_req so so' q q' : req so = req so' -> move so q q' -> move (Q:=Q) so' q q'.
Proof.
  unfold req. intros [= E1 E2 E3 E4] H. destruct H; simplify_eq.
  - apply mv_add; congruence.
  - apply mv_delete; congruence.
  - eapply mv_sign; try done; congruence.
  - apply mv_final; congruence.
Qed.

Lemma legal_moves so q q' : legal (req so) -> P q -> moves so q q' -> P q' /\ (F q -> F q').
Proof.
  intros (rq & so0 & HV & Hop & Er) Hp Hm. induction Hm as [q|q q1 q2 Hm _ IH]; [done|].
  apply (move_req so so0) in Hm; [|done].
  destruct IH as [H1 H2]; [by eapply qi_move|]. split; [done|]. intros Hf. apply H2.
  exact (qi_stays QI _ _ _ _ HV Hop Hp Hf Hm).
Qed.

Record exec_inv (num : Z) s : Prop := {
  ei_num : roundNum (s_round s) = num;
  ei_legal : Forall legal (reqs (s_round s));
  ei_quorum : P (quorum (s_round s));
  ei_final : finalCh (s_round s) = true -> F (quorum (s_round s));
}.

Lemma step_exec_inv num l s s' :
  exec_inv num s -> label_sat l -> exec_label l s = Some s' -> exec_inv num s'.
Proof.
  intros [Hn Hl Hp Hf] Hsat (En & Er & Hq)%exec_label_effect. split.
  - congruence.
  - rewrite Er. apply Forall_app_2; [done|]. unfold created.
    destruct l as [t rq| | | | | | | | | | |]; try constructor.
    destruct (op_of rq) as [so|] eqn:E; repeat constructor. by exists rq, so.
  - destruct Hq as [[-> _]|(o & so & Ho & (_ & _ & Hm & _))]; [done|].
    eapply legal_moves; [|exact Hp|exact Hm]. eapply Forall_lookup_1; [exact Hl|].
    by apply list_lookup_fmap_Some_2.
  - destruct Hq as [[-> ->]|(o & so & Ho & (_ & _ & Hm & Hfin))]; [done|].
    assert (legal (req so)) as Hso.
    { eapply Forall_lookup_1; [exact Hl|]. by apply list_lookup_fmap_Some_2. }
    intros Hf'. destruct Hfin as [E|(q & Hmq & E)].
    + eapply legal_moves; [exact Hso|exact Hp|exact Hm|]. apply Hf. congruence.
    + eapply (qi_final QI); [|exact E]. by eapply legal_moves.
Qed.

(** In every execution whose requests satisfy [V] the quorum satisfies [P], and
    [F] once [finalCh] is closed. *)
Lemma execution_inv num q0 s : P q0 -> execution num q0 s -> exec_inv num s.
Proof.
  intros Hp. induction 1 as [|s l s' _ IH Hsat Hs]; [|by eapply step_exec_inv].
  by split.
Qed.

(** *** What never goes back *)

Lemma execution_stays num q0 l s s' :
  P q0 -> execution num q0 s -> label_sat l -> exec_label l s = Some s' ->
  F (quorum (s_round s)) -> F (quorum (s_round s')).
Proof.
  intros Hp Hr Hsat Hl Hf. destruct (execution_inv num q0 s Hp Hr) as [_ Hleg Hq _].
  destruct (exec_label_effect _ _ _ Hl) as (_ & _ & [[E _]|(o & so & Ho & (_ & _ & Hm & _))]).
  - by rewrite E.
  - eapply legal_moves; [|exact Hq|exact Hm|done].
    eapply Forall_lookup_1; [exact Hleg|]. by apply list_lookup_fmap_Some_2.
Qed.

(** The caller is inside [Finalize], or it returned, with success only if the
    quorum is final. *)
Definition finalizing s (t : nat) : Prop :=
  exists cl, s_callers s !! t = Some cl /\
    (pc cl = PFinalize \/ exists comm err, pc cl = PReturned comm err /\
       (err = None -> F (quorum (s_round s)))).

Lemma after_execOp_callers t cl o retry err s s' t' :
  after_execOp t cl o retry err s = Some s' -> t' <> t -> s_callers s' !! t' = s_callers s !! t'.
Proof.
  unfold after_execOp. intros H Hne. destruct (r_ops (s_round s) !! o) as [so|]; simpl in H; [|done].
  destruct (op_kind so), retry; simplify_eq/=; split_tests; by rewrite lookup_insert_ne.
Qed.

Lemma caller_label_callers t l cl s s' t' :
  caller_label t l cl s = Some s' -> t' <> t -> s_callers s' !! t' = s_callers s !! t'.
Proof.
  intros H Hne. destruct l; cbn in H; try done; destruct (pc cl); try done;
    try (apply bind_Some in H as (so & _ & H)); simplify_eq/=; try done; split_tests;
    try (by rewrite lookup_insert_ne);
    try (by eapply after_execOp_callers);
    (eapply after_execOp_callers in H; [|exact Hne]; done).
Qed.

Lemma loop_label_callers l s s' : loop_label l s = Some s' -> s_callers s' = s_callers s.
Proof.
  unfold loop_label. intros H.
  destruct l; try done; destruct (s_loop s); try done; split_tests.
Qed.

Lemma caller_label_finalizing t l cl s s' :
  s_callers s !! t = Some cl -> caller_label t l cl s = Some s' ->
  (finalCh (s_round s) = true -> F (quorum (s_round s))) ->
  (F (quorum (s_round s)) -> F (quorum (s_round s'))) ->
  finalizing s t -> finalizing s' t.
Proof.
  intros Ht H Hfin Hmono (cl' & Ht' & Hf). rewrite Ht in Ht'. injection Ht' as <-.
  destruct Hf as [Hp|(comm & err & Hp & Hok)]; destruct l; cbn in H; try done; rewrite Hp in H; try done;
    split_tests; (eexists; split; [apply lookup_insert_eq|]); simpl; [by left|right..].
  - by eexists _, _.
  - eexists _, _. split; [done|]. intros _. by apply Hmono, Hfin.
Qed.

Lemma execution_finalizing num q0 l s s' t :
  P q0 -> execution num q0 s -> label_sat l -> exec_label l s = Some s' ->
  finalizing s t -> finalizing s' t.
Proof.
  intros Hp Hr Hsat H Hf. pose proof (execution_stays num q0 l s s' Hp Hr Hsat H) as Hmono.
  assert (s_callers s' !! t = s_callers s !! t -> finalizing s' t) as Hsame.
  { intros E. destruct Hf as (cl & Ht & Hpc). exists cl. rewrite E. split; [done|].
    destruct Hpc as [?|(comm & err & ? & ?)]; [by left|]. right. eexists _, _. eauto. }
  unfold exec_label in H. destruct (s_crash s); [done|].
  assert (forall t0, (cl ← s_callers s !! t0; caller_label t0 l cl s) = Some s' -> finalizing s' t)
    as Hcaller.
  { intros t0 (cl & Hcl & H0)%bind_Some. destruct (decide (t = t0)) as [->|Hne].
    - eapply caller_label_finalizing; [done..|apply (execution_inv num q0 s Hp Hr)|done|done].
    - apply Hsame. by eapply caller_label_callers. }
  destruct l as [t0 rq|t0 e|t0|t0|t0|t0|t0|t0| | | |]; try (by eapply Hcaller);
    try (apply loop_label_callers in H; apply Hsame; by rewrite H).
  destruct (s_callers s !! t0) eqn:E0; simplify_eq. apply Hsame.
  destruct Hf as (cl & Ht & _). assert (t <> t0) by congruence.
  unfold enter. destruct (op_of rq); [|destruct rq]; simpl; by rewrite lookup_insert_ne.
Qed.
End invariants.

(** An execution whose requests also satisfy [V']: what is required of the
    operations the round holds in the end was so of each of them at its call. *)
Section restrict.
Context {I Q : Type} {MI : MessageID I} {QC : QuorumCertificate I Q} {MO : MapOrder}.

Lemma execution_restrict (V V' : request I -> Prop) num (q0 : Q) s :
  (forall rq, V rq -> op_of (Q:=Q) rq = None -> V' rq) ->
  (forall rq so, V rq -> op_of (Q:=Q) rq = Some so -> req so ∈ reqs (s_round s) -> V' rq) ->
  execution V num q0 s -> execution V' num q0 s.
Proof.
  intros Hnone Hsome He. induction He as [|s l s' He IH Hsat Hs]; [constructor|].
  destruct (exec_label_effect _ _ _ Hs) as (_ & Er & _).
  eapply ex_step; [apply IH| |exact Hs].
  - intros rq so HV Hop Hin. apply (Hsome rq so HV Hop). rewrite Er. apply elem_of_app. by left.
  - destruct l as [t rq| | | | | | | | | | |]; try done. simpl in *. destruct (op_of (Q:=Q) rq) as [so|] eqn:E; [|by apply Hnone].
    apply (Hsome _ so); [done..|]. rewrite Er. apply elem_of_app. right. left.
Qed.
End restrict.
