(* ===== verification/Provenance.v ===== *)
(** Where the contents of a round's quorum come from: when every message that
    callers add and every signature that they add has a property, so do the
    messages and signatures of all its certificates, in every execution of the
    round; and a round whose [finalCh] is closed has the stake that requires. *)

From S2P Require Import Prelude Crypto Rebro Includers Quorum Round RoundConc RoundInv RoundQuorum.

Section provenance.
Context {I K : Type} {MI : MessageID I} {PK : Crypto.PubKey K} {PL : PubKeyLaws K}
  {MO : MapOrder}.
Abbreviation QR := (Quorum I K).
Implicit Type q : QR.

Context (incl : Includers K) (fresh : fresh_includers incl).
Context (msg_ok : I -> Message I -> Prop) (sig_ok : I -> Signature -> Prop).

(** What callers promise. *)
Definition sound (rq : request I) : Prop :=
  match rq with
  | AddCertificate msg => exists id, msgID msg = Some id /\ msg_ok id msg
  | AddSignature id sig => sig_ok id sig
  | _ => True
  end.

(** A certificate of a message with the property, whose signatures were added
    under its key: identifiers that print alike share a certificate. *)
Definition sourced (cert : certificate I) : Prop :=
  exists id, msgID (cert_msg cert) = Some id /\ msg_ok id (cert_msg cert) /\
    forall sig, sig ∈ cert_signatures cert ->
      exists id', mid_String id' = mid_String id /\ sig_ok id' sig.

Definition genuine q : Prop :=
  reachable incl q /\ forall c cert, q_heap q !! c = Some cert -> sourced cert.

(** The stake [Finalize] asks for. *)
Definition final q : Prop := required (total (includers incl)) <= q_activeStake q.

Lemma genuine_new : genuine (NewQuorum incl).
Proof. split; [constructor|]. by intros c cert. Qed.

Lemma genuine_add q msg : genuine q -> sound (AddCertificate msg) -> genuine (Quorum_Add msg q).1.
Proof.
  intros [Hr Hs] (id & Hid & Hok). split.
  - replace (Quorum_Add msg q).1 with (exec (OpAdd msg) q).1; [by constructor; [|exists id]|].
    simpl. st_unfold. by destruct (Quorum_Add msg q) as [q' [[]|e|w|w]].
  - destruct (Quorum_Add msg q) as [q' r] eqn:E.
    apply Quorum_Add_inv in E as [[_ ->]|(id' & i & _ & _ & _ & _ & ->)]; [done|]. simpl.
    intros c cert [Hc|[_ Hc]]%lookup_app_Some; [by eapply Hs|].
    apply list_lookup_singleton_Some in Hc as [_ <-]. exists id. split_and!; try done.
    by intros sig ?%elem_of_nil.
Qed.

Lemma genuine_delete q id : genuine q -> genuine (Quorum_Delete id q).1.
Proof.
  intros [Hr Hs]. split; [by apply (reach_op incl q (OpDelete id))|].
  unfold Quorum_Delete. by case_match.
Qed.

Lemma genuine_wf q : genuine q -> wf_quorum q /\ members q = includers incl.
Proof. intros [Hr _]. by apply reachable_wf. Qed.

Lemma genuine_finalize q : genuine q -> genuine (Quorum_Finalize q).1.
Proof.
  intros Hg. pose proof (genuine_wf q Hg) as [Hw _]. destruct Hg as [Hr Hs]. split.
  - by apply (reach_op incl q OpFinalize).
  - destruct (Finalize_spec q Hw) as (i & -> & _ & _). exact Hs.
Qed.

(** What a signature does to the certificate it is added to. *)
Lemma signed_certificate q id sig c :
  genuine q -> Quorum_Get id q = Some c ->
  exists cert idc q' r, q_heap q !! c = Some cert /\ msgID (cert_msg cert) = Some idc /\
    mid_String idc = mid_String id /\
    certificate_AddSignature c sig q = (q', r) /\ sign_result q sig c cert q' r.
Proof.
  intros Hg Hc. destruct (genuine_wf q Hg) as [Hw _].
  destruct (wq_bind q Hw _ _ Hc) as (cert & idc & Hcert & Hid & Hstr).
  destruct (addSignature_spec q sig c cert Hw Hcert) as (q' & r & E & Hres).
  by exists cert, idc, q', r.
Qed.

Lemma genuine_sign q id sig c :
  genuine q -> sig_ok id sig -> Quorum_Get id q = Some c ->
  genuine (certificate_AddSignature c sig q).1.
Proof.
  intros Hg Hok Hc.
  destruct (signed_certificate q id sig c Hg Hc) as (cert & idc & q' & r & Hcert & Hid & Hstr & E & Hres).
  destruct Hg as [Hr Hs]. split; [by apply (reach_op incl q (OpSign c sig)); [|exists cert]|].
  rewrite E. destruct Hres as [| |i cert' _ _ _ _ ->]; [done..|]. simpl.
  intros c0 cert0 [(<- & <- & _)|[_ H0]]%list_lookup_insert_Some; [|by eapply Hs].
  destruct (Hs c cert Hcert) as (id1 & Hid1 & Hm & Hsig). simplify_eq.
  exists idc. split_and!; [done|done|]. simpl.
  intros s0 [H0| ->%list_elem_of_singleton]%elem_of_app; [by apply Hsig|]. by exists id.
Qed.

(** *** The active stake never decreases *)

Lemma final_sign q id sig c :
  genuine q -> Quorum_Get id q = Some c -> final q -> final (certificate_AddSignature c sig q).1.
Proof.
  intros Hg Hc Hf. pose proof (genuine_wf q Hg) as [Hw Hm].
  destruct (signed_certificate q id sig c Hg Hc) as (cert & idc & q' & r & Hcert & _ & _ & E & Hres).
  rewrite E. unfold final in *. destruct Hres as [| |i cert' _ _ _ _ _]; [done..|]. simpl.
  case_match; [|done].
  pose proof (wq_stake q Hw) as Hs. pose proof (wf_quorum_valid q Hw) as Hv.
  pose proof (producer_stake_nonneg (members q) cert Hv).
  pose proof (producer_stake_le (members q) cert Hv). pose proof (wf_total_bounds q Hw).
  pose proof MaxStake_val.
  assert (0 <= sumZ (producer_stake (members q)) (completed (q_heap q)))
    by (apply sumZ_nonneg; intros; by apply producer_stake_nonneg).
  rewrite safeAddClip_clamp_lemma by i64_lia. i64_lia.
Qed.

Lemma genuine_invariant : quorum_invariant sound genuine final.
Proof.
  split.
  - intros rq so q q' HV Hop Hg Hm. destruct Hm as [msg Hk Hmsg|id Hk Hid|id sig c Hk Hid Hsig Hc|Hk];
      destruct rq; simplify_eq/=.
    + by apply genuine_add.
    + by apply genuine_delete.
    + by eapply genuine_sign.
    + by apply genuine_finalize.
  - intros q q' Hg E. destruct (genuine_wf q Hg) as [Hw Hm].
    destruct (Finalize_spec q Hw) as (i & E' & _ & _). simpl in E. rewrite E' in E.
    injection E as <- Hb%bool_decide_eq_true. unfold final. simpl. by rewrite <- Hm.
  - intros rq so q q' HV Hop Hg Hf Hm.
    destruct Hm as [msg Hk Hmsg|id Hk Hid|id sig c Hk Hid Hsig Hc|Hk];
      destruct rq; simplify_eq/=.
    + destruct (Quorum_Add msg q) as [q' r] eqn:E.
      by apply Quorum_Add_inv in E as [[_ ->]|(id' & i & _ & _ & _ & _ & ->)].
    + unfold Quorum_Delete. by case_match.
    + by eapply final_sign.
    + destruct (genuine_wf q Hg) as [Hw _]. by destruct (Finalize_spec q Hw) as (i & -> & _ & _).
Qed.

(** A final quorum has completed certificates whose producers' stakes, counted
    once per certificate, exceed two thirds of the total. *)
Lemma final_supermajority q : genuine q -> final q ->
  2 * total (includers incl) <
    3 * sumZ (producer_stake (includers incl)) (completed (q_heap q)).
Proof.
  intros Hg Hf. destruct (genuine_wf q Hg) as [Hw Hm]. unfold final in Hf.
  pose proof (wq_stake q Hw) as Hs. rewrite Hm in Hs.
  apply required_two_thirds; [apply total_nonneg, fresh|]. lia.
Qed.
End provenance.
