(* ===== verification/RoundProps.v ===== *)
(** Properties of a round and its goroutines ([RoundConc.v]): the loop refines
    the sequential replay of the submitted operations on the quorum, callers
    get the answers of that replay, stopping is graceful; and the executions in
    which cancelled subscriptions or two stops go wrong. *)

From S2P Require Import Prelude Crypto CryptoInstance Rebro Block Includers Quorum QuorumProps Round RoundConc RoundInv.

Section lemmas.
Context {I Q : Type} {MI : MessageID I} {QC : QuorumCertificate I Q} {MO : MapOrder}
  {QL : QuorumLaws I Q} {QInv : Q -> Prop} {QT : QuorumTotal I Q QInv}.
Abbreviation C := (Certificate (I:=I) (Q:=Q)).
Abbreviation Sys := (sys I C Q).
Implicit Types (s : Sys).

(** What a caller of operation [so], executed in position [k] of the log, may
    be told. *)
Definition answer_of (ops : list (stateOp I C)) (log : list nat) (q0 : Q) (k : nat)
    (so : stateOp I C) (comm : option C) (err : option error) : Prop :=
  match (op_spec so (replay ops (take k log) q0).1).2 with
  | AnsErr e => comm = None /\ err = e
  | AnsComm c => comm = Some c /\ err = None
  | AnsPending =>
      err = None /\ exists id k' c, op_id so = Some id /\ (k < k' <= length log)%nat /\
        comm = Some c /\ Get id (replay ops (take k' log) q0).1 = Some c
  end.

Definition is_loop_label (l : label I) : Prop :=
  match l with LLoopRecv | LLoopExec | LLoopClose | LLoopDrained => True | _ => False end.

Lemma op_spec_not_get (so : stateOp I C) q :
  op_wf so -> op_kind so <> getOp -> exists e, (op_spec so q).2 = AnsErr e.
Proof.
  unfold op_wf, op_spec. intros Hwf Hk. destruct (op_kind so); [| done | |].
  - destruct Hwf as (msg & -> & _). destruct (Add msg q). by eexists.
  - destruct Hwf as [id ->]. destruct (Delete id q). destruct (op_msg so); by eexists.
  - destruct Hwf as [[id ->] [sig ->]]. destruct (op_msg so); split_tests; by eexists.
Qed.

Lemma op_spec_get (so : stateOp I C) q id :
  op_kind so = getOp -> op_id so = Some id ->
  (op_spec so q).2 = match Get id q with Some c => AnsComm c | None => AnsPending end.
Proof. unfold op_spec. intros -> ->. by destruct (op_msg so). Qed.

(** An executed operation has its answer, or is a waiting subscription. *)
Lemma answer_of_outcome r log q0 k o (so : stateOp I C) :
  op_wf so -> outcome r log q0 k o so ->
  answer_of (r_ops r) log q0 k so
    (match op_kind so with getOp => op_comm so | _ => None end) (op_err so) \/
  (op_comm so = None /\ exists id, op_id so = Some id /\ subscribed r (mid_String id) o).
Proof.
  intros Hwf Hout. unfold outcome, answer_of in *.
  destruct (decide (op_kind so = getOp)) as [Hk|Hk]; [rewrite Hk|].
  - destruct (op_spec so _).2; [left; tauto..|].
    destruct Hout as (? & id & ? & [[? ?]|(k' & c & ? & ? & ?)]).
    + right. eauto.
    + left. split; [done|]. by exists id, k', c.
  - destruct (op_spec_not_get so (replay (r_ops r) (take k log) q0).1 Hwf Hk) as [e E].
    rewrite E in *. left. destruct (op_kind so); naive_solver.
Qed.

(** *** Only the end of the drain closes [closedCh] *)

Lemma after_execOp_closed t cl o rt err s s' :
  after_execOp t cl o rt err s = Some s' -> closedCh (s_round s') = closedCh (s_round s).
Proof.
  unfold after_execOp. destruct (r_ops (s_round s) !! o) as [so|]; simpl; [|done].
  intros. destruct (op_kind so), rt; simplify_eq/=; try done; split_tests.
Qed.

Lemma caller_label_closed t l cl s s' :
  caller_label t l cl s = Some s' -> closedCh (s_round s') = closedCh (s_round s).
Proof.
  intros H. destruct l; cbn in H; try done; destruct (pc cl); try done;
    try (apply bind_Some in H as (so & _ & H)); simplify_eq/=; split_tests;
    first [congruence | apply after_execOp_closed in H; simpl in H; congruence].
Qed.

Lemma enter_closed t rq s : closedCh (s_round (enter t rq s)) = closedCh (s_round s).
Proof. unfold enter. by destruct (op_of rq), rq. Qed.

Lemma closed_only_by_drained num q0 l s s' :
  conc_ok (QInv:=QInv) num q0 s ->
  exec_label l s = Some s' -> closedCh (s_round s) = false -> closedCh (s_round s') = true ->
  s_loop s = LSelect true /\ stateOpCh (s_round s) = [] /\
  s' = with_loop LStopped (with_round (set_closedCh true (s_round s)) s).
Proof.
  intros Hc H E E'. unfold exec_label in H. destruct (s_crash s); [done|].
  destruct l as [t rq|t e|t|t|t|t|t|t| | | |];
    try (apply bind_Some in H as (cl & _ & H); apply caller_label_closed in H; congruence).
  - destruct (s_callers s !! t); simplify_eq. rewrite enter_closed in E'. congruence.
  - unfold loop_label in H. split_tests; congruence.
  - unfold loop_label in H. destruct (s_loop s) as [d|d o|] eqn:El; try done.
    destruct (exec_conc_ok num q0 s d o Hc El) as (r' & Hd & _ & Hcl & _).
    rewrite Hd in H. simplify_eq/=. congruence.
  - unfold loop_label in H. split_tests; congruence.
  - unfold loop_label in H. split_tests.
Qed.

(** *** The loop on its own *)

Lemma run_reach num q0 ls s s' :
  reach num q0 s -> Forall label_ok ls -> run_labels ls s = Some s' -> reach num q0 s'.
Proof.
  intros Hr Hl. revert s Hr. induction Hl as [|l ls Hl _ IH]; intros s Hr H; simpl in H.
  { by simplify_eq. }
  apply bind_Some in H as (s1 & H1 & H). eapply IH; [|done]. by eapply reach_step.
Qed.

Definition drains s : Prop :=
  exists ls s', Forall is_loop_label ls /\ run_labels ls s = Some s' /\
    s_loop s' = LStopped /\ closedCh (s_round s') = true /\ s_crash s' = None /\
    s_log s' = s_submitted s.

Lemma drains_step s l s' :
  exec_label l s = Some s' -> is_loop_label l -> s_submitted s' = s_submitted s ->
  drains s' -> drains s.
Proof.
  intros H Hl E (ls & s2 & ? & Hrun & ? & ? & ? & ?). exists (l :: ls), s2.
  rewrite <- E. split_and!; [by constructor|..|done|done|done|done]. simpl. by rewrite H.
Qed.

(** A round that is being stopped. *)
Definition stopping_round num q0 s : Prop :=
  QInv q0 /\ reach num q0 s /\ s_resubmitted s = false /\ s_crash s = None /\
  closeCh (s_round s) = true.

Lemma stopping_exec num q0 s d o :
  stopping_round num q0 s -> s_loop s = LExec d o ->
  exists s', exec_label LLoopExec s = Some s' /\ stopping_round num q0 s' /\
    s_loop s' = LSelect d /\ s_submitted s' = s_submitted s /\
    stateOpCh (s_round s') = stateOpCh (s_round s).
Proof.
  intros (Hq & Hr & Hn & Hcr & Hcl) El. pose proof (reach_conc_ok num q0 s Hq Hr Hn) as Hc.
  destruct (exec_conc_ok num q0 s d o Hc El) as (r' & E & E1 & E2 & Hc').
  exists (with_loop (LSelect d) (with_logged o (with_round r' s))).
  assert (exec_label LLoopExec s = Some (with_loop (LSelect d) (with_logged o (with_round r' s))))
    as Hex by (unfold exec_label, loop_label; by rewrite Hcr, El, E).
  split_and!; try done.
  - split_and!; try done; [|simpl; congruence]. by eapply (reach_step num q0 s LLoopExec).
  - pose proof (co_fifo _ _ _ Hc) as F. pose proof (co_fifo _ _ _ Hc') as F'.
    unfold executing in F. rewrite El in F. cbn in F'. rewrite F, <- app_assoc in F'.
    simpl in F'. apply app_inv_head in F'. by injection F'.
Qed.

Lemma stopping_drains num q0 s d :
  stopping_round num q0 s -> s_loop s = LSelect d -> drains s.
Proof.
  remember (length (stateOpCh (s_round s))) as n eqn:En. revert s En d.
  assert (forall s, (n = length (stateOpCh (s_round s))) -> stopping_round num q0 s ->
    s_loop s = LSelect true -> drains s) as Hdrain.
  { induction n as [|n IH]; intros s En Hs El; pose proof Hs as (Hq & Hr & Hn & Hcr & Hcl);
      destruct (stateOpCh (s_round s)) as [|o rest] eqn:Ech; try done.
    - destruct (reach_ok num q0 s Hq Hr Hn) as [Hc Hst].
      assert (closedCh (s_round s) = false) as Ecd.
      { apply not_true_is_false. intros H%(so_closed s Hst). congruence. }
      exists [LLoopDrained], (with_loop LStopped (with_round (set_closedCh true (s_round s)) s)).
      split_and!; try done; [by repeat constructor| |].
      + simpl. unfold exec_label, loop_label. by rewrite Hcr, El, Ech, Ecd.
      + simpl. rewrite (co_fifo _ _ _ Hc). unfold executing. by rewrite El, Ech, !app_nil_r.
    - set (s1 := with_loop (LExec true o) (with_round (set_stateOpCh rest (s_round s)) s)).
      assert (exec_label LLoopRecv s = Some s1) as H1
        by (unfold exec_label, loop_label; by rewrite Hcr, El, Ech).
      assert (stopping_round num q0 s1) as Hs1
        by (split_and!; try done; by eapply (reach_step num q0 s LLoopRecv)).
      destruct (stopping_exec num q0 s1 true o Hs1 eq_refl) as (s2 & H2 & Hs2 & El2 & E2 & Eq2).
      apply (drains_step s LLoopRecv s1 H1); [done..|].
      apply (drains_step s1 LLoopExec s2 H2); [done..|].
      apply IH; [|done..]. rewrite Eq2. simpl in *. lia. }
  intros s En [] Hs El; [by apply Hdrain|].
  pose proof Hs as (Hq & Hr & Hn & Hcr & Hcl).
  set (s1 := with_loop (LSelect true) s).
  assert (exec_label LLoopClose s = Some s1) as H1
    by (unfold exec_label, loop_label; by rewrite Hcr, El, Hcl).
  apply (drains_step s LLoopClose s1 H1); [done..|]. apply Hdrain; try done.
  split_and!; try done. by eapply (reach_step num q0 s LLoopClose).
Qed.
End lemmas.

Section properties.
Context {I Q : Type} {MI : MessageID I} {QC : QuorumCertificate I Q} {MO : MapOrder}
  {QL : QuorumLaws I Q} {QInv : Q -> Prop} {QT : QuorumTotal I Q QInv}.
Implicit Types (s : sys I (Certificate (I:=I) (Q:=Q)) Q).

(** C14: While no [GetCertificate] has run its operation over after its context
    was cancelled, the round is linearizable: however callers, contexts and the
    loop interleave, the quorum and [finalCh] are those of the executed operations
    run one after another on the initial quorum, operations are executed in
    the order of their submission, and none is executed twice or lost: what
    was submitted is what was executed, the operation in execution and the
    queue. *)
Theorem round_refines_quorum num q0 s :
  QInv q0 -> reach num q0 s -> s_resubmitted s = false ->
  (quorum (s_round s), finalCh (s_round s)) = replay (s_ops s) (s_log s) q0 /\
  s_submitted s = s_log s ++ executing s ++ stateOpCh (s_round s) /\
  NoDup (s_submitted s).
Proof.
  intros Hq Hr Hn. pose proof (reach_conc_ok num q0 s Hq Hr Hn) as Hc.
  split_and!; [apply (co_replay _ _ _ Hc)|apply Hc|apply Hc].
Qed.

(** C29: Under the same condition the loop neither panics nor blocks on an
    answer: an operation it has received is always executed by its next step. *)
Theorem loop_never_blocks num q0 s d o :
  QInv q0 -> reach num q0 s -> s_resubmitted s = false -> s_crash s = None ->
  s_loop s = LExec d o ->
  exists s', exec_label LLoopExec s = Some s' /\ s_crash s' = None /\
    s_loop s' = LSelect d /\ s_log s' = s_log s ++ [o].
Proof.
  intros Hq Hr Hn Hcr El. pose proof (reach_conc_ok num q0 s Hq Hr Hn) as Hc.
  destruct (exec_conc_ok num q0 s d o Hc El) as (r' & E & _).
  eexists. unfold exec_label, loop_label. rewrite Hcr, El, E. done.
Qed.

(** C30: While no [GetCertificate] has run its operation over after its context
    was cancelled, a caller that receives on [doneCh] returns what its operation
    answers at its place in the execution order: the error of [Add], [Delete] or
    [AddSignature], the certificate found by [Get], or, for a [Get] that had
    to wait, the certificate found at a later point of that order. *)
Theorem execOp_returns_answer num q0 s s' t cl o :
  QInv q0 -> reach num q0 s -> s_callers s !! t = Some cl -> pc cl = PAwait o None ->
  exec_label (LDone t) s = Some s' -> s_resubmitted s' = false ->
  exists k so comm err, s_log s !! k = Some o /\ s_ops s !! o = Some so /\
    pc <$> s_callers s' !! t = Some (PReturned comm err) /\
    answer_of (s_ops s) (s_log s) q0 k so comm err.
Proof.
  intros Hq Hr Ht Hp H Hn.
  pose proof (resubmitted_mono _ _ _ H Hn) as Hn0.
  pose proof (reach_conc_ok num q0 s Hq Hr Hn0) as Hc.
  unfold exec_label in H. destruct (s_crash s); [done|]. rewrite Ht in H. simpl in H.
  rewrite Hp in H. apply bind_Some in H as (so & Ho & H).
  destruct (op_doneCh so) as [|d ds] eqn:Ed; [done|].
  assert (o ∈ s_log s) as [k Hk]%list_elem_of_lookup.
  { destruct (decide (o ∈ s_log s)) as [|Hno]; [done|].
    destruct (co_fresh _ _ _ Hc o so Ho Hno). congruence. }
  pose proof (co_outcome _ _ _ Hc k o so Hk Ho) as Hout.
  destruct (after_execOp_inv _ _ _ _ _ _ H Hn) as (comm & so1 & Ho1 & -> & ->).
  unfold s_ops in Ho1. cbn [s_round with_round r_ops set_ops] in Ho1.
  rewrite list_lookup_alter_eq, Ho in Ho1. simpl in Ho1. injection Ho1 as <-.
  exists k, so, (match op_kind so with getOp => op_comm so | _ => None end), (op_err so).
  split_and!; [done..| |].
  { simpl. by rewrite lookup_insert_eq. }
  assert (o ∈ s_submitted s) as Hsub
    by (rewrite (co_fifo _ _ _ Hc); apply elem_of_app; left; by eapply list_elem_of_lookup_2).
  destruct (answer_of_outcome (s_round s) _ _ _ _ so (co_wf _ _ _ Hc o so Hsub Ho) Hout)
    as [?|(_ & id & _ & Hs)]; [done|]. exfalso.
  destruct (ro_subs _ (co_round _ _ _ Hc) _ _ Hs) as (so2 & _ & Ho2 & _ & _ & _ & Hd & _).
  change (r_ops (view s)) with (r_ops (s_round s)) in Ho2. congruence.
Qed.

(** No certificate is missed: when a [Get] has been executed and no
    certificate was delivered to it, the quorum has no certificate for its
    identifier. *)
Theorem waiting_get_has_no_certificate num q0 s o so id :
  QInv q0 -> reach num q0 s -> s_resubmitted s = false ->
  o ∈ s_log s -> s_ops s !! o = Some so -> op_kind so = getOp -> op_id so = Some id ->
  op_comm so = None -> Get id (quorum (s_round s)) = None.
Proof.
  intros Hq Hr Hn [k Hk]%list_elem_of_lookup Ho Hkind Hid Hcm.
  pose proof (reach_conc_ok num q0 s Hq Hr Hn) as Hc.
  pose proof (co_outcome _ _ _ Hc k o so Hk Ho) as Hout. unfold outcome in Hout.
  rewrite (op_spec_get so _ id Hkind Hid) in Hout.
  destruct (Get id _); [destruct Hout as (_ & ? & _); congruence|].
  destruct Hout as (_ & id' & Hid' & [[_ Hs]|(k' & c & _ & ? & _)]); [|congruence].
  replace id' with id in Hs by congruence.
  by apply (ro_absent _ (co_round _ _ _ Hc) id o).
Qed.

(** [closedCh] is closed only after everything submitted until then has
    been executed. *)
Theorem closed_after_draining num q0 s l s' :
  QInv q0 -> reach num q0 s -> exec_label l s = Some s' -> s_resubmitted s' = false ->
  closedCh (s_round s) = false -> closedCh (s_round s') = true ->
  s_log s' = s_submitted s' /\ closeCh (s_round s') = true.
Proof.
  intros Hq Hr H Hn E E'. pose proof (resubmitted_mono _ _ _ H Hn) as Hn0.
  destruct (reach_ok num q0 s Hq Hr Hn0) as [Hc Hs].
  destruct (closed_only_by_drained num q0 l s s' Hc H E E') as (El & Hempty & ->).
  cbn. split.
  - rewrite (co_fifo _ _ _ Hc). unfold executing. by rewrite El, Hempty, !app_nil_r.
  - apply (so_drain s Hs); by rewrite El.
Qed.

(** C31: Graceful shutdown: once [Stop] has closed [closeCh], while no
    [GetCertificate] has run its operation over after its context was cancelled
    and the process has not crashed, the loop alone reaches its end in finitely
    many steps, having executed every operation that was submitted; then it has
    closed [closedCh]. *)
Theorem stop_drains_and_stops num q0 s :
  QInv q0 -> reach num q0 s -> s_resubmitted s = false -> s_crash s = None ->
  closeCh (s_round s) = true -> s_loop s <> LStopped ->
  exists ls s', Forall is_loop_label ls /\ run_labels ls s = Some s' /\
    s_loop s' = LStopped /\ closedCh (s_round s') = true /\ s_crash s' = None /\
    s_log s' = s_submitted s.
Proof.
  intros Hq Hr Hn Hcr Hcl Hne. assert (stopping_round (QInv:=QInv) num q0 s) as Hs by done.
  change (drains s). destruct (s_loop s) as [d|d o|] eqn:El; [by eapply stopping_drains| |done].
  destruct (stopping_exec num q0 s d o Hs El) as (s' & H & Hs' & El' & E & _).
  apply (drains_step s LLoopExec s' H); [done..|]. by eapply stopping_drains.
Qed.

(** Panics of a round come from [Stop] alone: a process crashes only if two
    goroutines called [Stop] on the same round. *)
Theorem crash_needs_two_stops num q0 s :
  QInv q0 -> reach num q0 s -> s_resubmitted s = false -> s_crash s <> None ->
  exists t1 t2, t1 ∈ s_stops s /\ t2 ∈ s_stops s /\ t1 <> t2.
Proof.
  intros Hq Hr Hn Hcr. destruct (reach_ok num q0 s Hq Hr Hn) as [_ Hs].
  by apply (so_crash s Hs).
Qed.

(** [Finalize] returns successfully only after an executed [AddSignature]
    made the quorum certificate final. *)
Theorem Finalize_after_quorum num q0 s s' t :
  QInv q0 -> reach num q0 s -> s_resubmitted s = false ->
  exec_label (LFinal t) s = Some s' ->
  exists l1 o l2 so, s_log s = l1 ++ o :: l2 /\ s_ops s !! o = Some so /\
    op_finalizes so (replay (s_ops s) l1 q0).1 = true.
Proof.
  intros Hq Hr Hn H. pose proof (reach_conc_ok num q0 s Hq Hr Hn) as Hc.
  apply replay_final. rewrite <- (co_replay _ _ _ Hc). simpl.
  unfold exec_label in H. destruct (s_crash s); [done|].
  apply bind_Some in H as (cl & _ & H). simpl in H. destruct (pc cl); try done.
  by case_match.
Qed.

(** Running a waiting [Get] over cancels it: the second execution removes
    exactly that subscription and answers with a nil error. *)
Theorem second_get_unsubscribes (r : RoundSt I (Certificate (I:=I) (Q:=Q)) Q) o so id :
  subscribed r (mid_String id) o -> r_ops r !! o = Some so -> op_kind so = getOp ->
  op_id so = Some id -> op_doneCh so = [] -> Get id (quorum r) = None ->
  exists r', doOp o r = (r', Ok tt) /\ quorum r' = quorum r /\
    r_ops r' !! o = Some (answered (AnsErr None) so) /\
    (forall key x, subscribed r' key x <->
      subscribed r key x /\ ~ (key = mid_String id /\ x = o)) /\
    (forall x, x <> o -> r_ops r' !! x = r_ops r !! x).
Proof.
  intros (inner & Hi & Ho') Ho Hk Hid Hd Hg.
  unfold doOp, load_op. st_unfold. rewrite Ho. cbn [nonnil]. rewrite Hk.
  unfold stateGet, load_op. st_unfold. rewrite Ho. cbn [nonnil]. rewrite Hid. cbn [nonnil].
  rewrite Hg, Hi. change (default ∅ (Some inner)) with inner. rewrite Ho'.
  set (subs' := if bool_decide (size (delete o inner) = 0%nat)
                then delete (mid_String id) (getOpSubs r)
                else <[mid_String id := delete o inner]> (getOpSubs r)).
  exists (set_ops (<[o := answered (AnsErr None) so]> (r_ops r)) (set_getOpSubs subs' r)).
  split_and!.
  - unfold subs'. destruct (bool_decide _); by rewrite (SetError_spec o so).
  - done.
  - simpl. apply list_lookup_insert_eq. by eapply lookup_lt_Some.
  - intros key x. unfold subscribed. cbn [getOpSubs set_ops set_getOpSubs]. unfold subs'.
    destruct (decide (key = mid_String id)) as [->|Hne].
    + rewrite Hi. case_bool_decide as Hsz.
      * rewrite lookup_delete_eq. apply map_size_empty_inv in Hsz. split; [naive_solver|].
        intros [(i & [= <-] & Hx) Hn]. exfalso. apply Hn. split; [done|].
        destruct (decide (x = o)) as [|Hxo]; [done|].
        assert (delete o inner !! x = Some tt) as Hx' by (by rewrite lookup_delete_ne).
        rewrite Hsz in Hx'. done.
      * rewrite lookup_insert_eq. split.
        -- intros (i & [= <-] & [Hxo Hx]%lookup_delete_Some). split; [eauto|]. naive_solver.
        -- intros [(i & [= <-] & Hx) Hn]. eexists. split; [done|].
           apply lookup_delete_Some. split; [|done]. naive_solver.
    + assert ((if bool_decide (size (delete o inner) = 0%nat)
               then delete (mid_String id) (getOpSubs r)
               else <[mid_String id := delete o inner]> (getOpSubs r)) !! key
              = getOpSubs r !! key) as ->.
      { destruct (bool_decide _); [by rewrite lookup_delete_ne|by rewrite lookup_insert_ne]. }
      naive_solver.
  - intros x Hx. simpl. by rewrite list_lookup_insert_ne.
Qed.
End properties.

(** ** Executions *)

Module Executions.
Import Sample.
Abbreviation Q4 := (Quorum blockID ed25519.PublicKey).
Abbreviation Sys4 := (sys blockID (Certificate (I:=blockID) (Q:=Q4)) Q4).

Definition begin : Sys4 := start 1 (NewQuorum four).
Definition after (ls : list (label blockID)) : Sys4 := default begin (run_labels ls begin).

Lemma begin_wf : wf_quorum (NewQuorum (I:=blockID) four).
Proof. exact (proj1 (reachable_wf four _ four_fresh (reach_new four))). Qed.

Definition label_okb (l : label blockID) : bool :=
  match l with LCall _ (AddCertificate msg) => bool_decide (is_Some (msgID msg)) | _ => true end.

Definition runsb (ls : list (label blockID)) : bool :=
  match run_labels ls begin with Some _ => true | None => false end.

Lemma after_snoc ls l :
  runsb (ls ++ [l]) = true -> exec_label l (after ls) = Some (after (ls ++ [l])).
Proof.
  unfold runsb, after. rewrite run_labels_app.
  destruct (run_labels ls begin) as [s|]; simpl; [|done].
  by destruct (exec_label l s).
Qed.

Lemma after_reach ls :
  forallb label_okb ls = true -> runsb ls = true -> reach 1 (NewQuorum four) (after ls).
Proof.
  unfold runsb. intros Hl Hs. destruct (run_labels ls begin) as [s|] eqn:E; [|done]. clear Hs.
  rename E into Hs. unfold after. rewrite Hs. simpl.
  eapply run_reach; [constructor| |exact Hs].
  apply Forall_forall. intros l Hin. apply forallb_forall with (x := l) in Hl; [|by apply list_elem_of_In].
  destruct l as [t rq| | | | | | | | | | |]; try done. destruct rq; try done.
  by apply bool_decide_eq_true in Hl.
Qed.

(** Sends the operation of caller [t] and executes it. *)
Definition perform (t : nat) : list (label blockID) := [LSend t; LLoopRecv; LLoopExec].

(** A certificate is requested before it is added; its block gets three
    signatures; the caller of [Get] has not looked at its answer yet. *)
Definition busy : list (label blockID) :=
  [LCall 1 (GetCertificate (id_of x01 xaa))] ++ perform 1 ++
  [LCall 2 (AddCertificate (msg_of x01 xaa))] ++ perform 2 ++
  [LCall 3 (AddSignature (id_of x01 xaa) (sig_of x01)); LSend 3;
   LCall 9 StopRequest; LStopStep 9; LStopStep 9; LLoopRecv].

Lemma busy_reach : reach 1 (NewQuorum four) (after busy).
Proof. apply after_reach; vm_compute; reflexivity. Qed.

Lemma round_refines_quorum_witness :
  reach 1 (NewQuorum four) (after busy) /\ s_submitted (after busy) = [0; 1; 2]%nat /\
  NoDup (s_submitted (after busy)).
Proof.
  destruct (round_refines_quorum 1 (NewQuorum four) (after busy)) as (_ & _ & H);
    [exact begin_wf|exact busy_reach|vm_compute; reflexivity|].
  split; [exact busy_reach|]. split; [vm_compute; reflexivity|exact H].
Defined.

Lemma loop_never_blocks_witness :
  s_loop (after busy) = LExec false 2 /\
  exists s', exec_label LLoopExec (after busy) = Some s' /\ s_crash s' = None.
Proof.
  assert (s_loop (after busy) = LExec false 2) as El by (vm_compute; reflexivity).
  split; [exact El|].
  destruct (loop_never_blocks 1 (NewQuorum four) (after busy) false 2) as (s' & H & Hc & _);
    [exact begin_wf|exact busy_reach|vm_compute; reflexivity|vm_compute; reflexivity|exact El|].
  exists s'. split; [exact H|exact Hc].
Defined.

Lemma execOp_returns_answer_witness :
  exists k so comm err, s_log (after busy) !! k = Some 0%nat /\
    answer_of (s_ops (after busy)) (s_log (after busy)) (NewQuorum four) k so comm err.
Proof.
  destruct (s_callers (after busy) !! 1%nat) as [cl|] eqn:Et; [|exfalso; revert Et; vm_compute; discriminate].
  destruct (execOp_returns_answer 1 (NewQuorum four) (after busy) (after (busy ++ [LDone 1])) 1 cl 0)
    as (k & so & comm & err & ? & ? & ? & ?);
    [exact begin_wf|exact busy_reach|exact Et| | |vm_compute; reflexivity|].
  - assert (pc <$> s_callers (after busy) !! 1%nat = Some (PAwait 0 None)) as E
      by (vm_compute; reflexivity).
    rewrite Et in E. by injection E.
  - apply after_snoc. vm_compute. reflexivity.
  - exists k, so, comm, err. split; assumption.
Defined.

Definition waiting : list (label blockID) :=
  [LCall 1 (GetCertificate (id_of x01 xaa))] ++ perform 1 ++
  [LCall 2 (AddCertificate (msg_of x02 xbb))] ++ perform 2.

Lemma waiting_get_has_no_certificate_witness :
  Get (id_of x01 xaa) (quorum (s_round (after waiting))) = None.
Proof.
  destruct (s_ops (after waiting) !! 0%nat) as [so|] eqn:Ho; [|vm_compute in Ho; discriminate].
  apply (waiting_get_has_no_certificate 1 (NewQuorum four) (after waiting) 0 so (id_of x01 xaa)).
  - exact begin_wf.
  - apply after_reach; vm_compute; reflexivity.
  - vm_compute. reflexivity.
  - assert (s_log (after waiting) = [0; 1]%nat) as -> by (vm_compute; reflexivity). left.
  - exact Ho.
  - vm_compute in Ho. by injection Ho as <-.
  - vm_compute in Ho. by injection Ho as <-.
  - vm_compute in Ho. by injection Ho as <-.
Defined.

Definition drained : list (label blockID) := busy ++ [LLoopExec; LLoopClose].

Lemma drained_reach : reach 1 (NewQuorum four) (after drained).
Proof. apply after_reach; vm_compute; reflexivity. Qed.

Lemma closed_after_draining_witness :
  exists s', exec_label LLoopDrained (after drained) = Some s' /\ s_log s' = s_submitted s'.
Proof.
  exists (after (drained ++ [LLoopDrained])).
  assert (exec_label LLoopDrained (after drained) = Some (after (drained ++ [LLoopDrained]))) as H
    by (apply after_snoc; vm_compute; reflexivity).
  split; [exact H|].
  refine (proj1 (closed_after_draining 1 (NewQuorum four) (after drained) LLoopDrained
           (after (drained ++ [LLoopDrained])) begin_wf drained_reach H _ _ _));
    vm_compute; reflexivity.
Defined.

Lemma stop_drains_and_stops_witness :
  exists ls s', run_labels ls (after busy) = Some s' /\ s_loop s' = LStopped /\
    s_log s' = [0; 1; 2]%nat.
Proof.
  destruct (stop_drains_and_stops 1 (NewQuorum four) (after busy)) as (ls & s' & _ & H & El & _ & _ & E);
    [exact begin_wf|exact busy_reach|vm_compute; reflexivity..|vm_compute; discriminate|].
  exists ls, s'. split; [exact H|]. split; [exact El|]. rewrite E. vm_compute. reflexivity.
Defined.

(** Two goroutines pass the check of [Stop] before either closes the channel. *)
Definition two_stops : list (label blockID) :=
  [LCall 1 StopRequest; LCall 2 StopRequest; LStopStep 1; LStopStep 2; LStopStep 1; LStopStep 2].

(** Two concurrent calls of [Stop] can panic with "close of closed
    channel": the check of [closeCh] and its closing are not atomic. *)
Theorem concurrent_stops_crash :
  reach 1 (NewQuorum four) (after two_stops) /\
  s_crash (after two_stops) = Some "close of closed channel"%string.
Proof.
  split; [|vm_compute; reflexivity]. apply after_reach; vm_compute; reflexivity.
Qed.

Lemma crash_needs_two_stops_witness :
  exists t1 t2, t1 ∈ s_stops (after two_stops) /\ t2 ∈ s_stops (after two_stops) /\ t1 <> t2.
Proof.
  apply (crash_needs_two_stops 1 (NewQuorum four) (after two_stops));
    [exact begin_wf| |vm_compute; reflexivity|vm_compute; discriminate].
  apply after_reach; vm_compute; reflexivity.
Defined.

(** Three members' blocks are certified, then [Finalize] is called. *)
Definition sign3 (t : nat) (p h : byte) : list (label blockID) :=
  [LCall t (AddCertificate (msg_of p h))] ++ perform t ++
  [LCall (t + 1) (AddSignature (id_of p h) (sig_of x01))] ++ perform (t + 1) ++
  [LCall (t + 2) (AddSignature (id_of p h) (sig_of x02))] ++ perform (t + 2) ++
  [LCall (t + 3) (AddSignature (id_of p h) (sig_of x03))] ++ perform (t + 3).

Definition finalized : list (label blockID) :=
  sign3 10 x01 xaa ++ sign3 20 x02 xbb ++ sign3 30 x03 xcc ++ [LCall 1 FinalizeRequest].

Lemma Finalize_after_quorum_witness :
  exists l1 o l2, s_log (after finalized) = l1 ++ o :: l2.
Proof.
  destruct (Finalize_after_quorum 1 (NewQuorum four) (after finalized)
      (after (finalized ++ [LFinal 1])) 1)
    as (l1 & o & l2 & so & E & _); [exact begin_wf| |vm_compute; reflexivity| |].
  - apply after_reach; vm_compute; reflexivity.
  - apply after_snoc. vm_compute. reflexivity.
  - exists l1, o, l2. exact E.
Defined.

Lemma second_get_unsubscribes_witness :
  exists r', doOp 0 (s_round (after waiting)) = (r', Ok tt) /\
    ~ subscribed r' (mid_String (id_of x01 xaa)) 0.
Proof.
  destruct (r_ops (s_round (after waiting)) !! 0%nat) as [so|] eqn:Ho; [|vm_compute in Ho; discriminate].
  destruct (second_get_unsubscribes (s_round (after waiting)) 0 so (id_of x01 xaa))
    as (r' & E & _ & _ & Hs & _).
  - destruct (getOpSubs (s_round (after waiting)) !! mid_String (id_of x01 xaa)) as [inner|] eqn:Ei;
      [|vm_compute in Ei; discriminate].
    exists inner. split; [exact Ei|]. vm_compute in Ei. injection Ei as <-. vm_compute. reflexivity.
  - exact Ho.
  - vm_compute in Ho. by injection Ho as <-.
  - vm_compute in Ho. by injection Ho as <-.
  - vm_compute in Ho. by injection Ho as <-.
  - vm_compute. reflexivity.
  - exists r'. split; [exact E|]. rewrite Hs. intros [_ H]. apply H. done.
Defined.

(** *** Cancelled subscriptions *)

(** The context of a [GetCertificate] has ended when it is called: the first
    [select] takes [ctx.Done()], so the operation that is run over to cancel
    the subscription is executed for the first time. *)
Definition leaked : list (label blockID) :=
  [LCall 1 (GetCertificate (id_of x01 xaa)); LExpire 1 (Sent SCanceled); LCtx 1] ++ perform 1 ++
  [LExpire 1 (Sent SDeadlineExceeded); LCtx 1].

(** A cancelled [GetCertificate] can leave a subscription behind: when its
    context ended before the operation was submitted, the cancellation
    subscribes, the caller returns after the timeout, and the subscription
    stays in the table with nobody waiting on it. *)
Theorem cancelled_get_leaks_subscription :
  reach 1 (NewQuorum four) (after leaked) /\
  pc <$> s_callers (after leaked) !! 1%nat =
    Some (PReturned None (Some (Joined [Sent SCanceled; Sent SDeadlineExceeded]))) /\
  (exists inner, getOpSubs (s_round (after leaked)) !! mid_String (id_of x01 xaa) = Some inner /\
     inner !! 0%nat = Some tt).
Proof.
  split_and!.
  - apply after_reach; vm_compute; reflexivity.
  - vm_compute. reflexivity.
  - destruct (getOpSubs (s_round (after leaked)) !! mid_String (id_of x01 xaa)) as [inner|] eqn:Ei;
      [|vm_compute in Ei; discriminate].
    exists inner. split; [done|]. vm_compute in Ei. injection Ei as <-. vm_compute. reflexivity.
Qed.

(** A [GetCertificate] waits; its context ends, and before the operation is
    run over the certificate comes, which fills [doneCh].  The second wait
    ends by its timeout.  Then the loop executes the operation again. *)
Definition wedged : list (label blockID) :=
  [LCall 1 (GetCertificate (id_of x01 xaa))] ++ perform 1 ++
  [LExpire 1 (Sent SCanceled); LCtx 1] ++
  [LCall 2 (AddCertificate (msg_of x01 xaa))] ++ perform 2 ++
  [LSend 1; LExpire 1 (Sent SDeadlineExceeded); LCtx 1; LLoopRecv].

(** A cancelled [GetCertificate] can block the loop for ever: its
    operation is executed a second time with its answer not taken, so the
    send on the full [doneCh] blocks, and its caller has returned. *)
Theorem cancelled_get_blocks_loop :
  reach 1 (NewQuorum four) (after wedged) /\
  s_loop (after wedged) = LExec false 0 /\
  (doOp 0 (s_round (after wedged))).2 = Hang "send on full doneCh" /\
  pc <$> s_callers (after wedged) !! 1%nat =
    Some (PReturned None (Some (Joined [Sent SCanceled; Sent SDeadlineExceeded]))).
Proof.
  split_and!.
  - apply after_reach; vm_compute; reflexivity.
  - vm_compute. reflexivity.
  - vm_compute. reflexivity.
  - vm_compute. reflexivity.
Qed.
End Executions.
