(* ===== verification/RoundStop.v ===== *)
(** Who calls [Round.Stop], in every execution of a round ([RoundConc.v]): once
    [closedCh] is closed it stays closed, and a caller that returned without an
    error has seen it closed. *)

From S2P Require Import Prelude Crypto Rebro Round RoundConc RoundInv RoundQuorum RoundProps.

(** ** Callers of [Stop] *)

Section stopping.
Context {I Q : Type} {MI : MessageID I} {QC : QuorumCertificate I Q} {MO : MapOrder}.
Abbreviation C := (Certificate (I:=I) (Q:=Q)).
Abbreviation R := (RoundSt I C Q).
Abbreviation Sys := (RoundConc.sys I C Q).
Implicit Types (s : Sys) (r : R).

(** A caller in [Stop]; when it has returned without an error the loop of the
    round has stopped. *)
Definition stop_caller s (cl : caller C) : Prop :=
  match pc cl with
  | PStopCheck | PStopClose | PStopWait => True
  | PReturned _ (Some _) => True
  | PReturned _ None => closedCh (s_round s) = true
  | _ => False
  end.

(** What every later state of the round keeps. *)
Record round_le s s' : Prop := {
  rl_num : roundNum (s_round s') = roundNum (s_round s);
  rl_closed : closedCh (s_round s) = true -> closedCh (s_round s') = true;
  rl_caller : forall t cl, s_callers s !! t = Some cl ->
    exists cl', s_callers s' !! t = Some cl' /\ (stop_caller s cl -> stop_caller s' cl');
}.

#[export] Instance round_le_preorder : PreOrder round_le.
Proof.
  split; [intros s; split; [done..|by intros t cl Ht; exists cl]|].
  intros s1 s2 s3 [N1 C1 A1] [N2 C2 A2]. split; [congruence|auto|].
  intros t cl Ht. destruct (A1 t cl Ht) as (cl2 & H2 & K2). destruct (A2 t cl2 H2) as (cl3 & H3 & K3).
  exists cl3. auto.
Qed.

(** Answering leaves [closedCh] alone. *)
Abbreviation keeps := (frame (same_on (closedCh (I:=I) (C:=C) (Q:=Q)))).

Lemma load_op_closed o : keeps (load_op o).
Proof. by intros r r' x [= <- _]. Qed.

Lemma on_quorum_closed {A} (m : St Q A) : keeps (on_quorum m).
Proof. intros r r' x. unfold on_quorum. destruct (m (quorum r)). by intros [= <- _]. Qed.

#[local] Hint Resolve load_op_closed on_quorum_closed : go.

Lemma SetError_closed o e : keeps (SetError o e).
Proof. unfold SetError, send_done, update_op. by solve_frame. Qed.

Lemma SetCertificate_closed o c : keeps (SetCertificate o c).
Proof. unfold SetCertificate, send_done, update_op. by solve_frame. Qed.

#[local] Hint Resolve SetError_closed SetCertificate_closed : go.

Lemma doOp_closed o : keeps (doOp o).
Proof.
  unfold doOp, stateAdd, stateGet, stateDelete, stateAddSign.
  repeat first [apply frame_for_each; [apply _|intros ?]|progress solve_frame]; done.
Qed.

Lemma exec_label_closed l s s' :
  exec_label l s = Some s' -> closedCh (s_round s) = true -> closedCh (s_round s') = true.
Proof.
  unfold exec_label. destruct (s_crash s); [done|]. intros H Hc.
  destruct l as [t rq|t e|t|t|t|t|t|t| | | |];
    try (apply bind_Some in H as (cl & _ & H); apply caller_label_closed in H; congruence).
  - destruct (s_callers s !! t); simplify_eq. by rewrite enter_closed.
  - unfold loop_label in H. by split_tests.
  - unfold loop_label in H. destruct (s_loop s) as [|d o|]; try done.
    destruct (doOp o (s_round s)) as [r' x] eqn:E. apply doOp_closed in E. unfold same_on in E.
    destruct x; simplify_eq/=; congruence.
  - unfold loop_label in H. by split_tests.
  - unfold loop_label in H. by split_tests.
Qed.

Lemma after_execOp_moves t cl o rt err s s' :
  after_execOp t cl o rt err s = Some s' -> exists cl', s_callers s' = <[t := cl']> (s_callers s).
Proof.
  unfold after_execOp. destruct (r_ops (s_round s) !! o) as [so|]; simpl; [|done].
  intros. destruct (op_kind so), rt; simplify_eq/=; try (by eexists); split_tests; by eexists.
Qed.

(** A caller's step moves this caller; in [Stop] it stays there. *)
Lemma caller_label_moves t l cl s s' :
  caller_label t l cl s = Some s' -> s_callers s !! t = Some cl -> exists cl',
    s_callers s' = <[t := cl']> (s_callers s) /\ (stop_caller s cl -> stop_caller s' cl').
Proof.
  intros H Ht. unfold stop_caller at 1. destruct l; cbn in H; try done; destruct (pc cl) eqn:Ep; try done;
    try (apply bind_Some in H as (so & _ & H)); simplify_eq/=; split_tests;
    try (apply after_execOp_moves in H as [cl' E]; by exists cl');
    first [by (eexists; split; [reflexivity|])
          |exists cl; split; [symmetry; by apply insert_id|unfold stop_caller; by rewrite Ep]].
Qed.

Lemma exec_label_le l s s' : exec_label l s = Some s' -> round_le s s'.
Proof.
  intros H. pose proof (exec_label_closed l s s' H) as Hcl.
  split; [apply (exec_label_effect l s s' H)|exact Hcl|].
  assert (forall cl, stop_caller s cl -> stop_caller s' cl) as Hmono.
  { intros cl. unfold stop_caller. destruct (pc cl) as [| | | | | |? [|]]; auto. }
  intros t cl Ht. unfold exec_label in H. destruct (s_crash s); [done|].
  destruct l as [t0 rq|t0 e|t0|t0|t0|t0|t0|t0| | | |].
  { destruct (s_callers s !! t0) eqn:Ht0; simplify_eq. exists cl. split; [|apply Hmono].
    assert (t <> t0) by congruence. unfold enter.
    destruct (op_of rq); [|destruct rq]; cbn; by rewrite lookup_insert_ne. }
  1-7: apply bind_Some in H as (cl0 & Ht0 & H);
    destruct (caller_label_moves _ _ _ _ _ H Ht0) as (cl' & E & Hst); rewrite E;
    (destruct (decide (t = t0)) as [->|Hne];
      [rewrite lookup_insert_eq; exists cl'; split; [done|]; assert (cl0 = cl) as <- by congruence; exact Hst
      |rewrite lookup_insert_ne by done; exists cl; split; [done|apply Hmono]]).
  all: exists cl; split; [|apply Hmono]; unfold loop_label in H; split_tests.
Qed.
End stopping.
