(* ===== verification/Subs.v ===== *)
(** The subscription tables of the batch pool ([bapl/mem.go]) and of the round
    manager ([rebro/gossip/internal/round/manager.go]): a map from keys to maps
    of channels, [map[K]map[chan *V]struct{}].

    Both the inner maps and the channels are shared: the table refers to an
    inner map, and so does every goroutine that subscribed through it, also
    after the table has forgotten it.  They live in a store; a map value and a
    channel value are indices into it. *)

From S2P Require Import Prelude.

(** [make(chan *V, 1)]. *)
Record chan (V : Type) := MkChan { ch_buf : list V; ch_closed : bool }.
Arguments MkChan {V} _ _.
Arguments ch_buf {V} _.
Arguments ch_closed {V} _.

Definition subs_capacity : nat := 1.

Record subs (K V : Type) `{Countable K} := MkSubs {
  tbl : gmap K nat;
  inners : list (gmap nat unit);
  chans : list (chan V);
}.
Arguments MkSubs {K V _ _} _ _ _.
Arguments tbl {K V _ _} _.
Arguments inners {K V _ _} _.
Arguments chans {K V _ _} _.

Section subs.
Context {K V : Type} `{Countable K} {MO : MapOrder}.
Abbreviation T := (subs K V).

Definition no_subs : T := MkSubs ∅ [] [].

Definition set_tbl (m : gmap K nat) (s : T) : T := MkSubs m (inners s) (chans s).
Definition set_inners (l : list (gmap nat unit)) (s : T) : T := MkSubs (tbl s) l (chans s).
Definition set_chans (l : list (chan V)) (s : T) : T := MkSubs (tbl s) (inners s) l.

(** [ch <- v] on a channel of capacity 1. *)
Definition send (c : nat) (v : V) : St T unit :=
  s ← get;
  ch ← lift (nonnil (chans s !! c));
  if ch_closed ch then lift (Panic "send on closed channel")
  else if bool_decide (length (ch_buf ch) < subs_capacity)%nat
  then modify (fun s => set_chans (<[c := MkChan (ch_buf ch ++ [v]) false]> (chans s)) s)
  else lift (Hang "send on full channel").

Definition close (c : nat) : St T unit :=
  s ← get;
  ch ← lift (nonnil (chans s !! c));
  if ch_closed ch then lift (Panic "close of closed channel")
  else modify (fun s => set_chans (<[c := MkChan (ch_buf ch) true]> (chans s)) s).

(** [table[key]], the inner map a missing key stands for being empty. *)
Definition subscribers (key : K) (s : T) : gmap nat unit :=
  match tbl s !! key with
  | Some p => default ∅ (inners s !! p)
  | None => ∅
  end.

(** [subs, ok := table[key]; if ok { for sub := range subs { sub <- v };
    delete(table, key) }] *)
Definition notify (key : K) (v : V) : St T unit :=
  s ← get;
  match tbl s !! key with
  | Some _ =>
      for_each (range (subscribers key s)).*1 (fun c => send c v) ;;
      modify (fun s => set_tbl (delete key (tbl s)) s)
  | None => mret tt
  end.

(** [for sub := range table[key] { close(sub) }; delete(table, key)] *)
Definition close_all (key : K) : St T unit :=
  s ← get;
  for_each (range (subscribers key s)).*1 close ;;
  modify (fun s => set_tbl (delete key (tbl s)) s).

(** [subs, ok := table[key]; if !ok { subs = make(...); table[key] = subs };
    sub := make(chan *V, 1); subs[sub] = struct{}{}]: the inner map and the
    channel. *)
Definition subscribe (key : K) : St T (nat * nat) := fun s =>
  let '(p, s1) :=
    match tbl s !! key with
    | Some p => (p, s)
    | None =>
        let p := length (inners s) in
        (p, set_tbl (<[key := p]> (tbl s)) (set_inners (inners s ++ [∅]) s))
    end in
  let c := length (chans s1) in
  (set_inners (alter (<[c := tt]>) p (inners s1)) (set_chans (chans s1 ++ [MkChan [] false]) s1),
   Ok (p, c)).

(** [delete(subs, sub); if len(subs) == 0 { delete(table, key) }], where
    [subs] is the inner map found at subscription. *)
Definition unsubscribe (key : K) (p c : nat) : St T unit :=
  modify (fun s => set_inners (alter (delete c) p (inners s)) s) ;;
  s ← get;
  if bool_decide (size (default ∅ (inners s !! p)) = 0%nat)
  then modify (fun s => set_tbl (delete key (tbl s)) s)
  else mret tt.

(** [resp, ok := <-sub] when it does not block: a buffered value, or [None]
    when the channel is closed and drained. *)
Definition recv (c : nat) (s : T) : option (T * option V) :=
  match chans s !! c with
  | Some (MkChan (v :: buf) cl) => Some (set_chans (<[c := MkChan buf cl]> (chans s)) s, Some v)
  | Some (MkChan [] true) => Some (s, None)
  | _ => None
  end.

(** ** The invariant *)

Definition fresh_chan : chan V := MkChan [] false.

(** Channels in the table are open and empty, each of them in one inner map,
    and each inner map under one key. *)
Record subs_ok (s : T) : Prop := {
  sk_ptr : forall key p, tbl s !! key = Some p -> (p < length (inners s))%nat;
  sk_inj : forall key1 key2 p, tbl s !! key1 = Some p -> tbl s !! key2 = Some p -> key1 = key2;
  sk_fresh : forall key c, subscribers key s !! c = Some tt -> chans s !! c = Some fresh_chan;
  sk_bound : forall p m c, inners s !! p = Some m -> m !! c = Some tt -> (c < length (chans s))%nat;
  sk_one : forall p1 p2 m1 m2 c, inners s !! p1 = Some m1 -> inners s !! p2 = Some m2 ->
    m1 !! c = Some tt -> m2 !! c = Some tt -> p1 = p2;
}.

Lemma no_subs_ok : subs_ok no_subs.
Proof.
  by split.
Qed.

Lemma subscribers_inner key p m s :
  tbl s !! key = Some p -> inners s !! p = Some m -> subscribers key s = m.
Proof. intros E1 E2. unfold subscribers. by rewrite E1, E2. Qed.

Lemma subscribers_Some key s c :
  subscribers key s !! c = Some tt ->
  exists p m, tbl s !! key = Some p /\ inners s !! p = Some m /\ m !! c = Some tt.
Proof.
  unfold subscribers. destruct (tbl s !! key) as [p|]; [|by rewrite lookup_empty].
  destruct (inners s !! p) as [m|] eqn:E; simpl; [|by rewrite lookup_empty]. eauto.
Qed.

(** A channel is subscribed under at most one key. *)
Lemma subscribers_key s key1 key2 c :
  subs_ok s -> subscribers key1 s !! c = Some tt -> subscribers key2 s !! c = Some tt ->
  key1 = key2.
Proof.
  intros Hs (p1 & m1 & T1 & I1 & H1)%subscribers_Some (p2 & m2 & T2 & I2 & H2)%subscribers_Some.
  assert (p1 = p2) as -> by (by eapply (sk_one s Hs p1 p2 m1 m2 c)).
  by eapply (sk_inj s Hs).
Qed.

(** *** Changing every subscribed channel of a key *)

Definition upd_all (ch : chan V) (l : list nat) (chs : list (chan V)) : list (chan V) :=
  foldl (fun chs c => <[c := ch]> chs) chs l.

Lemma upd_all_length ch l chs : length (upd_all ch l chs) = length chs.
Proof.
  revert chs. induction l as [|c l IH]; intros chs; simpl; [done|]. by rewrite IH, length_insert.
Qed.

Lemma upd_all_other ch l chs c : c ∉ l -> upd_all ch l chs !! c = chs !! c.
Proof.
  revert chs. induction l as [|x l IH]; intros chs Hc; simpl; [done|].
  rewrite IH by set_solver. apply list_lookup_insert_ne. set_solver.
Qed.

Lemma upd_all_in ch l chs c :
  c ∈ l -> (c < length chs)%nat -> upd_all ch l chs !! c = Some ch.
Proof.
  revert chs. induction l as [|x l IH]; intros chs Hc Hlt; simpl; [by apply elem_of_nil in Hc|].
  destruct (decide (c ∈ l)) as [Hin|Hin].
  - apply IH; [done|]. by rewrite length_insert.
  - rewrite upd_all_other by done. assert (c = x) as -> by set_solver.
    by apply list_lookup_insert_eq.
Qed.

(** A loop over open, empty channels that puts each in the state [ch]. *)
Lemma for_each_chan (body : nat -> St T unit) ch l s :
  NoDup l -> (forall c, c ∈ l -> chans s !! c = Some fresh_chan) ->
  (forall c s0, chans s0 !! c = Some fresh_chan ->
     body c s0 = (set_chans (<[c := ch]> (chans s0)) s0, Ok tt)) ->
  for_each l body s = (set_chans (upd_all ch l (chans s)) s, Ok tt).
Proof.
  intros Hnd Hf Hbody. revert s Hf. induction Hnd as [|c l Hc Hnd IH]; intros s Hf; simpl.
  { by destruct s. }
  rewrite (St_bind_Ok _ _ _ _ _ (Hbody c s (Hf c ltac:(left)))). rewrite IH; [done|].
  intros x Hx. simpl. rewrite list_lookup_insert_ne by (by intros ->). apply Hf. by right.
Qed.

Lemma send_fresh c v s :
  chans s !! c = Some fresh_chan ->
  send c v s = (set_chans (<[c := MkChan [v] false]> (chans s)) s, Ok tt).
Proof. intros E. unfold send. st_unfold. by rewrite E. Qed.

Lemma close_fresh c s :
  chans s !! c = Some fresh_chan ->
  close c s = (set_chans (<[c := MkChan [] true]> (chans s)) s, Ok tt).
Proof. intros E. unfold close. st_unfold. by rewrite E. Qed.

Lemma elem_of_subscribers key s c :
  c ∈ (range (subscribers key s)).*1 <-> subscribers key s !! c = Some tt.
Proof.
  rewrite list_elem_of_fmap. split.
  - intros ([x u] & -> & Hx%elem_of_range). by destruct u.
  - intros Hc. exists (c, tt). split; [done|]. by apply elem_of_range.
Qed.

(** The table after [key] was served: its channels in the state [ch]. *)
Definition served (key : K) (ch : chan V) (s : T) : T :=
  MkSubs (delete key (tbl s)) (inners s)
    (upd_all ch (range (subscribers key s)).*1 (chans s)).

Lemma notify_spec key v s :
  subs_ok s -> notify key v s = (served key (MkChan [v] false) s, Ok tt).
Proof.
  intros Hs. unfold notify, served. st_unfold. destruct (tbl s !! key) as [p|] eqn:E.
  - rewrite (for_each_chan _ (MkChan [v] false)); [done|apply NoDup_range| |].
    + intros c Hc%elem_of_subscribers. by apply (sk_fresh s Hs key).
    + intros. by apply send_fresh.
  - unfold subscribers. rewrite E. rewrite delete_id by done.
    assert (range (K:=nat) (V:=unit) ∅ = []) as ->.
    { apply Permutation_nil. by rewrite (range_perm (∅ : gmap nat unit)), map_to_list_empty. }
    simpl. by destruct s.
Qed.

Lemma close_all_spec key s :
  subs_ok s -> close_all key s = (served key (MkChan [] true) s, Ok tt).
Proof.
  intros Hs. unfold close_all, served. st_unfold.
  rewrite (for_each_chan _ (MkChan [] true)); [done|apply NoDup_range| |].
  - intros c Hc%elem_of_subscribers. by apply (sk_fresh s Hs key).
  - intros. by apply close_fresh.
Qed.

Lemma subscribers_served key key' ch s :
  subscribers key' (served key ch s) =
    if decide (key' = key) then ∅ else subscribers key' s.
Proof.
  unfold subscribers, served. simpl. destruct (decide (key' = key)) as [->|Hne].
  - by rewrite lookup_delete_eq.
  - by rewrite lookup_delete_ne.
Qed.

Lemma served_chan key ch s c :
  subs_ok s -> subscribers key s !! c = Some tt -> chans (served key ch s) !! c = Some ch.
Proof.
  intros Hs Hc. simpl. apply upd_all_in; [by apply elem_of_subscribers|].
  apply (sk_fresh s Hs) in Hc. by eapply lookup_lt_Some.
Qed.

Lemma served_chan_other key ch s c :
  subscribers key s !! c <> Some tt -> chans (served key ch s) !! c = chans s !! c.
Proof. intros Hc. simpl. apply upd_all_other. by rewrite elem_of_subscribers. Qed.

Lemma served_ok key ch s : subs_ok s -> subs_ok (served key ch s).
Proof.
  intros Hs. split.
  - intros key' p Hp. cbn in Hp. apply lookup_delete_Some in Hp as [_ Hp]. by apply (sk_ptr s Hs key').
  - intros k1 k2 p H1 H2. cbn in H1, H2. apply lookup_delete_Some in H1 as [_ H1].
    apply lookup_delete_Some in H2 as [_ H2]. by eapply (sk_inj s Hs).
  - intros key' c. rewrite subscribers_served. destruct (decide (key' = key)); [by rewrite lookup_empty|].
    intros Hc. rewrite served_chan_other; [by apply (sk_fresh s Hs key')|].
    intros Hc'. apply n. by eapply (subscribers_key s).
  - intros p m c Hp Hc. simpl. rewrite upd_all_length. by eapply (sk_bound s Hs).
  - apply (sk_one s Hs).
Qed.

(** *** Subscribing *)

(** Where the inner map of [key] is after subscribing to it. *)
Definition inner_of (key : K) (s : T) : nat := default (length (inners s)) (tbl s !! key).

Lemma subscribe_eq key s :
  subs_ok s ->
  exists l, subscribe key s =
    (MkSubs (<[key := inner_of key s]> (tbl s)) l (chans s ++ [fresh_chan]),
     Ok (inner_of key s, length (chans s))) /\
  l !! inner_of key s = Some (<[length (chans s) := tt]> (subscribers key s)) /\
  (forall p, p <> inner_of key s -> l !! p = inners s !! p).
Proof.
  intros Hs. unfold subscribe, inner_of, subscribers.
  destruct (tbl s !! key) as [p|] eqn:E; simpl.
  - rewrite insert_id by done. eexists. split; [done|]. split.
    + rewrite list_lookup_alter_eq.
      destruct (lookup_lt_is_Some_2 (inners s) p) as [m Hm]; [by apply (sk_ptr s Hs key)|].
      by rewrite Hm.
    + intros p' Hp. by apply list_lookup_alter_ne.
  - eexists. split; [done|]. split.
    + rewrite list_lookup_alter_eq, list_lookup_middle by done. done.
    + intros p' Hp. rewrite list_lookup_alter_ne by done.
      destruct (decide (p' < length (inners s))%nat) as [Hlt|Hge].
      * by rewrite lookup_app_l.
      * rewrite !lookup_ge_None_2; [done|lia|]. rewrite length_app. simpl. lia.
Qed.

Lemma inner_of_key key key' p s :
  subs_ok s -> tbl s !! key' = Some p -> p = inner_of key s -> key' = key.
Proof.
  intros Hs Hk ->. unfold inner_of in Hk. destruct (tbl s !! key) as [p|] eqn:E; simpl in Hk.
  - by eapply (sk_inj s Hs).
  - apply (sk_ptr s Hs) in Hk. lia.
Qed.

(** The table after subscribing, when its inner maps are [l]. *)
Section subscribed.
Context (key : K) (s : T) (l : list (gmap nat unit)) (Hs : subs_ok s).
Context (Hl : l !! inner_of key s = Some (<[length (chans s) := tt]> (subscribers key s))).
Context (Hother : forall p, p <> inner_of key s -> l !! p = inners s !! p).

Definition subscribed_table : T :=
  MkSubs (<[key := inner_of key s]> (tbl s)) l (chans s ++ [fresh_chan]).

Lemma subscribed_inner p m c : l !! p = Some m -> m !! c = Some tt ->
  (p = inner_of key s /\ c = length (chans s)) \/
  exists m', inners s !! p = Some m' /\ m' !! c = Some tt /\ (c < length (chans s))%nat.
Proof.
  intros Hp Hc. destruct (decide (p = inner_of key s)) as [->|Hne].
  - rewrite Hl in Hp. injection Hp as <-. apply lookup_insert_Some in Hc as [[<- _]|[_ Hc]]; [by left|].
    right. apply subscribers_Some in Hc as (p & m' & T1 & I1 & H1).
    assert (p = inner_of key s) as -> by (unfold inner_of; by rewrite T1).
    exists m'. split_and!; [done..|]. by eapply (sk_bound s Hs).
  - rewrite Hother in Hp by done. right. exists m. split_and!; [done..|]. by eapply (sk_bound s Hs).
Qed.

Lemma subscribed_key : subscribers key subscribed_table = <[length (chans s) := tt]> (subscribers key s).
Proof. unfold subscribers at 1. simpl. by rewrite lookup_insert_eq, Hl. Qed.

Lemma subscribed_other key' : key' <> key -> subscribers key' subscribed_table = subscribers key' s.
Proof.
  intros Hne. unfold subscribers. simpl. rewrite lookup_insert_ne by done.
  destruct (tbl s !! key') as [p|] eqn:E'; [|done].
  rewrite Hother; [done|]. intros ->. apply Hne. by eapply inner_of_key.
Qed.

Lemma subscribed_length p : (p < length (inners s))%nat -> (p < length l)%nat.
Proof.
  intros [m Hm]%lookup_lt_is_Some_2. apply lookup_lt_is_Some_1.
  destruct (decide (p = inner_of key s)) as [->|Hne]; [eauto|]. rewrite Hother by done. eauto.
Qed.

Lemma subscribed_ok : subs_ok subscribed_table.
Proof.
  split; cbn [tbl inners chans subscribed_table].
  - intros key' p Hp. apply lookup_insert_Some in Hp as [[<- <-]|[_ Hp]]; [by eapply lookup_lt_Some|].
    apply subscribed_length. by apply (sk_ptr s Hs key').
  - intros k1 k2 p H1 H2. apply lookup_insert_Some in H1 as [[<- <-]|[N1 H1]];
      apply lookup_insert_Some in H2 as [[<- E2]|[N2 H2]]; try done.
    + symmetry. by eapply inner_of_key.
    + subst p. by eapply inner_of_key.
    + by eapply (sk_inj s Hs).
  - intros key' c Hc. destruct (decide (key' = key)) as [->|Hne].
    + rewrite subscribed_key in Hc. apply lookup_insert_Some in Hc as [[<- _]|[_ Hc]].
      * by apply list_lookup_middle.
      * apply (sk_fresh s Hs) in Hc. by apply lookup_app_l_Some.
    + rewrite subscribed_other in Hc by done. apply (sk_fresh s Hs) in Hc. by apply lookup_app_l_Some.
  - intros p m c Hp Hc. rewrite length_app. simpl.
    destruct (subscribed_inner p m c Hp Hc) as [[_ ->]|(m' & _ & _ & ?)]; lia.
  - intros p1 p2 m1 m2 c Hp1 Hp2 Hc1 Hc2.
    destruct (subscribed_inner p1 m1 c Hp1 Hc1) as [[-> Ec]|(m1' & I1 & C1 & B1)],
      (subscribed_inner p2 m2 c Hp2 Hc2) as [[-> Ec']|(m2' & I2 & C2 & B2)];
      [done|lia|lia|by eapply (sk_one s Hs p1 p2 m1' m2' c)].
Qed.
End subscribed.

Lemma subscribe_spec key s :
  subs_ok s ->
  exists s', subscribe key s = (s', Ok (inner_of key s, length (chans s))) /\ subs_ok s' /\
    chans s' = chans s ++ [fresh_chan] /\ tbl s' = <[key := inner_of key s]> (tbl s) /\
    (length (inners s) <= length (inners s'))%nat /\ (inner_of key s < length (inners s'))%nat /\
    subscribers key s' = <[length (chans s) := tt]> (subscribers key s) /\
    (forall key', key' <> key -> subscribers key' s' = subscribers key' s) /\
    (forall p, p <> inner_of key s -> inners s' !! p = inners s !! p).
Proof.
  intros Hs. destruct (subscribe_eq key s Hs) as (l & E & Hl & Hother).
  exists (subscribed_table key s l). split_and!; try done.
  - by apply subscribed_ok.
  - simpl. destruct (decide (length (inners s) = 0%nat)); [lia|].
    pose proof (subscribed_length key s l Hl Hother (length (inners s) - 1)). lia.
  - by eapply lookup_lt_Some.
  - by apply subscribed_key.
  - intros key' Hne. by apply subscribed_other.
Qed.

(** *** Unsubscribing, possibly through an inner map the table has forgotten *)

Lemma alter_delete_subseteq (l : list (gmap nat unit)) p c p' m' :
  alter (delete c) p l !! p' = Some m' -> exists m, l !! p' = Some m /\ m' ⊆ m.
Proof.
  intros Hl. destruct (decide (p' = p)) as [->|Hne].
  - rewrite list_lookup_alter_eq in Hl. destruct (l !! p) as [m|]; [|done].
    injection Hl as <-. exists m. split; [done|]. apply delete_subseteq.
  - rewrite list_lookup_alter_ne in Hl by done. eauto.
Qed.

(** Forgetting entries and shrinking inner maps keeps the tables well formed. *)
Lemma shrunk_ok s t l :
  subs_ok s -> t ⊆ tbl s -> length l = length (inners s) ->
  (forall p' m', l !! p' = Some m' -> exists m, inners s !! p' = Some m /\ m' ⊆ m) ->
  subs_ok (MkSubs t l (chans s)).
Proof.
  intros Hs Ht Hlen Hl. split; cbn [tbl inners chans].
  - intros key' p' Hk. rewrite Hlen. eapply (sk_ptr s Hs). by eapply lookup_weaken.
  - intros k1 k2 p' H1 H2. eapply (sk_inj s Hs); by eapply lookup_weaken.
  - intros key' c' (p' & m' & T1 & I1 & C1)%subscribers_Some. cbn in T1, I1.
    destruct (Hl p' m' I1) as (m0 & I0 & Hsub). apply (sk_fresh s Hs key').
    rewrite (subscribers_inner key' p' m0); [by eapply lookup_weaken|by eapply lookup_weaken|done].
  - intros p' m' c' Hp' Hc'. destruct (Hl p' m' Hp') as (m0 & I0 & Hsub).
    eapply (sk_bound s Hs); [done|]. by eapply lookup_weaken.
  - intros p1 p2 m1 m2 c' H1 H2 C1 C2.
    destruct (Hl _ _ H1) as (m1' & ? & ?), (Hl _ _ H2) as (m2' & ? & ?).
    eapply (sk_one s Hs p1 p2 m1' m2' c'); try done;
      [by apply (lookup_weaken m1)|by apply (lookup_weaken m2)].
Qed.

Lemma unsubscribe_spec key p c s :
  subs_ok s -> (p < length (inners s))%nat ->
  (forall key', tbl s !! key' = Some p -> key' = key) ->
  exists s', unsubscribe key p c s = (s', Ok tt) /\ subs_ok s' /\
    chans s' = chans s /\ tbl s' ⊆ tbl s /\ length (inners s') = length (inners s) /\
    (forall key', key' <> key -> subscribers key' s' = subscribers key' s) /\
    (tbl s !! key = Some p -> subscribers key s' = delete c (subscribers key s)) /\
    (forall p' m', inners s' !! p' = Some m' -> exists m, inners s !! p' = Some m /\ m' ⊆ m).
Proof.
  intros Hs Hp Hkey. destruct (lookup_lt_is_Some_2 _ _ Hp) as [m Hm].
  set (l := alter (delete c) p (inners s)).
  assert (forall t, t ⊆ tbl s -> subs_ok (MkSubs t l (chans s))) as Hok.
  { intros t Ht. apply shrunk_ok; [done..|by apply length_alter|apply alter_delete_subseteq]. }
  assert (forall t key', (key' <> key -> t !! key' = tbl s !! key') -> key' <> key ->
    subscribers key' (MkSubs t l (chans s)) = subscribers key' s) as Hsubs.
  { intros t key' Ht Hne. unfold subscribers. simpl. rewrite Ht by done.
    destruct (tbl s !! key') as [p'|] eqn:E; [|done].
    unfold l. rewrite list_lookup_alter_ne; [done|]. intros <-. apply Hne. by apply Hkey. }
  assert (l !! p = Some (delete c m)) as Hlp by (unfold l; by rewrite list_lookup_alter_eq, Hm).
  pose proof (alter_delete_subseteq (inners s) p c) as Hinn.
  unfold unsubscribe. st_unfold. cbn [inners set_inners]. fold l. rewrite Hlp.
  cbn [default from_option id].
  destruct (bool_decide (size (delete c m) = 0%nat)) eqn:Esz.
  - exists (MkSubs (delete key (tbl s)) l (chans s)). split_and!; try done.
    + apply Hok. apply delete_subseteq.
    + cbn. apply delete_subseteq.
    + cbn. unfold l. by rewrite length_alter.
    + intros key' Hne. apply Hsubs; [|done]. intros. by rewrite lookup_delete_ne.
    + intros Hk. rewrite (subscribers_inner key p m s Hk Hm). unfold subscribers. simpl.
      rewrite lookup_delete_eq. apply bool_decide_eq_true, map_size_empty_inv in Esz. done.
  - exists (MkSubs (tbl s) l (chans s)). split_and!; try done.
    + by apply Hok.
    + cbn. unfold l. by rewrite length_alter.
    + intros key' Hne. by apply Hsubs.
    + intros Hk. rewrite (subscribers_inner key p m s Hk Hm).
      unfold subscribers. simpl. by rewrite Hk, Hlp.
Qed.

(** ** What a waiting goroutine relies on *)

Context (tag : V -> K).

(** The inner map [i] and the channel [c] a goroutine got for [key] are used
    for that key only, and the channel carries values of that key. *)
Record wait_ok (s : T) (key : K) (i c : nat) : Prop := {
  wo_inner : (i < length (inners s))%nat;
  wo_key : forall key', tbl s !! key' = Some i -> key' = key;
  wo_chan : (c < length (chans s))%nat;
  wo_sub : forall key', subscribers key' s !! c = Some tt -> key' = key;
  wo_buf : forall ch v, chans s !! c = Some ch -> v ∈ ch_buf ch -> tag v = key;
}.

(** How the operations change the inner maps and channels in use. *)
Record evolves (s s' : T) : Prop := {
  ev_inners : (length (inners s) <= length (inners s'))%nat;
  ev_chans : (length (chans s) <= length (chans s'))%nat;
  ev_tbl : forall key i, (i < length (inners s))%nat -> tbl s' !! key = Some i ->
    tbl s !! key = Some i;
  ev_subs : forall key c, (c < length (chans s))%nat -> subscribers key s' !! c = Some tt ->
    subscribers key s !! c = Some tt;
  ev_buf : forall c ch' v, (c < length (chans s))%nat -> chans s' !! c = Some ch' ->
    v ∈ ch_buf ch' ->
    (exists ch, chans s !! c = Some ch /\ v ∈ ch_buf ch) \/ subscribers (tag v) s !! c = Some tt;
}.

Lemma wait_ok_evolves s s' key i c : wait_ok s key i c -> evolves s s' -> wait_ok s' key i c.
Proof.
  intros Hw He. split.
  - pose proof (wo_inner _ _ _ _ Hw). pose proof (ev_inners _ _ He). lia.
  - intros key' Hk. apply (wo_key _ _ _ _ Hw). apply (ev_tbl _ _ He); [apply Hw|done].
  - pose proof (wo_chan _ _ _ _ Hw). pose proof (ev_chans _ _ He). lia.
  - intros key' Hk. apply (wo_sub _ _ _ _ Hw). apply (ev_subs _ _ He); [apply Hw|done].
  - intros ch v Hch Hv. destruct (ev_buf _ _ He c ch v (wo_chan _ _ _ _ Hw) Hch Hv)
      as [(ch0 & ? & ?)|Hs]; [by eapply (wo_buf _ _ _ _ Hw)|by apply (wo_sub _ _ _ _ Hw)].
Qed.

(** A receive on the channel would not block. *)
Definition ready (s : T) (c : nat) : Prop :=
  exists ch, chans s !! c = Some ch /\ (ch_buf ch <> [] \/ ch_closed ch = true).

(** Nobody is forgotten. *)
Definition wakes (s s' : T) : Prop := forall key c,
  subscribers key s !! c = Some tt \/ ready s c ->
  subscribers key s' !! c = Some tt \/ ready s' c.

Lemma evolves_served key ch s :
  subs_ok s -> (forall v, v ∈ ch_buf ch -> tag v = key) -> evolves s (served key ch s).
Proof.
  intros Hs Hch. split.
  - done.
  - simpl. by rewrite upd_all_length.
  - intros key' i _ Hk. cbn in Hk. by apply lookup_delete_Some in Hk as [_ ?].
  - intros key' c _. rewrite subscribers_served. destruct (decide (key' = key)); [|done].
    by rewrite lookup_empty.
  - intros c ch' v _ Hc Hv.
    destruct (decide (subscribers key s !! c = Some tt)) as [Hin|Hin].
    + right. rewrite served_chan in Hc by done. injection Hc as <-. by rewrite (Hch v Hv).
    + left. rewrite served_chan_other in Hc by done. eauto.
Qed.

Lemma wakes_served key ch s :
  subs_ok s -> ch_buf ch <> [] \/ ch_closed ch = true -> wakes s (served key ch s).
Proof.
  intros Hs Hch key' c Hc. destruct (decide (subscribers key s !! c = Some tt)) as [Hin|Hin].
  { right. exists ch. split; [by apply served_chan|done]. }
  destruct Hc as [Hc|(ch0 & E & H0)].
  - left. rewrite subscribers_served. by rewrite decide_False by (by intros ->).
  - right. exists ch0. by rewrite served_chan_other.
Qed.

Lemma evolves_subscribe key s s' :
  subs_ok s -> subscribe key s = (s', Ok (inner_of key s, length (chans s))) ->
  evolves s s' /\ wakes s s' /\ wait_ok s' key (inner_of key s) (length (chans s)) /\
  subs_ok s' /\ subscribers key s' !! length (chans s) = Some tt /\
  (length (chans s) < length (chans s'))%nat.
Proof.
  intros Hs E. destruct (subscribe_spec key s Hs)
    as (s1 & E1 & Hs1 & Ech & Etbl & Hle & Hlt & Hk1 & Hk2 & Hother).
  rewrite E in E1. injection E1 as <-.
  assert (forall k c, (c < length (chans s))%nat -> subscribers k s' !! c = subscribers k s !! c) as Hsame.
  { intros k c Hc. destruct (decide (k = key)) as [->|Hne]; [|by rewrite Hk2].
    rewrite Hk1. rewrite lookup_insert_ne by lia. done. }
  split_and!.
  - split.
    + done.
    + rewrite Ech, length_app. simpl. lia.
    + intros k i Hi Hk. rewrite Etbl in Hk.
      apply lookup_insert_Some in Hk as [[<- <-]|[_ Hk]]; [|done].
      unfold inner_of in *. destruct (tbl s !! key); simpl in *; [done|lia].
    + intros k c Hc. by rewrite Hsame.
    + intros c ch v Hc Hch Hv. left. rewrite Ech, lookup_app_l in Hch by done. eauto.
  - intros k c [Hc|(ch & Hc & Hr)].
    + left. rewrite Hsame; [done|].
      apply (sk_fresh s Hs) in Hc. by eapply lookup_lt_Some.
    + right. exists ch. split; [|done]. rewrite Ech. by apply lookup_app_l_Some.
  - split.
    + done.
    + intros k Hk. rewrite Etbl in Hk. apply lookup_insert_Some in Hk as [[<- _]|[_ Hk]]; [done|].
      by apply (inner_of_key key k (inner_of key s) s Hs).
    + rewrite Ech, length_app. simpl. lia.
    + intros k Hk. destruct (decide (k = key)) as [|Hne]; [done|]. rewrite Hk2 in Hk by done.
      apply (sk_fresh s Hs) in Hk. apply lookup_lt_Some in Hk. lia.
    + intros ch v Hch Hv. rewrite Ech, list_lookup_middle in Hch by done.
      injection Hch as <-. by apply elem_of_nil in Hv.
  - done.
  - rewrite Hk1. by rewrite lookup_insert_eq.
  - rewrite Ech, length_app. simpl. lia.
Qed.

Lemma evolves_unsubscribe key p c s s' :
  subs_ok s -> wait_ok s key p c -> unsubscribe key p c s = (s', Ok tt) ->
  evolves s s' /\ subs_ok s'.
Proof.
  intros Hs Hw E. destruct (unsubscribe_spec key p c s Hs) as
    (s1 & E1 & Hs1 & Ech & Htbl & Hlen & Hk & Hk' & Hinn); [apply Hw|apply Hw|].
  rewrite E in E1. injection E1 as <-. split; [|done]. split.
  - lia.
  - by rewrite Ech.
  - intros k i _ H'. by eapply lookup_weaken.
  - intros k c' _ (p' & m' & T1 & I1 & C1)%subscribers_Some.
    destruct (Hinn p' m' I1) as (m & I0 & Hsub).
    rewrite (subscribers_inner k p' m); [by apply (lookup_weaken m')|by eapply lookup_weaken|done].
  - intros c' ch v _ Hc Hv. left. rewrite Ech in Hc. eauto.
Qed.

Lemma evolves_recv c s s' v :
  recv c s = Some (s', v) ->
  evolves s s' /\ tbl s' = tbl s /\ inners s' = inners s /\
  (forall c', c' <> c -> chans s' !! c' = chans s !! c') /\
  (forall x, v = Some x -> exists ch, chans s !! c = Some ch /\ x ∈ ch_buf ch) /\
  (subs_ok s -> subs_ok s').
Proof.
  unfold recv. intros E. destruct (chans s !! c) as [[[|x buf] cl]|] eqn:Ec; [| |done].
  - destruct cl; [|done]. simplify_eq. split_and!; try done. split; try done. intros; left; eauto.
  - simplify_eq. assert (c < length (chans s))%nat as Hlt by (by eapply lookup_lt_Some).
    split_and!; try done.
    + split; try done; simpl.
      * by rewrite length_insert.
      * intros c' ch v Hc' Hch Hv. left. destruct (decide (c' = c)) as [->|Hne].
        -- rewrite list_lookup_insert_eq in Hch by done. injection Hch as <-.
           eexists. split; [done|]. simpl in *. by right.
        -- rewrite list_lookup_insert_ne in Hch by done. eauto.
    + intros c' Hne. simpl. by rewrite list_lookup_insert_ne.
    + intros y [= <-]. eexists. split; [done|]. left.
    + intros Hs. assert (forall key, subscribers key s !! c <> Some tt) as Hn.
      { intros key Hk. apply (sk_fresh s Hs) in Hk. unfold fresh_chan in Hk. congruence. }
      split; try apply Hs.
      * intros key c' Hc'. change (subscribers key s !! c' = Some tt) in Hc'. simpl.
        rewrite list_lookup_insert_ne by (intros ->; by apply (Hn key)). by apply (sk_fresh s Hs key).
      * intros p m c' Hp Hc'. simpl. rewrite length_insert. by eapply (sk_bound s Hs).
Qed.
End subs.
