(* ===== verification/MemPool.v ===== *)
(** The in-memory batch pool ([bapl/mem.go]).

    Every method holds [batchesMu] while it touches the maps, so a critical
    section is one step; between them a goroutine waits on a channel or on
    [batchesCond].  A state [sys] is the pool and the goroutines inside [Pull]
    and [ListBySigner]; labels say who moves, which branch of a [select] is
    taken and what time it is. *)

From S2P Require Import Prelude Sha256 Crypto Bapl Subs.

Definition ErrBatchDeleted : error := Sent SBatchDeleted.

(** [time.Time] in nanoseconds; [time.Minute]. *)
Definition Minute : Z := 60000000000.

Record batchEntry := MkEntry { e_batch : Batch; e_time : Z }.

Record MemPool := MkPool {
  batches : gmap bytes batchEntry;
  batchesSubs : subs bytes Batch;
  closeCh : bool;
}.

(** A goroutine in a method of the pool. *)
Inductive waiter :=
| PullWait (hash : slice) (p c : nat)              (* the select of Pull *)
| PullCancel (hash : slice) (p c : nat) (e : error)   (* its ctx.Done() branch was taken *)
| Pulled (hash : slice) (r : res Batch)
| ListWait (signer : slice)                        (* batchesCond.Wait() *)
| ListWoken (signer : slice)                       (* woken, to take the lock again *)
| Listed (signer : slice) (bs : list Batch).

Section mempool.
Context {MO : MapOrder}.

Definition NewMemPool : MemPool := MkPool ∅ no_subs false.

Definition set_batches (m : gmap bytes batchEntry) (p : MemPool) : MemPool :=
  MkPool m (batchesSubs p) (closeCh p).
Definition set_batchesSubs (s : subs bytes Batch) (p : MemPool) : MemPool :=
  MkPool (batches p) s (closeCh p).

Definition on_subs {A} (m : St (subs bytes Batch) A) : St MemPool A :=
  zoom batchesSubs set_batchesSubs m.

Definition Size (p : MemPool) : Z := Z.of_nat (size (batches p)).

Definition Push (now : Z) (batch : Batch) : St MemPool unit :=
  let key := sl (Batch_Hash batch) in
  modify (fun p => set_batches (<[key := MkEntry batch now]> (batches p)) p) ;;
  on_subs (notify key batch).

(** [Pull] up to its [select]: the batch, or the inner map and the channel. *)
Definition Pull (hash : slice) : St MemPool (Batch + nat * nat) :=
  p ← get;
  let key := sl hash in
  match batches p !! key with
  | Some r => mret (inl (e_batch r))
  | None =>
      pc ← on_subs (subscribe key);
      mret (inr pc)
  end.

(** The [ctx.Done()] branch of [Pull]. *)
Definition Pull_cancel (hash : slice) (p c : nat) : St MemPool unit :=
  on_subs (unsubscribe (sl hash) p c).

(** One iteration of the loop of [ListBySigner]. *)
Definition by_signer (key : slice) (p : MemPool) : list Batch :=
  map (fun kb => e_batch kb.2)
    (filter (fun kb => bytes_Equal (Signer (BatchSignature (e_batch kb.2))) key = true)
       (range (batches p))).

Definition Delete (hash : slice) : St MemPool unit :=
  let key := sl hash in
  modify (fun p => set_batches (delete key (batches p)) p) ;;
  on_subs (close_all key).

(** A tick of [gc]. *)
Definition gc (now : Z) : St MemPool unit :=
  p ← get;
  for_each (range (batches p)) (fun kb =>
    if bool_decide (e_time kb.2 + Minute < now) then
      modify (fun p => set_batches (delete kb.1 (batches p)) p) ;;
      on_subs (close_all kb.1)
    else mret tt).

Definition Close : St MemPool unit :=
  p ← get;
  if closeCh p then lift (Panic "close of closed channel")
  else modify (fun p => MkPool (batches p) (batchesSubs p) true).

(** ** Goroutines *)

(** [m_dead]: the process crashed, or a goroutine blocks while it holds the
    lock.  [m_cancelled]: some [Pull] took its [ctx.Done()] branch.  [m_gc]: the
    goroutine that runs [gc] has not returned. *)
Record sys := MkSys {
  m_pool : MemPool;
  m_waiters : gmap nat waiter;
  m_dead : option string;
  m_cancelled : bool;
  m_gc : bool;
}.

Inductive label :=
| LPush (batch : Batch) (now : Z)
| LPull (t : nat) (hash : slice)
| LRecv (t : nat)                   (* case resp, ok := <-sub *)
| LCtx (t : nat) (e : error)        (* case <-ctx.Done() *)
| LCancel (t : nat)
| LList (t : nat) (signer : slice)
| LListAgain (t : nat)
| LDelete (hash : slice)
| LGc (now : Z)                     (* gc: case <-ticker.C *)
| LGcStop                           (* gc: case <-p.closeCh *)
| LClose.

Definition start : sys := MkSys NewMemPool ∅ None false true.

Definition with_waiter (t : nat) (w : waiter) (s : sys) : sys :=
  MkSys (m_pool s) (<[t := w]> (m_waiters s)) (m_dead s) (m_cancelled s) (m_gc s).

(** Runs a critical section. *)
Definition section {A} (m : St MemPool A) (k : A -> sys -> sys) (s : sys) : sys :=
  match m (m_pool s) with
  | (p, Ok a) => k a (MkSys p (m_waiters s) (m_dead s) (m_cancelled s) (m_gc s))
  | (p, Err _) => MkSys p (m_waiters s) (m_dead s) (m_cancelled s) (m_gc s)
  | (p, Panic w) | (p, Hang w) => MkSys p (m_waiters s) (Some w) (m_cancelled s) (m_gc s)
  end.

(** [batchesCond.Broadcast()]. *)
Definition wake (w : waiter) : waiter :=
  match w with ListWait k => ListWoken k | w => w end.
Definition broadcast (s : sys) : sys :=
  MkSys (m_pool s) (wake <$> m_waiters s) (m_dead s) (m_cancelled s) (m_gc s).

Definition list_round (t : nat) (key : slice) (s : sys) : sys :=
  match by_signer key (m_pool s) with
  | [] => with_waiter t (ListWait key) s
  | bs => with_waiter t (Listed key bs) s
  end.

Definition exec_label (l : label) (s : sys) : option sys :=
  match m_dead s with
  | Some _ => None
  | None =>
      match l with
      | LPush b now => Some (section (Push now b) (fun _ => broadcast) s)
      | LPull t hash =>
          match m_waiters s !! t with
          | Some _ => None
          | None =>
              Some (section (Pull hash) (fun r =>
                with_waiter t match r with
                              | inl b => Pulled hash (Ok b)
                              | inr (p, c) => PullWait hash p c
                              end) s)
          end
      | LRecv t =>
          match m_waiters s !! t with
          | Some (PullWait hash p c) =>
              '(subs', v) ← recv c (batchesSubs (m_pool s));
              Some (with_waiter t (Pulled hash match v with
                                               | Some b => Ok b
                                               | None => Err ErrBatchDeleted
                                               end)
                (MkSys (set_batchesSubs subs' (m_pool s)) (m_waiters s) None (m_cancelled s)
                   (m_gc s)))
          | _ => None
          end
      | LCtx t e =>
          match m_waiters s !! t with
          | Some (PullWait hash p c) =>
              Some (MkSys (m_pool s) (<[t := PullCancel hash p c e]> (m_waiters s)) None true (m_gc s))
          | _ => None
          end
      | LCancel t =>
          match m_waiters s !! t with
          | Some (PullCancel hash p c e) =>
              Some (section (Pull_cancel hash p c) (fun _ => with_waiter t (Pulled hash (Err e))) s)
          | _ => None
          end
      | LList t key =>
          match m_waiters s !! t with
          | Some _ => None
          | None => Some (list_round t key s)
          end
      | LListAgain t =>
          match m_waiters s !! t with
          | Some (ListWoken key) => Some (list_round t key s)
          | _ => None
          end
      | LDelete hash => Some (section (Delete hash) (fun _ s => s) s)
      | LGc now => if m_gc s then Some (section (gc now) (fun _ s => s) s) else None
      | LGcStop =>
          if m_gc s && closeCh (m_pool s)
          then Some (MkSys (m_pool s) (m_waiters s) None (m_cancelled s) false) else None
      | LClose => Some (section Close (fun _ s => s) s)
      end
  end.

Fixpoint run_labels (ls : list label) (s : sys) : option sys :=
  match ls with
  | [] => Some s
  | l :: ls' => s' ← exec_label l s; run_labels ls' s'
  end.

Inductive reach : sys -> Prop :=
| reach_start : reach start
| reach_step s l s' : reach s -> exec_label l s = Some s' -> reach s'.

(** ** The invariant *)

Definition hash_of (w : waiter) : option (slice * nat * nat) :=
  match w with
  | PullWait h p c | PullCancel h p c _ => Some (h, p, c)
  | _ => None
  end.

Definition listing (w : waiter) : option slice :=
  match w with ListWait k => Some k | _ => None end.

Abbreviation pk s := (batchesSubs (m_pool s)).

Record pool_ok (p : MemPool) : Prop := {
  po_subs : subs_ok (batchesSubs p);
  po_disj : forall key e, batches p !! key = Some e -> tbl (batchesSubs p) !! key = None;
  po_key : forall key e, batches p !! key = Some e -> sl (Batch_Hash (e_batch e)) = key;
}.

Definition hashed (b : Batch) : bytes := sl (Batch_Hash b).

Record sys_ok (s : sys) : Prop := {
  mo_pool : pool_ok (m_pool s);
  mo_wait : forall t w hash i c, m_waiters s !! t = Some w -> hash_of w = Some (hash, i, c) ->
    wait_ok hashed (pk s) (sl hash) i c;
  mo_chan : forall t1 t2 w1 w2 h1 h2 i1 i2 c, m_waiters s !! t1 = Some w1 ->
    m_waiters s !! t2 = Some w2 -> hash_of w1 = Some (h1, i1, c) -> hash_of w2 = Some (h2, i2, c) ->
    t1 = t2;
  mo_pulled : forall t hash b, m_waiters s !! t = Some (Pulled hash (Ok b)) ->
    sl (Batch_Hash b) = sl hash;
  mo_listed : forall t key bs, m_waiters s !! t = Some (Listed key bs) ->
    bs <> [] /\ forall b, b ∈ bs -> sl (Signer (BatchSignature b)) = sl key;
  mo_list : forall t key, m_waiters s !! t = Some (ListWait key) -> by_signer key (m_pool s) = [];
  mo_wake : m_cancelled s = false ->
    forall t hash i c, m_waiters s !! t = Some (PullWait hash i c) ->
      subscribers (sl hash) (pk s) !! c = Some tt \/ ready (pk s) c;
  mo_nocancel : m_cancelled s = false -> forall t hash i c e,
    m_waiters s !! t <> Some (PullCancel hash i c e);
}.

(** *** The critical sections *)

Lemma Push_spec now b p :
  pool_ok p ->
  Push now b p =
    (MkPool (<[hashed b := MkEntry b now]> (batches p))
       (served (hashed b) (MkChan [b] false) (batchesSubs p)) (closeCh p), Ok tt).
Proof.
  intros Hp. unfold Push, on_subs. st_unfold. cbn [batchesSubs set_batches].
  rewrite notify_spec by apply Hp. done.
Qed.

Lemma Push_ok now b p :
  pool_ok p ->
  pool_ok (MkPool (<[hashed b := MkEntry b now]> (batches p))
             (served (hashed b) (MkChan [b] false) (batchesSubs p)) (closeCh p)).
Proof.
  intros Hp. split; cbn [batches batchesSubs].
  - apply served_ok, Hp.
  - intros key e He. unfold served. cbn [tbl].
    apply lookup_insert_Some in He as [[<- _]|[Hne He]]; [by rewrite lookup_delete_eq|].
    rewrite lookup_delete_ne by done. by apply (po_disj p Hp key e).
  - intros key e He. apply lookup_insert_Some in He as [[<- <-]|[_ He]]; [done|].
    by apply (po_key p Hp).
Qed.

Lemma Delete_spec hash p :
  pool_ok p ->
  Delete hash p =
    (MkPool (delete (sl hash) (batches p))
       (served (sl hash) (MkChan [] true) (batchesSubs p)) (closeCh p), Ok tt).
Proof.
  intros Hp. unfold Delete, on_subs. st_unfold. cbn [batchesSubs set_batches].
  rewrite close_all_spec by apply Hp. done.
Qed.

Lemma shrink_ok m key ch p :
  pool_ok p -> m ⊆ batches p -> pool_ok (MkPool m (served key ch (batchesSubs p)) (closeCh p)).
Proof.
  intros Hp Hm. split; cbn [batches batchesSubs].
  - apply served_ok, Hp.
  - intros k e He. unfold served. cbn [tbl]. apply lookup_delete_None. right.
    apply (po_disj p Hp k e). by eapply lookup_weaken.
  - intros k e He. apply (po_key p Hp). by eapply lookup_weaken.
Qed.

Lemma shrink_batches_ok m p : pool_ok p -> m ⊆ batches p -> pool_ok (set_batches m p).
Proof.
  intros Hp Hm. split; cbn [batches batchesSubs set_batches]; [apply Hp|..].
  - intros k e He. apply (po_disj p Hp k e). by eapply lookup_weaken.
  - intros k e He. apply (po_key p Hp). by eapply lookup_weaken.
Qed.

(** A key that is in [batches] has no subscribers to close. *)
Lemma close_all_none (s : subs bytes Batch) key :
  subs_ok s -> tbl s !! key = None -> close_all key s = (s, Ok tt).
Proof.
  intros Hs Hk. rewrite close_all_spec by done. unfold served, subscribers. rewrite Hk.
  rewrite delete_id by done.
  assert (range (K:=nat) (V:=unit) ∅ = []) as ->.
  { apply Permutation_nil. by rewrite (range_perm (∅ : gmap nat unit)), map_to_list_empty. }
  by destruct s.
Qed.

Definition expired (now : Z) (e : batchEntry) : bool := bool_decide (e_time e + Minute < now).

(** The batches a tick leaves. *)
Definition swept (now : Z) (l : list (bytes * batchEntry)) (m : gmap bytes batchEntry) :=
  foldl (fun m kb => if expired now kb.2 then delete kb.1 m else m) m l.

Lemma swept_subseteq now l m : swept now l m ⊆ m.
Proof.
  revert m. induction l as [|kb l IH]; intros m; simpl; [done|].
  etransitivity; [apply IH|]. destruct (expired now kb.2); [apply delete_subseteq|done].
Qed.

Lemma swept_lookup now l m k e :
  swept now l m !! k = Some e <->
  m !! k = Some e /\ forall e', (k, e') ∈ l -> expired now e' = false.
Proof.
  revert m. induction l as [|[k0 e0] l IH]; intros m; simpl.
  - split; [intros H; split; [done|by intros ? ?%elem_of_nil]|by intros [? _]].
  - rewrite IH. setoid_rewrite elem_of_cons. destruct (expired now e0) eqn:E.
    + rewrite lookup_delete_Some. split.
      * intros [[Hne ?] Hl]. split; [done|]. intros e' [[= -> ->]|?]; [done|by apply Hl].
      * intros [? Hl]. split; [split; [|done]|].
        -- intros ->. specialize (Hl e0 ltac:(by left)). congruence.
        -- intros e' He'. apply Hl. by right.
    + split; intros [? Hl]; (split; [done|]); intros e'.
      * intros [[= -> ->]|?]; [done|by apply Hl].
      * intros ?. apply Hl. by right.
Qed.

(** A tick removes the expired batches; it has nobody to notify. *)
Lemma gc_spec now p :
  pool_ok p -> gc now p = (set_batches (swept now (range (batches p)) (batches p)) p, Ok tt).
Proof.
  intros Hp. unfold gc. st_unfold.
  assert (forall l m, (forall kb, kb ∈ l -> tbl (batchesSubs p) !! kb.1 = None) ->
    for_each l (fun kb => if bool_decide (e_time kb.2 + Minute < now) then
        modify (fun p => set_batches (delete kb.1 (batches p)) p) ;; on_subs (close_all kb.1)
        else mret tt) (set_batches m p)
    = (set_batches (swept now l m) p, Ok tt)) as Hloop.
  { induction l as [|kb l IH]; intros m Hl; simpl; [done|].
    change (bool_decide (e_time kb.2 + Minute < now)) with (expired now kb.2).
    destruct (expired now kb.2).
    - rewrite (St_bind_Ok _ _ _ (set_batches (delete kb.1 m) p) tt).
      + apply IH. intros x Hx. apply Hl. by right.
      + unfold on_subs. st_unfold. cbn [batches batchesSubs set_batches].
        rewrite close_all_none; [done|apply Hp|]. apply Hl. by left.
    - rewrite (St_bind_Ok _ _ _ (set_batches m p) tt) by done.
      apply IH. intros x Hx. apply Hl. by right. }
  specialize (Hloop (range (batches p)) (batches p)).
  assert (set_batches (batches p) p = p) as E by (by destruct p). rewrite E in Hloop.
  apply Hloop. intros [k e] Hk%elem_of_range. by eapply (po_disj p Hp).
Qed.

Lemma Pull_hit hash p e :
  batches p !! sl hash = Some e -> Pull hash p = (p, Ok (inl (e_batch e))).
Proof. intros E. unfold Pull. st_unfold. by rewrite E. Qed.

Lemma Pull_miss hash p :
  pool_ok p -> batches p !! sl hash = None ->
  exists s', subscribe (sl hash) (batchesSubs p) =
      (s', Ok (inner_of (sl hash) (batchesSubs p), length (chans (batchesSubs p)))) /\
    Pull hash p = (set_batchesSubs s' p,
      Ok (inr (inner_of (sl hash) (batchesSubs p), length (chans (batchesSubs p))))) /\
    pool_ok (set_batchesSubs s' p).
Proof.
  intros Hp E. destruct (subscribe_spec (sl hash) (batchesSubs p) (po_subs p Hp))
    as (s' & Hs & Hok & _ & Htbl & _).
  exists s'. split; [done|]. split.
  - unfold Pull, on_subs. st_unfold. by rewrite E, Hs.
  - split; cbn [batches batchesSubs set_batchesSubs]; [done| |apply Hp].
    intros key e He. rewrite Htbl. rewrite lookup_insert_ne by congruence.
    by apply (po_disj p Hp key e).
Qed.

Lemma Pull_cancel_spec hash p i c :
  pool_ok p -> wait_ok hashed (batchesSubs p) (sl hash) i c ->
  exists s', Pull_cancel hash i c p = (set_batchesSubs s' p, Ok tt) /\
    evolves hashed (batchesSubs p) s' /\ pool_ok (set_batchesSubs s' p).
Proof.
  intros Hp Hw. destruct (unsubscribe_spec (sl hash) i c (batchesSubs p) (po_subs p Hp))
    as (s' & E & Hs' & _ & Htbl & _); [apply Hw|apply Hw|].
  destruct (evolves_unsubscribe hashed (sl hash) i c _ s' (po_subs p Hp) Hw E) as [Hev _].
  exists s'. split_and!; [|done|].
  - unfold Pull_cancel, on_subs. st_unfold. by rewrite E.
  - split; cbn [batches batchesSubs set_batchesSubs]; [done| |apply Hp].
    intros key e He. eapply lookup_weaken_None; [|exact Htbl]. by eapply (po_disj p Hp).
Qed.

(** *** Listing *)

Lemma elem_of_by_signer key p b :
  b ∈ by_signer key p <-> exists k e, batches p !! k = Some e /\ e_batch e = b /\
    sl (Signer (BatchSignature b)) = sl key.
Proof.
  unfold by_signer. rewrite list_elem_of_fmap. split.
  - intros ([k e] & -> & [Hs Hk%elem_of_range]%list_elem_of_filter).
    exists k, e. split_and!; [done..|]. by apply bool_decide_eq_true in Hs.
  - intros (k & e & Hk & <- & Hs). exists (k, e). split; [done|].
    apply list_elem_of_filter. split; [by apply bool_decide_eq_true|by apply elem_of_range].
Qed.

Lemma by_signer_nil key p :
  by_signer key p = [] <-> forall k e, batches p !! k = Some e ->
    sl (Signer (BatchSignature (e_batch e))) <> sl key.
Proof.
  split.
  - intros E k e Hk Hs. assert (e_batch e ∈ by_signer key p) as H
      by (apply elem_of_by_signer; eauto). rewrite E in H. by apply elem_of_nil in H.
  - intros H. apply elem_of_nil_inv. intros b (k & e & Hk & <- & Hs)%elem_of_by_signer.
    by eapply H.
Qed.

(** *** Every step preserves the invariant *)

(** A section that moves no goroutine in [Pull]: [f] wakes some listers. *)
Lemma section_ok s p' (f : waiter -> waiter) :
  sys_ok s -> pool_ok p' -> evolves hashed (pk s) (batchesSubs p') ->
  wakes (pk s) (batchesSubs p') ->
  (f = id /\ (forall key, by_signer key (m_pool s) = [] -> by_signer key p' = []) \/ f = wake) ->
  sys_ok (MkSys p' (f <$> m_waiters s) (m_dead s) (m_cancelled s) (m_gc s)).
Proof.
  intros Hs Hp Hev Hwk Hf.
  assert (forall w, f w = w \/ exists k, w = ListWait k /\ f w = ListWoken k) as Hw.
  { intros w. destruct Hf as [[-> _]| ->]; [by left|]. destruct w; simpl; eauto. }
  assert (forall t w', (f <$> m_waiters s) !! t = Some w' ->
    m_waiters s !! t = Some w' \/ exists k, w' = ListWoken k) as Hl.
  { intros t w' H. rewrite lookup_fmap in H. destruct (m_waiters s !! t) as [w|]; [|done].
    simpl in H. injection H as <-. destruct (Hw w) as [->|(k & -> & ->)]; eauto. }
  split; cbn [m_pool m_waiters m_cancelled m_gc].
  - done.
  - intros t w hash i c Ht Hh. destruct (Hl t w Ht) as [H|[k ->]]; [|done].
    eapply wait_ok_evolves; [|done]. by eapply (mo_wait s Hs).
  - intros t1 t2 w1 w2 h1 h2 i1 i2 c H1 H2 E1 E2.
    destruct (Hl t1 w1 H1) as [H1'|[? ->]]; [|done].
    destruct (Hl t2 w2 H2) as [H2'|[? ->]]; [|done]. by eapply (mo_chan s Hs).
  - intros t hash b H. destruct (Hl t _ H) as [H'|[? ?]]; [|done]. by eapply (mo_pulled s Hs).
  - intros t key bs H. destruct (Hl t _ H) as [H'|[? ?]]; [|done]. by eapply (mo_listed s Hs).
  - intros t key H. destruct Hf as [[-> Hn]| ->].
    + apply Hn. eapply (mo_list s Hs t). by rewrite lookup_fmap, option_fmap_id in H.
    + rewrite lookup_fmap in H. destruct (m_waiters s !! t) as [[]|]; done.
  - intros Hc t hash i c H. destruct (Hl t _ H) as [H'|[? ?]]; [|done].
    apply Hwk. by eapply (mo_wake s Hs Hc t).
  - intros Hc t hash i c e H. destruct (Hl t _ H) as [H'|[? ?]]; [|done].
    by eapply (mo_nocancel s Hs Hc t).
Qed.

(** A goroutine moves; it is in [Pull] only if it was, or on a new channel. *)
Lemma pool_move_ok s p' t w' cancelled' :
  sys_ok s -> pool_ok p' -> evolves hashed (pk s) (batchesSubs p') ->
  (forall key, by_signer key (m_pool s) = [] -> by_signer key p' = []) ->
  (m_cancelled s = true -> cancelled' = true) ->
  (forall hash i c, hash_of w' = Some (hash, i, c) ->
     wait_ok hashed (batchesSubs p') (sl hash) i c /\
     forall t0 w0 h0 i0, t0 <> t -> m_waiters s !! t0 = Some w0 -> hash_of w0 <> Some (h0, i0, c)) ->
  (forall hash b, w' = Pulled hash (Ok b) -> hashed b = sl hash) ->
  (forall key bs, w' = Listed key bs ->
     bs <> [] /\ forall b, b ∈ bs -> sl (Signer (BatchSignature b)) = sl key) ->
  (forall key, w' = ListWait key -> by_signer key p' = []) ->
  (cancelled' = false -> (forall hash i c e, w' <> PullCancel hash i c e) /\
     (forall hash i c, w' = PullWait hash i c ->
        subscribers (sl hash) (batchesSubs p') !! c = Some tt \/ ready (batchesSubs p') c) /\
     (forall t0 hash i c, t0 <> t -> m_waiters s !! t0 = Some (PullWait hash i c) ->
        subscribers (sl hash) (pk s) !! c = Some tt \/ ready (pk s) c ->
        subscribers (sl hash) (batchesSubs p') !! c = Some tt \/ ready (batchesSubs p') c)) ->
  sys_ok (MkSys p' (<[t := w']> (m_waiters s)) (m_dead s) cancelled' (m_gc s)).
Proof.
  intros Hs Hp Hev Hlist Hcc Hw Hpulled Hlisted Hlw Hc.
  assert (cancelled' = false -> m_cancelled s = false) as Hcc'.
  { intros ->. destruct (m_cancelled s); [|done]. by specialize (Hcc eq_refl). }
  split; cbn [m_pool m_waiters m_cancelled m_gc].
  - done.
  - intros t0 w hash i c H Hh. apply lookup_insert_Some in H as [[<- <-]|[_ H]].
    + by apply Hw.
    + eapply wait_ok_evolves; [|done]. by eapply (mo_wait s Hs).
  - intros t1 t2 w1 w2 h1 h2 i1 i2 c H1 H2 E1 E2.
    apply lookup_insert_Some in H1 as [[<- <-]|[N1 H1]];
      apply lookup_insert_Some in H2 as [[<- <-]|[N2 H2]]; [done| | |by eapply (mo_chan s Hs)].
    + destruct (Hw _ _ _ E1) as [_ Hn]. by apply (Hn t2 w2 h2 i2) in E2.
    + destruct (Hw _ _ _ E2) as [_ Hn]. by apply (Hn t1 w1 h1 i1) in E1.
  - intros t0 hash b H. apply lookup_insert_Some in H as [[_ H]|[_ H]]; [by apply Hpulled|].
    by eapply (mo_pulled s Hs).
  - intros t0 key bs H. apply lookup_insert_Some in H as [[_ H]|[_ H]]; [by apply Hlisted|].
    by eapply (mo_listed s Hs).
  - intros t0 key H. apply lookup_insert_Some in H as [[_ H]|[_ H]]; [by apply Hlw|].
    apply Hlist. by eapply (mo_list s Hs).
  - intros Hf t0 hash i c H. destruct (Hc Hf) as (_ & H1 & H2).
    apply lookup_insert_Some in H as [[_ H]|[Hne H]]; [by apply (H1 hash i c)|].
    apply (H2 t0 hash i c); [done..|]. by eapply (mo_wake s Hs (Hcc' Hf) t0).
  - intros Hf t0 hash i c e H. destruct (Hc Hf) as (H0 & _ & _).
    apply lookup_insert_Some in H as [[_ H]|[_ H]]; [by eapply H0|].
    by eapply (mo_nocancel s Hs (Hcc' Hf) t0).
Qed.

Lemma by_signer_shrink key p p' :
  batches p' ⊆ batches p -> by_signer key p = [] -> by_signer key p' = [].
Proof.
  rewrite !by_signer_nil. intros Hsub H k e Hk. eapply H. by eapply lookup_weaken.
Qed.

#[local] Instance evolves_refl : Reflexive (evolves (V:=Batch) hashed).
Proof. intros s. split; try done. intros c ch v _ ? ?. left. eauto. Qed.

Lemma fmap_id_waiters (m : gmap nat waiter) : id <$> m = m.
Proof. by rewrite map_fmap_id. Qed.

Lemma list_round_ok s t key :
  sys_ok s -> (forall h, m_waiters s !! t = Some h -> hash_of h = None) ->
  sys_ok (list_round t key s).
Proof.
  intros Hs Ht. unfold list_round, with_waiter.
  destruct (by_signer key (m_pool s)) as [|b bs] eqn:E;
    (apply pool_move_ok; try done; [apply Hs|..]).
  - by intros key' [= <-].
  - intros key' bs' [= <- <-]. split; [done|]. intros b' Hb'. rewrite <- E in Hb'.
    by apply elem_of_by_signer in Hb' as (_ & _ & _ & _ & ?).
Qed.

Lemma pull_ok s t hash :
  sys_ok s -> m_waiters s !! t = None ->
  sys_ok (section (Pull hash) (fun r => with_waiter t match r with
                              | inl b => Pulled hash (Ok b)
                              | inr (p, c) => PullWait hash p c
                              end) s).
Proof.
  intros Hs Ht. unfold section. destruct (batches (m_pool s) !! sl hash) as [e|] eqn:E.
  - rewrite (Pull_hit _ _ _ E). unfold with_waiter. cbn [m_waiters m_pool m_dead m_cancelled m_gc].
    apply pool_move_ok; try done; [apply Hs|].
    intros h b [= <- <-]. by apply (po_key _ (mo_pool s Hs)).
  - destruct (Pull_miss hash (m_pool s) (mo_pool s Hs) E) as (s' & Es & -> & Hp).
    unfold with_waiter. cbn [m_waiters m_pool m_dead m_cancelled m_gc].
    destruct (evolves_subscribe hashed (sl hash) (pk s) s' (po_subs _ (mo_pool s Hs)) Es)
      as (Hev & Hwk & Hw & Hok & Hin & Hlt).
    apply pool_move_ok; try done.
    + intros h i c [= <- <- <-]. split; [done|]. intros t0 w0 h0 i0 _ H0 Hh.
      pose proof (wo_chan _ _ _ _ _ (mo_wait s Hs t0 w0 h0 i0 _ H0 Hh)). lia.
    + intros _. split_and!; [done| |].
      * intros h i c [= <- <- <-]. by left.
      * intros t0 h i c _ _ H. by apply Hwk.
Qed.

Lemma recv_ok s t hash i c s' v :
  sys_ok s -> m_waiters s !! t = Some (PullWait hash i c) -> recv c (pk s) = Some (s', v) ->
  sys_ok (with_waiter t (Pulled hash match v with Some b => Ok b | None => Err ErrBatchDeleted end)
    (MkSys (set_batchesSubs s' (m_pool s)) (m_waiters s) (m_dead s) (m_cancelled s) (m_gc s))).
Proof.
  intros Hs Ht Hr. destruct (evolves_recv hashed c (pk s) s' v Hr) as (Hev & Et & Ei & Hch & Hv & Hok).
  assert (pool_ok (set_batchesSubs s' (m_pool s))) as Hp.
  { split; cbn [batches batchesSubs set_batchesSubs]; [apply Hok, Hs| |apply Hs].
    rewrite Et. apply Hs. }
  unfold with_waiter. cbn [m_waiters m_pool m_dead m_cancelled m_gc].
  apply pool_move_ok; try done.
  - intros h b E. destruct v as [x|]; simplify_eq.
    destruct (Hv b eq_refl) as (ch & Hc & Hb).
    by apply (wo_buf _ _ _ _ _ (mo_wait s Hs t _ _ _ _ Ht eq_refl) ch).
  - intros Hc. split_and!; [done|done|].
    intros t0 h i0 c0 Hne H0 [Hsub|(ch & E & Hr0)].
    + left. unfold subscribers in *. cbn [batchesSubs set_batchesSubs]. by rewrite Et, Ei.
    + right. exists ch. split; [|done]. simpl. rewrite Hch; [done|]. intros ->. apply Hne.
      by eapply (mo_chan s Hs t0 t).
Qed.

Lemma close_pool_ok s :
  sys_ok s -> sys_ok (section Close (fun _ s => s) s).
Proof.
  intros Hs. unfold section, Close. st_unfold. destruct (closeCh (m_pool s)); split; try apply Hs.
  split; apply (mo_pool s Hs).
Qed.

Lemma pool_step_ok l s s' : sys_ok s -> exec_label l s = Some s' -> sys_ok s'.
Proof.
  intros Hs H. pose proof (mo_pool s Hs) as Hp. unfold exec_label in H.
  destruct (m_dead s) eqn:Ed; [done|].
  destruct l as [b now|t hash|t|t e|t|t key|t|hash|now| |].
  - injection H as <-. unfold section. rewrite Push_spec by done. unfold broadcast.
    cbn [m_waiters m_pool m_dead m_cancelled m_gc].
    apply (section_ok s _ wake); [done|by apply Push_ok|..|by right]; cbn [batchesSubs].
    + apply evolves_served; [apply Hp|]. by intros v ->%list_elem_of_singleton.
    + apply wakes_served; [apply Hp|by left].
  - destruct (m_waiters s !! t) eqn:Et; [done|]. injection H as <-. by apply pull_ok.
  - destruct (m_waiters s !! t) as [[hash p c| | | | |]|] eqn:Et; try done.
    apply bind_Some in H as ([s1 v] & Hr & [= <-]). rewrite <- Ed. by eapply recv_ok.
  - destruct (m_waiters s !! t) as [[hash p c| | | | |]|] eqn:Et; try done. injection H as <-.
    rewrite <- Ed. apply pool_move_ok; try done.
    intros h i c' [= <- <- <-]. split; [by eapply (mo_wait s Hs t)|].
    intros t0 w0 h0 i0 Hne H0 E. apply Hne. by eapply (mo_chan s Hs t0 t).
  - destruct (m_waiters s !! t) as [[| hash p c e| | | |]|] eqn:Et; try done. injection H as <-.
    unfold section. destruct (Pull_cancel_spec hash (m_pool s) p c Hp
      (mo_wait s Hs t _ _ _ _ Et eq_refl)) as (s1 & -> & Hev & Hp1).
    unfold with_waiter. cbn [m_waiters m_pool m_dead m_cancelled m_gc].
    apply pool_move_ok; try done. intros Hc. by apply (mo_nocancel s Hs Hc) in Et.
  - destruct (m_waiters s !! t) eqn:Et; [done|]. injection H as <-. apply list_round_ok; [done|].
    intros h Hh. congruence.
  - destruct (m_waiters s !! t) as [[| | | |key|]|] eqn:Et; try done. injection H as <-.
    apply list_round_ok; [done|]. intros h Hh. rewrite Et in Hh. by injection Hh as <-.
  - injection H as <-. unfold section. rewrite Delete_spec by done.
    rewrite <- (fmap_id_waiters (m_waiters s)).
    apply (section_ok s _ id); [done|apply shrink_ok; [done|apply delete_subseteq]|..];
      cbn [batchesSubs].
    + apply evolves_served; [apply Hp|]. by intros v ?%elem_of_nil.
    + apply wakes_served; [apply Hp|by right].
    + left. split; [done|]. intros key. apply by_signer_shrink. cbn. apply delete_subseteq.
  - destruct (m_gc s); [|done]. injection H as <-. unfold section.
    rewrite gc_spec by done. rewrite <- (fmap_id_waiters (m_waiters s)).
    apply (section_ok s _ id); [done|apply shrink_batches_ok; [done|apply swept_subseteq]|done|..].
    + by intros key c.
    + left. split; [done|]. intros key. apply by_signer_shrink. apply swept_subseteq.
  - destruct (m_gc s && closeCh (m_pool s)); [|done]. injection H as <-. split; apply Hs.
  - injection H as <-. by apply close_pool_ok.
Qed.

Lemma pool_start_ok : sys_ok start.
Proof.
  split; cbn; try done; try (by intros; exfalso; set_solver).
Qed.

Lemma pool_reach_sys_ok s : reach s -> sys_ok s.
Proof. induction 1; [apply pool_start_ok|by eapply pool_step_ok]. Qed.
End mempool.

(** ** Properties *)

Section properties.
Context {MO : MapOrder}.

(** No critical section of the pool panics or blocks while it holds the
    lock: channels are never sent to when full or closed, nor closed twice.
    The process can die of a second [Close] only. *)
Theorem mempool_sections_complete s l s' :
  reach s -> exec_label l s = Some s' -> m_dead s' <> None ->
  m_dead s = None /\ l = LClose /\ closeCh (m_pool s) = true.
Proof.
  intros Hr H Hd. pose proof (pool_reach_sys_ok s Hr) as Hs. pose proof (mo_pool s Hs) as Hp.
  unfold exec_label in H. destruct (m_dead s) eqn:Ed; [done|]. split; [done|].
  destruct l as [b now|t hash|t|t e|t|t key|t|hash|now| |].
  - injection H as <-. unfold section in Hd. by rewrite Push_spec in Hd.
  - destruct (m_waiters s !! t) eqn:Et; [done|]. simplify_eq. unfold section in Hd.
    destruct (batches (m_pool s) !! sl hash) as [e|] eqn:E.
    + by rewrite (Pull_hit _ _ _ E) in Hd.
    + by destruct (Pull_miss hash (m_pool s) Hp E) as (s' & _ & Ep & _); rewrite Ep in Hd.
  - destruct (m_waiters s !! t) as [[hash p c| | | | |]|]; try done.
    by apply bind_Some in H as ([s1 v] & _ & [= <-]).
  - destruct (m_waiters s !! t) as [[hash p c| | | | |]|]; try done. by injection H as <-.
  - destruct (m_waiters s !! t) as [[| hash p c e| | | |]|] eqn:Et; try done. injection H as <-.
    unfold section in Hd. destruct (Pull_cancel_spec hash (m_pool s) p c Hp
      (mo_wait s Hs t _ _ _ _ Et eq_refl)) as (s1 & E & _). by rewrite E in Hd.
  - destruct (m_waiters s !! t); simplify_eq. unfold list_round in Hd. by case_match.
  - destruct (m_waiters s !! t) as [[| | | |key|]|]; try done. simplify_eq.
    unfold list_round in Hd. by case_match.
  - simplify_eq. unfold section in Hd. by rewrite Delete_spec in Hd.
  - destruct (m_gc s); simplify_eq. unfold section in Hd. by rewrite gc_spec in Hd.
  - by destruct (m_gc s && closeCh (m_pool s)); simplify_eq.
  - split; [done|]. simplify_eq. unfold section, Close in Hd.
    destruct (closeCh (m_pool s)) eqn:Ec; [done|]. exfalso.
    st_unfold_in Hd. rewrite Ec in Hd. done.
Qed.

(** A batch that [Pull] returns has the hash that was asked for, whether it
    was in the pool or came by a later [Push]. *)
Theorem Pull_returns_requested_hash s t hash b :
  reach s -> m_waiters s !! t = Some (Pulled hash (Ok b)) -> sl (Batch_Hash b) = sl hash.
Proof. intros Hr. apply (mo_pulled s (pool_reach_sys_ok s Hr)). Qed.

(** C23: The pool stays well formed, whatever its goroutines do and however they are
    scheduled: a batch is stored under its own hash, no hash has both a batch
    and subscribers, a subscribed channel is open and empty and belongs to one
    hash; a goroutine in [Pull] has a channel of its own, which only ever holds
    batches of the hash it asked for, and it returns no other. *)
Theorem pool_is_well_formed s : reach s ->
  (forall key e, batches (m_pool s) !! key = Some e ->
     hashed (e_batch e) = key /\ subscribers key (batchesSubs (m_pool s)) = ∅) /\
  (forall key c, subscribers key (batchesSubs (m_pool s)) !! c = Some tt -> chans (batchesSubs (m_pool s)) !! c = Some fresh_chan /\
     forall key', subscribers key' (batchesSubs (m_pool s)) !! c = Some tt -> key' = key) /\
  (forall t w hash i c ch b, m_waiters s !! t = Some w -> hash_of w = Some (hash, i, c) ->
     chans (batchesSubs (m_pool s)) !! c = Some ch -> b ∈ ch_buf ch -> hashed b = sl hash) /\
  (forall t1 t2 w1 w2 h1 h2 i1 i2 c, m_waiters s !! t1 = Some w1 -> m_waiters s !! t2 = Some w2 ->
     hash_of w1 = Some (h1, i1, c) -> hash_of w2 = Some (h2, i2, c) -> t1 = t2) /\
  (forall t hash b, m_waiters s !! t = Some (Pulled hash (Ok b)) -> hashed b = sl hash).
Proof.
  intros Hr. pose proof (pool_reach_sys_ok s Hr) as Hs. pose proof (mo_pool s Hs) as Hp.
  split_and!; [| | |apply Hs|apply Hs].
  - intros key e He. split; [by apply (po_key _ Hp)|]. unfold subscribers. by rewrite (po_disj _ Hp _ _ He).
  - intros key c Hc. split; [by eapply (sk_fresh _ (po_subs _ Hp))|]. intros key' Hc'.
    apply subscribers_Some in Hc as (p & m & E1 & E2 & E3).
    apply subscribers_Some in Hc' as (p' & m' & E1' & E2' & E3').
    assert (p' = p) as -> by by eapply (sk_one _ (po_subs _ Hp)).
    by eapply (sk_inj _ (po_subs _ Hp)).
  - intros t w hash i c ch b Ht Hw. by eapply wo_buf, (mo_wait s Hs t w).
Qed.

(** [Push] hands the batch to every goroutine waiting for its hash: after
    it none of them is left in the table and each can receive the batch. *)
Theorem Push_serves_waiters s b now s' :
  reach s -> exec_label (LPush b now) s = Some s' ->
  batches (m_pool s') !! sl (Batch_Hash b) = Some (MkEntry b now) /\
  tbl (batchesSubs (m_pool s')) !! sl (Batch_Hash b) = None /\
  forall t hash i c, m_waiters s !! t = Some (PullWait hash i c) ->
    subscribers (sl (Batch_Hash b)) (batchesSubs (m_pool s)) !! c = Some tt ->
    exists s2, exec_label (LRecv t) s' = Some s2 /\ m_waiters s2 !! t = Some (Pulled hash (Ok b)).
Proof.
  intros Hr H. pose proof (pool_reach_sys_ok s Hr) as Hs. pose proof (mo_pool s Hs) as Hp.
  unfold exec_label in H. destruct (m_dead s) eqn:Ed; [done|]. injection H as <-.
  unfold section. rewrite Push_spec by done. unfold broadcast.
  cbn [m_pool batches batchesSubs m_dead m_waiters m_cancelled m_gc]. split_and!.
  - apply lookup_insert_eq.
  - cbn. apply lookup_delete_eq.
  - intros t hash i c Ht Hc. unfold exec_label.
    cbn [m_pool batches batchesSubs m_dead m_waiters m_cancelled m_gc]. rewrite Ed, lookup_fmap, Ht.
    cbn [fmap option_fmap option_map wake]. unfold recv.
    rewrite (served_chan (hashed b) (MkChan [b] false) _ c (po_subs _ Hp) Hc).
    eexists. split; [reflexivity|]. cbn [m_waiters with_waiter]. apply lookup_insert_eq.
Qed.

(** C32: As long as no [Pull] is cancelled no wakeup is lost: a goroutine that
    waits in [Pull] is subscribed for its hash or has something to receive,
    and it is subscribed only while no batch of that hash is in the pool. *)
Theorem no_lost_wakeup s t hash i c :
  reach s -> m_cancelled s = false -> m_waiters s !! t = Some (PullWait hash i c) ->
  (subscribers (sl hash) (batchesSubs (m_pool s)) !! c = Some tt /\
   batches (m_pool s) !! sl hash = None) \/
  is_Some (exec_label (LRecv t) s) \/ m_dead s <> None.
Proof.
  intros Hr Hc Ht. pose proof (pool_reach_sys_ok s Hr) as Hs.
  destruct (mo_wake s Hs Hc t hash i c Ht) as [Hsub|(ch & E & Hready)].
  - left. split; [done|]. apply subscribers_Some in Hsub as (p & m & T & _).
    destruct (batches (m_pool s) !! sl hash) as [e|] eqn:E; [|done].
    apply (po_disj _ (mo_pool s Hs)) in E. congruence.
  - right. unfold exec_label. destruct (m_dead s) eqn:Ed; [by right|left]. rewrite Ht.
    unfold recv. rewrite E. destruct ch as [[|v buf] cl]; simpl in *; [|by eexists].
    destruct Hready as [?| ->]; [done|by eexists].
Qed.

(** [ListBySigner] returns a non-empty list of batches of that signer, and
    a goroutine waits in it only while the pool has none: every [Push] wakes
    it. *)
Theorem ListBySigner_never_misses s t :
  reach s ->
  (forall key bs, m_waiters s !! t = Some (Listed key bs) ->
     bs <> [] /\ forall b, b ∈ bs -> sl (Signer (BatchSignature b)) = sl key) /\
  (forall key, m_waiters s !! t = Some (ListWait key) ->
     forall k e, batches (m_pool s) !! k = Some e ->
       sl (Signer (BatchSignature (e_batch e))) <> sl key).
Proof.
  intros Hr. pose proof (pool_reach_sys_ok s Hr) as Hs. split.
  - intros key bs. apply (mo_listed s Hs).
  - intros key Ht. apply by_signer_nil. by eapply (mo_list s Hs).
Qed.

(** The collector removes exactly the batches older than a minute and
    leaves every subscription alone: a waiting [Pull] is never told that its
    batch was deleted by the collector. *)
Theorem gc_removes_expired s now s' :
  reach s -> exec_label (LGc now) s = Some s' ->
  batchesSubs (m_pool s') = batchesSubs (m_pool s) /\ m_waiters s' = m_waiters s /\
  forall k e, batches (m_pool s') !! k = Some e <->
    batches (m_pool s) !! k = Some e /\ now <= e_time e + Minute.
Proof.
  intros Hr H. pose proof (mo_pool s (pool_reach_sys_ok s Hr)) as Hp.
  unfold exec_label in H. destruct (m_dead s); [done|].
  destruct (m_gc s); [|done]. injection H as <-.
  unfold section. rewrite gc_spec by done. cbn. split_and!; [done..|].
  intros k e. rewrite swept_lookup. unfold expired. split.
  - intros [Hk Hl]. split; [done|].
    specialize (Hl e ltac:(by apply elem_of_range)). apply bool_decide_eq_false in Hl. lia.
  - intros [Hk Hle]. split; [done|]. intros e' He'%elem_of_range.
    replace e' with e by congruence. apply bool_decide_eq_false. lia.
Qed.
End properties.

(** ** Executions *)

Module Executions.
#[local] Existing Instance sorted_order.

Definition after (ls : list label) : sys := default start (run_labels ls start).
Definition runsb (ls : list label) : bool :=
  match run_labels ls start with Some _ => true | None => false end.

Lemma pool_run_reach ls s s' : reach s -> run_labels ls s = Some s' -> reach s'.
Proof.
  revert s. induction ls as [|l ls IH]; intros s Hr H; simpl in H; [by simplify_eq|].
  apply bind_Some in H as (s1 & H1 & H). eapply IH; [|done]. by eapply reach_step.
Qed.

Lemma pool_after_reach ls : runsb ls = true -> reach (after ls).
Proof.
  unfold runsb, after. intros H. destruct (run_labels ls start) as [s|] eqn:E; [|done].
  by eapply pool_run_reach; [constructor|].
Qed.

Lemma pool_run_labels_app ls1 ls2 s :
  run_labels (ls1 ++ ls2) s = (s' ← run_labels ls1 s; run_labels ls2 s').
Proof.
  revert s. induction ls1 as [|l ls1 IH]; intros s; simpl; [done|].
  destruct (exec_label l s); simpl; [apply IH|done].
Qed.

Lemma pool_after_snoc ls l :
  runsb (ls ++ [l]) = true -> exec_label l (after ls) = Some (after (ls ++ [l])).
Proof.
  unfold runsb, after. rewrite pool_run_labels_app.
  destruct (run_labels ls start) as [s|]; simpl; [|done]. by destruct (exec_label l s).
Qed.

Definition sample : Batch := MkBatch (Some [x01]) (MkSignature (Some [x02]) (Some [x03])).
Definition h : slice := Batch_Hash sample.

(** Two goroutines wait for the batch, a third for a batch of the signer. *)
Definition waiting : list label := [LPull 1 h; LPull 2 h; LList 3 (Some [x03])].
Definition pushed : list label := waiting ++ [LPush sample 0; LRecv 1; LListAgain 3].

Lemma mempool_sections_complete_witness :
  m_dead (after [LClose; LClose]) <> None /\ closeCh (m_pool (after [LClose])) = true.
Proof.
  assert (m_dead (after ([LClose] ++ [LClose])) <> None) as H by (vm_compute; discriminate).
  split; [exact H|].
  assert (exec_label LClose (after [LClose]) = Some (after ([LClose] ++ [LClose]))) as E
    by (apply pool_after_snoc; vm_compute; reflexivity).
  assert (reach (after [LClose])) as Hr by (apply pool_after_reach; vm_compute; reflexivity).
  exact (proj2 (proj2 (mempool_sections_complete (after [LClose]) LClose _ Hr E H))).
Defined.

Lemma Pull_returns_requested_hash_witness :
  m_waiters (after pushed) !! 1%nat = Some (Pulled h (Ok sample)) /\
  sl (Batch_Hash sample) = sl h.
Proof.
  assert (m_waiters (after pushed) !! 1%nat = Some (Pulled h (Ok sample))) as E
    by (vm_compute; reflexivity).
  split; [exact E|].
  apply (Pull_returns_requested_hash (after pushed) 1 h sample); [|exact E].
  apply pool_after_reach. vm_compute. reflexivity.
Defined.

Lemma pool_is_well_formed_witness :
  exists ch, chans (batchesSubs (m_pool (after (waiting ++ [LPush sample 0])))) !! 1%nat = Some ch /\ sample ∈ ch_buf ch /\
    hashed sample = sl h.
Proof.
  assert (reach (after (waiting ++ [LPush sample 0]))) as Hr by (apply pool_after_reach; vm_compute; reflexivity).
  exists (MkChan [sample] false).
  assert (chans (batchesSubs (m_pool (after (waiting ++ [LPush sample 0])))) !! 1%nat = Some (MkChan [sample] false)) as Hc
    by (vm_compute; reflexivity).
  split_and!; [exact Hc|apply list_elem_of_here|].
  apply (proj1 (proj2 (proj2 (pool_is_well_formed _ Hr))) 2%nat (PullWait h 0 1) h 0%nat 1%nat
    (MkChan [sample] false) sample); [vm_compute; reflexivity|reflexivity|exact Hc|apply list_elem_of_here].
Defined.

Lemma Push_serves_waiters_witness :
  batches (m_pool (after (waiting ++ [LPush sample 0]))) !! sl (Batch_Hash sample)
    = Some (MkEntry sample 0).
Proof.
  refine (proj1 (Push_serves_waiters (after waiting) sample 0 _ _ _)).
  - apply pool_after_reach. vm_compute. reflexivity.
  - apply pool_after_snoc. vm_compute. reflexivity.
Defined.

Lemma no_lost_wakeup_witness :
  exists i c, m_waiters (after waiting) !! 1%nat = Some (PullWait h i c) /\
  (batches (m_pool (after waiting)) !! sl h = None \/
   is_Some (exec_label (LRecv 1) (after waiting)) \/ m_dead (after waiting) <> None).
Proof.
  assert (m_waiters (after waiting) !! 1%nat = Some (PullWait h 0 0)) as E by (vm_compute; reflexivity).
  exists 0%nat, 0%nat. split; [exact E|].
  destruct (no_lost_wakeup (after waiting) 1 h 0 0) as [[_ H]|H];
    [apply pool_after_reach; vm_compute; reflexivity|vm_compute; reflexivity|exact E|left; exact H|right; exact H].
Defined.

Lemma ListBySigner_never_misses_witness :
  m_waiters (after pushed) !! 3%nat = Some (Listed (Some [x03]) [sample]) /\ [sample] <> [].
Proof.
  assert (m_waiters (after pushed) !! 3%nat = Some (Listed (Some [x03]) [sample])) as E
    by (vm_compute; reflexivity).
  split; [exact E|].
  refine (proj1 (proj1 (ListBySigner_never_misses (after pushed) 3 _) (Some [x03]) [sample] E)).
  apply pool_after_reach. vm_compute. reflexivity.
Defined.

Lemma gc_removes_expired_witness :
  batchesSubs (m_pool (after (pushed ++ [LGc (Minute + 1)]))) = batchesSubs (m_pool (after pushed)).
Proof.
  refine (proj1 (gc_removes_expired (after pushed) (Minute + 1) _ _ _)).
  - apply pool_after_reach. vm_compute. reflexivity.
  - apply pool_after_snoc. vm_compute. reflexivity.
Defined.

(** A [Pull] is cancelled, and before it takes the lock its subscription is
    closed by [Delete] and another goroutine subscribes for the same hash. *)
Definition lost : list label :=
  [LPull 1 h; LCtx 1 (Sent SCanceled); LDelete h; LPull 2 h; LCancel 1; LPush sample 0].

(** A cancelled [Pull] can make another one miss its batch: it removes the
    hash from the table although the entry is no longer the inner map it
    subscribed in, so the other goroutine stays blocked with the batch it
    waits for in the pool. *)
Theorem stale_cancellation_loses_wakeup :
  reach (after lost) /\
  batches (m_pool (after lost)) !! sl h = Some (MkEntry sample 0) /\
  m_waiters (after lost) !! 2%nat = Some (PullWait h 1 1) /\
  exec_label (LRecv 2) (after lost) = None.
Proof.
  split_and!.
  - apply pool_after_reach. vm_compute. reflexivity.
  - vm_compute. reflexivity.
  - vm_compute. reflexivity.
  - vm_compute. reflexivity.
Qed.
End Executions.
