(* ===== verification/PoolSpec.v ===== *)
(** What the batch pool promises, without channels, subscriptions and inner
    maps: a map of batches in which a call of [Pull] waits for its hash, a
    [Push] answers all calls that wait for its batch at once, and a [Delete]
    refuses them; a collector that forgets old batches and ends some time after
    the pool is closed.  [MemPool.v] refines it, step by step and in both directions,
    as long as no [Pull] is cancelled. *)

From S2P Require Import Prelude Sha256 Crypto Bapl Subs MemPool.

Section spec.
Context {MO : MapOrder}.

(** ** The specification *)

(** A goroutine in a method of the pool. *)
Inductive pool_call :=
| Waiting (hash : slice)                    (* in [Pull], for a batch *)
| Answered (hash : slice) (r : res Batch)   (* in [Pull], with an answer *)
| Returned (hash : slice) (r : res Batch)
| Listing (signer : slice)
| Woken (signer : slice)
| Lists (signer : slice) (bs : list Batch).

Record spec := MkSpec {
  stored : gmap bytes batchEntry;
  calls : gmap nat pool_call;
  closed : bool;
  dead : option string;
  collecting : bool;
}.

Definition spec_start : spec := MkSpec ∅ ∅ false None true.

Definition answer_call (key : bytes) (r : res Batch) (c : pool_call) : pool_call :=
  match c with
  | Waiting h => if bool_decide (sl h = key) then Answered h r else Waiting h
  | c => c
  end.

Definition wake_call (c : pool_call) : pool_call :=
  match c with Listing k => Woken k | c => c end.

Definition listed (key : slice) (m : gmap bytes batchEntry) : list Batch :=
  map (fun kb => e_batch kb.2)
    (filter (fun kb => bytes_Equal (Signer (BatchSignature (e_batch kb.2))) key = true) (range m)).

Definition with_call (t : nat) (c : pool_call) (a : spec) : spec :=
  MkSpec (stored a) (<[t := c]> (calls a)) (closed a) (dead a) (collecting a).

Definition list_call (t : nat) (key : slice) (a : spec) : spec :=
  with_call t match listed key (stored a) with [] => Listing key | bs => Lists key bs end a.

Definition spec_exec (l : label) (a : spec) : option spec :=
  match dead a with
  | Some _ => None
  | None =>
      match l with
      | LPush b now =>
          Some (MkSpec (<[hashed b := MkEntry b now]> (stored a))
                  (wake_call ∘ answer_call (hashed b) (Ok b) <$> calls a) (closed a) None
                  (collecting a))
      | LPull t hash =>
          match calls a !! t with
          | Some _ => None
          | None => Some (with_call t match stored a !! sl hash with
                                      | Some e => Returned hash (Ok (e_batch e))
                                      | None => Waiting hash
                                      end a)
          end
      | LRecv t =>
          match calls a !! t with
          | Some (Answered hash r) => Some (with_call t (Returned hash r) a)
          | _ => None
          end
      | LList t key =>
          match calls a !! t with Some _ => None | None => Some (list_call t key a) end
      | LListAgain t =>
          match calls a !! t with Some (Woken key) => Some (list_call t key a) | _ => None end
      | LDelete hash =>
          Some (MkSpec (delete (sl hash) (stored a))
                  (answer_call (sl hash) (Err ErrBatchDeleted) <$> calls a) (closed a) None
                  (collecting a))
      | LGc now =>
          if collecting a
          then Some (MkSpec (filter (fun kb => expired now kb.2 = false) (stored a)) (calls a)
                       (closed a) None true)
          else None
      | LGcStop =>
          if collecting a && closed a
          then Some (MkSpec (stored a) (calls a) (closed a) None false) else None
      | LClose =>
          Some (MkSpec (stored a) (calls a) true
                  (if closed a then Some "close of closed channel"%string else None) (collecting a))
      | LCtx _ _ | LCancel _ => None
      end
  end.

Fixpoint spec_run (ls : list label) (a : spec) : option spec :=
  match ls with
  | [] => Some a
  | l :: ls' => a' ← spec_exec l a; spec_run ls' a'
  end.

(** ** What a state of the pool stands for *)

Definition received (v : option Batch) : res Batch :=
  match v with Some b => Ok b | None => Err ErrBatchDeleted end.

(** What a receive on the channel would give. *)
Definition arrived (ss : subs bytes Batch) (c : nat) : option (res Batch) :=
  x ← recv c ss; Some (received x.2).

(** A goroutine with something to receive has its answer. *)
Definition abs_call (ss : subs bytes Batch) (w : waiter) : pool_call :=
  match w with
  | PullWait h _ c | PullCancel h _ c _ =>
      match arrived ss c with Some r => Answered h r | None => Waiting h end
  | Pulled h r => Returned h r
  | ListWait k => Listing k
  | ListWoken k => Woken k
  | Listed k bs => Lists k bs
  end.

Definition abs (s : sys) : spec :=
  MkSpec (batches (m_pool s)) (abs_call (batchesSubs (m_pool s)) <$> m_waiters s)
    (closeCh (m_pool s)) (m_dead s) (m_gc s).

Definition cancels (l : label) : bool := match l with LCtx _ _ | LCancel _ => true | _ => false end.

(** ** The refinement *)

Lemma arrived_chan (ss ss' : subs bytes Batch) (c : nat) :
  chans ss' !! c = chans ss !! c -> arrived ss' c = arrived ss c.
Proof. unfold arrived, recv. intros ->. by destruct (chans ss !! c) as [[[|b buf] []]|]. Qed.

Lemma arrived_ready (ss : subs bytes Batch) (c : nat) : ready ss c -> is_Some (arrived ss c).
Proof.
  intros ([[|b buf] cl] & E & Hr). all: unfold arrived, recv; rewrite E; simpl in *.
  - destruct Hr as [Hr | ->]; [done|by eexists].
  - by eexists.
Qed.

(** Serving the subscribers of a key answers the calls that wait for it. *)
Lemma abs_served s key ch r t w :
  sys_ok s -> m_cancelled s = false -> m_waiters s !! t = Some w ->
  (forall (ss : subs bytes Batch) c, chans ss !! c = Some ch -> arrived ss c = Some r) ->
  abs_call (served key ch (batchesSubs (m_pool s))) w =
    answer_call key r (abs_call (batchesSubs (m_pool s)) w).
Proof.
  intros Hs Hc Ht Hch. pose proof (po_subs _ (mo_pool s Hs)) as Hss.
  destruct w as [h i c|h i c e|h x|k|k|k bs]; try done; [|by apply (mo_nocancel s Hs Hc) in Ht].
  cbn [abs_call]. destruct (decide (subscribers key (batchesSubs (m_pool s)) !! c = Some tt)) as [Hin|Hout].
  - rewrite (Hch _ _ (served_chan key ch _ c Hss Hin)).
    assert (arrived (batchesSubs (m_pool s)) c = None) as ->.
    { unfold arrived, recv. by rewrite (sk_fresh _ Hss key c Hin). }
    cbn [answer_call]. rewrite bool_decide_eq_true_2; [done|]. symmetry.
    by apply (wo_sub _ _ _ _ _ (mo_wait s Hs t _ _ _ _ Ht eq_refl)).
  - rewrite (arrived_chan _ _ c (served_chan_other key ch _ c Hout)).
    destruct (arrived (batchesSubs (m_pool s)) c) as [r'|] eqn:Ea; [done|].
    cbn [answer_call]. rewrite bool_decide_eq_false_2; [done|]. intros <-.
    destruct (mo_wake s Hs Hc t h i c Ht) as [Hin|Hr]; [done|].
    apply arrived_ready in Hr as [? ?]. congruence.
Qed.

(** One goroutine moves. *)
Lemma abs_moved (ss ss' : subs bytes Batch) t w' (m : gmap nat waiter) :
  (forall t0 w0, t0 <> t -> m !! t0 = Some w0 -> abs_call ss' w0 = abs_call ss w0) ->
  abs_call ss' <$> <[t := w']> m = <[t := abs_call ss' w']> (abs_call ss <$> m).
Proof.
  intros Hm. apply map_eq. intros t0. rewrite lookup_fmap.
  destruct (decide (t0 = t)) as [->|Hne]; [by rewrite !lookup_insert_eq|].
  rewrite !lookup_insert_ne, lookup_fmap by done.
  destruct (m !! t0) as [w0|] eqn:E; simpl; [|done]. f_equal. by eapply Hm.
Qed.

Lemma abs_call_same (ss ss' : subs bytes Batch) w :
  (forall h i c, hash_of w = Some (h, i, c) -> chans ss' !! c = chans ss !! c) ->
  abs_call ss' w = abs_call ss w.
Proof.
  intros Hch. destruct w as [h i c|h i c e|h x|k|k|k bs]; try done;
    (cbn [abs_call]; rewrite (arrived_chan ss ss' c); [done|by eapply Hch]).
Qed.

Lemma wake_abs (ss : subs bytes Batch) w : abs_call ss (wake w) = wake_call (abs_call ss w).
Proof. destruct w; try done; simpl; by destruct (arrived _ _). Qed.

Lemma push_refines s b now :
  sys_ok s -> m_cancelled s = false -> m_dead s = None ->
  abs (section (Push now b) (fun _ => broadcast) s) =
    MkSpec (<[hashed b := MkEntry b now]> (stored (abs s)))
      (wake_call ∘ answer_call (hashed b) (Ok b) <$> calls (abs s)) (closed (abs s)) None
      (m_gc s).
Proof.
  intros Hs Hc Ed. unfold section. rewrite Push_spec by apply (mo_pool s Hs).
  unfold abs, broadcast. cbn [m_pool m_waiters m_dead m_gc batches batchesSubs closeCh stored calls closed].
  rewrite Ed. f_equal. apply map_eq. intros t. rewrite !lookup_fmap.
  destruct (m_waiters s !! t) as [w|] eqn:Ht; simpl; [|done]. f_equal. rewrite wake_abs. f_equal.
  apply (abs_served s _ _ _ t); [done..|]. intros ss c E. unfold arrived, recv. by rewrite E.
Qed.

Lemma delete_refines s hash :
  sys_ok s -> m_cancelled s = false -> m_dead s = None ->
  abs (section (Delete hash) (fun _ s => s) s) =
    MkSpec (delete (sl hash) (stored (abs s)))
      (answer_call (sl hash) (Err ErrBatchDeleted) <$> calls (abs s)) (closed (abs s)) None
      (m_gc s).
Proof.
  intros Hs Hc Ed. unfold section. rewrite Delete_spec by apply (mo_pool s Hs).
  unfold abs. cbn [m_pool m_waiters m_dead m_gc batches batchesSubs closeCh stored calls closed].
  rewrite Ed. f_equal. apply map_eq. intros t. rewrite !lookup_fmap.
  destruct (m_waiters s !! t) as [w|] eqn:Ht; simpl; [|done]. f_equal.
  apply (abs_served s _ _ _ t); [done..|]. intros ss c E. unfold arrived, recv. by rewrite E.
Qed.

Lemma gc_refines s now :
  sys_ok s -> m_dead s = None ->
  abs (section (gc now) (fun _ s => s) s) =
    MkSpec (filter (fun kb => expired now kb.2 = false) (stored (abs s))) (calls (abs s)) (closed (abs s)) None
      (m_gc s).
Proof.
  intros Hs Ed. unfold section. rewrite gc_spec by apply (mo_pool s Hs).
  unfold abs. cbn [m_pool m_waiters m_dead m_gc batches batchesSubs closeCh stored calls closed set_batches].
  rewrite Ed. f_equal. apply map_eq. intros k. apply option_eq. intros e.
  rewrite swept_lookup, map_lookup_filter_Some. simpl. split.
  - intros [Hk Hl]. split; [done|]. apply Hl. by apply elem_of_range.
  - intros [Hk He]. split; [done|]. intros e' Hin%elem_of_range. by simplify_eq.
Qed.

Lemma pull_refines s t hash :
  sys_ok s -> m_waiters s !! t = None ->
  abs (section (Pull hash) (fun r => with_waiter t match r with
        | inl b => Pulled hash (Ok b) | inr (p, c) => PullWait hash p c end) s) =
    with_call t match stored (abs s) !! sl hash with
                | Some e => Returned hash (Ok (e_batch e)) | None => Waiting hash end (abs s).
Proof.
  intros Hs Ht. pose proof (mo_pool s Hs) as Hp. unfold section. cbn [stored abs].
  destruct (batches (m_pool s) !! sl hash) as [e|] eqn:Eb.
  - rewrite (Pull_hit _ _ _ Eb). unfold with_waiter, with_call, abs.
    cbn [m_pool m_waiters m_dead m_gc batches batchesSubs closeCh stored calls closed dead collecting].
    f_equal. by apply abs_moved.
  - destruct (Pull_miss hash (m_pool s) Hp Eb) as (s' & Es & -> & _).
    destruct (subscribe_spec (sl hash) _ (po_subs _ Hp)) as (s1 & Es1 & _ & Hch & _).
    assert (s1 = s') as -> by congruence.
    unfold with_waiter, with_call, abs.
    cbn [m_pool m_waiters m_dead m_gc batches batchesSubs closeCh stored calls closed dead collecting set_batchesSubs].
    f_equal. rewrite (abs_moved (batchesSubs (m_pool s))).
    + f_equal. cbn [abs_call]. unfold arrived, recv. by rewrite Hch, list_lookup_middle.
    + intros t0 w0 _ H0. apply abs_call_same. intros h i c Hh. rewrite Hch. apply lookup_app_l.
      by apply (wo_chan _ _ _ _ _ (mo_wait s Hs t0 _ _ _ _ H0 Hh)).
Qed.

Lemma recv_refines s t hash i c ss' v :
  sys_ok s -> m_waiters s !! t = Some (PullWait hash i c) -> m_dead s = None ->
  recv c (batchesSubs (m_pool s)) = Some (ss', v) ->
  abs (with_waiter t (Pulled hash (received v))
        (MkSys (set_batchesSubs ss' (m_pool s)) (m_waiters s) None (m_cancelled s) (m_gc s))) =
    with_call t (Returned hash (received v)) (abs s).
Proof.
  intros Hs Ht Ed Hr. unfold with_waiter, with_call, abs.
  cbn [m_pool m_waiters m_dead m_gc batches batchesSubs closeCh stored calls closed dead collecting set_batchesSubs].
  rewrite Ed. f_equal. rewrite (abs_moved (batchesSubs (m_pool s))); [done|].
  destruct (evolves_recv hashed c _ _ _ Hr) as (_ & _ & _ & Hch & _).
  intros t0 w0 Hne H0. apply abs_call_same. intros h i0 c0 Hh. apply Hch. intros ->. apply Hne.
  by eapply (mo_chan s Hs t0 t).
Qed.

Lemma list_refines s t key : abs (list_round t key s) = list_call t key (abs s).
Proof.
  unfold list_round, list_call. cbn [stored abs]. change (listed key (batches (m_pool s))) with (by_signer key (m_pool s)).
  destruct (by_signer key (m_pool s)) as [|b bs]; unfold with_waiter, with_call, abs;
    cbn [m_pool m_waiters m_dead m_gc stored calls closed dead collecting]; f_equal; by apply abs_moved.
Qed.

(** The specification's step. *)
Lemma step_refines l s :
  sys_ok s -> m_cancelled s = false -> cancels l = false ->
  abs <$> exec_label l s = spec_exec l (abs s).
Proof.
  intros Hs Hc Hl. unfold exec_label, spec_exec.
  change (dead (abs s)) with (m_dead s). destruct (m_dead s) as [w|] eqn:Ed; [done|].
  assert (forall t, calls (abs s) !! t = abs_call (batchesSubs (m_pool s)) <$> m_waiters s !! t) as Hcall
    by (intros t; apply lookup_fmap).
  destruct l as [b now|t hash|t|t e|t|t key|t|hash|now| |]; try done; rewrite ?Hcall.
  - cbn [fmap option_fmap option_map]. f_equal. by apply push_refines.
  - destruct (m_waiters s !! t) as [w|] eqn:Et; [done|]. cbn [fmap option_fmap option_map]. f_equal.
    by apply pull_refines.
  - destruct (m_waiters s !! t) as [[h i c|h i c e|h x|k|k|k bs]|] eqn:Et; try done;
      [|by apply (mo_nocancel s Hs Hc) in Et].
    cbn [fmap option_fmap option_map abs_call]. unfold arrived.
    destruct (recv c (batchesSubs (m_pool s))) as [[ss' v]|] eqn:Er; [|done].
    cbn [mbind option_bind snd fmap option_fmap option_map]. f_equal.
    exact (recv_refines s t h i c ss' v Hs Et Ed Er).
  - destruct (m_waiters s !! t) as [w|] eqn:Et; [done|]. cbn [fmap option_fmap option_map]. f_equal.
    apply list_refines.
  - destruct (m_waiters s !! t) as [[h i c|h i c e|h x|k|k|k bs]|] eqn:Et; try done;
      [simpl; by destruct (arrived _ c)..|]. cbn [fmap option_fmap option_map abs_call]. f_equal.
    apply list_refines.
  - cbn [fmap option_fmap option_map]. f_equal. by apply delete_refines.
  - change (collecting (abs s)) with (m_gc s). destruct (m_gc s) eqn:Eg; [|done].
    cbn [fmap option_fmap option_map]. f_equal. rewrite gc_refines by done. by rewrite Eg.
  - change (collecting (abs s)) with (m_gc s). change (closed (abs s)) with (closeCh (m_pool s)).
    by destruct (m_gc s && closeCh (m_pool s)).
  - cbn [fmap option_fmap option_map]. f_equal. unfold section, Close. st_unfold.
    change (closed (abs s)) with (closeCh (m_pool s)). unfold abs.
    destruct (closeCh (m_pool s)) eqn:Ecl; cbn [m_pool m_waiters m_dead m_gc batches batchesSubs closeCh].
    + by rewrite Ecl.
    + by rewrite Ed.
Qed.

Lemma section_uncancelled {A} (m : St MemPool A) k s :
  (forall a s0, m_cancelled (k a s0) = m_cancelled s0) -> m_cancelled (section m k s) = m_cancelled s.
Proof. intros Hk. unfold section. by destruct (m (m_pool s)) as [p [a|e|w|w]]; rewrite ?Hk. Qed.

Lemma step_uncancelled l s s' :
  exec_label l s = Some s' -> cancels l = false -> m_cancelled s' = m_cancelled s.
Proof.
  unfold exec_label. destruct (m_dead s); [done|]. intros H Hl.
  destruct l as [b now|t hash|t|t e|t|t key|t|hash|now| |]; try done.
  - injection H as <-. by apply section_uncancelled.
  - destruct (m_waiters s !! t); [done|]. injection H as <-. by apply section_uncancelled.
  - destruct (m_waiters s !! t) as [[h i c| | | | |]|]; try done.
    by apply bind_Some in H as ([ss v] & _ & [= <-]).
  - destruct (m_waiters s !! t); [done|]. injection H as <-. unfold list_round. by destruct (by_signer _ _).
  - destruct (m_waiters s !! t) as [[| | | |k|]|]; try done. injection H as <-. unfold list_round.
    by destruct (by_signer _ _).
  - injection H as <-. by apply section_uncancelled.
  - destruct (m_gc s); [|done]. injection H as <-. by apply section_uncancelled.
  - by destruct (m_gc s && closeCh (m_pool s)); [injection H as <-|].
  - injection H as <-. by apply section_uncancelled.
Qed.

(** C15: While no [Pull] is cancelled the pool is the specification: the same
    sequences of steps are possible, and each leads to the state the
    specification computes: the same batches, and for every goroutine the same
    answer or the same wait.  (With a cancelled [Pull] it is not:
    [MemPool.Executions.stale_cancellation_loses_wakeup].) *)
Theorem pool_refines_spec ls :
  forallb (fun l => negb (cancels l)) ls = true ->
  abs <$> run_labels ls start = spec_run ls spec_start.
Proof.
  intros Hls. assert (sys_ok start /\ m_cancelled start = false) as [Hs Hc] by (split; [apply pool_start_ok|done]).
  assert (spec_start = abs start) as ->.
  { unfold spec_start, abs. cbn. by rewrite fmap_empty. }
  revert Hls Hs Hc. generalize start. induction ls as [|l ls IH]; intros s Hls Hs Hc; [done|].
  simpl in Hls. apply andb_prop in Hls as [Hl%negb_true_iff Hls]. cbn [run_labels spec_run].
  rewrite <- (step_refines l s Hs Hc Hl). destruct (exec_label l s) as [s'|] eqn:E; [|done].
  cbn [mbind option_bind fmap option_fmap option_map]. apply IH; [done|by eapply pool_step_ok|].
  by rewrite (step_uncancelled l s s').
Qed.

(** *** What the specification makes plain *)

(** A call waits only for a batch that is not stored, and only a call for that
    batch gets it. *)
Definition spec_ok (a : spec) : Prop :=
  (forall k e, stored a !! k = Some e -> hashed (e_batch e) = k) /\
  forall t c, calls a !! t = Some c -> match c with
    | Waiting h => stored a !! sl h = None
    | Answered h (Ok b) | Returned h (Ok b) => hashed b = sl h
    | _ => True
    end.

Lemma spec_ok_moved a t c :
  spec_ok a -> (match c with
    | Waiting h => stored a !! sl h = None
    | Answered h (Ok b) | Returned h (Ok b) => hashed b = sl h
    | _ => True end) -> spec_ok (with_call t c a).
Proof.
  intros [H1 H2] Hc. split; [done|]. cbn [with_call calls stored].
  intros t0 c0 [[<- <-]|[_ H0]]%lookup_insert_Some; [done|by eapply H2].
Qed.

Lemma spec_step_ok l a a' : spec_ok a -> spec_exec l a = Some a' -> spec_ok a'.
Proof.
  intros Ha H. pose proof Ha as [H1 H2]. unfold spec_exec in H. destruct (dead a); [done|].
  destruct l as [b now|t hash|t|t e|t|t key|t|hash|now| |]; try done.
  - injection H as <-. split; cbn [stored calls].
    + by intros k e [[<- <-]|[_ He]]%lookup_insert_Some; [|apply H1].
    + intros t c. rewrite lookup_fmap. destruct (calls a !! t) as [c0|] eqn:E; [|done].
      intros [= <-]. specialize (H2 t c0 E). destruct c0 as [h|h r|h r|k|k|k bs]; simpl; try done.
      case_bool_decide; simpl; [done|]. by rewrite lookup_insert_ne.
  - destruct (calls a !! t); [done|]. injection H as <-. apply spec_ok_moved; [done|].
    destruct (stored a !! sl hash) eqn:E; [by apply H1|done].
  - destruct (calls a !! t) as [[h|h r|h r|k|k|k bs]|] eqn:E; try done. injection H as <-.
    apply spec_ok_moved; [done|]. exact (H2 t _ E).
  - destruct (calls a !! t); [done|]. injection H as <-. apply spec_ok_moved; [done|]. by destruct (listed _ _).
  - destruct (calls a !! t) as [[h|h r|h r|k|k|k bs]|]; try done. injection H as <-.
    apply spec_ok_moved; [done|]. by destruct (listed _ _).
  - injection H as <-. split; cbn [stored calls].
    + intros k e [_ He]%lookup_delete_Some. by apply H1.
    + intros t c. rewrite lookup_fmap. destruct (calls a !! t) as [c0|] eqn:E; [|done].
      intros [= <-]. specialize (H2 t c0 E). destruct c0 as [h|h r|h r|k|k|k bs]; simpl; try done.
      case_bool_decide; simpl; [done|]. by apply lookup_delete_None; right.
  - destruct (collecting a); [|done]. injection H as <-. split; cbn [stored calls].
    + intros k e [He _]%map_lookup_filter_Some. by apply H1.
    + intros t c E. specialize (H2 t c E). destruct c; try done. by apply map_lookup_filter_None; left.
  - destruct (collecting a && closed a); [|done]. by injection H as <-.
  - by injection H as <-.
Qed.

Theorem spec_calls_get_their_batch ls a : spec_run ls spec_start = Some a -> spec_ok a.
Proof.
  assert (spec_ok spec_start) as Ha by (split; [by intros k e|by intros t c]).
  revert Ha. generalize spec_start. induction ls as [|l ls IH]; intros a0 Ha H; cbn [spec_run] in H; [by simplify_eq|].
  apply bind_Some in H as (a1 & H1 & H2). eapply IH; [by eapply spec_step_ok|done].
Qed.
End spec.

Module Executions.
Import MemPool.Executions.
#[local] Existing Instance sorted_order.

(** Two goroutines wait for a batch and get it when it is pushed; a third lists
    it. *)
Lemma pool_refines_spec_witness :
  exists a, spec_run pushed spec_start = Some a /\ abs <$> run_labels pushed start = Some a /\
    calls a !! 2%nat = Some (Answered h (Ok sample)).
Proof.
  assert (exists a, spec_run pushed spec_start = Some a /\ calls a !! 2%nat = Some (Answered h (Ok sample)))
    as (a & E & Ea) by (eexists; split; vm_compute; reflexivity).
  exists a. split; [exact E|]. split; [|exact Ea]. rewrite <- E.
  apply (pool_refines_spec pushed). vm_compute. reflexivity.
Defined.
End Executions.
