(* ===== verification/Bootstrap.v ===== *)
(** The bootstrap service ([unison-poc/bootstrap/bootstrap.go]): how the
    bootstrapper serves the peers it knows, how a node connects to them, and how
    each node turns its connections into the includer set. *)

From S2P Require Import Prelude Prog Crypto CryptoInstance Includers.
From Stdlib Require Import Sorting.Sorted.

Definition defaultStake : Z := 1000.

(** ** Members *)

Section members.
Context {ED : Ed25519}.

(** The peerstore of the host: the key it holds for a peer (a nil interface
    when it has none) and the key's raw bytes. *)
Context {P W : Type} (store_PubKey : P -> option W) (Raw : W -> res bytes).

(** The keys of [NewService]: it panics on bytes that are not a key. *)
Definition NewService_key (localPublicKey : bytes) : res ed25519.PublicKey :=
  match ed25519.BytesToPubKey localPublicKey with
  | Err e => Panic "invalid key length"
  | r => r
  end.

(** One iteration of the loop of [GetMembers]. *)
Definition member (p : P) : res (option (Includer ed25519.PublicKey)) :=
  keyWrap ← nonnil (store_PubKey p);
  keyBytes ← Raw keyWrap;
  key ← ed25519.BytesToPubKey keyBytes;
  mret (NewIncluder (Some key) defaultStake).

Definition GetMembers (self : ed25519.PublicKey) (peers : list P)
    : res (Includers ed25519.PublicKey) :=
  incls ← mapM member peers;
  NewIncludersSet (NewIncluder (Some self) defaultStake :: incls).

(** The bytes of a peer's key, as the peerstore has them. *)
Definition knows (p : P) (b : bytes) : Prop :=
  length b = 32%nat /\ exists w, store_PubKey p = Some w /\ Raw w = Ok b.

(** The includer of a key. *)
Definition entry_of (b : bytes) : option (Includer ed25519.PublicKey) :=
  NewIncluder (Some (ed25519.MkPublicKey (Some b))) defaultStake.

Lemma member_of p b : knows p b -> member p = Ok (entry_of b).
Proof.
  intros (Hl & w & E1 & E2). unfold member. rewrite E1. simpl. rewrite E2. simpl.
  unfold ed25519.BytesToPubKey, PublicKeySize. rewrite Hl. done.
Qed.

Lemma members_of peers keys :
  Forall2 knows peers keys -> mapM member peers = Ok (map entry_of keys).
Proof.
  induction 1 as [|p b peers keys Hp _ IH]; [done|].
  cbn [mapM map]. rewrite (member_of _ _ Hp). simpl. by rewrite IH.
Qed.

Lemma entries_valid keys : valid (map entry_of keys).
Proof.
  apply Forall_forall. intros o (b & -> & _)%list_elem_of_fmap.
  unfold entry_of, valid_entry, defaultStake, MaxInt64. simpl. split; [eauto|lia].
Qed.

Lemma entries_total keys : total (map entry_of keys) = defaultStake * Z.of_nat (length keys).
Proof.
  unfold total. induction keys as [|b keys IH]; [done|].
  cbn [map length]. rewrite sumZ_cons, IH. unfold entry_of, defaultStake. simpl. lia.
Qed.

(** Every key of a set of such includers has the default stake. *)
Lemma entries_stake l keys k :
  l ≡ₚ map entry_of keys -> length k = 32%nat -> k ∈ keys -> stake_of l k = defaultStake.
Proof.
  intros Hp Hlen Hin. unfold stake_of.
  assert (entry_of k ∈ l) as Hl by (rewrite Hp; by apply list_elem_of_fmap_2).
  assert (Forall (fun o => exists k, o = entry_of k) l) as Hall.
  { rewrite Hp. apply Forall_forall. intros o (k' & -> & _)%list_elem_of_fmap. eauto. }
  clear -Hl Hall Hlen. induction Hall as [|o l [k' ->] Hall IH]; [by apply elem_of_nil in Hl|].
  cbn [find_includer entry_of NewIncluder nonnil]. simpl.
  destruct (ed25519.PublicKey_Equals _ k) eqn:Ek; [done|]. apply IH.
  apply elem_of_cons in Hl as [[= <-]|Hl]; [|done].
  exfalso. assert (ed25519.PublicKey_Equals (ed25519.MkPublicKey (Some k)) k = true); [|congruence].
  by apply ed25519.PublicKey_Equals_spec.
Qed.

Lemma entry_keys keys : map key_bytes (map entry_of keys) = keys.
Proof. rewrite map_map. unfold key_bytes, entry_of. simpl. apply map_id. Qed.

Lemma self_entry self : self = ed25519.MkPublicKey (Some (sl (ed25519.pub self))) ->
  NewIncluder (Some self) defaultStake = entry_of (sl (ed25519.pub self)).
Proof. intros H. unfold entry_of. by rewrite <- H. Qed.

Lemma NewService_key_Ok b k :
  NewService_key b = Ok k -> length b = 32%nat /\ k = ed25519.MkPublicKey (Some b).
Proof.
  unfold NewService_key, ed25519.BytesToPubKey, PublicKeySize.
  case_bool_decide; [done|]. intros [= <-]. split; [lia|done].
Qed.

(** The includer set a node computes, sorted, from its own key and its peers'. *)
Lemma GetMembers_set b self peers keys :
  NewService_key b = Ok self -> Forall2 knows peers keys ->
  exists l, GetMembers self peers = Ok (MkIncluders l 0) /\
    l ≡ₚ map entry_of (b :: keys) /\ StronglySorted ordered l.
Proof.
  intros [Hb ->]%NewService_key_Ok Hk. unfold GetMembers. rewrite (members_of _ _ Hk).
  change (NewIncluder (Some (ed25519.MkPublicKey (Some b))) defaultStake) with (entry_of b).
  destruct (sort_less_sorted (map entry_of (b :: keys)) []) as (l & E & Hp & Hs);
    [constructor|apply entries_valid|constructor|].
  exists l. split_and!; [|done|done].
  unfold NewIncludersSet. unfold mbind at 1, res_bind. cbn [map] in E. by rewrite E.
Qed.

(** C35: Two nodes that know the same distinct keys, whichever of them is their
    own and in whatever order their hosts list the peers, compute the same
    includer set: so they agree on every stake and on the supermajority. *)
Theorem GetMembers_agree b self peers keys b' self' peers' keys' :
  NewService_key b = Ok self -> Forall2 knows peers keys ->
  NewService_key b' = Ok self' -> Forall2 knows peers' keys' ->
  b :: keys ≡ₚ b' :: keys' -> NoDup (b :: keys) ->
  is_Ok (GetMembers self peers) = true /\ GetMembers self peers = GetMembers self' peers'.
Proof.
  intros Hs Hk Hs' Hk' Hperm Hnd.
  destruct (GetMembers_set _ _ _ _ Hs Hk) as (l & -> & Hp & Hsort).
  destruct (GetMembers_set _ _ _ _ Hs' Hk') as (l' & -> & Hp' & Hsort').
  split; [done|]. f_equal. f_equal.
  assert (l ≡ₚ l') as Hll by (rewrite Hp, Hp'; by apply fmap_Permutation).
  apply sorted_unique; [done| |done|done].
  rewrite (fmap_Permutation key_bytes _ _ Hp). by rewrite entry_keys.
Qed.

(** The set a node computes is valid, every member weighs the same, and
    its total stake is exact, without overflow or panic, for every network
    that fits the bound on the total stake. *)
Theorem GetMembers_stake b self peers keys :
  NewService_key b = Ok self -> Forall2 knows peers keys ->
  defaultStake * Z.of_nat (S (length peers)) <= MaxStake ->
  exists incl, GetMembers self peers = Ok incl /\ Includers_Validate (Some incl) = Ok tt /\
    (TotalStake incl).2 = Ok (defaultStake * Z.of_nat (S (length peers))) /\
    forall k, k ∈ b :: keys -> stake_of (includers incl) k = defaultStake.
Proof.
  intros Hs Hk Hm. destruct (GetMembers_set _ _ _ _ Hs Hk) as (l & E & Hp & _).
  assert (valid l) as Hv by (unfold valid; rewrite Hp; apply entries_valid).
  assert (total l = defaultStake * Z.of_nat (S (length peers))) as Ht.
  { unfold total. rewrite (sumZ_perm _ _ _ Hp). change (sumZ entry_stake ?x) with (total x).
    rewrite entries_total. simpl. by rewrite (Forall2_length _ _ _ Hk). }
  exists (MkIncluders l 0). split_and!; [done| | |].
  - unfold Includers_Validate. cbn [includers].
    destruct l as [|o l]; [by apply Permutation_nil_l in Hp|].
    clear E Hp Ht. induction Hv as [|o' l' Ho Hv IH]; [done|].
    cbn [validate_from]. destruct o' as [i|]; [|done]. destruct Ho as [[k Hk'] Hi].
    unfold Includer_Validate. rewrite Hk'. destruct (Z.ltb_spec (Stake i) 0); [lia|]. exact IH.
  - unfold TotalStake. cbn [totalStake]. rewrite bool_decide_eq_true_2 by done.
    unfold mbind, St_bind, updateTotalStake, gets. cbn [includers].
    pose proof MaxStake_val. rewrite (sum_stakes_spec l 0 Hv) by lia.
    rewrite bool_decide_eq_true_2 by lia. simpl. f_equal. lia.
  - intros k Hin. cbn [includers]. apply (entries_stake l (b :: keys)); [done| |done].
    apply elem_of_cons in Hin as [->|Hin]; [by apply NewService_key_Ok in Hs as [? _]|].
    apply list_elem_of_lookup in Hin as (i & Hi).
    by destruct (Forall2_lookup_r _ _ _ _ _ Hk Hi) as (p & _ & ? & _).
Qed.
End members.

(** ** The protocol *)

(** What the service asks of its host, of a stream and of the clock.  [A] is
    [peer.AddrInfo]. *)
Inductive bootE (A : Type) : Type -> Type :=
| Connect (to : A) : bootE A (res unit)
| Settle : bootE A (res unit)          (* a second, or the context's end *)
| NewStream (to : A) : bootE A (res unit)
| ReadAll : bootE A (res bytes)
| CloseStream : bootE A (res unit)
| SetStreamHandler : bootE A (res unit)
| Tick : bootE A (res unit)            (* a second; the context's error *)
| CountPeers : bootE A (res Z)
| CloseDn : bootE A (res unit)
| WaitHandlers : bootE A (res unit)
| AwaitDn : bootE A (res bool)         (* [dn] closed; false: context done *)
| ResetStream : bootE A (res unit)
| KnownPeers : bootE A (res (list A))
| Write (b : bytes) : bootE A (res unit)
| CloseWrite : bootE A (res unit)
| ReadAck : bootE A (res unit).
Arguments Connect {A} _.
Arguments Settle {A}.
Arguments NewStream {A} _.
Arguments ReadAll {A}.
Arguments CloseStream {A}.
Arguments SetStreamHandler {A}.
Arguments Tick {A}.
Arguments CountPeers {A}.
Arguments CloseDn {A}.
Arguments WaitHandlers {A}.
Arguments AwaitDn {A}.
Arguments ResetStream {A}.
Arguments KnownPeers {A}.
Arguments Write {A} _.
Arguments CloseWrite {A}.
Arguments ReadAck {A}.

Section protocol.
Context {A : Type}.

(** [json.Marshal] and [json.Unmarshal] at [[]peer.AddrInfo], which the host
    library defines the encoding of. *)
Context (json_Marshal : list A -> res bytes) (json_Unmarshal : bytes -> res (list A)).

Abbreviation E := (bootE A).

(** The goroutines of [Start] and the closing of the stream beside them. *)
Definition connect_all (schedule : list nat) (peers : list A) : G E unit :=
  pbind (par schedule (call CloseStream ::
           map (fun p => attempt (call (Connect p)) ;; mret tt) peers))
    (fun rs =>
       match rs with
       | [] => Ret (Ok tt)
       | closed :: rs' =>
           Ret (_ ← closed; match rs' ≫= (fun r => match r with Ok _ | Err _ => [] | r => [r] end) with
                            | [] => Ok tt
                            | r :: _ => r
                            end)
       end).

Definition Start (schedule : list nat) (bootstrapper : A) : G E unit :=
  connected ← attempt (call (Connect bootstrapper));
  match connected with
  | inr err => lit (Err (wrapf "connecting to bootstrapper" err))
  | inl _ =>
      attempt (call Settle) ;;
      call (NewStream bootstrapper) ;;
      b ← call ReadAll;
      peers ← lit (json_Unmarshal b);
      connect_all schedule peers
  end.

(** The stream handler of [Serve]. *)
Definition serve_stream : G E unit :=
  opened ← call AwaitDn;
  if negb opened then attempt (call ResetStream) ;; mret tt
  else
    peers ← call KnownPeers;
    match json_Marshal peers with
    | Ok b =>
        written ← attempt (call (Write b));
        match written with
        | inr _ => mret tt
        | inl _ =>
            half ← attempt (call CloseWrite);
            match half with
            | inr _ => mret tt
            | inl _ => attempt (call ReadAck) ;; mret tt
            end
        end
    | Err _ => mret tt
    | Panic w => lit (Panic w)
    | Hang w => lit (Hang w)
    end.

(** [rounds] iterations of the waiting loop of [Serve]. *)
Fixpoint await_peers (rounds : nat) (have want : Z) : G E unit :=
  if have <? want then
    match rounds with
    | O => lit (Hang "awaiting peers")
    | S rounds' =>
        call Tick ;;
        have ← call CountPeers;
        await_peers rounds' have want
    end
  else mret tt.

Definition Serve (rounds : nat) (networkSize : Z) : G E unit :=
  call SetStreamHandler ;;
  if 0 <? networkSize then
    await_peers rounds 0 (networkSize - 1) ;;
    call CloseDn ;;
    call WaitHandlers
  else mret tt.

(** *** Observations *)

Definition counted (o : occ E) : option Z :=
  let '@Occ _ X e x := o in
  match e in bootE _ X return X -> option Z with
  | CountPeers => fun x => match x with Ok n => Some n | _ => None end
  | _ => fun _ => None
  end x.

Definition opened (o : occ E) : option unit :=
  let '@Occ _ X e x := o in
  match e in bootE _ X return X -> option unit with
  | CloseDn => fun x => Some tt
  | _ => fun _ => None
  end x.

Definition connected_to (o : occ E) : option A :=
  let '@Occ _ X e x := o in
  match e in bootE _ X return X -> option A with
  | Connect p => fun _ => Some p
  | _ => fun _ => None
  end x.

Definition served (o : occ E) : option (list A) :=
  let '@Occ _ X e x := o in
  match e in bootE _ X return X -> option (list A) with
  | KnownPeers => fun x => match x with Ok l => Some l | _ => None end
  | _ => fun _ => None
  end x.

Definition written (o : occ E) : option bytes :=
  let '@Occ _ X e x := o in
  match e in bootE _ X return X -> option bytes with
  | Write b => fun _ => Some b
  | _ => fun _ => None
  end x.

Definition read (o : occ E) : option (res bytes) :=
  let '@Occ _ X e x := o in
  match e in bootE _ X return X -> option (res bytes) with
  | ReadAll => fun x => Some x
  | _ => fun _ => None
  end x.

(** *** Runs *)

Lemma last_cons_default (n d : Z) l : List.last (n :: l) d = List.last l n.
Proof.
  revert n d. induction l as [|m l IH]; intros n d; [done|].
  change (List.last (m :: l) d = List.last (m :: l) n). by rewrite !IH.
Qed.

Lemma runs_await_peers rounds have want tr r :
  runs (await_peers rounds have want) tr r ->
  omap opened tr = [] /\ omap connected_to tr = [] /\
  (r = Ok tt -> want <= List.last (omap counted tr) have).
Proof.
  revert have tr. induction rounds as [|rounds IH]; intros have tr H; cbn [await_peers] in H.
  - destruct (Z.ltb_spec have want); run_step H; subst; [done|]. by split_and!; [..|intros _; simpl; lia].
  - destruct (Z.ltb_spec have want); [|by run_step H; subst; split_and!; [..|intros _; simpl; lia]].
    run_step H. subst. run_step H; try (by run_step H; subst).
    run_step H. subst. run_step H; try (by run_step H; subst).
    destruct (IH _ _ H) as (H1 & H2 & H3). split_and!; [done..|].
    intros Hr. specialize (H3 Hr). cbn [omap list_omap counted].
    by rewrite last_cons_default.
Qed.

(** The bootstrapper opens its stream handlers only for a positive network
    size, and only after its host counted the other peers of the network (or
    needs none); with size 0 it returns without ever opening them. *)
Theorem Serve_opens_when_complete rounds networkSize tr r :
  runs (Serve rounds networkSize) tr r ->
  (networkSize <= 0 -> omap opened tr = []) /\
  (omap opened tr <> [] -> networkSize - 1 <= List.last (omap counted tr) 0) /\
  (r = Ok tt -> 0 < networkSize -> omap opened tr = [tt]).
Proof.
  unfold Serve. intros H. run_step H. subst.
  run_step H; try (by run_step H; subst). destruct (Z.ltb_spec 0 networkSize).
  2:{ run_step H. subst. split_and!; [done..|lia]. }
  apply runs_gbind in H as [(tr1 & tr2 & u & -> & H1 & H)|(r' & H1 & Hr' & Hr)].
  - apply runs_await_peers in H1 as (Ho & _ & Hlast). destruct u. specialize (Hlast eq_refl).
    assert (omap opened tr2 = [tt] /\ omap counted tr2 = []) as [Ho2 Hc2]
      by (run_step H; subst; run_step H; subst; run_step H; subst; done).
    cbn [omap list_omap opened counted]. rewrite !omap_app, Ho, Ho2, Hc2, app_nil_r.
    split_and!; [lia|done|done].
  - apply runs_await_peers in H1 as (Ho & _ & _). cbn [omap list_omap opened]. rewrite Ho.
    split_and!; [done..|]. by intros ->.
Qed.

Lemma runs_serve_stream tr r b :
  runs serve_stream tr r -> b ∈ omap written tr ->
  exists peers, omap served tr = [peers] /\ json_Marshal peers = Ok b.
Proof.
  unfold serve_stream. intros H Hb. run_step H. subst.
  run_step H; try (run_step H; subst; by apply elem_of_nil in Hb).
  destruct a; cbn [negb] in H.
  2:{ run_step H. subst. exfalso. run_step H; run_step H; subst; by apply elem_of_nil in Hb. }
  run_step H. subst. run_step H; try (run_step H; subst; by apply elem_of_nil in Hb).
  destruct (json_Marshal a) as [b'|e|w|w] eqn:Em; try (run_step H; subst; by apply elem_of_nil in Hb).
  exists a. run_step H. subst.
  match type of H with runs (after_attempt _ _) ?t _ =>
    assert (omap written t = [] /\ omap served t = []) as [Hw Hs] end.
  { run_step H; try (by run_step H; subst).
    run_step H. subst. run_step H; try (by run_step H; subst).
    run_step H. subst. by run_step H; run_step H; subst. }
  cbn [omap list_omap written served] in Hb |- *. rewrite Hw in Hb. rewrite Hs.
  apply list_elem_of_singleton in Hb as ->. done.
Qed.

Lemma runs_connects (peers : list A) trs rs :
  Forall3 runs (map (fun p => attempt (call (Connect p)) ;; mret tt : G E unit) peers) trs rs ->
  omap connected_to (concat trs) = peers.
Proof.
  revert trs rs. induction peers as [|p peers IH]; intros trs rs H; cbn [map] in H.
  { by inversion H. }
  apply Forall3_cons_inv_l in H as (t & trs' & x & rs' & -> & -> & H1 & H2).
  cbn [concat]. rewrite omap_app, (IH _ _ H2).
  run_step H1. subst. by run_step H1; run_step H1; subst.
Qed.

(** A node that reads what the bootstrapper's handler wrote asks its host to
    connect to the bootstrapper and to every peer the bootstrapper knew, once
    each, in whatever order the goroutines run. *)
Theorem served_peers_are_connected schedule bootstrapper tr r tr' r' b :
  (forall l data, json_Marshal l = Ok data -> json_Unmarshal data = Ok l) ->
  runs serve_stream tr' r' -> b ∈ omap written tr' ->
  runs (Start schedule bootstrapper) tr r -> head (omap read tr) = Some (Ok b) ->
  exists peers, omap served tr' = [peers] /\ omap connected_to tr ≡ₚ bootstrapper :: peers.
Proof.
  intros Hjson Hserve Hb H Hread.
  destruct (runs_serve_stream _ _ _ Hserve Hb) as (peers & Hs & Hm%Hjson).
  exists peers. split; [done|]. unfold Start in H.
  run_step H. subst. run_step H; try (by run_step H; subst).
  run_step H. subst.
  match type of H with runs (after_attempt ?x (fun _ => ?k)) ?t _ =>
    assert (runs k t r \/ t = []) as [H'| ->] by (destruct x; cbn [after_attempt] in H; [by left|by left|run_step H; by right..]) end;
    [|done]. clear H. rename H' into H.
  run_step H. subst. run_step H; try (by run_step H; subst).
  run_step H. subst. injection Hread as ->. cbn [after_res] in H.
  run_step H. rewrite Hm in H. cbn [after_res] in H. unfold connect_all in H.
  apply runs_pbind in H as (tr1 & tr2 & rs & -> & H & H2).
  assert (tr2 = []) as -> by (destruct rs; by destruct H2). rewrite app_nil_r.
  apply runs_par in H as (trs & H & Hi%interleaving_perm).
  cbn [omap list_omap connected_to].
  constructor. rewrite (omap_Permutation connected_to _ _ Hi).
  apply Forall3_cons_inv_l in H as (t & trs' & x3 & rs' & -> & -> & ->%runs_call & H).
  cbn [concat]. by rewrite omap_app, (runs_connects _ _ _ H).
Qed.
End protocol.

(** ** Executions

    Three nodes with the keys of bytes 1, 2 and 3, named by these bytes. *)
Module Executions.

Definition key (b : byte) : bytes := repeat b 32.
Definition store (b : byte) : option byte := Some b.
Definition raw (b : byte) : res bytes := Ok (key b).
Definition self (b : byte) : ed25519.PublicKey := ed25519.MkPublicKey (Some (key b)).

Lemma knows_key b : knows store raw b (key b).
Proof. split; [apply repeat_length|]. by exists b. Qed.

Lemma GetMembers_agree_witness :
  is_Ok (GetMembers store raw (self x01) [x03; x02]) = true /\
  GetMembers store raw (self x01) [x03; x02] = GetMembers store raw (self x02) [x01; x03].
Proof.
  apply (GetMembers_agree store raw (key x01) (self x01) [x03; x02] [key x03; key x02]
           (key x02) (self x02) [x01; x03] [key x01; key x03]).
  - reflexivity.
  - repeat constructor; by eexists.
  - reflexivity.
  - repeat constructor; by eexists.
  - vm_compute. apply (Permutation_trans (l' := [repeat x01 32; repeat x02 32; repeat x03 32]));
      [apply perm_skip, perm_swap|apply perm_swap].
  - vm_compute. repeat constructor; set_solver.
Defined.

Lemma GetMembers_stake_witness :
  exists incl, GetMembers store raw (self x01) [x03; x02] = Ok incl /\
    Includers_Validate (Some incl) = Ok tt /\ (TotalStake incl).2 = Ok 3000 /\
    forall k, k ∈ [key x01; key x03; key x02] -> stake_of (includers incl) k = 1000.
Proof.
  apply (GetMembers_stake store raw (key x01) (self x01) [x03; x02] [key x03; key x02]).
  - reflexivity.
  - repeat constructor; by eexists.
  - vm_compute. discriminate.
Defined.

(** The host counts one peer more at each tick; streams deliver [incoming]. *)
Definition answering (known : list byte) (incoming : bytes) : handler (bootE byte) Z :=
  fun X e count =>
    match e in bootE _ X return Z * X with
    | Connect _ => (count, Ok tt)
    | Settle => (count, Ok tt)
    | NewStream _ => (count, Ok tt)
    | ReadAll => (count, Ok incoming)
    | CloseStream => (count, Ok tt)
    | SetStreamHandler => (count, Ok tt)
    | Tick => (count + 1, Ok tt)
    | CountPeers => (count, Ok count)
    | CloseDn => (count, Ok tt)
    | WaitHandlers => (count, Ok tt)
    | AwaitDn => (count, Ok true)
    | ResetStream => (count, Ok tt)
    | KnownPeers => (count, Ok known)
    | Write _ => (count, Ok tt)
    | CloseWrite => (count, Ok tt)
    | ReadAck => (count, Err (Sent SEOF))
    end.

Definition serving := record (answering [] []) (Serve 5 3) 0.

Lemma Serve_opens_when_complete_witness :
  (3 <= 0 -> omap opened serving.1 = []) /\
  (omap opened serving.1 <> [] -> 2 <= List.last (omap counted serving.1) 0) /\
  (serving.2 = Ok tt -> 0 < 3 -> omap opened serving.1 = [tt]).
Proof.
  apply (Serve_opens_when_complete 5 3 serving.1 serving.2).
  exact (record_runs (answering [] []) _ 0).
Defined.

Definition handling := record (answering [x02; x03] []) (serve_stream (A:=byte) Ok) 0.
Definition starting := record (answering [] [x02; x03]) (Start (A:=byte) Ok [1; 0; 2]%nat x01) 0.

Lemma served_peers_are_connected_witness :
  exists peers, omap served handling.1 = [peers] /\ omap connected_to starting.1 ≡ₚ x01 :: peers.
Proof.
  apply (served_peers_are_connected Ok Ok [1; 0; 2]%nat x01 starting.1 starting.2 handling.1
           handling.2 [x02; x03]).
  - intros l data [= <-]. reflexivity.
  - exact (record_runs (answering [x02; x03] []) _ 0).
  - vm_compute. apply list_elem_of_here.
  - exact (record_runs (answering [] [x02; x03]) _ 0).
  - reflexivity.
Defined.
End Executions.
