(* ===== verification/Manager.v ===== *)
(** The manager of broadcasting rounds
    ([rebro/gossip/internal/round/manager.go]).

    As in [MemPool.v] a critical section under [roundsMu] is one step.  The
    lock itself is part of the state, because [Stop] keeps it across calls that
    take it again.  A round is known to the manager as a pointer and by its
    number; the results of [Round.Stop] and [Round.Finalize] ([RoundConc.v]) are
    in the labels. *)

From Stdlib Require Import Sorted.
From S2P Require Import Prelude Subs.

Definition ErrElapsedRound : error := Sent SElapsedRound.

(** A [*Round]: its identity and its [RoundNumber()]. *)
Record roundPtr := MkPtr { rp_id : nat; rp_num : Z }.

#[export] Instance roundPtr_eq_dec : EqDecision roundPtr.
Proof. solve_decision. Defined.

Record Manager := MkManager {
  rounds : gmap Z roundPtr;
  roundSubs : subs Z roundPtr;
  latestRound : Z;
}.

(** A goroutine in a method of the manager. *)
Inductive goroutine :=
| Started (n : Z) (r : res roundPtr)
| GetWait (n : Z) (p c : nat)                  (* the select of GetRound *)
| GetCancel (n : Z) (p c : nat) (e : error)    (* its ctx.Done() branch was taken *)
| Got (n : Z) (r : res roundPtr)
| StopRoundWait (n : Z) (r : roundPtr)         (* StopRound: in r.Stop(ctx) *)
| StopRoundLock (n : Z)                        (* StopRound: the second Lock *)
| StopRoundDone (n : Z) (err : option error)
| StopFinalize (r : roundPtr) (rest : list roundPtr)   (* Stop: in r.Finalize(ctx) *)
| StopStopRound (r : roundPtr) (rest : list roundPtr)  (* Stop: the Lock of StopRound *)
| Stopped (err : option error).

Section manager.
Context {MO : MapOrder}.

Definition NewManager : Manager := MkManager ∅ no_subs 0.

Definition set_rounds (m : gmap Z roundPtr) (x : Manager) : Manager :=
  MkManager m (roundSubs x) (latestRound x).
Definition set_roundSubs (s : subs Z roundPtr) (x : Manager) : Manager :=
  MkManager (rounds x) s (latestRound x).
Definition set_latestRound (n : Z) (x : Manager) : Manager :=
  MkManager (rounds x) (roundSubs x) n.

Definition on_subs {A} (m : St (subs Z roundPtr) A) : St Manager A :=
  zoom roundSubs set_roundSubs m.

(** [id] is the identity of the round that [NewRound] allocates. *)
Definition StartRound (id : nat) (roundNum : Z) : St Manager roundPtr :=
  m ← get;
  if bool_decide (roundNum <= latestRound m) then throw ErrElapsedRound
  else
    modify (set_latestRound roundNum) ;;
    let r := MkPtr id roundNum in
    on_subs (notify roundNum r) ;;
    modify (fun m => set_rounds (<[roundNum := r]> (rounds m)) m) ;;
    mret r.

(** [StopRound] up to [r.Stop(ctx)]. *)
Definition StopRound_find (roundNum : Z) : St Manager roundPtr :=
  m ← get;
  match rounds m !! roundNum with
  | Some r => mret r
  | None => throw ErrElapsedRound
  end.

(** [StopRound] after [r.Stop(ctx)] returned nil. *)
Definition StopRound_remove (roundNum : Z) : St Manager unit :=
  modify (fun m => set_rounds (delete roundNum (rounds m)) m) ;;
  on_subs (close_all roundNum).

(** [GetRound] up to its [select]. *)
Definition GetRound (roundNum : Z) : St Manager (roundPtr + nat * nat) :=
  m ← get;
  if bool_decide (roundNum < latestRound m) then throw ErrElapsedRound
  else
    match rounds m !! roundNum with
    | Some r => mret (inl r)
    | None =>
        pc ← on_subs (subscribe roundNum);
        mret (inr pc)
    end.

Definition GetRound_cancel (roundNum : Z) (p c : nat) : St Manager unit :=
  on_subs (unsubscribe roundNum p c).

(** ** Goroutines *)

(** [g_lock] is the goroutine that holds [roundsMu] across steps.  [g_started]
    is history: the numbers of the rounds started, the last one first. *)
Record sys := MkSys {
  g_mgr : Manager;
  g_gos : gmap nat goroutine;
  g_lock : option nat;
  g_next : nat;
  g_dead : option string;
  g_started : list Z;
}.

Inductive label :=
| LStart (t : nat) (n : Z)
| LGet (t : nat) (n : Z)
| LRecv (t : nat)
| LCtx (t : nat) (e : error)
| LCancel (t : nat)
| LStopRound (t : nat) (n : Z)
| LRoundStopped (t : nat) (err : option error)     (* r.Stop(ctx) returns *)
| LRemove (t : nat)
| LStop (t : nat)
| LRoundFinal (t : nat) (err : option error).      (* r.Finalize(ctx) returns *)

Definition start : sys := MkSys NewManager ∅ None 0 None [].

Definition with_go (t : nat) (g : goroutine) (s : sys) : sys :=
  MkSys (g_mgr s) (<[t := g]> (g_gos s)) (g_lock s) (g_next s) (g_dead s) (g_started s).

(** Runs a critical section, from Lock to Unlock; [k] takes its result. *)
Definition section {A} (m : St Manager A) (k : res A -> sys -> sys) (s : sys) : option sys :=
  match g_lock s with
  | Some _ => None
  | None =>
      match m (g_mgr s) with
      | (x, Panic w) | (x, Hang w) =>
          Some (MkSys x (g_gos s) (g_lock s) (g_next s) (Some w) (g_started s))
      | (x, r) => Some (k r (MkSys x (g_gos s) (g_lock s) (g_next s) (g_dead s) (g_started s)))
      end
  end.

Definition error_of {A} (r : res A) : option error :=
  match r with Err e => Some e | _ => None end.

(** [Stop] with the lock held: the next round of its loop, or the end. *)
Definition stop_next (t : nat) (l : list roundPtr) (s : sys) : sys :=
  match l with
  | r :: rest => with_go t (StopFinalize r rest) s
  | [] =>
      with_go t (Stopped None)
        (MkSys (g_mgr s) (g_gos s) None (g_next s) (g_dead s) (g_started s))
  end.

Definition exec_go (t : nat) (l : label) (g : goroutine) (s : sys) : option sys :=
  match l, g with
  | LRecv _, GetWait n p c =>
      '(subs', v) ← recv c (roundSubs (g_mgr s));
      Some (with_go t (Got n match v with Some r => Ok r | None => Err ErrElapsedRound end)
        (MkSys (set_roundSubs subs' (g_mgr s)) (g_gos s) (g_lock s) (g_next s) (g_dead s)
           (g_started s)))
  | LCtx _ e, GetWait n p c => Some (with_go t (GetCancel n p c e) s)
  | LCancel _, GetCancel n p c e =>
      section (GetRound_cancel n p c) (fun _ => with_go t (Got n (Err e))) s
  | LRoundStopped _ (Some e), StopRoundWait n r => Some (with_go t (StopRoundDone n (Some e)) s)
  | LRoundStopped _ None, StopRoundWait n r => Some (with_go t (StopRoundLock n) s)
  | LRemove _, StopRoundLock n =>
      section (StopRound_remove n) (fun _ => with_go t (StopRoundDone n None)) s
  | LRoundFinal _ (Some e), StopFinalize r rest =>
      Some (with_go t (Stopped (Some e))
        (MkSys (g_mgr s) (g_gos s) None (g_next s) (g_dead s) (g_started s)))
  | LRoundFinal _ None, StopFinalize r rest => Some (with_go t (StopStopRound r rest) s)
  | LRemove _, StopStopRound r rest =>
      (* rm.roundsMu.Lock() in StopRound, while Stop holds the lock *)
      match g_lock s with Some _ => None | None => Some (stop_next t rest s) end
  | _, _ => None
  end.

(** A new goroutine enters a method. *)
Definition enter (t : nat) (l : label) (s : sys) : option sys :=
  match l with
  | LStart _ n =>
      section (StartRound (g_next s) n) (fun r s =>
        with_go t (Started n r)
          (if is_Ok r
           then MkSys (g_mgr s) (g_gos s) (g_lock s) (S (g_next s)) (g_dead s) (n :: g_started s)
           else s)) s
  | LGet _ n =>
      section (GetRound n) (fun r =>
        with_go t match r with
                  | Ok (inl r) => Got n (Ok r)
                  | Ok (inr (p, c)) => GetWait n p c
                  | Err e => Got n (Err e)
                  | Panic w => Got n (Panic w)
                  | Hang w => Got n (Hang w)
                  end) s
  | LStopRound _ n =>
      section (StopRound_find n) (fun r =>
        with_go t match r with
                  | Ok r => StopRoundWait n r
                  | r => StopRoundDone n (error_of r)
                  end) s
  | LStop _ =>
      match g_lock s with
      | Some _ => None
      | None =>
          Some (stop_next t (range (rounds (g_mgr s))).*2
            (MkSys (g_mgr s) (g_gos s) (Some t) (g_next s) (g_dead s) (g_started s)))
      end
  | _ => None
  end.

Definition goroutine_of (l : label) : nat :=
  match l with
  | LStart t _ | LGet t _ | LRecv t | LCtx t _ | LCancel t | LStopRound t _
  | LRoundStopped t _ | LRemove t | LStop t | LRoundFinal t _ => t
  end.

Definition exec_label (l : label) (s : sys) : option sys :=
  match g_dead s with
  | Some _ => None
  | None =>
      match g_gos s !! goroutine_of l with
      | None => enter (goroutine_of l) l s
      | Some g => exec_go (goroutine_of l) l g s
      end
  end.

Fixpoint run_labels (ls : list label) (s : sys) : option sys :=
  match ls with
  | [] => Some s
  | l :: ls' => s' ← exec_label l s; run_labels ls' s'
  end.

Definition step (s s' : sys) : Prop := exists l, exec_label l s = Some s'.
Definition reach (s : sys) : Prop := rtc step start s.

(** ** The invariant *)

Definition waits (g : goroutine) : option (Z * nat * nat) :=
  match g with
  | GetWait n p c | GetCancel n p c _ => Some (n, p, c)
  | _ => None
  end.

(** The goroutine is in [Stop], with the lock held. *)
Definition holds (g : goroutine) : bool :=
  match g with StopFinalize _ _ | StopStopRound _ _ => true | _ => false end.

Record mgr_ok (m : Manager) : Prop := {
  gm_subs : subs_ok (roundSubs m);
  gm_disj : forall n r, rounds m !! n = Some r -> tbl (roundSubs m) !! n = None;
  gm_num : forall n r, rounds m !! n = Some r -> rp_num r = n /\ n <= latestRound m;
}.

Record sys_ok (s : sys) : Prop := {
  go_mgr : mgr_ok (g_mgr s);
  go_wait : forall t g n p c, g_gos s !! t = Some g -> waits g = Some (n, p, c) ->
    wait_ok rp_num (roundSubs (g_mgr s)) n p c;
  go_chan : forall t1 t2 g1 g2 n1 n2 p1 p2 c, g_gos s !! t1 = Some g1 ->
    g_gos s !! t2 = Some g2 -> waits g1 = Some (n1, p1, c) -> waits g2 = Some (n2, p2, c) ->
    t1 = t2;
  go_got : forall t n r, g_gos s !! t = Some (Got n (Ok r)) -> rp_num r = n;
  go_started : StronglySorted (fun x y => y < x) (g_started s) /\
    forall n, n ∈ g_started s -> n <= latestRound (g_mgr s);
  go_holds : forall t g, g_gos s !! t = Some g -> holds g = true -> g_lock s = Some t;
  go_live : g_dead s = None;
}.

(** *** The critical sections *)

Lemma StartRound_old id n m : n <= latestRound m -> StartRound id n m = (m, Err ErrElapsedRound).
Proof. intros H. unfold StartRound. st_unfold. by rewrite bool_decide_eq_true_2. Qed.

Definition with_new_round (id : nat) (n : Z) (m : Manager) : Manager :=
  MkManager (<[n := MkPtr id n]> (rounds m))
    (served n (MkChan [MkPtr id n] false) (roundSubs m)) n.

Lemma StartRound_new id n m :
  mgr_ok m -> latestRound m < n ->
  StartRound id n m = (with_new_round id n m, Ok (MkPtr id n)) /\ mgr_ok (with_new_round id n m).
Proof.
  intros Hm H. split.
  - unfold StartRound, on_subs. st_unfold. rewrite bool_decide_eq_false_2 by lia.
    cbn [roundSubs set_latestRound]. rewrite notify_spec by apply Hm. done.
  - split; cbn [rounds roundSubs latestRound with_new_round].
    + apply served_ok, Hm.
    + intros n' r Hr. cbn. apply lookup_insert_Some in Hr as [[<- _]|[Hne Hr]].
      * apply lookup_delete_eq.
      * rewrite lookup_delete_ne by done. by apply (gm_disj m Hm n' r).
    + intros n' r Hr. apply lookup_insert_Some in Hr as [[<- <-]|[_ Hr]]; [split; [done|lia]|].
      destruct (gm_num m Hm n' r Hr). split; [done|lia].
Qed.

Definition without_round (n : Z) (m : Manager) : Manager :=
  MkManager (delete n (rounds m)) (served n (MkChan [] true) (roundSubs m)) (latestRound m).

Lemma StopRound_remove_spec n m :
  mgr_ok m -> StopRound_remove n m = (without_round n m, Ok tt) /\ mgr_ok (without_round n m).
Proof.
  intros Hm. split.
  - unfold StopRound_remove, on_subs. st_unfold. cbn [roundSubs set_rounds].
    rewrite close_all_spec by apply Hm. done.
  - split; cbn [rounds roundSubs latestRound without_round].
    + apply served_ok, Hm.
    + intros n' r [_ Hr]%lookup_delete_Some. cbn. apply lookup_delete_None. right.
      by apply (gm_disj m Hm n' r).
    + intros n' r [_ Hr]%lookup_delete_Some. by apply (gm_num m Hm).
Qed.

Lemma GetRound_miss n m :
  mgr_ok m -> latestRound m <= n -> rounds m !! n = None ->
  exists s', subscribe n (roundSubs m) =
      (s', Ok (inner_of n (roundSubs m), length (chans (roundSubs m)))) /\
    GetRound n m = (set_roundSubs s' m,
      Ok (inr (inner_of n (roundSubs m), length (chans (roundSubs m))))) /\
    mgr_ok (set_roundSubs s' m).
Proof.
  intros Hm Hn E. destruct (subscribe_spec n (roundSubs m) (gm_subs m Hm))
    as (s' & Hs & Hok & _ & Htbl & _).
  exists s'. split; [done|]. split.
  - unfold GetRound, on_subs. st_unfold. rewrite bool_decide_eq_false_2 by lia. by rewrite E, Hs.
  - split; cbn [rounds roundSubs latestRound set_roundSubs]; [done| |apply Hm].
    intros n' r Hr. rewrite Htbl. rewrite lookup_insert_ne by congruence.
    by apply (gm_disj m Hm n' r).
Qed.

Lemma GetRound_cancel_spec n p c m :
  mgr_ok m -> wait_ok rp_num (roundSubs m) n p c ->
  exists s', GetRound_cancel n p c m = (set_roundSubs s' m, Ok tt) /\
    evolves rp_num (roundSubs m) s' /\ mgr_ok (set_roundSubs s' m) /\
    chans s' = chans (roundSubs m).
Proof.
  intros Hm Hw. destruct (unsubscribe_spec n p c (roundSubs m) (gm_subs m Hm))
    as (s' & E & Hs' & Hch & Htbl & _); [apply Hw|apply Hw|].
  destruct (evolves_unsubscribe rp_num n p c _ s' (gm_subs m Hm) Hw E) as [Hev _].
  exists s'. split_and!; [|done| |done].
  - unfold GetRound_cancel, on_subs. st_unfold. by rewrite E.
  - split; cbn [rounds roundSubs latestRound set_roundSubs]; [done| |apply Hm].
    intros n' r Hr. eapply lookup_weaken_None; [|exact Htbl]. by eapply (gm_disj m Hm).
Qed.

(** *** Every step preserves the invariant *)

Lemma manager_move_ok s m' t g' lk nx st :
  sys_ok s -> mgr_ok m' -> evolves rp_num (roundSubs (g_mgr s)) (roundSubs m') ->
  (forall n p c, waits g' = Some (n, p, c) -> wait_ok rp_num (roundSubs m') n p c /\
     forall t0 g0 n0 p0, t0 <> t -> g_gos s !! t0 = Some g0 -> waits g0 <> Some (n0, p0, c)) ->
  (forall n r, g' = Got n (Ok r) -> rp_num r = n) ->
  (st = g_started s /\ latestRound m' = latestRound (g_mgr s) \/
   st = latestRound m' :: g_started s /\ latestRound (g_mgr s) < latestRound m') ->
  (holds g' = true -> lk = Some t) ->
  (lk = g_lock s \/ forall t0 g0, t0 <> t -> g_gos s !! t0 = Some g0 -> holds g0 = false) ->
  sys_ok (MkSys m' (<[t := g']> (g_gos s)) lk nx None st).
Proof.
  intros Hs Hm Hev Hw Hg Hst Hhd Hlk.
  split; cbn [g_mgr g_gos g_started g_dead]; try done.
  - intros t0 g n p c H Hh. apply lookup_insert_Some in H as [[<- <-]|[_ H]]; [by apply Hw|].
    eapply wait_ok_evolves; [|done]. by eapply (go_wait s Hs).
  - intros t1 t2 g1 g2 n1 n2 p1 p2 c H1 H2 E1 E2.
    apply lookup_insert_Some in H1 as [[<- <-]|[N1 H1]];
      apply lookup_insert_Some in H2 as [[<- <-]|[N2 H2]]; [done| | |by eapply (go_chan s Hs)].
    + destruct (Hw _ _ _ E1) as [_ Hn]. by apply (Hn t2 g2 n2 p2) in E2.
    + destruct (Hw _ _ _ E2) as [_ Hn]. by apply (Hn t1 g1 n1 p1) in E1.
  - intros t0 n r H. apply lookup_insert_Some in H as [[_ H]|[_ H]]; [by apply Hg|].
    by eapply (go_got s Hs).
  - destruct (go_started s Hs) as [Hsort Hle]. destruct Hst as [[-> ->]|[-> Hlt]]; [done|]. split.
    + constructor; [done|]. apply Forall_forall. intros n Hn. apply Hle in Hn. lia.
    + intros n [->|Hn]%elem_of_cons; [done|]. apply Hle in Hn. lia.
  - intros t0 g H Hg0. apply lookup_insert_Some in H as [[<- <-]|[Hne H]]; [by apply Hhd|].
    destruct Hlk as [->|Hn]; [by eapply (go_holds s Hs)|].
    specialize (Hn t0 g ltac:(done) H). congruence.
Qed.

Lemma section_inv {A} (m : St Manager A) k s s' x r :
  m (g_mgr s) = (x, r) -> returns r -> section m k s = Some s' -> g_lock s = None ->
  s' = k r (MkSys x (g_gos s) None (g_next s) (g_dead s) (g_started s)).
Proof.
  intros E Hr H Hl. unfold section in H. rewrite Hl, E in H. destruct r; simpl in Hr; try done;
    by injection H as <-.
Qed.

Lemma section_lock {A} (m : St Manager A) k s s' : section m k s = Some s' -> g_lock s = None.
Proof. unfold section. by destruct (g_lock s). Qed.

Lemma no_holder s t g :
  sys_ok s -> g_lock s = None -> g_gos s !! t = Some g -> holds g = false.
Proof.
  intros Hs Hl Hg. destruct (holds g) eqn:E; [|done].
  pose proof (go_holds s Hs t g Hg E). congruence.
Qed.

#[local] Instance evolves_refl : Reflexive (evolves (V:=roundPtr) rp_num).
Proof. intros s. split; try done. intros c ch v _ ? ?. left. eauto. Qed.

Lemma enter_ok t l s s' :
  sys_ok s -> g_gos s !! t = None -> enter t l s = Some s' -> sys_ok s'.
Proof.
  intros Hs Ht H. pose proof (go_mgr s Hs) as Hm. pose proof (go_live s Hs) as Hlive.
  unfold enter in H. destruct l as [t' n|t' n| | | |t' n| | |t'|]; try done.
  - pose proof (section_lock _ _ _ _ H) as Hl.
    destruct (decide (n <= latestRound (g_mgr s))) as [Hn|Hn].
    + rewrite (section_inv _ _ _ _ _ _ (StartRound_old (g_next s) n (g_mgr s) Hn) I H Hl).
      unfold with_go. simpl. rewrite Hlive. apply manager_move_ok; try done; by left.
    + destruct (StartRound_new (g_next s) n (g_mgr s) Hm ltac:(lia)) as [E Hok].
      rewrite (section_inv _ _ _ _ _ _ E I H Hl). unfold with_go. simpl. rewrite Hlive.
      apply manager_move_ok; try done; [|right; split; [done|simpl; lia]|by left].
      apply evolves_served; [apply Hm|]. by intros v ->%list_elem_of_singleton.
  - pose proof (section_lock _ _ _ _ H) as Hl.
    destruct (decide (n < latestRound (g_mgr s))) as [Hn|Hn].
    { assert (GetRound n (g_mgr s) = (g_mgr s, Err ErrElapsedRound)) as E
        by (unfold GetRound; st_unfold; by rewrite bool_decide_eq_true_2).
      rewrite (section_inv _ _ _ _ _ _ E I H Hl). unfold with_go. simpl. rewrite Hlive.
      apply manager_move_ok; try done; by left. }
    destruct (rounds (g_mgr s) !! n) as [r|] eqn:Er.
    + assert (GetRound n (g_mgr s) = (g_mgr s, Ok (inl r))) as E
        by (unfold GetRound; st_unfold; rewrite bool_decide_eq_false_2 by done; by rewrite Er).
      rewrite (section_inv _ _ _ _ _ _ E I H Hl). unfold with_go. simpl. rewrite Hlive.
      apply manager_move_ok; try done; [|by left..].
      intros n0 r0 [= <- <-]. by apply (gm_num _ Hm).
    + destruct (GetRound_miss n (g_mgr s) Hm ltac:(lia) Er) as (s1 & Es & E & Hok).
      rewrite (section_inv _ _ _ _ _ _ E I H Hl). unfold with_go. simpl. rewrite Hlive.
      destruct (evolves_subscribe rp_num n (roundSubs (g_mgr s)) s1 (gm_subs _ Hm) Es)
        as (Hev & _ & Hw & _ & _ & _).
      apply manager_move_ok; try done; [|by left..].
      intros n0 p c [= <- <- <-]. split; [done|]. intros t0 g0 n0 p0 _ H0 Hh.
      pose proof (wo_chan _ _ _ _ _ (go_wait s Hs t0 g0 n0 p0 _ H0 Hh)). lia.
  - pose proof (section_lock _ _ _ _ H) as Hl.
    assert (exists r, StopRound_find n (g_mgr s) = (g_mgr s, r) /\ returns r) as (r & E & Hr)
      by (unfold StopRound_find; st_unfold; destruct (rounds (g_mgr s) !! n); by eexists).
    rewrite (section_inv _ _ _ _ _ _ E Hr H Hl). unfold with_go. simpl. rewrite Hlive.
    destruct r; apply manager_move_ok; try done; by left.
  - destruct (g_lock s) eqn:Hl; [done|]. injection H as <-. unfold stop_next, with_go.
    assert (forall t0 g0, t0 <> t -> g_gos s !! t0 = Some g0 -> holds g0 = false) as Hno
      by (intros t0 g0 _; by apply no_holder).
    destruct ((range (rounds (g_mgr s))).*2); simpl; rewrite Hlive; apply manager_move_ok; try done;
      first [by left|by right].
Qed.

Lemma go_ok t l g s s' :
  sys_ok s -> g_gos s !! t = Some g -> exec_go t l g s = Some s' -> sys_ok s'.
Proof.
  intros Hs Ht H. pose proof (go_mgr s Hs) as Hm. pose proof (go_live s Hs) as Hlive.
  pose proof (go_holds s Hs t g Ht) as Hhold.
  unfold exec_go in H.
  destruct l as [| |t'|t' e|t'| |t' [e|]|t'| |t' [e|]]; try done; destruct g; try done.
  - apply bind_Some in H as ([s1 v] & Hr & [= <-]).
    destruct (evolves_recv rp_num c _ s1 v Hr) as (Hev & Et & _ & _ & Hv & Hok).
    unfold with_go. simpl. rewrite Hlive. apply manager_move_ok; try done; [| |by left..].
    + split; cbn [rounds roundSubs latestRound set_roundSubs]; [apply Hok, Hm| |apply Hm].
      rewrite Et. apply Hm.
    + intros n0 r E. destruct v as [x|]; simplify_eq. destruct (Hv r eq_refl) as (ch & Hc & Hb).
      by apply (wo_buf _ _ _ _ _ (go_wait s Hs t _ _ _ _ Ht eq_refl) ch).
  - injection H as <-. unfold with_go. rewrite Hlive. apply manager_move_ok; try done; [|by left..].
    intros n0 p0 c0 [= <- <- <-]. split; [by eapply (go_wait s Hs t)|].
    intros t0 g0 n0 p0 Hne H0 E. apply Hne. by eapply (go_chan s Hs t0 t).
  - pose proof (section_lock _ _ _ _ H) as Hl.
    destruct (GetRound_cancel_spec n p c (g_mgr s) Hm (go_wait s Hs t _ _ _ _ Ht eq_refl))
      as (s1 & E & Hev & Hm1 & _).
    rewrite (section_inv _ _ _ _ _ _ E I H Hl). unfold with_go. simpl. rewrite Hlive.
    apply manager_move_ok; try done; by left.
  - injection H as <-. unfold with_go. rewrite Hlive. apply manager_move_ok; try done; by left.
  - injection H as <-. unfold with_go. rewrite Hlive. apply manager_move_ok; try done; by left.
  - pose proof (section_lock _ _ _ _ H) as Hl.
    destruct (StopRound_remove_spec n (g_mgr s) Hm) as [E Hm1].
    rewrite (section_inv _ _ _ _ _ _ E I H Hl). unfold with_go. simpl. rewrite Hlive.
    apply manager_move_ok; try done; [|by left..].
    apply evolves_served; [apply Hm|]. by intros v ?%elem_of_nil.
  - rewrite (Hhold eq_refl) in H. done.
  - injection H as <-. unfold with_go. simpl. rewrite Hlive. apply manager_move_ok; try done; [by left|].
    right. intros t0 g0 Hne H0. destruct (holds g0) eqn:E; [|done].
    pose proof (go_holds s Hs t0 g0 H0 E) as E1. rewrite (Hhold eq_refl) in E1. congruence.
  - injection H as <-. unfold with_go. rewrite Hlive. apply manager_move_ok; try done; try (by left).
Qed.

Lemma manager_step_ok s s' : sys_ok s -> step s s' -> sys_ok s'.
Proof.
  intros Hs [l H]. unfold exec_label in H. rewrite (go_live s Hs) in H.
  destruct (g_gos s !! goroutine_of l) as [g|] eqn:E; [by eapply go_ok|by eapply enter_ok].
Qed.

Lemma manager_start_ok : sys_ok start.
Proof.
  split; cbn; try done.
  split; [constructor|]. by intros n ?%elem_of_nil.
Qed.

Lemma steps_ok s s' : rtc step s s' -> sys_ok s -> sys_ok s'.
Proof. induction 1; [done|]. intros Hs. eauto using manager_step_ok. Qed.

Lemma manager_reach_sys_ok s : reach s -> sys_ok s.
Proof. intros H. eapply steps_ok; [exact H|apply manager_start_ok]. Qed.

(** *** A goroutine that nobody will notify *)

(** [t] waits for round [n], which has elapsed and is not being stopped. *)
Record stranded (t : nat) (n : Z) (p c : nat) (s : sys) : Prop := {
  st_wait : g_gos s !! t = Some (GetWait n p c);
  st_old : n <= latestRound (g_mgr s);
  st_gone : rounds (g_mgr s) !! n = None;
  st_chan : chans (roundSubs (g_mgr s)) !! c = Some fresh_chan;
  st_nostop : forall t' g, g_gos s !! t' = Some g ->
    (forall r, g <> StopRoundWait n r) /\ g <> StopRoundLock n;
}.

Lemma stranded_move t n p c s m' t' g' lk nx dead st :
  stranded t n p c s -> t' <> t ->
  n <= latestRound m' -> rounds m' !! n = None -> chans (roundSubs m') !! c = Some fresh_chan ->
  (forall r, g' <> StopRoundWait n r) -> g' <> StopRoundLock n ->
  stranded t n p c (MkSys m' (<[t' := g']> (g_gos s)) lk nx dead st).
Proof.
  intros Hs Hne H1 H2 H3 H4 H5. split; cbn [g_mgr g_gos]; try done.
  - rewrite lookup_insert_ne by done. apply Hs.
  - intros t0 g H. apply lookup_insert_Some in H as [[_ <-]|[_ H]]; [done|].
    by apply (st_nostop _ _ _ _ _ Hs t0).
Qed.

(** Serving another round leaves the channel alone. *)
Lemma stranded_served t n p c s n' ch :
  sys_ok s -> stranded t n p c s -> n' <> n ->
  chans (served n' ch (roundSubs (g_mgr s))) !! c = Some fresh_chan.
Proof.
  intros Hok Hs Hne. rewrite served_chan_other; [apply Hs|].
  intros Hc. apply Hne.
  by apply (wo_sub _ _ _ _ _ (go_wait s Hok t _ _ _ _ (st_wait _ _ _ _ _ Hs) eq_refl)).
Qed.

Lemma stranded_enter t n p c l s s' :
  sys_ok s -> stranded t n p c s -> enter (goroutine_of l) l s = Some s' ->
  g_gos s !! goroutine_of l = None -> stranded t n p c s'.
Proof.
  intros Hok Hs H Ht. pose proof (go_mgr s Hok) as Hm.
  assert (goroutine_of l <> t) as Hne by (intros E; rewrite E, (st_wait _ _ _ _ _ Hs) in Ht; done).
  destruct l as [t' n'|t' n'| | | |t' n'| | |t'|]; try done; simpl in H.
  - pose proof (section_lock _ _ _ _ H) as Hl.
    destruct (decide (n' <= latestRound (g_mgr s))) as [Hn|Hn].
    + rewrite (section_inv _ _ _ _ _ _ (StartRound_old (g_next s) n' (g_mgr s) Hn) I H Hl).
      unfold with_go; simpl; apply stranded_move; try done; apply Hs.
    + destruct (StartRound_new (g_next s) n' (g_mgr s) Hm ltac:(lia)) as [E _].
      rewrite (section_inv _ _ _ _ _ _ E I H Hl). pose proof (st_old _ _ _ _ _ Hs).
      unfold with_go; simpl; apply stranded_move; try done; cbn; [lia| |].
      * rewrite lookup_insert_ne by lia. apply Hs.
      * eapply (stranded_served t n p c s); [done..|lia].
  - pose proof (section_lock _ _ _ _ H) as Hl.
    destruct (decide (n' < latestRound (g_mgr s))) as [Hn|Hn].
    { assert (GetRound n' (g_mgr s) = (g_mgr s, Err ErrElapsedRound)) as E
        by (unfold GetRound; st_unfold; by rewrite bool_decide_eq_true_2).
      rewrite (section_inv _ _ _ _ _ _ E I H Hl). unfold with_go; simpl; apply stranded_move; try done; apply Hs. }
    destruct (rounds (g_mgr s) !! n') as [r|] eqn:Er.
    + assert (GetRound n' (g_mgr s) = (g_mgr s, Ok (inl r))) as E
        by (unfold GetRound; st_unfold; rewrite bool_decide_eq_false_2 by done; by rewrite Er).
      rewrite (section_inv _ _ _ _ _ _ E I H Hl). unfold with_go; simpl; apply stranded_move; try done; apply Hs.
    + destruct (GetRound_miss n' (g_mgr s) Hm ltac:(lia) Er) as (s1 & Es & E & _).
      rewrite (section_inv _ _ _ _ _ _ E I H Hl).
      destruct (subscribe_spec n' (roundSubs (g_mgr s)) (gm_subs _ Hm)) as (s2 & E2 & _ & Ech & _).
      rewrite Es in E2. injection E2 as <-.
      unfold with_go; simpl; apply stranded_move; try done; try apply Hs. cbn. rewrite Ech.
      apply lookup_app_l_Some. apply Hs.
  - pose proof (section_lock _ _ _ _ H) as Hl. unfold section in H. rewrite Hl in H.
    unfold StopRound_find in H. st_unfold_in H.
    destruct (rounds (g_mgr s) !! n') as [r|] eqn:Er; injection H as <-;
      unfold with_go; simpl; apply stranded_move; try done; try apply Hs.
    intros r0 [= -> _]. rewrite (st_gone _ _ _ _ _ Hs) in Er. done.
  - destruct (g_lock s); [done|]. injection H as <-. unfold stop_next.
    destruct ((range (rounds (g_mgr s))).*2); unfold with_go; simpl; apply stranded_move; try done; apply Hs.
Qed.

Lemma stranded_step t n p c l s s' :
  sys_ok s -> stranded t n p c s -> exec_label l s = Some s' ->
  (exists e, l = LCtx t e) \/ stranded t n p c s'.
Proof.
  intros Hok Hs H. unfold exec_label in H. rewrite (go_live s Hok) in H.
  pose proof (go_mgr s Hok) as Hm.
  destruct (g_gos s !! goroutine_of l) as [g|] eqn:Eg; [|right; by eapply stranded_enter].
  destruct (decide (goroutine_of l = t)) as [Et|Hne].
  { rewrite Et, (st_wait _ _ _ _ _ Hs) in Eg. injection Eg as <-.
    destruct l as [| |t'|t' e|t'| |t' [e|]|t'| |t' [e|]]; try done; simpl in Et; subst t'.
    - simpl in H. unfold recv in H. by rewrite (st_chan _ _ _ _ _ Hs) in H.
    - left. eauto. }
  right. pose proof (st_nostop _ _ _ _ _ Hs _ _ Eg) as [Hn1 Hn2].
  unfold exec_go in H.
  destruct l as [| |t'|t' e|t'| |t' [e|]|t'| |t' [e|]]; try done; destruct g; try done;
    simpl in Hne, Eg.
  - apply bind_Some in H as ([s1 v] & Hr & [= <-]).
    destruct (evolves_recv rp_num c0 _ s1 v Hr) as (_ & _ & _ & Hch & _).
    unfold with_go; simpl; apply stranded_move; try done; try apply Hs. cbn. rewrite Hch; [apply Hs|].
    intros <-. apply Hne. by eapply (go_chan s Hok t' t _ _ _ _ _ _ c Eg (st_wait _ _ _ _ _ Hs)).
  - injection H as <-. unfold with_go; simpl; apply stranded_move; try done; apply Hs.
  - pose proof (section_lock _ _ _ _ H) as Hl.
    destruct (GetRound_cancel_spec n0 p0 c0 (g_mgr s) Hm (go_wait s Hok t' _ _ _ _ Eg eq_refl))
      as (s1 & E & _ & _ & Ech).
    rewrite (section_inv _ _ _ _ _ _ E I H Hl). unfold with_go; simpl; apply stranded_move; try done; try apply Hs.
    cbn. rewrite Ech. apply Hs.
  - injection H as <-. unfold with_go; simpl; apply stranded_move; try done; apply Hs.
  - injection H as <-. unfold with_go; simpl; apply stranded_move; try done; try apply Hs.
    intros [= ->]. by apply (Hn1 r).
  - pose proof (section_lock _ _ _ _ H) as Hl.
    destruct (StopRound_remove_spec n0 (g_mgr s) Hm) as [E _].
    rewrite (section_inv _ _ _ _ _ _ E I H Hl). unfold with_go; simpl; apply stranded_move; try done; try apply Hs; cbn.
    + rewrite lookup_delete_ne; [apply Hs|]. by intros ->.
    + eapply (stranded_served t n p c s); [done..|]. by intros ->.
  - destruct (g_lock s); [done|]. injection H as <-. unfold stop_next.
    destruct rest; unfold with_go; simpl; apply stranded_move; try done; apply Hs.
  - injection H as <-. unfold with_go; simpl; apply stranded_move; try done; apply Hs.
  - injection H as <-. unfold with_go; simpl; apply stranded_move; try done; apply Hs.
Qed.

(** *** The lock held by [Stop] *)

Definition deadlocked (t : nat) (s : sys) : Prop :=
  g_lock s = Some t /\ exists r rest, g_gos s !! t = Some (StopStopRound r rest).

(** A step changes the goroutine that takes it and no other one. *)
Lemma exec_go_entry l s s' : exec_label l s = Some s' ->
  forall t, t <> goroutine_of l -> g_gos s' !! t = g_gos s !! t.
Proof.
  assert (forall A (m : St Manager A) k s0 s1, section m k s0 = Some s1 ->
    (forall r s2 t, t <> goroutine_of l -> g_gos (k r s2) !! t = g_gos s2 !! t) ->
    forall t, t <> goroutine_of l -> g_gos s1 !! t = g_gos s0 !! t) as Hsec.
  { intros A m k s0 s1 H Hk t Hne. unfold section in H. destruct (g_lock s0); [done|].
    destruct (m (g_mgr s0)) as [x []]; injection H as <-; by rewrite ?Hk. }
  unfold exec_label. destruct (g_dead s); [done|]. intros H t Hne.
  destruct (g_gos s !! goroutine_of l) as [g|]; [unfold exec_go in H|unfold enter in H];
    destruct l as [| |t'|t' e|t'| |t' [e|]|t'|t'|t' [e|]]; try done; try destruct g; try done;
    try (apply (Hsec _ _ _ _ _ H); [|exact Hne]; intros r0 s1 t1 Hne1; simpl;
         rewrite lookup_insert_ne by done; by try destruct (is_Ok r0));
    try (apply bind_Some in H as ([s1 v] & _ & H)); try (destruct (g_lock s); [done|]);
    injection H as <-; unfold stop_next; repeat case_match; simpl; by rewrite lookup_insert_ne.
Qed.

(** While a goroutine is in [Stop], the others leave the lock to it. *)
Lemma other_keeps_lock t l s s' :
  sys_ok s -> g_lock s = Some t -> goroutine_of l <> t -> exec_label l s = Some s' ->
  g_lock s' = Some t.
Proof.
  intros Hok Hl Hne H. unfold exec_label in H. rewrite (go_live s Hok) in H.
  assert (forall A (m : St Manager A) k, section m k s = None) as Hsec
    by (intros; unfold section; by rewrite Hl).
  destruct (g_gos s !! goroutine_of l) as [g|] eqn:Eg.
  2:{ destruct l; simpl in H; rewrite ?Hsec, ?Hl in H; done. }
  assert (holds g = false) as Hnh.
  { destruct (holds g) eqn:E; [|done]. pose proof (go_holds s Hok _ g Eg E). congruence. }
  destruct l as [| |t'|t' e|t'| |t' [e|]|t'| |t' [e|]]; simpl in H; try done; destruct g; try done;
    rewrite ?Hsec, ?Hl in H; try done; try (by injection H as <-).
  by apply bind_Some in H as ([s1 v] & _ & [= <-]).
Qed.

(** [Stop] with a round: in its first [Finalize], returned with the error of
    that call, or waiting for its own lock. *)
Definition in_first_Finalize (t : nat) (s : sys) : Prop :=
  g_lock s = Some t /\ exists r rest, g_gos s !! t = Some (StopFinalize r rest).

Lemma Stop_enters t s s1 :
  sys_ok s -> g_gos s !! t = None -> rounds (g_mgr s) <> ∅ ->
  exec_label (LStop t) s = Some s1 -> in_first_Finalize t s1.
Proof.
  intros Hs Ht Hne H. unfold exec_label in H. rewrite (go_live s Hs) in H. simpl in H.
  rewrite Ht in H. destruct (g_lock s); [done|]. injection H as <-.
  destruct ((range (rounds (g_mgr s))).*2) as [|r rest] eqn:E.
  - exfalso. apply Hne. apply map_empty. intros n.
    destruct (rounds (g_mgr s) !! n) as [r|] eqn:En; [|done].
    apply elem_of_range in En. apply fmap_nil_inv in E. rewrite E in En.
    by apply elem_of_nil in En.
  - split; [done|]. exists r, rest. simpl. apply lookup_insert_eq.
Qed.

Lemma first_Finalize_step t l s s' :
  sys_ok s -> in_first_Finalize t s -> exec_label l s = Some s' ->
  in_first_Finalize t s' \/ (exists e, l = LRoundFinal t (Some e) /\
    g_gos s' !! t = Some (Stopped (Some e))) \/ (l = LRoundFinal t None /\ deadlocked t s').
Proof.
  intros Hok (Hl & r & rest & Ht) H. destruct (decide (goroutine_of l = t)) as [Et|Hne].
  - right. unfold exec_label in H. rewrite (go_live s Hok), Et, Ht in H.
    destruct l as [| | | | | |t' [e|]| | |t' [e|]]; simpl in H, Et; try done; subst t';
      injection H as <-.
    + left. exists e. simpl. by rewrite lookup_insert_eq.
    + right. split; [done|]. split; [done|]. exists r, rest. apply lookup_insert_eq.
  - left. split; [by eapply other_keeps_lock|]. exists r, rest.
    by rewrite (exec_go_entry l s s' H t) by done.
Qed.

Lemma deadlocked_step t l s s' :
  sys_ok s -> deadlocked t s -> exec_label l s = Some s' -> deadlocked t s'.
Proof.
  intros Hok (Hl & r & rest & Ht) H. destruct (decide (goroutine_of l = t)) as [Et|Hne].
  - unfold exec_label in H. rewrite (go_live s Hok), Et, Ht in H.
    destruct l as [| | | | | |t' [e|]|t'| |t' [e|]]; simpl in H; try done. by rewrite Hl in H.
  - split; [by eapply other_keeps_lock|]. exists r, rest.
    by rewrite (exec_go_entry l s s' H t) by done.
Qed.

Lemma stopped_step t e l s s' :
  g_gos s !! t = Some (Stopped e) -> exec_label l s = Some s' -> g_gos s' !! t = Some (Stopped e).
Proof.
  intros Ht H. destruct (decide (goroutine_of l = t)) as [Et|Hne].
  - unfold exec_label in H. destruct (g_dead s); [done|]. rewrite Et, Ht in H.
    by destruct l as [| | | | | |t' [e'|]| | |t' [e'|]].
  - by rewrite (exec_go_entry l s s' H t) by done.
Qed.

(** In every further execution [t] waits in [Stop] for the lock it holds, and
    no other method of the manager gets the lock. *)
Definition blocked_for_ever (t : nat) (s : sys) : Prop :=
  forall s', rtc step s s' ->
    (exists r rest, g_gos s' !! t = Some (StopStopRound r rest)) /\ g_lock s' = Some t /\
    exec_label (LRemove t) s' = None /\
    forall t' n, exec_label (LGet t' n) s' = None /\ exec_label (LStart t' n) s' = None.

Lemma deadlocked_for_ever t s : sys_ok s -> deadlocked t s -> blocked_for_ever t s.
Proof.
  intros Hs Hd s' Hsteps. induction Hsteps as [s0|s0 s4 s5 [l H] _ IH].
  - destruct Hd as (Hl & r & rest & Hg). split_and!; [by exists r, rest|done| |].
    + unfold exec_label. rewrite (go_live s0 Hs). simpl. rewrite Hg. simpl. by rewrite Hl.
    + intros t' n. unfold exec_label. rewrite (go_live s0 Hs). simpl.
      destruct (g_gos s0 !! t') as [g|]; simpl; [by destruct g|]. unfold section. by rewrite Hl.
  - apply IH; [by eapply manager_step_ok; [|exists l]|]. by eapply deadlocked_step.
Qed.
End manager.

(** ** Properties *)

Lemma StronglySorted_NoDup_gt (l : list Z) : StronglySorted (fun x y => y < x) l -> NoDup l.
Proof.
  induction 1 as [|x l _ IH Hx]; constructor; [|done].
  intros Hin. apply Forall_forall with (x := x) in Hx; [lia|done].
Qed.

Section properties.
Context {MO : MapOrder}.

(** No method of the manager panics, and no send or close on a subscriber's
    channel blocks or fails while the lock is held. *)
Theorem manager_never_panics s : reach s -> g_dead s = None.
Proof. intros Hr. apply (go_live s (manager_reach_sys_ok s Hr)). Qed.

(** [StartRound] starts a round exactly when its number exceeds every
    number started before, so no number is started twice; every [GetRound]
    that waits for the number can receive the round at once. *)
Theorem StartRound_once s t n s' :
  reach s -> g_gos s !! t = None -> exec_label (LStart t n) s = Some s' ->
  NoDup (g_started s') /\
  (n <= latestRound (g_mgr s) -> g_mgr s' = g_mgr s /\
     g_gos s' !! t = Some (Started n (Err ErrElapsedRound))) /\
  (latestRound (g_mgr s) < n -> exists r, rp_num r = n /\
     g_gos s' !! t = Some (Started n (Ok r)) /\ rounds (g_mgr s') !! n = Some r /\
     latestRound (g_mgr s') = n /\
     forall t' p c, g_gos s !! t' = Some (GetWait n p c) ->
       subscribers n (roundSubs (g_mgr s)) !! c = Some tt ->
       exists s2, exec_label (LRecv t') s' = Some s2 /\ g_gos s2 !! t' = Some (Got n (Ok r))).
Proof.
  intros Hr Ht H. pose proof (manager_reach_sys_ok s Hr) as Hs. pose proof (go_mgr s Hs) as Hm.
  assert (sys_ok s') as Hs' by (by eapply manager_step_ok; [|exists (LStart t n)]).
  split.
  { destruct (go_started s' Hs') as [Hsort _]. apply StronglySorted_NoDup_gt, Hsort. }
  unfold exec_label in H. rewrite (go_live s Hs) in H. simpl in H. rewrite Ht in H.
  pose proof (section_lock _ _ _ _ H) as Hl. split; intros Hn.
  - rewrite (section_inv _ _ _ _ _ _ (StartRound_old (g_next s) n (g_mgr s) Hn) I H Hl).
    simpl. by rewrite lookup_insert_eq.
  - destruct (StartRound_new (g_next s) n (g_mgr s) Hm Hn) as [E _].
    rewrite (section_inv _ _ _ _ _ _ E I H Hl). exists (MkPtr (g_next s) n). simpl.
    rewrite !lookup_insert_eq. split_and!; try done.
    intros t' p c Ht' Hc. unfold exec_label. simpl. rewrite (go_live s Hs).
    rewrite lookup_insert_ne by (intros ->; congruence). rewrite Ht'. unfold exec_go. simpl.
    unfold recv. rewrite (served_chan n _ _ c (gm_subs _ Hm) Hc).
    eexists. split; [reflexivity|]. simpl. apply lookup_insert_eq.
Qed.

(** A round that [GetRound] returns has the number that was asked for. *)
Theorem GetRound_number s t n r :
  reach s -> g_gos s !! t = Some (Got n (Ok r)) -> rp_num r = n.
Proof. intros Hr. apply (go_got s (manager_reach_sys_ok s Hr)). Qed.

(** [StopRound] unregisters the round only when [Round.Stop] succeeded;
    when it returns an error, of an ended context for instance, the round
    stays registered. *)
Theorem StopRound_result s t n r err s' :
  reach s -> g_gos s !! t = Some (StopRoundWait n r) ->
  exec_label (LRoundStopped t err) s = Some s' ->
  match err with
  | Some e => g_mgr s' = g_mgr s /\ g_gos s' !! t = Some (StopRoundDone n (Some e))
  | None => forall s2, exec_label (LRemove t) s' = Some s2 ->
      rounds (g_mgr s2) !! n = None /\ tbl (roundSubs (g_mgr s2)) !! n = None /\
      latestRound (g_mgr s2) = latestRound (g_mgr s) /\
      g_gos s2 !! t = Some (StopRoundDone n None)
  end.
Proof.
  intros Hr Ht H. pose proof (manager_reach_sys_ok s Hr) as Hs.
  unfold exec_label in H. rewrite (go_live s Hs) in H. simpl in H. rewrite Ht in H.
  destruct err as [e|]; simpl in H; injection H as <-.
  - simpl. by rewrite lookup_insert_eq.
  - intros s2 H2. unfold exec_label in H2. simpl in H2. rewrite (go_live s Hs), lookup_insert_eq in H2.
    unfold exec_go in H2. pose proof (section_lock _ _ _ _ H2) as Hl.
    destruct (StopRound_remove_spec n (g_mgr s) (go_mgr s Hs)) as [E _].
    rewrite (section_inv _ _ (with_go t (StopRoundLock n) s) _ _ _ E I H2 Hl). simpl.
    rewrite !lookup_delete_eq, lookup_insert_eq. done.
Qed.

(** A [GetRound] for the latest round after it was stopped, or for a number
    that was skipped, is never served: whatever is executed from then on,
    short of the end of its own context, it stays blocked. *)
Theorem GetRound_of_elapsed_round_blocks t n p c s s' :
  reach s -> stranded t n p c s ->
  rtc (fun s1 s2 => exists l, exec_label l s1 = Some s2 /\ forall e, l <> LCtx t e) s s' ->
  g_gos s' !! t = Some (GetWait n p c) /\ exec_label (LRecv t) s' = None.
Proof.
  intros Hr Hs Hsteps. pose proof (manager_reach_sys_ok s Hr) as Hok. clear Hr.
  induction Hsteps as [s|s s1 s2 (l & H & Hl) _ IH].
  - split; [apply Hs|]. unfold exec_label. rewrite (go_live s Hok). simpl.
    rewrite (st_wait _ _ _ _ _ Hs). simpl. unfold recv. by rewrite (st_chan _ _ _ _ _ Hs).
  - destruct (stranded_step t n p c l s s1 Hok Hs H) as [[e ->]|Hs1]; [by destruct (Hl e)|].
    apply IH; [done|]. by eapply manager_step_ok; [|exists l].
Qed.

(** C38: [Manager.Stop] never succeeds on a manager with a registered round.
    However the other goroutines go on, it is still in its first [Finalize],
    with the lock; or it has returned the error of that [Finalize] (the end of
    its context); or, as soon as that [Finalize] has succeeded, it is blocked
    for ever on the lock that it holds itself, and no other method of the
    manager gets the lock any more. *)
Theorem Manager_Stop_deadlocks s t s1 s2 :
  reach s -> g_gos s !! t = None -> rounds (g_mgr s) <> ∅ ->
  exec_label (LStop t) s = Some s1 -> rtc step s1 s2 ->
  (g_lock s2 = Some t /\ (exists r rest, g_gos s2 !! t = Some (StopFinalize r rest)) /\
     exists s3, exec_label (LRoundFinal t None) s2 = Some s3 /\ blocked_for_ever t s3) \/
  (exists e, g_gos s2 !! t = Some (Stopped (Some e))) \/
  blocked_for_ever t s2.
Proof.
  intros Hr Ht Hne H1 Hsteps. pose proof (manager_reach_sys_ok s Hr) as Hs.
  assert (sys_ok s1) as Hs1 by (by eapply manager_step_ok; [|exists (LStop t)]).
  pose proof (Stop_enters t s s1 Hs Ht Hne H1) as Hf. clear Hr Ht Hne H1 Hs.
  induction Hsteps as [s0|s0 s4 s5 [l H] Hrest IH].
  - left. pose proof Hf as (Hl & r & rest & Hg). split_and!; [done|by exists r, rest|].
    exists (with_go t (StopStopRound r rest) s0).
    assert (exec_label (LRoundFinal t None) s0 = Some (with_go t (StopStopRound r rest) s0)) as H
      by (unfold exec_label; rewrite (go_live s0 Hs1); simpl; by rewrite Hg).
    split; [done|]. apply deadlocked_for_ever; [by eapply manager_step_ok; [|exists (LRoundFinal t None)]|].
    split; [done|]. exists r, rest. apply lookup_insert_eq.
  - assert (sys_ok s4) as Hs4 by (by eapply manager_step_ok; [|exists l]).
    destruct (first_Finalize_step t l s0 s4 Hs1 Hf H) as [Hf4|[(e & _ & He)|[_ Hd]]]; [by apply IH| |].
    + right. left. exists e. clear -Hrest He. induction Hrest as [|s4 s5 s6 [l H] _ IH]; [done|].
      apply IH. by eapply stopped_step.
    + right. right. intros s6 H6. eapply (deadlocked_for_ever t s4); [done..|by etransitivity].
Qed.
End properties.

(** ** Executions *)

Module Executions.
#[local] Existing Instance sorted_order.

Definition after (ls : list label) : sys := default start (run_labels ls start).
Definition runsb (ls : list label) : bool :=
  match run_labels ls start with Some _ => true | None => false end.

Lemma manager_run_reach ls s s' : reach s -> run_labels ls s = Some s' -> reach s'.
Proof.
  revert s. induction ls as [|l ls IH]; intros s Hr H; simpl in H; [by simplify_eq|].
  apply bind_Some in H as (s1 & H1 & H). eapply IH; [|done]. eapply rtc_r; [done|]. by exists l.
Qed.

Lemma manager_after_reach ls : runsb ls = true -> reach (after ls).
Proof.
  unfold runsb, after. intros H. destruct (run_labels ls start) as [s|] eqn:E; [|done].
  by eapply manager_run_reach; [apply rtc_refl|].
Qed.

Lemma manager_run_labels_app ls1 ls2 s :
  run_labels (ls1 ++ ls2) s = (s' ← run_labels ls1 s; run_labels ls2 s').
Proof.
  revert s. induction ls1 as [|l ls1 IH]; intros s; simpl; [done|].
  destruct (exec_label l s); simpl; [apply IH|done].
Qed.

Lemma manager_after_snoc ls l :
  runsb (ls ++ [l]) = true -> exec_label l (after ls) = Some (after (ls ++ [l])).
Proof.
  unfold runsb, after. rewrite manager_run_labels_app.
  destruct (run_labels ls start) as [s|]; simpl; [|done]. by destruct (exec_label l s).
Qed.

(** Round 1 is awaited, started and received; round 2 is awaited. *)
Definition busy : list label := [LGet 1 1; LStart 2 1; LRecv 1; LGet 3 2].

Lemma manager_busy_reach : reach (after busy).
Proof. apply manager_after_reach. vm_compute. reflexivity. Qed.

Lemma manager_never_panics_witness : g_dead (after busy) = None.
Proof. exact (manager_never_panics (after busy) manager_busy_reach). Defined.

Lemma StartRound_once_witness :
  NoDup (g_started (after (busy ++ [LStart 4 2]))).
Proof.
  refine (proj1 (StartRound_once (after busy) 4 2 _ manager_busy_reach _ _)).
  - vm_compute. reflexivity.
  - apply manager_after_snoc. vm_compute. reflexivity.
Defined.

Lemma GetRound_number_witness :
  g_gos (after busy) !! 1%nat = Some (Got 1 (Ok (MkPtr 0 1))) /\ rp_num (MkPtr 0 1) = 1.
Proof.
  assert (g_gos (after busy) !! 1%nat = Some (Got 1 (Ok (MkPtr 0 1)))) as E by (vm_compute; reflexivity).
  split; [exact E|]. exact (GetRound_number (after busy) 1 1 (MkPtr 0 1) manager_busy_reach E).
Defined.

Definition stopping : list label := busy ++ [LStopRound 4 1].

Lemma StopRound_result_witness :
  rounds (g_mgr (after ((stopping ++ [LRoundStopped 4 None]) ++ [LRemove 4]))) !! 1 = None.
Proof.
  refine (proj1 (StopRound_result (after stopping) 4 1 (MkPtr 0 1) None _ _ _ _ _ _)).
  - apply manager_after_reach. vm_compute. reflexivity.
  - vm_compute. reflexivity.
  - apply manager_after_snoc. vm_compute. reflexivity.
  - apply manager_after_snoc. vm_compute. reflexivity.
Defined.

(** Round 1 was started and stopped; another goroutine asks for it. *)
Definition late : list label :=
  [LStart 1 1; LStopRound 2 1; LRoundStopped 2 None; LRemove 2; LGet 3 1].

Lemma GetRound_of_elapsed_round_blocks_witness :
  exec_label (LRecv 3) (after late) = None.
Proof.
  refine (proj2 (GetRound_of_elapsed_round_blocks 3 1 0 0 (after late) (after late) _ _ _)).
  - apply manager_after_reach. vm_compute. reflexivity.
  - split; [vm_compute; reflexivity|vm_compute; discriminate|vm_compute; reflexivity..|].
    assert (map_Forall (fun _ g => match g with StopRoundWait _ _ | StopRoundLock _ => False | _ => True end)
      (g_gos (after late))) as H.
    { apply map_Forall_to_list. vm_compute. repeat constructor. }
    intros t' g Hg. apply (H t' g) in Hg. by destruct g.
  - apply rtc_refl.
Defined.

(** [Stop] on the busy manager whose first [Finalize] succeeded. *)
Definition stop_after_final : sys := after ((busy ++ [LStop 5]) ++ [LRoundFinal 5 None]).

Lemma Manager_Stop_deadlocks_witness :
  g_gos stop_after_final !! 5%nat = Some (StopStopRound (MkPtr 0 1) []) /\
  blocked_for_ever 5 stop_after_final.
Proof.
  assert (g_gos stop_after_final !! 5%nat = Some (StopStopRound (MkPtr 0 1) [])) as Hg
    by (vm_compute; reflexivity).
  split; [exact Hg|].
  destruct (Manager_Stop_deadlocks (after busy) 5 (after (busy ++ [LStop 5])) stop_after_final
    manager_busy_reach) as [(_ & (r & rest & H) & _)|[[e H]|H]].
  - vm_compute. reflexivity.
  - intros E. assert (rounds (g_mgr (after busy)) !! 1 = Some (MkPtr 0 1)) as E1 by (vm_compute; reflexivity).
    rewrite E in E1. discriminate E1.
  - apply manager_after_snoc. vm_compute. reflexivity.
  - apply rtc_once. exists (LRoundFinal 5 None). apply manager_after_snoc. vm_compute. reflexivity.
  - rewrite Hg in H. discriminate H.
  - rewrite Hg in H. discriminate H.
  - exact H.
Defined.
End Executions.
