(* ===== verification/Issued.v ===== *)
(** Which rounds the manager ([Manager.v]) hands out: every pointer that it
    keeps, that waits in a channel or that a goroutine got is to a round that
    [StartRound] allocated, with the number it was started for; and what a
    goroutine in one of the methods was called with. *)

From Stdlib Require Import Sorted.
From stdpp Require Import sorting.
From S2P Require Import Prelude Subs Manager.

(** ** Values in channels *)

Section buffers.
Context {K V : Type} `{Countable K} {MO : MapOrder}.
Implicit Type s : subs K V.

(** The value waits in a channel. *)
Definition buffered s (v : V) : Prop := exists c ch, chans s !! c = Some ch /\ v ∈ ch_buf ch.

Lemma upd_all_Some (ch ch' : chan V) l chs c :
  upd_all ch l chs !! c = Some ch' -> ch' = ch \/ chs !! c = Some ch'.
Proof.
  revert chs. induction l as [|x l IH]; intros chs E; simpl in E; [by right|].
  apply IH in E as [->|E]; [by left|].
  apply list_lookup_insert_Some in E as [(_ & -> & _)|[_ E]]; [by left|by right].
Qed.

Lemma buffered_served key ch s v : buffered (served key ch s) v -> buffered s v \/ v ∈ ch_buf ch.
Proof. intros (c & ch' & [->|Hc]%upd_all_Some & Hv); [by right|left; by exists c, ch']. Qed.

Lemma buffered_recv c s s' x v : recv c s = Some (s', x) -> buffered s' v -> buffered s v.
Proof.
  unfold recv. intros E (c' & ch' & Hc' & Hv).
  destruct (chans s !! c) as [[[|y buf] cl]|] eqn:Ec; [| |done].
  - destruct cl; simplify_eq. by exists c', ch'.
  - simplify_eq. cbn in Hc'. apply list_lookup_insert_Some in Hc' as [(<- & <- & _)|[_ Hc']]; [|by exists c', ch'].
    exists c. eexists. split; [done|]. simpl in *. by right.
Qed.

Lemma recv_buffered c s s' v : recv c s = Some (s', Some v) -> buffered s v.
Proof.
  unfold recv. intros E. destruct (chans s !! c) as [[[|y buf] []]|] eqn:Ec; simplify_eq.
  all: exists c; eexists; (split; [done|left]).
Qed.
End buffers.

Section issued.
Context {MO : MapOrder}.
Implicit Types (s : sys) (g : goroutine) (r : roundPtr).

(** ** The steps of a goroutine *)

(** What a goroutine was called for. *)
Inductive purpose := ToStart (n : Z) | ToGet (n : Z) | ToStop (n : Z) | ToStopAll.

#[export] Instance purpose_eq_dec : EqDecision purpose.
Proof. solve_decision. Defined.

Definition purpose_of g : purpose :=
  match g with
  | Started n _ => ToStart n
  | GetWait n _ _ | GetCancel n _ _ _ | Got n _ => ToGet n
  | StopRoundWait n _ | StopRoundLock n | StopRoundDone n _ => ToStop n
  | StopFinalize _ _ | StopStopRound _ _ | Stopped _ => ToStopAll
  end.

Definition asked_to (l : label) : option purpose :=
  match l with
  | LStart _ n => Some (ToStart n)
  | LGet _ n => Some (ToGet n)
  | LStopRound _ n => Some (ToStop n)
  | LStop _ => Some ToStopAll
  | _ => None
  end.

(** The rounds a goroutine knows. *)
Definition knows g : list roundPtr :=
  match g with
  | Started _ (Ok r) | Got _ (Ok r) | StopRoundWait _ r => [r]
  | StopFinalize r rest | StopStopRound r rest => r :: rest
  | _ => []
  end.

(** The rounds that are anywhere in the manager. *)
Definition present s r : Prop :=
  (exists n, rounds (g_mgr s) !! n = Some r) \/ buffered (roundSubs (g_mgr s)) r \/
  (exists t g, g_gos s !! t = Some g /\ r ∈ knows g).

(** The round that [StartRound] allocates, if the step is one that does. *)
Definition allocates s s' r : Prop :=
  exists n, latestRound (g_mgr s) < n /\ r = MkPtr (g_next s) n /\
    g_started s' = n :: g_started s /\ g_next s' = S (g_next s).

(** What a step does, apart from the critical sections' work. *)
Record moved (l : label) s s' : Prop := {
  mv_go : exists g', g_gos s' = <[goroutine_of l := g']> (g_gos s) /\
    match g_gos s !! goroutine_of l with
    | Some g => purpose_of g' = purpose_of g
    | None => asked_to l = Some (purpose_of g')
    end;
  mv_ptrs : forall r, present s' r -> present s r \/ allocates s s' r;
  mv_started : (g_started s' = g_started s /\ g_next s' = g_next s /\
      latestRound (g_mgr s') = latestRound (g_mgr s) /\
      (forall n r, g_gos s' !! goroutine_of l <> Some (Started n (Ok r))) /\
      forall n r, rounds (g_mgr s') !! n = Some r -> rounds (g_mgr s) !! n = Some r) \/
    (exists n, l = LStart (goroutine_of l) n /\
       g_gos s' !! goroutine_of l = Some (Started n (Ok (MkPtr (g_next s) n))) /\
       allocates s s' (MkPtr (g_next s) n) /\ latestRound (g_mgr s') = n /\
       rounds (g_mgr s') = <[n := MkPtr (g_next s) n]> (rounds (g_mgr s)));
}.

(** A step that starts no round. *)
Lemma moved_quiet l s m' g' lk dead :
  match g_gos s !! goroutine_of l with
  | Some g => purpose_of g' = purpose_of g
  | None => asked_to l = Some (purpose_of g')
  end ->
  latestRound m' = latestRound (g_mgr s) -> (forall n r, g' <> Started n (Ok r)) ->
  (forall n r, rounds m' !! n = Some r -> rounds (g_mgr s) !! n = Some r) ->
  (forall r, buffered (roundSubs m') r -> buffered (roundSubs (g_mgr s)) r) ->
  (forall r, r ∈ knows g' -> present s r) ->
  moved l s (MkSys m' (<[goroutine_of l := g']> (g_gos s)) lk (g_next s) dead (g_started s)).
Proof.
  intros Hp Hlt Hns Hr Hb Hk. split; [by exists g'| |left].
  2:{ split_and!; try done. intros n r. cbn. rewrite lookup_insert_eq. intros [= ->]. by eapply Hns. }
  intros r [(n & H)|[H|(t & g & H & Hin)]]; left; cbn in *.
  - left. exists n. by apply Hr.
  - right; left. by apply Hb.
  - apply lookup_insert_Some in H as [[<- <-]|[_ H]]; [by apply Hk|]. right; right. by exists t, g.
Qed.

Lemma knows_present s t g r : g_gos s !! t = Some g -> r ∈ knows g -> present s r.
Proof. intros. right; right. by exists t, g. Qed.

Ltac quiet_step :=
  unfold with_go; cbn;
  lazymatch goal with |- moved ?l ?s _ => eapply (moved_quiet l s) end;
  [match goal with Ht : g_gos _ !! _ = _ |- _ => cbn; by rewrite Ht end|..].

Lemma enter_StartRound t n s s' :
  sys_ok s -> g_gos s !! t = None -> enter t (LStart t n) s = Some s' -> moved (LStart t n) s s'.
Proof.
  intros Hs Ht H. pose proof (go_mgr s Hs) as Hm. cbn [enter] in H.
  pose proof (section_lock _ _ _ _ H) as Hl.
  destruct (decide (n <= latestRound (g_mgr s))) as [Hn|Hn].
  + rewrite (section_inv _ _ _ _ _ _ (StartRound_old (g_next s) n (g_mgr s) Hn) I H Hl).
    quiet_step; [done|done|done|done|]. by intros r ?%elem_of_nil.
  + destruct (StartRound_new (g_next s) n (g_mgr s) Hm ltac:(lia)) as [E _].
    rewrite (section_inv _ _ _ _ _ _ E I H Hl).
    assert (allocates s (MkSys (with_new_round (g_next s) n (g_mgr s))
      (<[t := Started n (Ok (MkPtr (g_next s) n))]> (g_gos s)) None (S (g_next s)) (g_dead s)
      (n :: g_started s)) (MkPtr (g_next s) n)) as Ha by (exists n; split_and!; [lia|done..]).
    split; cbn.
    * eexists. split; [reflexivity|]. by rewrite Ht.
    * intros r [(n' & Hr)|[Hr|(t' & g & Hr & Hin)]]; cbn in *.
      -- apply lookup_insert_Some in Hr as [[_ <-]|[_ Hr]]; [by right|]. left; left. by exists n'.
      -- apply buffered_served in Hr as [Hr| ->%list_elem_of_singleton]; [left; right; by left|by right].
      -- apply lookup_insert_Some in Hr as [[_ <-]|[_ Hr]]; [|left; by eapply knows_present].
         apply list_elem_of_singleton in Hin as ->. by right.
    * right. exists n. split_and!; [done|by rewrite lookup_insert_eq|done..].
Qed.

Lemma enter_GetRound t n s s' :
  sys_ok s -> g_gos s !! t = None -> enter t (LGet t n) s = Some s' -> moved (LGet t n) s s'.
Proof.
  intros Hs Ht H. pose proof (go_mgr s Hs) as Hm. cbn [enter] in H.
  pose proof (section_lock _ _ _ _ H) as Hl.
  destruct (decide (n < latestRound (g_mgr s))) as [Hn|Hn].
  { assert (GetRound n (g_mgr s) = (g_mgr s, Err ErrElapsedRound)) as E
      by (unfold GetRound; st_unfold; by rewrite bool_decide_eq_true_2).
    rewrite (section_inv _ _ _ _ _ _ E I H Hl).
    quiet_step; [done|done|done|done|]. by intros r ?%elem_of_nil. }
  destruct (rounds (g_mgr s) !! n) as [r|] eqn:Er.
  + assert (GetRound n (g_mgr s) = (g_mgr s, Ok (inl r))) as E
      by (unfold GetRound; st_unfold; rewrite bool_decide_eq_false_2 by done; by rewrite Er).
    rewrite (section_inv _ _ _ _ _ _ E I H Hl).
    quiet_step; [done|done|done|done|].
    intros r' ->%list_elem_of_singleton. left. by exists n.
  + destruct (GetRound_miss n (g_mgr s) Hm ltac:(lia) Er) as (s1 & Es & E & _).
    rewrite (section_inv _ _ _ _ _ _ E I H Hl).
    destruct (subscribe_spec n (roundSubs (g_mgr s)) (gm_subs _ Hm)) as (s2 & E2 & _ & Ech & _).
    rewrite Es in E2. injection E2 as <-.
    quiet_step; [done|done|done| |by intros r ?%elem_of_nil].
    intros r (c & ch & Hc & Hr). cbn in Hc. rewrite Ech in Hc.
    apply lookup_app_Some in Hc as [Hc|[_ Hc]]; [by exists c, ch|].
    apply list_lookup_singleton_Some in Hc as [_ <-]. by apply elem_of_nil in Hr.
Qed.

Lemma enter_moved l s s' :
  sys_ok s -> g_gos s !! goroutine_of l = None -> enter (goroutine_of l) l s = Some s' -> moved l s s'.
Proof.
  intros Hs Ht H. pose proof (go_mgr s Hs) as Hm.
  destruct l as [t n|t n| | | |t n| | |t|]; try done;
    [by apply enter_StartRound|by apply enter_GetRound|..]; cbn [enter goroutine_of] in *.
  - pose proof (section_lock _ _ _ _ H) as Hl. unfold section in H. rewrite Hl in H.
    unfold StopRound_find in H. st_unfold_in H.
    destruct (rounds (g_mgr s) !! n) as [r|] eqn:Er; injection H as <-;
      (quiet_step; [done|done|done|done|]).
    + intros r' ->%list_elem_of_singleton. left. by exists n.
    + by intros r' ?%elem_of_nil.
  - destruct (g_lock s); [done|]. injection H as <-. unfold stop_next.
    assert (forall r, r ∈ (range (rounds (g_mgr s))).*2 -> present s r) as Hall.
    { intros r ([n r'] & -> & Hr%elem_of_range)%list_elem_of_fmap. left. by exists n. }
    destruct ((range (rounds (g_mgr s))).*2); (quiet_step; [done|done|done|done|]);
      [by intros r ?%elem_of_nil|exact Hall].
Qed.

Lemma go_moved l g s s' :
  sys_ok s -> g_gos s !! goroutine_of l = Some g -> exec_go (goroutine_of l) l g s = Some s' -> moved l s s'.
Proof.
  intros Hs Ht H. pose proof (go_mgr s Hs) as Hm.
  pose proof (fun r => knows_present s _ g r Ht) as Hkn.
  unfold exec_go in H.
  destruct l as [| |t'|t' e|t'| |t' [e|]|t'| |t' [e|]]; try done; destruct g; try done; cbn [goroutine_of] in *.
  - apply bind_Some in H as ([s1 v] & Hr & [= <-]).
    quiet_step; [done|done|done|intros r; by eapply buffered_recv|].
    intros r Hin. destruct v as [v|]; [|by apply elem_of_nil in Hin].
    apply list_elem_of_singleton in Hin as ->. right; left. by eapply recv_buffered.
  - injection H as <-. quiet_step; [done|done|done|done|by intros r ?%elem_of_nil].
  - pose proof (section_lock _ _ _ _ H) as Hl.
    destruct (GetRound_cancel_spec n p c (g_mgr s) Hm (go_wait s Hs t' _ _ _ _ Ht eq_refl))
      as (s1 & E & _ & _ & Ech).
    rewrite (section_inv _ _ _ _ _ _ E I H Hl).
    quiet_step; [done|done|done| |by intros r ?%elem_of_nil].
    intros r (c' & ch & Hc & Hr). cbn in Hc. rewrite Ech in Hc. by exists c', ch.
  - injection H as <-. quiet_step; [done|done|done|done|by intros r' ?%elem_of_nil].
  - injection H as <-. quiet_step; [done|done|done|done|by intros r' ?%elem_of_nil].
  - pose proof (section_lock _ _ _ _ H) as Hl.
    destruct (StopRound_remove_spec n (g_mgr s) Hm) as [E _].
    rewrite (section_inv _ _ _ _ _ _ E I H Hl).
    quiet_step; [done|done| | |by intros r ?%elem_of_nil].
    + intros n' r Hr. cbn in Hr. by apply lookup_delete_Some in Hr as [_ ?].
    + intros r [Hr|Hr%elem_of_nil]%buffered_served; done.
  - rewrite (go_holds s Hs t' _ Ht eq_refl) in H. done.
  - injection H as <-. quiet_step; [done|done|done|done|by intros r' ?%elem_of_nil].
  - injection H as <-. quiet_step; [done|done|done|done|exact Hkn].
Qed.

Lemma step_moved l s s' : sys_ok s -> exec_label l s = Some s' -> moved l s s'.
Proof.
  intros Hs H. unfold exec_label in H. rewrite (go_live s Hs) in H.
  destruct (g_gos s !! goroutine_of l) as [g|] eqn:E; [by eapply go_moved|by eapply enter_moved].
Qed.

(** A goroutine keeps its purpose, and moves in its own steps only. *)
Lemma moved_other l s s' t : moved l s s' -> t <> goroutine_of l -> g_gos s' !! t = g_gos s !! t.
Proof. intros [(g' & -> & _) _ _] Hne. by rewrite lookup_insert_ne. Qed.

Lemma moved_purpose l s s' t g :
  moved l s s' -> g_gos s !! t = Some g ->
  exists g', g_gos s' !! t = Some g' /\ purpose_of g' = purpose_of g.
Proof.
  intros Hm Hg. destruct (decide (t = goroutine_of l)) as [->|Hne].
  - destruct (mv_go _ _ _ Hm) as (g' & -> & Hp). rewrite Hg in Hp. exists g'. by rewrite lookup_insert_eq.
  - exists g. by rewrite (moved_other _ _ _ _ Hm Hne).
Qed.

(** ** Rounds are issued once *)

(** [StartRound] allocated the round, for its number. *)
Definition issued s r : Prop := reverse (g_started s) !! rp_id r = Some (rp_num r).

Record issues s : Prop := {
  is_next : length (g_started s) = g_next s;
  is_present : forall r, present s r -> issued s r;
}.

Lemma allocates_issued s s' r : length (g_started s) = g_next s -> allocates s s' r -> issued s' r.
Proof.
  intros Hlen (n & _ & -> & E & _). unfold issued. rewrite E, reverse_cons. cbn.
  apply list_lookup_middle. by rewrite length_reverse.
Qed.

Lemma issued_mono l s s' r : moved l s s' -> issued s r -> issued s' r.
Proof.
  intros Hm Hi. unfold issued in *.
  destruct (mv_started _ _ _ Hm) as [[E _]|(n & _ & _ & (n' & _ & _ & E & _) & _)].
  - by rewrite E.
  - rewrite E, reverse_cons. by apply lookup_app_l_Some.
Qed.

Lemma step_issues l s s' : moved l s s' -> issues s -> issues s'.
Proof.
  intros Hm [Hlen Hp]. split.
  - destruct (mv_started _ _ _ Hm) as [(-> & -> & _)|(n & _ & _ & (n' & _ & _ & E & ->) & _)]; [done|].
    rewrite E. cbn. by rewrite Hlen.
  - intros r [Hr|Ha]%(mv_ptrs _ _ _ Hm); [by eapply issued_mono, Hp|by eapply allocates_issued].
Qed.

Lemma start_issues : issues start.
Proof.
  split; [done|]. intros r [(n & Hr)|[(c & ch & Hr & _)|(t & g & Hr & _)]]; done.
Qed.

Lemma reach_issues s : reach s -> issues s.
Proof.
  assert (forall s s', rtc step s s' -> sys_ok s -> issues s -> issues s') as Hind.
  { induction 1 as [|s1 s2 s3 [l H] _ IH]; [done|]. intros Hok Hi.
    pose proof (step_moved l s1 s2 Hok H) as Hm.
    apply IH; [by eapply manager_step_ok; [|exists l]|by eapply step_issues]. }
  intros H. eapply Hind; [exact H|apply manager_start_ok|apply start_issues].
Qed.

(** No number is used twice, and the rounds are allocated in the order of
    their numbers. *)
Lemma started_increasing s : reach s -> StronglySorted Z.lt (reverse (g_started s)).
Proof.
  intros Hr. destruct (go_started s (manager_reach_sys_ok s Hr)) as [Hsort _]. revert Hsort.
  generalize (g_started s). induction 1 as [|n l _ IH Hn]; [constructor|].
  rewrite reverse_cons. apply StronglySorted_app_2; [|done|repeat constructor].
  intros x y Hx Hy%list_elem_of_singleton. rewrite elem_of_reverse in Hx. subst y.
  rewrite Forall_forall in Hn. by apply Hn.
Qed.

(** ** Stopped rounds *)

(** The manager does not know the round any more, and never will. *)
Definition gone (n : Z) s : Prop := rounds (g_mgr s) !! n = None /\ n <= latestRound (g_mgr s).

Lemma latest_mono l s s' : moved l s s' -> latestRound (g_mgr s) <= latestRound (g_mgr s').
Proof.
  intros Hm. destruct (mv_started _ _ _ Hm) as [(_ & _ & -> & _)|(n & _ & _ & Ha & -> & _)]; [lia|].
  destruct Ha as (n' & Hlt & [= <-] & _). lia.
Qed.

Lemma gone_mono l s s' n : moved l s s' -> gone n s -> gone n s'.
Proof.
  intros Hm [Hr Hn]. split; [|by pose proof (latest_mono _ _ _ Hm); lia].
  destruct (mv_started _ _ _ Hm) as [(_ & _ & _ & _ & Hsub)|(n' & _ & _ & (n0 & Hlt & [= <-] & _) & _ & ->)].
  - destruct (rounds (g_mgr s') !! n) as [r|] eqn:E; [|done]. apply Hsub in E. congruence.
  - rewrite lookup_insert_ne; [done|lia].
Qed.

(** What a goroutine in [StopRound] has reached. *)
Definition stop_ok s g : Prop :=
  match g with
  | StopRoundWait n r => rp_num r = n /\ n <= latestRound (g_mgr s)
  | StopRoundLock n => n <= latestRound (g_mgr s)
  | StopRoundDone n None => gone n s
  | _ => True
  end.

Lemma stop_ok_mono l s s' g : moved l s s' -> stop_ok s g -> stop_ok s' g.
Proof.
  intros Hm. pose proof (latest_mono _ _ _ Hm).
  destruct g as [| | | |n r|n|n [e|]| | |]; try done; simpl; [intros []; split; [done|lia]|lia|].
  by eapply gone_mono.
Qed.

Lemma stop_ok_go l s s' :
  sys_ok s -> (forall g, g_gos s !! goroutine_of l = Some g -> stop_ok s g) ->
  exec_label l s = Some s' -> forall g, g_gos s' !! goroutine_of l = Some g -> stop_ok s' g.
Proof.
  intros Hs Hst H g' Hg'. pose proof (go_mgr s Hs) as Hm. pose proof (step_moved l s s' Hs H) as Hmv.
  unfold exec_label in H. rewrite (go_live s Hs) in H.
  destruct (g_gos s !! goroutine_of l) as [g|] eqn:Et.
  - specialize (Hst g eq_refl). destruct (moved_purpose _ _ _ _ _ Hmv Et) as (g2 & Hg2 & Hp).
    assert (g2 = g') as -> by congruence. clear Hg2. unfold exec_go in H.
    destruct l as [| |t'|t' e|t'| |t' [e|]|t'| |t' [e|]]; try done; destruct g; try done;
      destruct g' as [| | | |n' r'|n'|n' [e'|]| | |]; try done; cbn [goroutine_of] in *.
    1-6: injection H as <-; cbn in Hg'; rewrite lookup_insert_eq in Hg'; simplify_eq; by apply Hst.
    all: pose proof (section_lock _ _ _ _ H) as Hl; destruct (StopRound_remove_spec n (g_mgr s) Hm) as [E _];
      rewrite (section_inv _ _ _ _ _ _ E I H Hl) in *; cbn in Hg'; rewrite lookup_insert_eq in Hg'; simplify_eq.
    split; cbn; [apply lookup_delete_eq|done].
  - destruct (mv_go _ _ _ Hmv) as (g2 & E2 & Hp). rewrite Et in Hp.
    assert (g2 = g') as -> by (rewrite E2, lookup_insert_eq in Hg'; congruence). clear E2.
    destruct l as [t n|t n| | | |t n| | |t|]; try done; destruct g' as [| | | |n' r'|n'|n' [e'|]| | |];
      try done; cbn [enter goroutine_of] in *; injection Hp as <-;
      pose proof (section_lock _ _ _ _ H) as Hl; unfold section in H; rewrite Hl in H;
      unfold StopRound_find in H; st_unfold_in H;
      destruct (rounds (g_mgr s) !! n) as [r|] eqn:Er; injection H as <-;
      cbn in Hg'; rewrite lookup_insert_eq in Hg'; simplify_eq.
    exact (gm_num _ Hm n r' Er).
Qed.

Lemma reach_stop_ok s : reach s -> forall t g, g_gos s !! t = Some g -> stop_ok s g.
Proof.
  assert (forall s s', rtc step s s' -> sys_ok s -> (forall t g, g_gos s !! t = Some g -> stop_ok s g) ->
    forall t g, g_gos s' !! t = Some g -> stop_ok s' g) as Hind.
  { induction 1 as [|s1 s2 s3 [l H] _ IH]; [done|]. intros Hok Hi.
    pose proof (step_moved l s1 s2 Hok H) as Hm.
    apply IH; [by eapply manager_step_ok; [|exists l]|]. intros t g Hg.
    destruct (decide (t = goroutine_of l)) as [->|Hne].
    - eapply (stop_ok_go l s1); [done|by intros; eapply Hi|done|done].
    - rewrite (moved_other _ _ _ _ Hm Hne) in Hg. eapply stop_ok_mono; [done|by eapply Hi]. }
  intros H. eapply Hind; [exact H|apply manager_start_ok|]. by intros t g Hg.
Qed.

(** The goroutine is past [r.Stop(ctx)] of [StopRound], which returned nil. *)
Definition past_stop g : option Z :=
  match g with StopRoundLock n | StopRoundDone n None => Some n | _ => None end.

Lemma past_stop_go l s s' g' n :
  sys_ok s -> exec_label l s = Some s' -> g_gos s' !! goroutine_of l = Some g' -> past_stop g' = Some n ->
  (exists g, g_gos s !! goroutine_of l = Some g /\ past_stop g = Some n) \/
  (exists r, l = LRoundStopped (goroutine_of l) None /\ g_gos s !! goroutine_of l = Some (StopRoundWait n r)).
Proof.
  intros Hs H Hg' Hp'. pose proof (step_moved l s s' Hs H) as Hmv.
  unfold exec_label in H. rewrite (go_live s Hs) in H.
  destruct (g_gos s !! goroutine_of l) as [g|] eqn:Et.
  - destruct (moved_purpose _ _ _ _ _ Hmv Et) as (g2 & Hg2 & Hp).
    assert (g2 = g') as -> by congruence. clear Hg2. unfold exec_go in H.
    destruct l as [| |t'|t' e|t'| |t' [e|]|t'| |t' [e|]]; try done; destruct g; try done;
      destruct g' as [| | | |n' r'|n'|n' [e'|]| | |]; try done; cbn [goroutine_of] in *; simplify_eq/=;
      try (rewrite lookup_insert_eq in Hg'; by simplify_eq); 
      first [left; eexists; split; [reflexivity|done]|right; eexists; split; reflexivity].
  - destruct (mv_go _ _ _ Hmv) as (g2 & E2 & Hp). rewrite Et in Hp.
    assert (g2 = g') as -> by (rewrite E2, lookup_insert_eq in Hg'; congruence). clear E2.
    destruct l as [t n0|t n0| | | |t n0| | |t|]; try done; destruct g' as [| | | |n' r'|n'|n' [e'|]| | |];
      try done; cbn [enter goroutine_of] in *; simplify_eq/=;
      pose proof (section_lock _ _ _ _ H) as Hl; unfold section in H; rewrite Hl in H;
      unfold StopRound_find in H; st_unfold_in H;
      destruct (rounds (g_mgr s) !! n) as [r|] eqn:Er; injection H as <-;
      cbn in Hg'; rewrite lookup_insert_eq in Hg'; by simplify_eq.
Qed.

(** A goroutine in a method of a round moves when that method returns. *)
Lemma in_round_step l s s' g :
  sys_ok s -> exec_label l s = Some s' -> g_gos s !! goroutine_of l = Some g ->
  (forall n r, g = StopRoundWait n r -> exists t err, l = LRoundStopped t err) /\
  (forall r rest, g = StopFinalize r rest -> exists t err, l = LRoundFinal t err).
Proof.
  intros Hs H Hg. unfold exec_label in H. rewrite (go_live s Hs), Hg in H. unfold exec_go in H.
  split; intros ? ? ->; destruct l as [| | | | | |? []| | |? []]; try done; by eexists _, _.
Qed.
End issued.
