(* ===== verification/Gossip.v ===== *)
(** The gossiping broadcaster ([rebro/gossip/broadcaster.go],
    [rebro/gossip/process.go]), as programs over the requests it makes to the
    round manager, the rounds, the certifier and the network.  The signer, the
    hasher and the decoder are pure and called in place. *)

From S2P Require Import Prelude Prog Sha256 Crypto Capnp Rebro.

(** What the broadcaster asks of other components.  A [*Round] is an index. *)
Inductive broE (I Q C : Type) : Type -> Type :=
| StartRound (n : Z) (q : Q) : broE I Q C (res nat)
| GetRound (n : Z) : broE I Q C (res nat)
| StopRound (n : Z) : broE I Q C (res unit)
| AddCertificate (r : nat) (msg : Message I) : broE I Q C (res unit)
| GetCertificate (r : nat) (id : I) : broE I Q C (res C)
| DeleteCertificate (r : nat) (id : I) : broE I Q C (res unit)
| AddSignature (r : nat) (id : I) (sig : Signature) : broE I Q C (res unit)
| Finalize (r : nat) : broE I Q C (res unit)
| Certify (msg : Message I) : broE I Q C (res unit)
| Publish (b : bytes) : broE I Q C (res unit).
Arguments StartRound {I Q C} _ _.
Arguments GetRound {I Q C} _.
Arguments StopRound {I Q C} _.
Arguments AddCertificate {I Q C} _ _.
Arguments GetCertificate {I Q C} _ _.
Arguments DeleteCertificate {I Q C} _ _.
Arguments AddSignature {I Q C} _ _ _.
Arguments Finalize {I Q C} _.
Arguments Certify {I Q C} _.
Arguments Publish {I Q C} _.

Inductive ValidationResult := ValidationAccept | ValidationReject.

Section gossip.
Context {I Q C S HT : Type} {MI : MessageID I} {CP : Capnp} {SI : SignerI S} {HI : HasherI I HT}.
Context (signer : S) (hasher : HT) (decoder : slice -> res I).

Abbreviation E := (broE I Q C).

(** ** broadcaster.go *)

Definition broadcastGossip (setter : Struct -> res Struct) : G E unit :=
  seg ← lit NewMessage;
  msg ← lit (gossipmsg.NewRootGossip seg);
  msg ← lit (setter msg);
  b ← lit (Marshal msg);
  call (Publish b).

(** The setter [Broadcast] passes. *)
Definition data_gossip (msg : Message I) (message : Struct) : res Struct :=
  id ← nonnil (msgID msg);
  canonicalID ← mid_MarshalBinary id;
  message ← gossipmsg.SetId message (Some canonicalID);
  message ← gossipmsg.Data_SetData message (msgData msg);
  mret (gossipmsg.SetData' message).

Definition Broadcast (msg : Message I) (qcomm : Q) : G E unit :=
  id ← lit (nonnil (msgID msg));
  r ← call (StartRound (Round id) qcomm);
  broadcastGossip (data_gossip msg) ;;
  call (Finalize r) ;;
  call (StopRound (Round id)).

(** ** process.go *)

(** [if errors.Is(err, target) { return nil }; return fmt.Errorf(...)] *)
Definition ignoring (target : sentinel) (text : string) (err : error) : G E unit :=
  if errors_Is err target then mret tt else lit (Err (wrapf text err)).

(** The setter [processData] passes. *)
Definition signature_gossip (canonicalID : slice) (signature : Signature) (gsp : Struct)
    : res Struct :=
  let gsp := gossipmsg.SetSignature gsp in
  gsp ← gossipmsg.SetId gsp canonicalID;
  gsp ← gossipmsg.Signature_SetSignature gsp (Body signature);
  gossipmsg.Signature_SetSigner gsp (Signer signature).

Definition processData (gsp : Struct) : G E unit :=
  canonicalID ← lit (gossipmsg.Id gsp);
  data ← lit (gossipmsg.Data_Data gsp);
  id ← lit (map_err (wrapf "unmarhalling MessageID") (decoder canonicalID));
  lit (map_err (wrapf "validating MessageID") (mid_Validate id)) ;;
  let msg := MkMessage (Some id) data in
  hash ← lit (map_err (wrapf "hashing Message") (Hash hasher msg));
  if negb (bytes_Equal (Some hash) (mid_Hash id))
  then lit (Err (ErrNew "computed Message hash inconsistent with MessageID"))
  else
  rr ← attempt (call (GetRound (Round id)));
  match rr with
  | inr err => ignoring SElapsedRound "getting round" err
  | inl r =>
      added ← attempt (call (AddCertificate r msg));
      match added with
      | inr err => ignoring SClosedRound "adding certificate" err
      | inl _ =>
          certified ← attempt (call (Certify msg));
          match certified with
          | inr err =>
              let err := wrapf "verifying certificate" err in
              deleted ← attempt (call (DeleteCertificate r id));
              let deleteErr := match deleted with inl _ => None | inr e => Some e end in
              (* [if err != nil], with [err] the error of Certify *)
              lit (match errors_Join [Some err; Some (Wrap "deleting invalid certificate" deleteErr)] with
                   | Some err => Err err
                   | None => Ok tt
                   end)
          | inl _ =>
              signature ← lit (map_err (wrapf "signing MessageID") (Sign signer (sl canonicalID)));
              published ← attempt (broadcastGossip (signature_gossip canonicalID signature));
              match published with
              | inr err => lit (Err (wrapf "broadcasting signature over MessageID" err))
              | inl _ => mret tt
              end
          end
      end
  end.

Definition processSignature (gsp : Struct) : G E unit :=
  canonicalID ← lit (gossipmsg.Id gsp);
  id ← lit (map_err (wrapf "unmarhalling MessageID") (decoder canonicalID));
  rr ← attempt (call (GetRound (Round id)));
  match rr with
  | inr err => ignoring SElapsedRound "getting round" err
  | inl r =>
      got ← attempt (call (GetCertificate r id));
      match got with
      | inr err => ignoring SClosedRound "getting certificate" err
      | inl _ =>
          signatureData ← lit (gossipmsg.Signature_Signature gsp);
          signerData ← lit (gossipmsg.Signature_Signer gsp);
          let signature := MkSignature signatureData signerData in
          lit (map_err (wrapf "verifying signature") (Verify signer (sl canonicalID) signature)) ;;
          added ← attempt (call (AddSignature r id signature));
          match added with
          | inr err => ignoring SClosedRound "adding signature" err
          | inl _ => mret tt
          end
      end
  end.

Definition processGossip (gsp : Struct) : G E unit :=
  if bool_decide (gossipmsg.Which gsp = gossipmsg.Gossip_Which_data) then processData gsp
  else if bool_decide (gossipmsg.Which gsp = gossipmsg.Gossip_Which_signature)
  then processSignature gsp
  else lit (Err (ErrNew "unknown message type")).

(** [gossip.Data] is the payload of a pubsub message. *)
Definition deliverGossip (data : bytes) : G E ValidationResult :=
  recovering ValidationReject (
    msgMsg ← attempt (lit (Unmarshal data));
    match msgMsg with
    | inr _ => mret ValidationReject
    | inl msgMsg =>
        msg ← attempt (lit (gossipmsg.ReadRootGossip msgMsg));
        match msg with
        | inr _ => mret ValidationReject
        | inl msg =>
            processed ← attempt (processGossip msg);
            match processed with
            | inr _ => mret ValidationReject
            | inl _ => mret ValidationAccept
            end
        end
    end).

(** ** Runs of the combinators *)

Lemma runs_attempt {A} (p : G E A) tr r :
  runs (attempt p) tr (Ok r) <->
  exists r', runs p tr r' /\
    ((exists a, r' = Ok a /\ r = inl a) \/ (exists e, r' = Err e /\ r = inr e)).
Proof.
  unfold attempt. split.
  - intros (tr1 & tr2 & r' & -> & H1 & H2)%runs_pbind. exists r'.
    destruct r' as [a|e|w|w]; destruct H2 as [-> H2]; try done; rewrite app_nil_r; split; try done.
    + left. exists a. by injection H2 as ->.
    + right. exists e. by injection H2 as ->.
  - intros (r' & H1 & [(a & -> & ->)|(e & -> & ->)]); apply runs_pbind;
      exists tr, []; rewrite app_nil_r; eexists; by split_and!.
Qed.

Lemma runs_ignoring target text err tr r :
  runs (ignoring target text err) tr r ->
  tr = [] /\ r = if errors_Is err target then Ok tt else Err (wrapf text err).
Proof. unfold ignoring. by destruct (errors_Is err target). Qed.

(** A recovered program does not panic. *)
Lemma runs_recovering {A} (d : A) (p : G E A) tr r :
  runs (recovering d p) tr r -> forall w, r <> Panic w.
Proof.
  intros (tr1 & tr2 & r' & -> & H1 & H2)%runs_pbind w ->.
  destruct r' as [a|e|w'|w']; by destruct H2.
Qed.

(** ** What the broadcaster does *)

(** The bytes a setter makes [broadcastGossip] publish. *)
Definition encodes (setter : Struct -> res Struct) (b : bytes) : Prop :=
  exists seg s0 s1, NewMessage = Ok seg /\ gossipmsg.NewRootGossip seg = Ok s0 /\
    setter s0 = Ok s1 /\ Marshal s1 = Ok b.

Lemma runs_broadcastGossip setter tr r :
  runs (broadcastGossip setter) tr r ->
  (tr = [] /\ is_Ok r = false) \/
  exists b, encodes setter b /\ tr = [Occ (Publish b) r].
Proof.
  unfold broadcastGossip. intros H. repeat (run_step H; simplify_eq; try (by left)).
  right. eexists. split; [|done]. unfold encodes. eauto 10.
Qed.

(** The steps of [processData] up to its first request. *)
Definition data_checked (gsp : Struct) (canonicalID : slice) (msg : Message I) (id : I) : Prop :=
  gossipmsg.Id gsp = Ok canonicalID /\ decoder canonicalID = Ok id /\
  msgID msg = Some id /\ gossipmsg.Data_Data gsp = Ok (msgData msg) /\
  mid_Validate id = Ok tt /\
  exists h, Hash hasher msg = Ok h /\ h = sl (mid_Hash id).

(** A run of [processData] that got as far as asking for the round. *)
Inductive data_run (gsp : Struct) : list (occ E) -> res unit -> Prop :=
| dr_rejected r : is_Ok r = false -> data_run gsp [] r
| dr_no_round canonicalID msg id x r :
    data_checked gsp canonicalID msg id -> is_Ok x = false ->
    (r = Ok tt -> exists e, x = Err e /\ errors_Is e SElapsedRound = true) ->
    data_run gsp [Occ (GetRound (Round id)) x] r
| dr_not_added canonicalID msg id n x r :
    data_checked gsp canonicalID msg id -> is_Ok x = false ->
    (r = Ok tt -> exists e, x = Err e /\ errors_Is e SClosedRound = true) ->
    data_run gsp [Occ (GetRound (Round id)) (Ok n); Occ (AddCertificate n msg) x] r
| dr_uncertified canonicalID msg id n e x r :
    data_checked gsp canonicalID msg id -> is_Ok r = false ->
    data_run gsp [Occ (GetRound (Round id)) (Ok n); Occ (AddCertificate n msg) (Ok tt);
                  Occ (Certify msg) (Err e); Occ (DeleteCertificate n id) x] r
| dr_unsigned canonicalID msg id n x r :
    data_checked gsp canonicalID msg id -> is_Ok r = false ->
    (forall e, x <> Err e) ->
    data_run gsp [Occ (GetRound (Round id)) (Ok n); Occ (AddCertificate n msg) (Ok tt);
                  Occ (Certify msg) x] r
| dr_published canonicalID msg id n sig b x r :
    data_checked gsp canonicalID msg id ->
    Sign signer (sl canonicalID) = Ok sig -> encodes (signature_gossip canonicalID sig) b ->
    is_Ok r = is_Ok x ->
    data_run gsp [Occ (GetRound (Round id)) (Ok n); Occ (AddCertificate n msg) (Ok tt);
                  Occ (Certify msg) (Ok tt); Occ (Publish b) x] r.

Lemma runs_processData gsp tr r : runs (processData gsp) tr r -> data_run gsp tr r.
Proof.
  unfold processData. intros H.
  run_step H. run_step H; [|run_step H; subst; by constructor..]. rename a into canonicalID.
  run_step H. run_step H; [|run_step H; subst; by constructor..]. rename a into data.
  run_step H. run_step H; [|run_step H; subst; by constructor..]. rename a into id.
  run_step H. run_step H; [|run_step H; subst; by constructor..]. destruct a.
  run_step H. run_step H; [|run_step H; subst; by constructor..]. rename a into hash.
  apply map_err_Ok in Ex1, Ex2, Ex3.
  destruct (bytes_Equal (Some hash) (mid_Hash id)) eqn:Eh; cbn [negb] in H;
    [|run_step H; subst; by constructor].
  assert (data_checked gsp canonicalID (MkMessage (Some id) data) id) as Hc.
  { split_and!; try done. exists hash. split; [done|]. by apply bool_decide_eq_true in Eh. }
  assert (forall target text e tr' r', runs (ignoring target text e) tr' r' ->
    tr' = [] /\ (r' = Ok tt -> errors_Is e target = true)) as Hign.
  { intros target text e tr' r' [-> ->]%runs_ignoring. split; [done|]. by case_match. }
  run_step H. subst tr. run_step H; subst.
  2:{ apply Hign in H as [-> Hr]. eapply dr_no_round; [done..|]. eauto. }
  2-3: run_step H; subst; eapply dr_no_round; done.
  run_step H. subst. run_step H; subst.
  2:{ apply Hign in H as [-> Hr]. eapply dr_not_added; [done..|]. eauto. }
  2-3: run_step H; subst; eapply dr_not_added; done.
  destruct a0. run_step H. subst. run_step H; subst.
  2:{ run_step H. subst. run_step H; subst; run_step H; subst; by eapply dr_uncertified. }
  2-3: run_step H; subst; by eapply dr_unsigned.
  destruct a0. run_step H. run_step H.
  2-4: run_step H; subst; by eapply dr_unsigned.
  match goal with Hs : map_err _ (Sign _ _) = Ok _ |- _ => apply map_err_Ok in Hs end.
  apply (proj1 (runs_attempt_bind _ _ _ _)) in H as (tr1 & tr2 & x & -> & H1 & H).
  assert (tr2 = [] /\ is_Ok r = is_Ok x) as [-> Hx] by (run_step H; run_step H; subst; done).
  rewrite app_nil_r. apply runs_broadcastGossip in H1 as [[-> Hf]|(b & Hb & ->)].
  - eapply dr_unsigned; [done|by rewrite Hx|done].
  - by eapply dr_published.
Qed.

(** A run of [processSignature]. *)
Inductive signature_run (gsp : Struct) : list (occ E) -> res unit -> Prop :=
| sr_rejected r : is_Ok r = false -> signature_run gsp [] r
| sr_no_round canonicalID id x r :
    gossipmsg.Id gsp = Ok canonicalID -> decoder canonicalID = Ok id -> is_Ok x = false ->
    (r = Ok tt -> exists e, x = Err e /\ errors_Is e SElapsedRound = true) ->
    signature_run gsp [Occ (GetRound (Round id)) x] r
| sr_no_certificate canonicalID id n x r :
    gossipmsg.Id gsp = Ok canonicalID -> decoder canonicalID = Ok id ->
    (r = Ok tt -> exists e, x = Err e /\ errors_Is e SClosedRound = true) ->
    signature_run gsp [Occ (GetRound (Round id)) (Ok n); Occ (GetCertificate n id) x] r
| sr_added canonicalID id n c sig x r :
    gossipmsg.Id gsp = Ok canonicalID -> decoder canonicalID = Ok id ->
    gossipmsg.Signature_Signature gsp = Ok (Body sig) ->
    gossipmsg.Signature_Signer gsp = Ok (Crypto.Signer sig) ->
    Verify signer (sl canonicalID) sig = Ok tt ->
    (r = Ok tt -> x = Ok tt \/ exists e, x = Err e /\ errors_Is e SClosedRound = true) ->
    signature_run gsp [Occ (GetRound (Round id)) (Ok n); Occ (GetCertificate n id) (Ok c);
                       Occ (AddSignature n id sig) x] r.

Lemma runs_processSignature gsp tr r :
  runs (processSignature gsp) tr r -> signature_run gsp tr r.
Proof.
  unfold processSignature. intros H.
  assert (forall target text e tr' r', runs (ignoring target text e) tr' r' ->
    tr' = [] /\ (r' = Ok tt -> errors_Is e target = true)) as Hign.
  { intros target text e tr' r' [-> ->]%runs_ignoring. split; [done|]. by case_match. }
  run_step H. run_step H; [|run_step H; subst; by constructor..]. rename a into canonicalID.
  run_step H. run_step H; [|run_step H; subst; by constructor..]. rename a into id.
  apply map_err_Ok in Ex0.
  run_step H. subst tr. run_step H; subst.
  2:{ apply Hign in H as [-> Hr]. eapply sr_no_round; [done..|]. eauto. }
  2-3: run_step H; subst; eapply sr_no_round; done.
  run_step H. subst. run_step H; subst.
  2:{ apply Hign in H as [-> Hr]. eapply sr_no_certificate; [done..|]. eauto. }
  2-3: run_step H; subst; eapply sr_no_certificate; done.
  run_step H. run_step H; [|run_step H; subst; by eapply sr_no_certificate..]. rename a1 into body.
  run_step H. run_step H; [|run_step H; subst; by eapply sr_no_certificate..]. rename a1 into key.
  run_step H. run_step H; [|run_step H; subst; by eapply sr_no_certificate..]. destruct a1.
  match goal with Hs : map_err _ (Verify _ _ _) = Ok _ |- _ => apply map_err_Ok in Hs end.
  run_step H. subst. run_step H; subst.
  - run_step H. subst. eapply (sr_added _ _ _ _ _ (MkSignature body key)); try done. destruct a1. by left.
  - apply Hign in H as [-> Hr]. eapply (sr_added _ _ _ _ _ (MkSignature body key)); try done.
    intros E1. right. eauto.
  - run_step H; subst. by eapply (sr_added _ _ _ _ _ (MkSignature body key)).
  - run_step H; subst. by eapply (sr_added _ _ _ _ _ (MkSignature body key)).
Qed.

(** A run of [Broadcast]. *)
Inductive broadcast_run (msg : Message I) (q : Q) : list (occ E) -> res unit -> Prop :=
| br_no_id r : msgID msg = None -> is_Ok r = false -> broadcast_run msg q [] r
| br_not_started id x r : msgID msg = Some id -> is_Ok x = false -> is_Ok r = false ->
    (forall e, x = Err e -> r = Err e) ->
    broadcast_run msg q [Occ (StartRound (Round id) q) x] r
| br_not_encoded id n r : msgID msg = Some id -> is_Ok r = false ->
    broadcast_run msg q [Occ (StartRound (Round id) q) (Ok n)] r
| br_not_published id n b x r : msgID msg = Some id -> encodes (data_gossip msg) b ->
    is_Ok x = false -> is_Ok r = false ->
    broadcast_run msg q [Occ (StartRound (Round id) q) (Ok n); Occ (Publish b) x] r
| br_not_final id n b x r : msgID msg = Some id -> encodes (data_gossip msg) b ->
    is_Ok x = false -> is_Ok r = false ->
    broadcast_run msg q [Occ (StartRound (Round id) q) (Ok n); Occ (Publish b) (Ok tt);
                         Occ (Finalize n) x] r
| br_final id n b r : msgID msg = Some id -> encodes (data_gossip msg) b ->
    broadcast_run msg q [Occ (StartRound (Round id) q) (Ok n); Occ (Publish b) (Ok tt);
                         Occ (Finalize n) (Ok tt); Occ (StopRound (Round id)) r] r.

Lemma runs_Broadcast msg q tr r : runs (Broadcast msg q) tr r -> broadcast_run msg q tr r.
Proof.
  unfold Broadcast. intros H. run_step H.
  destruct (msgID msg) as [id|] eqn:Eid; cbn [nonnil] in H.
  2:{ run_step H; [done|done| |done]. run_step H. subst. by apply br_no_id. }
  run_step H; try done. injection Ex as <-. run_step H. subst. run_step H; subst.
  2-4: run_step H; subst; eapply br_not_started; [done..|]; intros ?; congruence.
  apply runs_gbind in H as [(tr1 & tr2 & u & -> & H1 & H2)|(r' & H1 & Hr' & Hr)].
  2:{ apply runs_broadcastGossip in H1 as [[-> _]|(b & Hb & ->)].
      - by apply (br_not_encoded msg q id a).
      - by apply (br_not_published msg q id a b). }
  destruct u. apply runs_broadcastGossip in H1 as [[-> Hf]|(b & Hb & ->)]; [done|].
  run_step H2. subst. run_step H2; subst.
  - run_step H2. subst. simpl. destruct a0. by apply (br_final msg q id a b).
  - run_step H2; subst. by eapply (br_not_final msg q id a b).
  - run_step H2; subst. by eapply (br_not_final msg q id a b).
  - run_step H2; subst. by eapply (br_not_final msg q id a b).
Qed.
End gossip.
