(* ===== verification/Broadcaster.v ===== *)
(** Starting and stopping the gossiping broadcaster ([NewBroadcaster], [Start]
    and [Stop] of [rebro/gossip/broadcaster.go]) and the orchestrator that does
    it for a caller ([rebro/gossip/orchestrator.go]), over the requests they
    make to pubsub and to the round manager.

    pubsub is a library: [PubsubLaws] states what its documentation says of
    topics, subscriptions and validators. *)

From S2P Require Import Prelude Prog Rebro Gossip.

(** What [Start] and [Stop] ask of pubsub and of the round manager.  Topics and
    subscriptions are pointers; a request on a nil pointer is a nil
    dereference. *)
Inductive pubsubE : Type -> Type :=
| Join (topic : bytes) : pubsubE (res nat)
| Subscribe (t : nat) : pubsubE (res nat)
| SpawnDrain (sub : nat) : pubsubE unit
| RegisterTopicValidator (topic : bytes) : pubsubE (res unit)
| CancelSub (sub : nat) : pubsubE unit
| CloseTopic (t : nat) : pubsubE (res unit)
| UnregisterTopicValidator (topic : bytes) : pubsubE (res unit)
| StopRounds : pubsubE (res unit).

(** [topic] and [sub] are the fields [Start] assigns.  The round manager and
    the pubsub service answer the requests; [Ps] is the handle of the latter. *)
Record Broadcaster_ (Ps Sg Cf Ha Dc : Type) := MkBroadcaster {
  networkID : NetworkID;
  pubsub_ : Ps;
  topic : option nat;
  sub : option nat;
  signer : Sg;
  certifier : Cf;
  hasher : Ha;
  decoder : Dc;
}.
Arguments MkBroadcaster {Ps Sg Cf Ha Dc} _ _ _ _ _ _ _ _.
Arguments networkID {Ps Sg Cf Ha Dc} _.
Arguments pubsub_ {Ps Sg Cf Ha Dc} _.
Arguments topic {Ps Sg Cf Ha Dc} _.
Arguments sub {Ps Sg Cf Ha Dc} _.
Arguments signer {Ps Sg Cf Ha Dc} _.
Arguments certifier {Ps Sg Cf Ha Dc} _.
Arguments hasher {Ps Sg Cf Ha Dc} _.
Arguments decoder {Ps Sg Cf Ha Dc} _.

(** orchestrator.go *)
Record Orchestrator (Ps : Type) := NewOrchestrator { pubsub : Ps }.
Arguments NewOrchestrator {Ps} _.
Arguments pubsub {Ps} _.

Section broadcaster.
Context {Ps Sg Cf Ha Dc : Type}.
Abbreviation Broadcaster := (Broadcaster_ Ps Sg Cf Ha Dc).

Definition NewBroadcaster (nid : NetworkID) (singer : Sg) (cf : Cf) (hs : Ha) (dc : Dc) (ps : Ps)
    : Broadcaster := MkBroadcaster nid ps None None singer cf hs dc.

Definition set_topic (t : option nat) (bro : Broadcaster) : Broadcaster :=
  MkBroadcaster (networkID bro) (pubsub_ bro) t (sub bro) (signer bro) (certifier bro)
    (hasher bro) (decoder bro).
Definition set_sub (s : option nat) (bro : Broadcaster) : Broadcaster :=
  MkBroadcaster (networkID bro) (pubsub_ bro) (topic bro) s (signer bro) (certifier bro)
    (hasher bro) (decoder bro).

(** A method: the receiver's fields are kept also when it fails. *)
Definition Method (A : Type) : Type := Broadcaster -> prog pubsubE (Broadcaster * res A).

#[export] Instance Method_ret : MRet Method := fun A a bro => Ret (bro, Ok a).
#[export] Instance Method_bind : MBind Method := fun A B f m bro =>
  pbind (m bro) (fun '(bro, r) =>
    match r with
    | Ok a => f a bro
    | Err e => Ret (bro, Err e)
    | Panic w => Ret (bro, Panic w)
    | Hang w => Ret (bro, Hang w)
    end).

Definition request {A} (p : G pubsubE A) : Method A := fun bro => pbind p (fun r => Ret (bro, r)).
Definition read {A} (f : Broadcaster -> A) : Method A := fun bro => Ret (bro, Ok (f bro)).
Definition write (f : Broadcaster -> Broadcaster) : Method unit := fun bro => Ret (f bro, Ok tt).
Definition deref (p : option nat) : Method nat := fun bro => Ret (bro, nonnil p).

(** [bro.x, err = f()]: the field is assigned also when [f] fails, then nil. *)
Definition assigned (set : option nat -> Broadcaster -> Broadcaster) (e : pubsubE (res nat))
    : Method unit :=
  r ← request (attempt (call e));
  match r with
  | inl p => write (set (Some p))
  | inr err => write (set None) ;; request (lit (Err err))
  end.

Definition Start : Method unit :=
  name ← read (fun bro => NetworkID_String (networkID bro));
  assigned set_topic (Join name) ;;
  t ← read topic; t ← deref t;
  assigned set_sub (Subscribe t) ;;
  s ← read sub; s ← deref s;
  request (ask (SpawnDrain s)) ;;
  request (call (RegisterTopicValidator name)).

Definition error_of {A} (r : A + error) : option error :=
  match r with inl _ => None | inr e => Some e end.

Definition Stop : Method unit :=
  name ← read (fun bro => NetworkID_String (networkID bro));
  s ← read sub; s ← deref s;
  request (ask (CancelSub s)) ;;
  t ← read topic; t ← deref t;
  r1 ← request (attempt (call (CloseTopic t)));
  let err := errors_Join [None; error_of r1] in
  r2 ← request (attempt (call (UnregisterTopicValidator name)));
  let err := errors_Join [err; error_of r2] in
  r3 ← request (attempt (call StopRounds));
  match errors_Join [err; error_of r3] with
  | None => mret tt
  | Some err => request (lit (Err err))
  end.

(** orchestrator.go: the broadcaster is returned with the error of [Start]. *)
Definition Orchestrator_NewBroadcaster (o : Orchestrator Ps) (nid : NetworkID) (signer : Sg)
    (cf : Cf) (hs : Ha) (dc : Dc) : prog pubsubE (Broadcaster * res unit) :=
  Start (NewBroadcaster nid signer cf hs dc (pubsub o)).

#[export] Instance Orchestrator_OrchestratorI
  : OrchestratorI (Orchestrator Ps) Sg Cf Ha Dc Broadcaster pubsubE := Orchestrator_NewBroadcaster.

#[export] Instance Broadcaster_BroadcasterI {I Q C CP} `{!MessageID I}
  : BroadcasterI I Q Broadcaster (broE I Q C) := fun _ msg q => Gossip.Broadcast (CP:=CP) msg q.
End broadcaster.

(** ** pubsub *)

Section pubsub.
Context {Ps Sg Cf Ha Dc : Type}.
Abbreviation Broadcaster := (Broadcaster_ Ps Sg Cf Ha Dc).
Abbreviation M := (Method (Ps:=Ps) (Sg:=Sg) (Cf:=Cf) (Ha:=Ha) (Dc:=Dc)).
Context {PS : Type} (h : handler pubsubE PS).

(** What the node holds: joined topics by name, subscribed topics, validators. *)
Context (joined : PS -> gmap nat bytes) (subs : PS -> gmap nat nat) (validators : PS -> gset bytes).

(** The topic handle is of a topic the node has joined. *)
Definition has_topic (s : PS) (name : bytes) : Prop := exists t, joined s !! t = Some name.

Definition do {X} (e : pubsubE X) (s : PS) : PS * X := h X e s.

(** "Join joins the topic and returns a Topic handle.  Only one Topic handle
    should exist per topic, and Join will error if the Topic handle already
    exists."  "Close closes down the topic.  Will return an error unless there
    are no active event handlers or subscriptions."  "RegisterTopicValidator
    registers a validator for topic"; a second one for the topic is an error.
    Subscribing to an open topic and draining a subscription change no topic
    and no validator. *)
Record PubsubLaws : Prop := {
  join_new : forall s name, ~ has_topic s name -> exists t,
    do (Join name) s = ((do (Join name) s).1, Ok t) /\ joined s !! t = None /\
    joined (do (Join name) s).1 = <[t := name]> (joined s) /\
    subs (do (Join name) s).1 = subs s /\ validators (do (Join name) s).1 = validators s;
  join_again : forall s name, has_topic s name -> exists err, do (Join name) s = (s, Err err);
  subscribe_open : forall s t, is_Some (joined s !! t) -> exists b,
    do (Subscribe t) s = ((do (Subscribe t) s).1, Ok b) /\ subs s !! b = None /\
    joined (do (Subscribe t) s).1 = joined s /\
    subs (do (Subscribe t) s).1 = <[b := t]> (subs s) /\
    validators (do (Subscribe t) s).1 = validators s;
  drain : forall s b, do (SpawnDrain b) s = (s, tt);
  register_new : forall s name, name ∉ validators s -> exists s',
    do (RegisterTopicValidator name) s = (s', Ok tt) /\ joined s' = joined s /\
    subs s' = subs s /\ validators s' = {[name]} ∪ validators s;
  register_again : forall s name, name ∈ validators s ->
    exists err, do (RegisterTopicValidator name) s = (s, Err err);
  cancel_sub : forall s b, exists s', do (CancelSub b) s = (s', tt) /\
    joined s' = joined s /\ subs s' = delete b (subs s) /\ validators s' = validators s;
  close_unused : forall s t, is_Some (joined s !! t) -> (forall b, subs s !! b <> Some t) ->
    exists s', do (CloseTopic t) s = (s', Ok tt) /\ joined s' = delete t (joined s) /\
      subs s' = subs s /\ validators s' = validators s;
  unregister : forall s name, name ∈ validators s -> exists s',
    do (UnregisterTopicValidator name) s = (s', Ok tt) /\ joined s' = joined s /\
    subs s' = subs s /\ validators s' = validators s ∖ {[name]};
}.

(** No broadcaster of the network is running on the host. *)
Definition off (s : PS) (name : bytes) : Prop :=
  ~ has_topic s name /\ name ∉ validators s /\
  forall b t, subs s !! b = Some t -> is_Some (joined s !! t).

(** One is. *)
Definition on (s : PS) (bro : Broadcaster) : Prop :=
  exists t b, topic bro = Some t /\ sub bro = Some b /\
    joined s !! t = Some (networkID bro) /\ subs s !! b = Some t /\
    (forall b', subs s !! b' = Some t -> b' = b) /\
    (forall t', joined s !! t' = Some (networkID bro) -> t' = t) /\
    (forall b' t', subs s !! b' = Some t' -> is_Some (joined s !! t')) /\
    networkID bro ∈ validators s.

(** ** Running the methods *)

Lemma interp_Method_bind {A B} (m : M A) (f : A -> M B) bro s :
  interp h ((m ≫= f) bro) s =
  (let '(s', (bro', r)) := interp h (m bro) s in
   match r with
   | Ok a => interp h (f a bro') s'
   | Err e => (s', (bro', Err e))
   | Panic w => (s', (bro', Panic w))
   | Hang w => (s', (bro', Hang w))
   end).
Proof.
  unfold mbind, Method_bind. rewrite interp_pbind.
  destruct (interp h (m bro) s) as [s' [bro' [a|e|w|w]]]; done.
Qed.

Lemma interp_request {A} (p : G pubsubE A) (bro : Broadcaster) s :
  interp h (request p bro) s = ((interp h p s).1, (bro, (interp h p s).2)).
Proof. unfold request. rewrite interp_pbind. by destruct (interp h p s). Qed.

Lemma interp_attempt_call_end {X} (e : pubsubE (res X)) s :
  interp h (attempt (call e)) s =
  (let '(s', x) := do e s in
   (s', match x with
        | Ok a => Ok (inl a) | Err e => Ok (inr e) | Panic w => Panic w | Hang w => Hang w
        end)).
Proof.
  unfold attempt, call, do. simpl. by destruct (h _ e s) as [s' [a|er|w|w]].
Qed.

Lemma interp_assigned set e (bro : Broadcaster) s :
  interp h (assigned set e bro) s =
  (let '(s', x) := do e s in
   match x with
   | Ok p => (s', (set (Some p) bro, Ok tt))
   | Err err => (s', (set None bro, Err err))
   | Panic w => (s', (bro, Panic w))
   | Hang w => (s', (bro, Hang w))
   end).
Proof.
  unfold assigned. rewrite interp_Method_bind, interp_request, interp_attempt_call_end.
  destruct (do e s) as [s' [p|err|w|w]]; done.
Qed.

Hypothesis laws : PubsubLaws.

(** Runs a method up to its next assignment or request. *)
Ltac method :=
  cbn -[assigned request mbind Method_bind ask call attempt];
  repeat (rewrite interp_Method_bind; cbn -[assigned request mbind Method_bind ask call attempt]).

Lemma Start_from_off s nid (sg : Sg) (cf : Cf) (hs : Ha) (dc : Dc) (ps : Ps) : off s nid ->
  exists s' bro, interp h (Start (NewBroadcaster nid sg cf hs dc ps)) s = (s', (bro, Ok tt)) /\
    networkID bro = nid /\ on s' bro.
Proof.
  intros (Hj & Hv & Hs). unfold Start. method. rewrite interp_assigned. unfold NetworkID_String.
  destruct (join_new laws s nid Hj) as (t & E1 & Ht & J1 & S1 & V1).
  destruct (do (Join nid) s) as [s1 x1]. injection E1 as ->. cbn [fst] in J1, S1, V1.
  method. rewrite interp_assigned.
  assert (is_Some (joined s1 !! t)) as Ht1 by (rewrite J1, lookup_insert_eq; eauto).
  destruct (subscribe_open laws s1 t Ht1) as (b & E2 & Hb & J2 & S2 & V2).
  destruct (do (Subscribe t) s1) as [s2 x2]. injection E2 as ->. cbn [fst] in J2, S2, V2.
  method. rewrite interp_request. cbn.
  pose proof (drain laws s2 b) as E3. unfold do in E3. rewrite E3. cbn.
  destruct (register_new laws s2 nid) as (s3 & E4 & J3 & S3 & V3); [by rewrite V2, V1|].
  unfold do in E4. rewrite E4.
  eexists _, _. split; [reflexivity|]. split; [done|].
  exists t, b. cbn. rewrite J3, S3, V3, J2, S2, J1, S1, !lookup_insert_eq.
  split_and!; try done.
  - intros b' [[<- _]|[_ Hb']]%lookup_insert_Some; [done|].
    apply Hs in Hb'. rewrite Ht in Hb'. by destruct Hb'.
  - intros t' [[<- _]|[_ Ht']]%lookup_insert_Some; [done|]. destruct Hj. by exists t'.
  - intros b' t' Hb'. destruct (decide (t' = t)) as [->|Hne]; [rewrite lookup_insert_eq; eauto|].
    rewrite lookup_insert_ne by done. apply lookup_insert_Some in Hb' as [[_ <-]|[_ Hb']]; [done|].
    by eapply Hs.
  - set_solver.
Qed.

(** Stopping cancels, closes and unregisters; what the manager says about its
    rounds is the only error left. *)
Lemma Stop_from_on s (bro : Broadcaster) : on s bro ->
  (forall s, exists x, do StopRounds s = (s, x)) ->
  exists s' x, interp h (Stop bro) s =
    (s', (bro, match x with Err e => Err (Joined [e]) | r => r end)) /\
    do StopRounds s' = (s', x) /\ off s' (networkID bro).
Proof.
  intros (t & b & Et & Eb & Hj & Hsb & Hub & Hut & Hcl & Hv) Hst. unfold Stop. method.
  rewrite Eb. method. rewrite ?interp_Method_bind, interp_request.
  change (interp h (ask (CancelSub b)) s) with (let '(s', x) := do (CancelSub b) s in (s', Ok (A:=unit) x)).
  destruct (cancel_sub laws s b) as (s1 & E1 & J1 & S1 & V1). rewrite E1. cbn [fst snd].
  method. rewrite Et. method. rewrite ?interp_Method_bind, interp_request, interp_attempt_call_end.
  destruct (close_unused laws s1 t) as (s2 & E2 & J2 & S2 & V2).
  { rewrite J1. exists (networkID bro). exact Hj. }
  { intros b'. rewrite S1. intros [Hne Hb']%lookup_delete_Some. by apply Hub in Hb'. }
  rewrite E2. cbn [fst snd]. rewrite interp_Method_bind, interp_request, interp_attempt_call_end.
  destruct (unregister laws s2 (networkID bro)) as (s3 & E3 & J3 & S3 & V3); [by rewrite V2, V1|].
  unfold NetworkID_String. rewrite E3. cbn [fst snd].
  rewrite interp_Method_bind, interp_request, interp_attempt_call_end.
  destruct (Hst s3) as [x E4]. rewrite E4.
  exists s3, x. split; [by destruct x as [[]|e|w|w]|]. split; [done|].
  unfold off, has_topic. rewrite J3, J2, J1, V3, S3, S2, S1. split_and!.
  - intros (t' & [Hne Ht']%lookup_delete_Some). by apply Hut in Ht'.
  - set_solver.
  - intros b' t' [Hne Hb']%lookup_delete_Some. rewrite lookup_delete_ne; [by eapply Hcl|].
    intros <-. by apply Hub in Hb'.
Qed.

(** ** Properties *)

(** C27: [Stop] undoes [Start]: a broadcaster starts on a host where none
    of its network runs, and stopping it leaves such a host again, so that it
    can be started anew; [Stop] fails only with the manager's error. *)
Theorem Stop_undoes_Start s nid (sg : Sg) (cf : Cf) (hs : Ha) (dc : Dc) (ps : Ps) :
  off s nid -> (forall s, exists x, do StopRounds s = (s, x)) ->
  exists s1 bro s2 x, interp h (Start (NewBroadcaster nid sg cf hs dc ps)) s = (s1, (bro, Ok tt)) /\
    interp h (Stop bro) s1 = (s2, (bro, match x with Err e => Err (Joined [e]) | r => r end)) /\
    do StopRounds s2 = (s2, x) /\ off s2 nid.
Proof.
  intros Hoff Hst. destruct (Start_from_off s nid sg cf hs dc ps Hoff) as (s1 & bro & E1 & <- & Hon).
  destruct (Stop_from_on s1 bro Hon Hst) as (s2 & x & E2 & E3 & Hoff2).
  by exists s1, bro, s2, x.
Qed.

(** Starting a running broadcaster again fails and loses its topic: the next
    [Stop] dereferences a nil topic after it has cancelled the subscription,
    and topic and validator stay. *)
Theorem second_Start_breaks_Stop s (bro : Broadcaster) :
  on s bro -> exists bro' err s' w,
    interp h (Start bro) s = (s, (bro', Err err)) /\ topic bro' = None /\
    interp h (Stop bro') s = (s', (bro', Panic w)) /\
    has_topic s' (networkID bro) /\ networkID bro ∈ validators s'.
Proof.
  intros (t & b & Et & Eb & Hj & Hsb & _ & _ & _ & Hv).
  destruct (join_again laws s (networkID bro)) as [err E]; [by exists t|].
  exists (set_topic None bro), err. unfold Start, Stop. method. rewrite interp_assigned.
  unfold NetworkID_String. rewrite E. method. rewrite Eb. method.
  rewrite ?interp_Method_bind, interp_request.
  change (interp h (ask (CancelSub b)) s) with (let '(s', x) := do (CancelSub b) s in (s', Ok (A:=unit) x)).
  destruct (cancel_sub laws s b) as (s1 & E1 & J1 & S1 & V1). rewrite E1. cbn [fst snd]. method.
  eexists s1, _. split_and!; [done..| |by rewrite V1]. exists t. by rewrite J1.
Qed.

(** A [Start] that fails after joining leaves the topic joined, so no later
    [Start] for the network succeeds on the host. *)
Theorem failed_Start_is_not_undone s nid (sg : Sg) (cf : Cf) (hs : Ha) (dc : Dc) (ps : Ps) :
  ~ has_topic s nid -> nid ∈ validators s ->
  exists s' bro err, interp h (Start (NewBroadcaster nid sg cf hs dc ps)) s = (s', (bro, Err err)) /\
    has_topic s' nid /\
    exists bro' err', interp h (Start (NewBroadcaster nid sg cf hs dc ps)) s' = (s', (bro', Err err')).
Proof.
  intros Hj Hv.
  destruct (join_new laws s nid Hj) as (t & E1 & Ht & J1 & S1 & V1).
  destruct (do (Join nid) s) as [s1 x1] eqn:Ej. injection E1 as ->. cbn [fst] in J1, S1, V1.
  assert (is_Some (joined s1 !! t)) as Ht1 by (rewrite J1, lookup_insert_eq; eauto).
  destruct (subscribe_open laws s1 t Ht1) as (b & E2 & Hb & J2 & S2 & V2).
  destruct (do (Subscribe t) s1) as [s2 x2] eqn:Es. injection E2 as ->. cbn [fst] in J2, S2, V2.
  destruct (register_again laws s2 nid) as [err E4]; [by rewrite V2, V1|].
  assert (has_topic s2 nid) as Hj2 by (exists t; by rewrite J2, J1, lookup_insert_eq).
  destruct (join_again laws s2 nid Hj2) as [err' E5].
  exists s2, (set_sub (Some b) (set_topic (Some t) (NewBroadcaster nid sg cf hs dc ps))), err. split_and!; [|done|].
  - unfold Start. method. rewrite interp_assigned. unfold NetworkID_String. rewrite Ej.
    method. rewrite interp_assigned, Es. method. rewrite interp_request. cbn.
    pose proof (drain laws s2 b) as E3. unfold do in E3. rewrite E3. cbn.
    unfold do in E4. by rewrite E4.
  - exists (set_topic None (NewBroadcaster nid sg cf hs dc ps)), err'. unfold Start. method. rewrite interp_assigned.
    unfold NetworkID_String. by rewrite E5.
Qed.
End pubsub.

(** ** A concrete pubsub *)
Module ToyPubsub.

Record state := MkState { joined_ : gmap nat bytes; subs_ : gmap nat nat; validators_ : gset bytes }.

Definition has (s : state) (name : bytes) : bool :=
  existsb (fun '(_, n) => bool_decide (n = name)) (map_to_list (joined_ s)).

Definition used (s : state) (t : nat) : bool :=
  existsb (fun '(_, t') => bool_decide (t' = t)) (map_to_list (subs_ s)).

Definition refused : error := ErrNew "refused".

Definition toy : handler pubsubE state := fun X e s =>
  match e in pubsubE X return state * X with
  | Join name =>
      if has s name then (s, Err refused)
      else let t := fresh (dom (joined_ s)) in
           (MkState (<[t := name]> (joined_ s)) (subs_ s) (validators_ s), Ok t)
  | Subscribe t =>
      let b := fresh (dom (subs_ s)) in
      (MkState (joined_ s) (<[b := t]> (subs_ s)) (validators_ s), Ok b)
  | SpawnDrain _ => (s, tt)
  | RegisterTopicValidator name =>
      if bool_decide (name ∈ validators_ s) then (s, Err refused)
      else (MkState (joined_ s) (subs_ s) ({[name]} ∪ validators_ s), Ok tt)
  | CancelSub b => (MkState (joined_ s) (delete b (subs_ s)) (validators_ s), tt)
  | CloseTopic t =>
      if used s t then (s, Err refused)
      else (MkState (delete t (joined_ s)) (subs_ s) (validators_ s), Ok tt)
  | UnregisterTopicValidator name =>
      (MkState (joined_ s) (subs_ s) (validators_ s ∖ {[name]}), Ok tt)
  | StopRounds => (s, Ok tt)
  end.

Lemma has_topic_has s name : has_topic joined_ s name <-> has s name = true.
Proof.
  unfold has_topic, has. rewrite existsb_exists. split.
  - intros [t Ht]. exists (t, name). split; [|by apply bool_decide_eq_true].
    by apply list_elem_of_In, elem_of_map_to_list.
  - intros ([t n] & Hin & ->%bool_decide_eq_true). exists t.
    by apply elem_of_map_to_list, list_elem_of_In.
Qed.

Lemma used_sub s t : used s t = true -> exists b, subs_ s !! b = Some t.
Proof.
  unfold used. intros ([b t'] & Hin & ->%bool_decide_eq_true)%existsb_exists. exists b.
  by apply elem_of_map_to_list, list_elem_of_In.
Qed.

Lemma toy_laws : PubsubLaws toy joined_ subs_ validators_.
Proof.
  split; unfold do; cbn.
  - intros s name Hn. exists (fresh (dom (joined_ s))).
    destruct (has s name) eqn:E; [by apply has_topic_has in E|]. split_and!; try done.
    apply not_elem_of_dom, is_fresh.
  - intros s name Hn%has_topic_has. rewrite Hn. by eexists.
  - intros s t Ht. eexists. split_and!; try done. apply not_elem_of_dom, is_fresh.
  - done.
  - intros s name Hn. rewrite bool_decide_eq_false_2 by done. by eexists.
  - intros s name Hn. rewrite bool_decide_eq_true_2 by done. by eexists.
  - intros s b. by eexists.
  - intros s t Ht Hs. destruct (used s t) eqn:E; [|by eexists].
    apply used_sub in E as [b Hb]. by destruct (Hs b).
  - intros s name Hn. by eexists.
Qed.

Definition blank : state := MkState ∅ ∅ ∅.
Definition poc : bytes := [x70; x6f; x63].

Lemma blank_off : off joined_ subs_ validators_ blank poc.
Proof. split; [by intros [t Ht]|]. split; [cbn; set_solver|]. by intros b t. Qed.

Lemma Stop_undoes_Start_witness :
  exists s1 bro s2 x, interp toy (Start (NewBroadcaster poc tt tt tt tt tt)) blank = (s1, (bro, Ok tt)) /\
    interp toy (Stop bro) s1 = (s2, (bro, match x with Err e => Err (Joined [e]) | r => r end)) /\
    do toy StopRounds s2 = (s2, x) /\ off joined_ subs_ validators_ s2 poc.
Proof.
  apply (Stop_undoes_Start toy joined_ subs_ validators_ toy_laws blank poc tt tt tt tt tt).
  - exact blank_off.
  - intros s. exists (Ok tt). reflexivity.
Defined.

(** Both failures happen on this pubsub. *)
Example second_Start_example :
  let '(s1, (bro, _)) := interp toy (Start (NewBroadcaster poc tt tt tt tt tt)) blank in
  let '(s2, (bro', r)) := interp toy (Start bro) s1 in
  r = Err refused /\ (interp toy (Stop bro') s2).2.2 = Panic "nil dereference".
Proof. vm_compute. split; reflexivity. Qed.
End ToyPubsub.
