(* ===== verification/System.v ===== *)
(** A node's broadcasting layer as one system: the goroutines that run the
    broadcaster's methods ([Gossip.v]) and the rounds they share ([RoundConc.v]),
    each over the quorum of its round ([Quorum.v]).

    A goroutine is a program with the requests it has made and what is left of
    it.  Requests to a round become calls of the round's methods, which
    interleave with its loop and with all other callers; answers of the round
    manager are constrained to what [ManagedProps.v] proves of it (a round returned
    for a number carries that number); the certifier, the network and the
    bytes that arrive are arbitrary.  [exec_node] is a function of labels, so
    an execution is a list of labels. *)

From S2P Require Import Prelude Prog Crypto Capnp Rebro Includers Quorum Round RoundConc RoundInv RoundQuorum Provenance Gossip.

(** ** The state *)

Section node.
Context {I K S HT : Type} {MI : MessageID I} {PK : Crypto.PubKey K} {PL : PubKeyLaws K}
  {MO : MapOrder} {CP : Capnp} {SI : SignerI S} {HI : HasherI I HT}.
Context (signer : S) (hasher : HT) (decoder : slice -> res I) (incl : Includers K).

Abbreviation Q := (Quorum I K).
Abbreviation C := (Certificate (I:=I) (Q:=Q)).
Abbreviation E := (broE I Q (option C)).
Abbreviation Sys := (sys I C Q).

(** What a goroutine was started for: pubsub calls the validator with the bytes
    of a gossip, the chain calls [Broadcast] with a fresh quorum. *)
Inductive task :=
| Deliver (data : bytes)
| Produce (msg : Message I).

Definition outcome : Type := res ValidationResult + res unit.

Definition code (t : task) : prog E outcome :=
  match t with
  | Deliver data => pbind (deliverGossip signer hasher decoder data) (fun r => Ret (inl r))
  | Produce msg => pbind (Broadcast msg (NewQuorum incl)) (fun r => Ret (inr r))
  end.

(** [g_call]: the round and the caller under which the goroutine is inside a
    method of a round.  [g_trace] is history. *)
Record goroutine := MkGo {
  g_task : task;
  g_trace : list (occ E);
  g_rest : prog E outcome;
  g_call : option (nat * nat);
}.

Record node := MkNode { n_rounds : list Sys; n_gos : gmap nat goroutine }.

Definition idle : node := MkNode [] ∅.

(** ** Requests to a round *)

Definition answer_unit (err : option error) : res unit :=
  match err with None => Ok tt | Some e => Err e end.

Definition answer_comm (comm : option C) (err : option error) : res (option C) :=
  match err with None => Ok comm | Some e => Err e end.

(** The round, the method, and what its results answer. *)
Definition round_call {X} (e : E X)
    : option (nat * request I * (option C -> option error -> X)) :=
  match e in broE _ _ _ X return option (nat * request I * (option C -> option error -> X)) with
  | Gossip.AddCertificate n msg =>
      Some (n, RoundConc.AddCertificate msg, fun _ err => answer_unit err)
  | Gossip.GetCertificate n id => Some (n, RoundConc.GetCertificate id, answer_comm)
  | Gossip.DeleteCertificate n id =>
      Some (n, RoundConc.DeleteCertificate id, fun _ err => answer_unit err)
  | Gossip.AddSignature n id sig =>
      Some (n, RoundConc.AddSignature id sig, fun _ err => answer_unit err)
  | Gossip.Finalize n => Some (n, FinalizeRequest, fun _ err => answer_unit err)
  | _ => None
  end.

(** ** Requests to the manager, the certifier and the network *)

Inductive verdict := VOk | VRound (n : nat) | VErr (e : error) | VPanic (w : string).

Definition plain (v : verdict) : option (res unit) :=
  match v with
  | VOk => Some (Ok tt)
  | VErr e => Some (Err e)
  | VPanic w => Some (Panic w)
  | VRound _ => None
  end.

Definition env_answer {X} (e : E X) (v : verdict) (rounds : list Sys) : option (list Sys * X) :=
  match e in broE _ _ _ X return option (list Sys * X) with
  | StartRound num q =>
      match v with
      | VOk => Some (rounds ++ [start num q], Ok (length rounds))
      | VErr e => Some (rounds, Err e)
      | _ => None
      end
  | GetRound num =>
      match v with
      | VRound n =>
          s ← rounds !! n;
          if bool_decide (roundNum (s_round s) = num) then Some (rounds, Ok n) else None
      | VErr e => Some (rounds, Err e)
      | _ => None
      end
  | StopRound _ => x ← plain v; Some (rounds, x)
  | Certify _ => x ← plain v; Some (rounds, x)
  | Publish _ => x ← plain v; Some (rounds, x)
  | _ => None
  end.

(** ** Steps *)

Inductive node_label :=
| NSpawn (g : nat) (t : task)            (* a goroutine starts *)
| NEnv (g : nat) (v : verdict)           (* its request is answered from outside *)
| NCall (g t : nat)                      (* it enters a method of a round *)
| NReturn (g : nat)                      (* the method returns to it *)
| NRound (n : nat) (l : label I).        (* a step inside a round *)

Definition with_rounds (l : list Sys) (nd : node) : node := MkNode l (n_gos nd).
Definition with_go (g : nat) (go : goroutine) (nd : node) : node :=
  MkNode (n_rounds nd) (<[g := go]> (n_gos nd)).

Definition answered {X} (go : goroutine) (e : E X) (k : X -> prog E outcome) (x : X) : goroutine :=
  MkGo (g_task go) (g_trace go ++ [Occ e x]) (k x) None.

(** The steps of a round that are not a call by the broadcaster; the manager
    calls [Stop], and [Finalize] in its own [Stop]. *)
Definition internal (l : label I) : bool :=
  match l with
  | LCall _ (StopRequest | FinalizeRequest) => true
  | LCall _ _ => false
  | _ => true
  end.

Definition exec_node (l : node_label) (nd : node) : option node :=
  match l with
  | NSpawn g t =>
      match n_gos nd !! g with
      | None => Some (with_go g (MkGo t [] (code t) None) nd)
      | Some _ => None
      end
  | NEnv g v =>
      go ← n_gos nd !! g;
      match g_rest go, g_call go with
      | Vis e k, None =>
          '(rounds, x) ← env_answer e v (n_rounds nd);
          Some (with_go g (answered go e k x) (with_rounds rounds nd))
      | _, _ => None
      end
  | NCall g t =>
      go ← n_gos nd !! g;
      match g_rest go, g_call go with
      | Vis e k, None =>
          '(n, rq, _) ← round_call e;
          s ← n_rounds nd !! n;
          s' ← exec_label (LCall t rq) s;
          Some (with_go g (MkGo (g_task go) (g_trace go) (g_rest go) (Some (n, t)))
                  (with_rounds (<[n := s']> (n_rounds nd)) nd))
      | _, _ => None
      end
  | NReturn g =>
      go ← n_gos nd !! g;
      match g_rest go, g_call go with
      | Vis e k, Some (n, t) =>
          '(_, _, ans) ← round_call e;
          s ← n_rounds nd !! n;
          cl ← s_callers s !! t;
          match pc cl with
          | PReturned comm err => Some (with_go g (answered go e k (ans comm err)) nd)
          | _ => None
          end
      | _, _ => None
      end
  | NRound n l =>
      if internal l
      then s ← n_rounds nd !! n;
           s' ← exec_label l s;
           Some (with_rounds (<[n := s']> (n_rounds nd)) nd)
      else None
  end.

Fixpoint exec_nodes (ls : list node_label) (nd : node) : option node :=
  match ls with
  | [] => Some nd
  | l :: ls' => nd' ← exec_node l nd; exec_nodes ls' nd'
  end.

(** The states of the node. *)
Definition runs_to (ls : list node_label) (nd : node) : Prop := exec_nodes ls idle = Some nd.
End node.
