(* ===== verification/SystemInv.v ===== *)
(** The invariant of a node's broadcasting layer ([System.v]): every round is
    an execution whose requests are sound, every goroutine is part-way through
    its program, and the answers it got still hold.  What makes a request sound
    includes where it came from: a signature that is added to a round was
    carried by a gossip that arrived at the node. *)

From S2P Require Import Prelude Prog Crypto Capnp Rebro Includers Quorum Round RoundConc RoundInv RoundQuorum Provenance Gossip System.

(** ** What goroutines ask of rounds *)

Section requests.
Context {I K S HT : Type} {MI : MessageID I} {PK : Crypto.PubKey K} {PL : PubKeyLaws K}
  {MO : MapOrder} {CP : Capnp} {SI : SignerI S} {HI : HasherI I HT}.
Context (signer : S) (hasher : HT) (decoder : slice -> res I) (incl : Includers K).

(** The gossips that arrived at the node. *)
Context (arrived : bytes -> Prop).

Abbreviation Q := (Quorum I K).
Abbreviation C := (Certificate (I:=I) (Q:=Q)).
Abbreviation E := (broE I Q (option C)).

(** A message as [processData] checks it before it adds it. *)
Definition checked (num : Z) (id : I) (msg : Message I) : Prop :=
  Round id = num /\ mid_Validate id = Ok tt /\
  exists h, Hash hasher msg = Ok h /\ h = sl (mid_Hash id).

(** What the bytes of a gossip carry. *)
Definition carries_signature (data : bytes) (canonicalID : slice) (sig : Signature) : Prop :=
  exists m gsp, Unmarshal data = Ok m /\ gossipmsg.ReadRootGossip m = Ok gsp /\
    gossipmsg.Which gsp = gossipmsg.Gossip_Which_signature /\
    gossipmsg.Id gsp = Ok canonicalID /\
    gossipmsg.Signature_Signature gsp = Ok (Body sig) /\
    gossipmsg.Signature_Signer gsp = Ok (Crypto.Signer sig).

(** A signature as [processSignature] checks it: over an encoding of an
    identifier of the round, with both in a gossip that arrived. *)
Definition verified (num : Z) (id : I) (sig : Signature) : Prop :=
  Round id = num /\ exists data canonicalID, arrived data /\
    carries_signature data canonicalID sig /\ decoder canonicalID = Ok id /\
    Verify signer (sl canonicalID) sig = Ok tt.

(** Tasks and labels that deliver only what arrived. *)
Definition task_arrived (t : task (I:=I)) : Prop :=
  match t with Deliver data => arrived data | Produce _ => True end.
Definition label_arrived (l : node_label (I:=I)) : Prop :=
  match l with NSpawn _ t => task_arrived t | _ => True end.

Definition sound_at (num : Z) : request I -> Prop := sound (checked num) (verified num).

(** Observations of a request and its answer. *)
Definition asked (o : occ E) : option (nat * request I) :=
  let '@Occ _ X e x := o in fst <$> round_call e.

Definition got_round (o : occ E) : option (Z * nat) :=
  let '@Occ _ X e x := o in
  match e in broE _ _ _ X return X -> option (Z * nat) with
  | GetRound num => fun x => match x with Ok n => Some (num, n) | _ => None end
  | StartRound num _ => fun x => match x with Ok n => Some (num, n) | _ => None end
  | _ => fun _ => None
  end x.

Definition finalized (o : occ E) : option nat :=
  let '@Occ _ X e x := o in
  match e in broE _ _ _ X return X -> option nat with
  | Gossip.Finalize n => fun x => match x with Ok _ => Some n | _ => None end
  | _ => fun _ => None
  end x.

Definition started_with (o : occ E) : option Q :=
  let '@Occ _ X e x := o in
  match e in broE _ _ _ X return option Q with StartRound _ q => Some q | _ => None end.

(** The gossip handlers' requests to rounds are sound. *)
Lemma deliver_run data tr r :
  runs (deliverGossip (Q:=Q) (C:=option C) signer hasher decoder data) tr r ->
  tr = [] \/ exists m gsp x, Unmarshal data = Ok m /\ gossipmsg.ReadRootGossip m = Ok gsp /\
    (data_run signer hasher decoder gsp tr x \/
     gossipmsg.Which gsp = gossipmsg.Gossip_Which_signature /\ signature_run signer decoder gsp tr x).
Proof.
  unfold deliverGossip, recovering. intros (tr1 & tr2 & v & -> & H & H2)%runs_pbind.
  assert (tr2 = []) as -> by (destruct v; by destruct H2 as [-> _]). rewrite app_nil_r. clear H2.
  apply (proj1 (runs_attempt_lit _ _ _ _)) in H.
  run_step H; try (run_step H; by left).
  apply (proj1 (runs_attempt_lit _ _ _ _)) in H.
  run_step H; try (run_step H; by left).
  apply (proj1 (runs_attempt_bind _ _ _ _)) in H as (tr3 & tr4 & x & -> & H1 & H).
  assert (tr4 = []) as -> by (run_step H; by run_step H).
  rewrite app_nil_r. clear H. unfold processGossip in H1. case_match.
  - right. eexists _, _, _. split_and!; [done..|]. left. by apply runs_processData.
  - destruct (bool_decide_reflect (gossipmsg.Which a0 = gossipmsg.Gossip_Which_signature)) as [Hw|];
      [|run_step H1; by left].
    right. eexists _, _, _. split_and!; [done..|]. right. split; [done|]. by apply runs_processSignature.
Qed.

Definition sound_request (tr : list (occ E)) (o : occ E) : Prop :=
  (forall q, started_with o = Some q -> q = NewQuorum incl) /\
  forall n rq, asked o = Some (n, rq) ->
    (forall num, sound_at num rq) \/
    exists num, (num, n) ∈ omap got_round tr /\ sound_at num rq.

Lemma code_sound t tr r : task_arrived t ->
  runs (code signer hasher decoder incl t) tr r -> Forall (sound_request tr) tr.
Proof.
  assert (forall tr o n rq, started_with o = None -> asked o = Some (n, rq) ->
    (forall num, sound_at num rq) -> sound_request tr o) as Htriv.
  { intros tr0 o n rq Es E0 Hs. split; [by rewrite Es|]. intros n' rq' E1.
    rewrite E0 in E1. injection E1 as <- <-. by left. }
  assert (forall tr o, started_with o = None -> asked o = None -> sound_request tr o) as Hnone.
  { intros tr0 o Es E0. split; [by rewrite Es|]. intros n rq E1. by rewrite E0 in E1. }
  destruct t as [data|msg]; simpl; intros Ha (tr1 & tr2 & v & -> & H & [-> _])%runs_pbind;
    rewrite app_nil_r.
  - apply deliver_run in H as [->|(m & gsp & x & Eb & Er & [H|[Hw H]])]; [constructor|..].
    + assert (forall num n canonicalID msg id x tr, data_checked hasher decoder gsp canonicalID msg id ->
        got_round (Occ (GetRound (Round id)) (Ok n)) = Some (num, n) ->
        sound_request (Occ (GetRound (Round id)) (Ok n) :: tr) (Occ (Gossip.AddCertificate n msg) x)) as Hadd.
      { intros num n canonicalID msg id x0 tr0 (_ & _ & Hid & _ & Hv & Hh) _.
        split; [done|]. intros n' rq [= <- <-]. right. exists (Round id). split; [simpl; left|]. exists id. by split_and!. }
      destruct H; repeat first [apply Forall_nil_2|apply Forall_cons_2]; try (by apply Hnone); try (by eapply Hadd);
        try (by eapply Htriv).
    + destruct H; repeat first [apply Forall_nil_2|apply Forall_cons_2]; try (by apply Hnone); try (by eapply Htriv).
      split; [done|]. intros n' rq [= <- <-]. right. exists (Round id).
      split; [simpl; left|]. split; [done|].
      exists data, canonicalID. split_and!; [done| |done..]. exists m, gsp. by split_and!.
  - apply runs_Broadcast in H. destruct H; repeat first [apply Forall_nil_2|apply Forall_cons_2];
      try (by apply Hnone); try (by eapply Htriv); (split; [by intros q [= <-]|done]).
Qed.
End requests.

(** ** The invariant *)

Section inv.
Context {I K S HT : Type} {MI : MessageID I} {PK : Crypto.PubKey K} {PL : PubKeyLaws K}
  {MO : MapOrder} {CP : Capnp} {SI : SignerI S} {HI : HasherI I HT}.
Context (signer : S) (hasher : HT) (decoder : slice -> res I).
Context (incl : Includers K) (fresh : fresh_includers incl).
Context (arrived : bytes -> Prop).

Abbreviation Q := (Quorum I K).
Abbreviation C := (Certificate (I:=I) (Q:=Q)).
Abbreviation E := (broE I Q (option C)).
Abbreviation Sys := (sys I C Q).
Abbreviation node := (node (I:=I) (K:=K)).
Abbreviation goroutine := (goroutine (I:=I) (K:=K)).
Implicit Types (s : Sys) (nd : node) (go : goroutine).

Abbreviation sound_in num := (sound_at (I:=I) signer hasher decoder arrived num).
Abbreviation genuine_in num :=
  (genuine incl (checked (I:=I) hasher num) (verified signer decoder arrived num)).
Abbreviation finalizing_in := (finalizing (Q:=Q) (final incl)).

(** A round of the number [num], all of whose requests were sound. *)
Definition round_run (num : Z) s : Prop := execution (sound_in num) num (NewQuorum incl) s.

Lemma round_run_inv num s :
  round_run num s -> exec_inv (sound_in num) (genuine_in num) (final incl) num s.
Proof. apply execution_inv; [by apply genuine_invariant|apply genuine_new]. Qed.

(** What a later state of the rounds keeps of an earlier one. *)
Definition is_final s : Prop := final incl (quorum (s_round s)).

Definition rounds_le (l l' : list Sys) : Prop :=
  forall n s, l !! n = Some s -> exists s', l' !! n = Some s' /\
    roundNum (s_round s') = roundNum (s_round s) /\ (is_final s -> is_final s') /\
    forall t, finalizing_in s t -> finalizing_in s' t.

(** The answers a goroutine got about rounds. *)
Definition still_true (l : list Sys) (o : occ E) : Prop :=
  (forall num n, got_round o = Some (num, n) ->
     exists s, l !! n = Some s /\ roundNum (s_round s) = num) /\
  (forall n, finalized o = Some n -> exists s, l !! n = Some s /\ is_final s).

Definition pending go : option (nat * request I) :=
  match g_rest go with Vis e _ => fst <$> round_call e | Ret _ => None end.

Record go_ok (l : list Sys) go : Prop := {
  gk_task : task_arrived arrived (g_task go);
  gk_rest : residual (code signer hasher decoder incl (g_task go)) (g_trace go) (g_rest go);
  gk_trace : Forall (still_true l) (g_trace go);
  gk_call : forall n t, g_call go = Some (n, t) -> pending go = Some (n, FinalizeRequest) ->
    exists s, l !! n = Some s /\ finalizing_in s t;
  gk_round : forall n t, g_call go = Some (n, t) -> exists rq, pending go = Some (n, rq);
}.

Record node_ok nd : Prop := {
  nk_rounds : forall n s, n_rounds nd !! n = Some s -> exists num, round_run num s;
  nk_gos : forall g go, n_gos nd !! g = Some go -> go_ok (n_rounds nd) go;
}.

#[export] Instance rounds_le_preorder : PreOrder rounds_le.
Proof.
  split; [by intros l n s Hs; exists s|].
  intros l1 l2 l3 H12 H23 n s1 (s2 & H2 & E2 & F2 & T2)%H12.
  destruct (H23 n s2 H2) as (s3 & H3 & E3 & F3 & T3). exists s3. split_and!; try done; [congruence|..]; auto.
Qed.

Lemma rounds_le_app l l' : rounds_le l (l ++ l').
Proof. intros n s Hs. exists s. split_and!; try done. by apply lookup_app_l_Some. Qed.

Lemma still_true_le l l' o : rounds_le l l' -> still_true l o -> still_true l' o.
Proof.
  intros Hle [H1 H2]. split.
  - intros num n E. destruct (H1 num n E) as (s & Hs & En).
    destruct (Hle n s Hs) as (s' & Hs' & En' & _). exists s'. split; [done|congruence].
  - intros n E. destruct (H2 n E) as (s & Hs & Hf).
    destruct (Hle n s Hs) as (s' & Hs' & _ & Hf' & _). eauto.
Qed.

Lemma go_ok_le l l' go : rounds_le l l' -> go_ok l go -> go_ok l' go.
Proof.
  intros Hle [Ha Hr Ht Hc Hn]. split; [done|done| | |done].
  - eapply Forall_impl; [exact Ht|]. intros o. by apply still_true_le.
  - intros n t E1 E2. destruct (Hc n t E1 E2) as (s & Hs & Hf).
    destruct (Hle n s Hs) as (s' & Hs' & _ & _ & Hf'). eauto.
Qed.

(** A step of one round. *)
Lemma round_step_le l n num s lb s' :
  l !! n = Some s -> round_run num s -> label_sat (sound_in num) lb ->
  exec_label lb s = Some s' -> rounds_le l (<[n := s']> l) /\ round_run num s'.
Proof.
  intros Hn Hr Hsat H. assert (round_run num s') as Hr' by (by eapply ex_step).
  split; [|done]. intros m s0 Hm. destruct (decide (m = n)) as [->|Hne].
  - assert (s0 = s) as -> by congruence. exists s'. rewrite list_lookup_insert_eq by (by eapply lookup_lt_Some).
    pose proof (genuine_invariant incl fresh (checked hasher num) (verified signer decoder arrived num)) as QI.
    split_and!; [done| | |].
    + by rewrite (ei_num _ _ _ _ _ (round_run_inv num s' Hr')), (ei_num _ _ _ _ _ (round_run_inv num s Hr)).
    + by eapply (execution_stays _ _ _ QI num _ lb); [apply genuine_new|..].
    + intros t. by eapply (execution_finalizing _ _ _ QI num _ lb); [apply genuine_new|..].
  - exists s0. by rewrite list_lookup_insert_ne.
Qed.

Lemma insert_rounds_runs (l : list Sys) n num s' :
  (forall m s, l !! m = Some s -> exists num, round_run num s) -> round_run num s' ->
  forall m s, <[n := s']> l !! m = Some s -> exists num, round_run num s.
Proof.
  intros Hl Hs' m s [(<- & <- & _)|[_ Hm]]%list_lookup_insert_Some; eauto.
Qed.

(** *** The request a goroutine is about to make *)

Definition failing (X : Type) (e : E X) : X :=
  match e in broE _ _ _ X return X with
  | StartRound _ _ => Err (ErrNew "") | GetRound _ => Err (ErrNew "")
  | StopRound _ => Err (ErrNew "") | Gossip.AddCertificate _ _ => Err (ErrNew "")
  | Gossip.GetCertificate _ _ => Err (ErrNew "") | Gossip.DeleteCertificate _ _ => Err (ErrNew "")
  | Gossip.AddSignature _ _ _ => Err (ErrNew "") | Gossip.Finalize _ => Err (ErrNew "")
  | Certify _ => Err (ErrNew "") | Publish _ => Err (ErrNew "")
  end.

Lemma next_request l go X (e : E X) k :
  go_ok l go -> g_rest go = Vis e k ->
  (forall q, started_with (Occ e (failing X e)) = Some q -> q = NewQuorum incl) /\
  forall n rq, fst <$> round_call e = Some (n, rq) ->
    (forall num, sound_in num rq) \/
    exists num s, l !! n = Some s /\ roundNum (s_round s) = num /\ sound_in num rq.
Proof.
  intros [Hta Hr Ht _ _] Eg. rewrite Eg in Hr.
  destruct (runs_to_end failing (k (failing X e))) as (tr & r & Hk & Hfail).
  assert (runs (code signer hasher decoder incl (g_task go))
    (g_trace go ++ Occ e (failing X e) :: tr) r) as H.
  { eapply residual_runs; [exact Hr|]. simpl. eauto. }
  apply (code_sound _ _ _ _ arrived _ _ _ Hta) in H. apply Forall_app in H as [_ [[Hq Ha] _]%Forall_cons].
  split; [exact Hq|]. intros n rq E0.
  destruct (Ha n rq E0) as [?|(num & Hin & Hs)]; [by left|]. right.
  assert (omap got_round (Occ e (failing X e) :: tr) = []) as Hnil.
  { assert (Forall (fun o : occ E => exists X (e : E X), o = Occ e (failing X e))
      (Occ e (failing X e) :: tr)) as Hf by (constructor; eauto).
    clear -Hf. induction Hf as [|o t (Y & e0 & ->) _ IH]; [done|]. destruct e0; exact IH. }
  rewrite omap_app, Hnil, app_nil_r in Hin. apply list_elem_of_omap in Hin as (o & Ho & Eo).
  destruct (proj1 (Forall_forall _ _) Ht o Ho) as [H1 _].
  destruct (H1 num n Eo) as (s & Hs' & En). by exists num, s.
Qed.

Lemma env_answer_spec X (e : E X) v (l l' : list Sys) x :
  env_answer e v l = Some (l', x) ->
  (forall q, started_with (Occ e (failing X e)) = Some q -> q = NewQuorum incl) ->
  rounds_le l l' /\ still_true l' (Occ e x) /\
  ((forall n s, l !! n = Some s -> exists num, round_run num s) ->
   forall n s, l' !! n = Some s -> exists num, round_run num s).
Proof.
  intros H Hq. destruct e; cbn in H; try done.
  - destruct v; simplify_eq/=; try done; try (by split_and!).
    rewrite (Hq q eq_refl). split_and!; [apply rounds_le_app|split; [|done]|].
    + intros num n0 [= -> <-]. eexists. split; [by apply list_lookup_middle|done].
    + intros Hl m s [Hm|[_ Hm]]%lookup_app_Some; [by eapply Hl|].
      apply list_lookup_singleton_Some in Hm as [_ <-]. exists n. constructor.
  - destruct v; simplify_eq/=; try done; try (by split_and!).
    apply bind_Some in H as (s & Hs & H). case_bool_decide; simplify_eq.
    split_and!; [done|split; [|done]|done]. intros num n [= <- <-]. eauto.
  - destruct (plain v); simplify_eq/=. by split_and!.
  - destruct (plain v); simplify_eq/=. by split_and!.
  - destruct (plain v); simplify_eq/=. by split_and!.
Qed.

(** *** Steps preserve it *)

(** A goroutine moves, the rounds only grow or go on. *)
Lemma node_ok_moved nd l' g go' :
  node_ok nd -> rounds_le (n_rounds nd) l' ->
  (forall n s, l' !! n = Some s -> exists num, round_run num s) -> go_ok l' go' ->
  node_ok (with_go g go' (with_rounds l' nd)).
Proof.
  intros [Hr Hg] Hle Hl' Hgo'. split; [exact Hl'|]. cbn.
  intros g0 go [[<- <-]|[_ H0]]%lookup_insert_Some; [done|]. eapply go_ok_le; [exact Hle|]. by eapply Hg.
Qed.

Lemma answered_ok l go X (e : E X) k x :
  go_ok l go -> g_rest go = Vis e k -> still_true l (Occ e x) -> go_ok l (answered go e k x).
Proof.
  intros [Ha Hr Ht _ _] Eg Hx. rewrite Eg in Hr. split; [done|exact (residual_answer _ _ _ e k x Hr)| |done..].
  apply Forall_app_2; [done|]. by constructor.
Qed.

(** What a method's results tell the goroutine. *)
Lemma returned_true l X (e : E X) n rq ans t s cl comm err :
  round_call e = Some (n, rq, ans) -> l !! n = Some s -> s_callers s !! t = Some cl ->
  pc cl = PReturned comm err -> (rq = FinalizeRequest -> finalizing_in s t) ->
  still_true l (Occ e (ans comm err)).
Proof.
  intros Hc Hs Hcl Hp Hfin. destruct e; cbn in Hc; try done; injection Hc as <- <- <-; try done.
  split; [done|]. intros n0 E0. destruct (Hfin eq_refl) as (cl' & Hcl' & Hf).
  rewrite Hcl in Hcl'. injection Hcl' as <-.
  destruct Hf as [Hf|(c & er & Hf & Hok)]; rewrite Hp in Hf; [done|]. injection Hf as <- <-.
  destruct err; [done|]. injection E0 as <-. exists s. split; [done|]. by apply Hok.
Qed.

Lemma entered_finalizing t s s' :
  exec_label (LCall t FinalizeRequest) s = Some s' -> finalizing_in s' t.
Proof.
  unfold exec_label. destruct (s_crash s); [done|]. destruct (s_callers s !! t); [done|].
  intros [= <-]. eexists. split; [apply lookup_insert_eq|]. by left.
Qed.

Lemma call_ok nd g go t X (e : E X) k n rq ans s s' :
  node_ok nd -> n_gos nd !! g = Some go -> g_rest go = Vis e k ->
  round_call e = Some (n, rq, ans) -> n_rounds nd !! n = Some s ->
  exec_label (LCall t rq) s = Some s' ->
  rounds_le (n_rounds nd) (<[n := s']> (n_rounds nd)) /\
  node_ok (with_go g (MkGo (g_task go) (g_trace go) (g_rest go) (Some (n, t)))
             (with_rounds (<[n := s']> (n_rounds nd)) nd)).
Proof.
  intros Hnd Hg Eg Hc Hn Hex. pose proof (nk_gos _ Hnd g go Hg) as Hgo.
  destruct (nk_rounds _ Hnd n s Hn) as [num Hr].
  destruct (next_request _ go X e k Hgo Eg) as [_ Hask].
  assert (sound_in num rq) as Hsat.
  { destruct (Hask n rq) as [Hany|(num' & s0 & Hs0 & En & Hsd)]; [by rewrite Hc|by apply Hany|].
    assert (s0 = s) as -> by congruence.
    by rewrite <- (ei_num _ _ _ _ _ (round_run_inv num s Hr)), En. }
  destruct (round_step_le (n_rounds nd) n num s (LCall t rq) s' Hn Hr Hsat Hex) as [Hle Hr'].
  split; [exact Hle|]. apply node_ok_moved; [done|exact Hle| |].
  - eapply insert_rounds_runs; [apply Hnd|exact Hr'].
  - destruct (go_ok_le _ _ _ Hle Hgo) as [H0 H1 H2 _ _]. split; [done|done|done| |].
    + intros n0 t0 [= <- <-] Hpend. unfold pending in Hpend. cbn [g_rest] in Hpend.
      rewrite Eg, Hc in Hpend. injection Hpend as ->. exists s'. split.
      * apply list_lookup_insert_eq. by eapply lookup_lt_Some.
      * by eapply entered_finalizing.
    + intros n0 t0 [= <- <-]. exists rq. unfold pending. cbn [g_rest]. by rewrite Eg, Hc.
Qed.

Lemma step_node_ok l nd nd' :
  node_ok nd -> label_arrived arrived l -> exec_node signer hasher decoder incl l nd = Some nd' ->
  node_ok nd' /\ rounds_le (n_rounds nd) (n_rounds nd').
Proof.
  intros Hnd Ha H. destruct l as [g t|g v|g t|g|n lb]; cbn [exec_node] in H.
  - destruct (n_gos nd !! g) eqn:Hg; simplify_eq. split; [|done].
    apply (node_ok_moved nd (n_rounds nd)); [done|done|apply Hnd|].
    split; try done; constructor.
  - apply bind_Some in H as (go & Hg & H). pose proof (nk_gos _ Hnd g go Hg) as Hgo.
    destruct (g_rest go) as [|X e k] eqn:Eg; [done|]. destruct (g_call go); [done|].
    apply bind_Some in H as ([l' x] & He & [= <-]).
    destruct (env_answer_spec X e v _ l' x He) as (Hle & Hx & Hl').
    { by eapply next_request. }
    split; [|exact Hle]. apply node_ok_moved; [done|done|apply Hl', Hnd|].
    eapply answered_ok; [|done|done]. by eapply go_ok_le.
  - apply bind_Some in H as (go & Hg & H).
    destruct (g_rest go) as [|X e k] eqn:Eg; [done|]. destruct (g_call go); [done|].
    apply bind_Some in H as ([[n rq] ans] & Hc & H).
    apply bind_Some in H as (s & Hn & H). apply bind_Some in H as (s' & Hex & [= <-]).
    destruct (call_ok nd g go t X e k n rq ans s s') as [Hle Hok]; try done.
    rewrite Eg in Hok. done.
  - apply bind_Some in H as (go & Hg & H). pose proof (nk_gos _ Hnd g go Hg) as Hgo.
    destruct (g_rest go) as [|X e k] eqn:Eg; [done|].
    destruct (g_call go) as [[n t]|] eqn:Ec; [|done].
    apply bind_Some in H as ([[n' rq] ans] & Hc & H).
    apply bind_Some in H as (s & Hn & H). apply bind_Some in H as (cl & Hcl & H).
    destruct (pc cl) as [| | | | | |comm err] eqn:Ep; simplify_eq. split; [|done].
    apply (node_ok_moved nd (n_rounds nd)); [done|done|apply Hnd|].
    assert (pending go = Some (n', rq)) as Hpend by (unfold pending; by rewrite Eg, Hc).
    destruct (gk_round _ _ Hgo n t Ec) as [rq' Hpend']. rewrite Hpend in Hpend'.
    injection Hpend' as -> <-. eapply answered_ok; [done|done|].
    eapply returned_true; [exact Hc|exact Hn|exact Hcl|exact Ep|].
    intros ->. destruct (gk_call _ _ Hgo n t Ec Hpend) as (s0 & Hs0 & Hf).
    assert (s0 = s) as -> by congruence. exact Hf.
  - destruct (internal lb) eqn:Hi; [|done]. apply bind_Some in H as (s & Hn & H).
    apply bind_Some in H as (s' & Hex & [= <-]). destruct (nk_rounds _ Hnd n s Hn) as [num Hr].
    assert (label_sat (sound_in num) lb) as Hsat by (destruct lb as [t []| | | | | | | | | | |]; done).
    destruct (round_step_le (n_rounds nd) n num s lb s' Hn Hr Hsat Hex) as [Hle Hr'].
    split; [|exact Hle]. split.
    + eapply insert_rounds_runs; [apply Hnd|exact Hr'].
    + intros g go Hg. eapply go_ok_le; [exact Hle|]. by apply (nk_gos _ Hnd g).
Qed.

Lemma idle_ok : node_ok idle.
Proof. split; [by intros n s|]. by intros g go. Qed.

Lemma runs_to_ok ls nd :
  Forall (label_arrived arrived) ls -> runs_to signer hasher decoder incl ls nd -> node_ok nd.
Proof.
  unfold runs_to. generalize idle_ok. generalize (idle (I:=I) (K:=K)). intros nd0 Hok Hls.
  revert nd0 Hok. induction Hls as [|l ls Hl _ IH]; intros nd0 Hok H; cbn [exec_nodes] in H; [by simplify_eq|].
  apply bind_Some in H as (nd1 & H1 & H2). destruct (step_node_ok l nd0 nd1 Hok Hl H1) as [Hok1 _].
  by eapply IH.
Qed.
End inv.

(** ** The cases of a step *)

Section steps.
Context {I K S HT : Type} {MI : MessageID I} {PK : Crypto.PubKey K} {PL : PubKeyLaws K}
  {MO : MapOrder} {CP : Capnp} {SI : SignerI S} {HI : HasherI I HT}.
Context (signer : S) (hasher : HT) (decoder : slice -> res I) (incl : Includers K).

Abbreviation E := (broE I (Quorum I K) (option (Certificate (I:=I) (Q:=Quorum I K)))).
Abbreviation layer_step := (exec_node signer hasher decoder incl).
Implicit Types (nd : node (I:=I) (K:=K)) (go : goroutine (I:=I) (K:=K)).

(** The number of the round a goroutine waits to start. *)
Definition starting nd (g : nat) : option Z :=
  go ← n_gos nd !! g;
  match g_rest go, g_call go with
  | Vis e _, None =>
      match e in broE _ _ _ X return option Z with StartRound num _ => Some num | _ => None end
  | _, _ => None
  end.

(** What a step does to the rounds: nothing, a step of one of them, or a new
    one. *)
Inductive rounds_step nd (l : node_label (I:=I)) (nd' : node (I:=I) (K:=K)) : Prop :=
| rs_same : n_rounds nd' = n_rounds nd -> rounds_step nd l nd'
| rs_round n s lb s' :
    n_rounds nd !! n = Some s -> RoundConc.exec_label lb s = Some s' ->
    n_rounds nd' = <[n := s']> (n_rounds nd) -> rounds_step nd l nd'
| rs_new g num q :
    l = NEnv g VOk -> starting nd g = Some num ->
    n_rounds nd' = n_rounds nd ++ [start num q] -> rounds_step nd l nd'.

Lemma step_rounds l nd nd' : layer_step l nd = Some nd' -> rounds_step nd l nd'.
Proof.
  intros H. destruct l as [g t|g v|g t|g|n lb]; cbn [exec_node] in H.
  - destruct (n_gos nd !! g); simplify_eq. by apply rs_same.
  - apply bind_Some in H as (go & Hg & H). destruct (g_rest go) as [|X e k] eqn:Er; [done|].
    destruct (g_call go) eqn:Ec; [done|]. apply bind_Some in H as ([l' x] & He & [= <-]).
    destruct e; cbn in He; try done; try (destruct (plain v); simplify_eq/=; by apply rs_same).
    + destruct v; simplify_eq/=; try (by apply rs_same). eapply rs_new; [done| |done].
      unfold starting. by rewrite Hg; cbn; rewrite Er, Ec.
    + destruct v; simplify_eq/=; try (by apply rs_same). apply bind_Some in He as (s & _ & He).
      case_bool_decide; simplify_eq. by apply rs_same.
  - apply bind_Some in H as (go & Hg & H). destruct (g_rest go) as [|X e k]; [done|].
    destruct (g_call go); [done|]. apply bind_Some in H as ([[n rq] ans] & _ & H).
    apply bind_Some in H as (s & Hs & H). apply bind_Some in H as (s' & Hx & [= <-]).
    by eapply rs_round.
  - apply bind_Some in H as (go & Hg & H). destruct (g_rest go) as [|X e k]; [done|].
    destruct (g_call go) as [[n t]|]; [|done]. apply bind_Some in H as ([[n' rq] ans] & _ & H).
    apply bind_Some in H as (s & _ & H). apply bind_Some in H as (cl & _ & H).
    destruct (pc cl); simplify_eq. by apply rs_same.
  - destruct (internal lb); [|done]. apply bind_Some in H as (s & Hs & H).
    apply bind_Some in H as (s' & Hx & [= <-]). by eapply rs_round.
Qed.

(** A goroutine with a request to no round only moves when it is answered. *)
Lemma step_waiting l nd nd' g go X (e : E X) k :
  layer_step l nd = Some nd' -> n_gos nd !! g = Some go -> g_rest go = Vis e k ->
  g_call go = None -> round_call e = None -> (forall v, l <> NEnv g v) ->
  n_gos nd' !! g = Some go.
Proof.
  intros H Hg Er Ec Hrc Hl.
  assert (pending go = None) as Hp by (unfold pending; rewrite Er; by rewrite Hrc).
  clear Er Hrc. destruct l as [g' t|g' v|g' t|g'|n lb]; cbn [exec_node] in H.
  - destruct (n_gos nd !! g') eqn:Hg'; simplify_eq. cbn. by rewrite lookup_insert_ne by congruence.
  - apply bind_Some in H as (go' & Hg' & H). destruct (g_rest go'); [done|].
    destruct (g_call go'); [done|]. apply bind_Some in H as ([l' x] & _ & [= <-]). cbn.
    rewrite lookup_insert_ne; [done|]. intros ->. by apply (Hl v).
  - apply bind_Some in H as (go' & Hg' & H). destruct (g_rest go') as [|X' e' k'] eqn:Er'; [done|].
    destruct (g_call go') eqn:Ec'; [done|]. apply bind_Some in H as ([[n rq] ans] & Hrc' & H).
    apply bind_Some in H as (s & _ & H). apply bind_Some in H as (s' & _ & [= <-]). cbn.
    rewrite lookup_insert_ne; [done|]. intros ->. assert (go' = go) as -> by congruence.
    unfold pending in Hp. rewrite Er' in Hp. by rewrite Hrc' in Hp.
  - apply bind_Some in H as (go' & Hg' & H). destruct (g_rest go') as [|X' e' k']; [done|].
    destruct (g_call go') as [[n t]|] eqn:Ec'; [|done]. apply bind_Some in H as ([[n' rq] ans] & _ & H).
    apply bind_Some in H as (s & _ & H). apply bind_Some in H as (cl & _ & H).
    destruct (pc cl); simplify_eq. cbn. rewrite lookup_insert_ne; [done|]. intros ->. congruence.
  - destruct (internal lb); [|done]. apply bind_Some in H as (s & _ & H).
    by apply bind_Some in H as (s' & _ & [= <-]).
Qed.
End steps.

(** The gossips an execution delivers. *)
Definition arrived_in {I} (ls : list (node_label (I:=I))) (data : bytes) : Prop :=
  exists g, NSpawn g (Deliver data) ∈ ls.

Lemma labels_arrived {I} (ls : list (node_label (I:=I))) : Forall (label_arrived (arrived_in ls)) ls.
Proof. apply Forall_forall. intros [g [data|msg]| | | |] Hl; try done. by exists g. Qed.
