(* ===== verification/Dag.v ===== *)
(** The DAG chain on top of reliable broadcast: the hasher ([dag/hasher.go]),
    the certifier of blocks ([dag/certifier.go]) and the production of blocks
    ([dag/chain.go]), as programs over the requests they make to the batch pool,
    the includer set and the broadcaster. *)

From S2P Require Import Prelude Prog Sha256 Crypto Capnp Rebro Bapl Block Includers.

(** ** hasher.go *)

Inductive hasher := NewHasher.

#[export] Instance hasher_HasherI {I} : HasherI I hasher :=
  fun _ msg => Ok (sha256 (sl (msgData msg))).

(** ** certifier.go *)

(** What the certifier asks of the batch pool. *)
Inductive certE : Type -> Type :=
| Pull (hash : slice) : certE (res Batch).

Section certifier.
Context {CP : Capnp}.

Definition Certify (msg : Message blockID) : G certE unit :=
  if is_nil (msgData msg) then lit (Err (ErrNew "block data is empty"))
  else
    id ← lit (nonnil (msgID msg));
    lit (map_err (wrapf "validating blockID") (mid_Validate id)) ;;
    blk ← lit (map_err (wrapf "unmarshalling block") (UnmarshalBlock (sl (msgData msg))));
    lit (map_err (wrapf "validating block") (Block_Validate blk)) ;;
    gfor (Block_Batches blk) (fun hash =>
      pulled ← attempt (call (Pull hash));
      match pulled with
      | inr err =>
          if negb (errors_Is err SBatchDeleted)
          then lit (Err (wrapf "getting bacth hash" err)) else mret tt
      | inl _ => mret tt
      end).

(** [NewCertifier]: a certifier is its pool, to which the requests go. *)
Record certifier (P : Type) := NewCertifier { certifier_pool : P }.

#[export] Instance certifier_CertifierI {P} : CertifierI blockID (certifier P) certE :=
  fun _ => Certify.

(** The pull of a batch that lets certification go on. *)
Definition pulled (x : res Batch) : Prop :=
  match x with
  | Ok _ => True
  | Err e => errors_Is e SBatchDeleted = true
  | _ => False
  end.

Lemma runs_pulls hashes tr :
  runs (gfor hashes (fun hash =>
      pulled ← attempt (call (Pull hash));
      match pulled with
      | inr err =>
          if negb (errors_Is err SBatchDeleted)
          then lit (Err (wrapf "getting bacth hash" err)) else mret tt
      | inl _ => mret tt
      end)) tr (Ok tt) <->
  Forall2 (fun hash o => exists x, o = Occ (Pull hash) x /\ pulled x) hashes tr.
Proof.
  revert tr. induction hashes as [|hash hashes IH]; intros tr; cbn [gfor].
  - split; [intros H; run_step H; subst; constructor|]. intros H. by inversion H.
  - split.
    + intros (tr1 & tr2 & a & -> & H1 & H2)%runs_gbind_Ok. destruct a.
      apply IH in H2. run_step H1. subst. simpl. run_step H1; try done.
      * run_step H1. subst. constructor; [|done]. by eexists.
      * destruct (errors_Is _ _) eqn:E; cbn [negb] in H1; [|by run_step H1].
        run_step H1. subst. constructor; [|done]. eexists. split; [done|]. exact E.
      * by run_step H1.
      * by run_step H1.
    + intros (o & tr' & (x & -> & Hx) & Htr%IH & ->)%Forall2_cons_inv_l.
      unfold mbind at 1, G_bind, gbind. apply runs_pbind.
      exists [Occ (Pull hash) x], tr', (Ok tt). split_and!; [done| |done].
      apply runs_attempt_call. exists x, []. split; [done|].
      destruct x as [b|e|w|w]; simpl in *; try done. by rewrite Hx.
Qed.
End certifier.

(** ** chain.go *)

(** What the chain asks of the batch pool, of the includers function, of the
    broadcaster, of the quorum after the broadcast (the messages of
    [qrm.List()]; a certificate is only read through [Message()]), of its
    context and of the clock. *)
Inductive chainE (K : Type) : Type -> Type :=
| DeleteBatch (hash : slice) : chainE K (res unit)
| ListBySigner (key : slice) : chainE K (res (list Batch))
| IncludersOf (round : Z) : chainE K (res (Includers K))
| Broadcast (msg : Message blockID) (includers : Includers K) : chainE K (res unit)
| QuorumMessages : chainE K (res (list (Message blockID)))
| CtxErr : chainE K (option error)
| Sleep : chainE K unit.
Arguments DeleteBatch {K} _.
Arguments ListBySigner {K} _.
Arguments IncludersOf {K} _.
Arguments Broadcast {K} _ _.
Arguments QuorumMessages {K}.
Arguments CtxErr {K}.
Arguments Sleep {K}.

Record Chain := MkChain { height : Z; lastCerts : list (Message blockID) }.

Section chain.
Context {CP : Capnp} {K : Type} {PK : Crypto.PubKey K}.
Context (signerID : K).

Definition NewChain : Chain := MkChain 1 [].

(** One iteration over the last certificates: the parent hash, and the
    deletion of the batches that certificate commits to. *)
Definition clean_cert (msg : Message blockID) : G (chainE K) slice :=
  id ← lit (nonnil (msgID msg));
  blk ← lit (match UnmarshalBlock (sl (msgData msg)) with
             | Err e => Panic "unmarshalling a certified block"
             | r => r
             end);
  gfor (Block_Batches blk) (fun batchHash =>
    attempt (call (DeleteBatch batchHash)) ;; mret tt) ;;
  mret (mid_Hash id).

Fixpoint clean_certs (certs : list (Message blockID)) : G (chainE K) (list slice) :=
  match certs with
  | [] => mret []
  | msg :: certs' =>
      p ← clean_cert msg;
      ps ← clean_certs certs';
      mret (p :: ps)
  end.

Definition startRound (c : Chain) : G (chainE K) Chain :=
  parents ← clean_certs (lastCerts c);
  listed ← attempt (call (ListBySigner (Bytes signerID)));
  match listed with
  | inr err => lit (Err (wrapf "can't get batches for the new height" err))
  | inl newBatches =>
      let '(blk, hashed) := Block_Hash (NewBlock (height c) (Bytes signerID) newBatches parents) in
      lit hashed ;;
      data ← lit (Block_MarshalBinary blk);
      includers ← call (IncludersOf (height c));
      let msg := MkMessage (Block_ID blk) (Some data) in
      call (Broadcast msg includers) ;;
      certs ← call QuorumMessages;
      mret (MkChain (u64 (height c + 1)) certs)
  end.

(** [run] with fuel for [n] iterations; the flag tells that the loop ended
    because its context did.  An error is logged and the loop goes on. *)
Fixpoint run (n : nat) (c : Chain) : G (chainE K) (Chain * bool) :=
  match n with
  | O => mret (c, false)
  | S n' =>
      ctxErr ← ask CtxErr;
      match ctxErr with
      | Some _ => mret (c, true)
      | None =>
          started ← attempt (startRound c);
          match started with
          | inl c' => run n' c'
          | inr _ => ask Sleep ;; run n' c
          end
      end
  end.
End chain.

(** *** Start and Stop

    The contexts the chain has created, the one [c.cancel] ends, and the
    contexts of the [run] goroutines. *)
Record lifecycle := MkLifecycle {
  ctxs : list bool;               (* cancelled? *)
  cancel : option nat;            (* [None] is the nil function *)
  running : list nat;
}.

Definition NewChain_lifecycle : lifecycle := MkLifecycle [] None [].

Definition Start : St lifecycle unit := modify (fun l =>
  MkLifecycle (ctxs l ++ [false]) (Some (length (ctxs l))) (running l ++ [length (ctxs l)])).

Definition Stop : St lifecycle unit := fun l =>
  match cancel l with
  | None => (l, Panic "nil function call")
  | Some i => (MkLifecycle (<[i := true]> (ctxs l)) (cancel l) (running l), Ok tt)
  end.
