(* ===== verification/GossipProps.v ===== *)
(** Properties of the gossiping broadcaster ([Gossip.v]), as statements about
    every run: every sequence of requests and answers, whatever the round
    manager, the rounds, the certifier and the network answer. *)

From S2P Require Import Prelude Prog Sha256 Crypto CryptoInstance Capnp CapnpInstance Rebro Bapl Block Includers Quorum QuorumProps Dag Gossip.

Section properties.
Context {I Q C S HT : Type} {MI : MessageID I} {CP : Capnp} {SI : SignerI S} {HI : HasherI I HT}.
Context (signer : S) (hasher : HT) (decoder : slice -> res I).

Abbreviation E := (broE I Q C).
Abbreviation data_of := (processData (Q:=Q) (C:=C) signer hasher decoder).
Abbreviation signature_of := (processSignature (Q:=Q) (C:=C) signer decoder).

(** Observations of one request and its answer. *)
Definition publication (o : occ E) : option (bytes * res unit) :=
  let '@Occ _ X e x := o in
  match e in broE _ _ _ X return X -> option (bytes * res unit) with
  | Publish b => fun x => Some (b, x)
  | _ => fun _ => None
  end x.

Definition certification (o : occ E) : option (Message I * res unit) :=
  let '@Occ _ X e x := o in
  match e in broE _ _ _ X return X -> option (Message I * res unit) with
  | Certify msg => fun x => Some (msg, x)
  | _ => fun _ => None
  end x.

Definition signature_added (o : occ E) : option (nat * I * Signature * res unit) :=
  let '@Occ _ X e x := o in
  match e in broE _ _ _ X return X -> option (nat * I * Signature * res unit) with
  | AddSignature n id sig => fun x => Some (n, id, sig, x)
  | _ => fun _ => None
  end x.

Definition round_stop (o : occ E) : option Z :=
  let '@Occ _ X e x := o in
  match e in broE _ _ _ X return X -> option Z with
  | StopRound n => fun _ => Some n
  | _ => fun _ => None
  end x.

(** C16: A node publishes its signature over a message only after the message's
    hash matched its identifier, the round accepted the certificate and the
    certifier accepted the message; what it publishes is the signature gossip
    for exactly the received identifier. *)
Theorem signature_only_after_certification gsp tr r b x :
  runs (data_of gsp) tr r -> (b, x) ∈ omap publication tr ->
  exists canonicalID msg id n sig,
    data_checked hasher decoder gsp canonicalID msg id /\
    Sign signer (sl canonicalID) = Ok sig /\ encodes (signature_gossip canonicalID sig) b /\
    tr = [Occ (GetRound (Round id)) (Ok n); Occ (AddCertificate n msg) (Ok tt);
          Occ (Certify msg) (Ok tt); Occ (Publish b) x].
Proof.
  intros H%runs_processData Hin. destruct H; try (by apply elem_of_nil in Hin).
  apply list_elem_of_singleton in Hin as [= -> ->]. eexists _, _, _, _, _. by split_and!.
Qed.

(** When certification fails, the certificate that was added for the
    message is deleted again, nothing is published and the gossip is
    rejected. *)
Theorem rejected_message_is_deleted gsp tr r msg e :
  runs (data_of gsp) tr r -> (msg, Err e) ∈ omap certification tr ->
  exists n id x, msgID msg = Some id /\ is_Ok r = false /\
    tr = [Occ (GetRound (Round id)) (Ok n); Occ (AddCertificate n msg) (Ok tt);
          Occ (Certify msg) (Err e); Occ (DeleteCertificate n id) x].
Proof.
  intros H%runs_processData Hin. destruct H; try (by apply elem_of_nil in Hin);
    apply list_elem_of_singleton in Hin; simplify_eq.
  - destruct H as (_ & _ & Hid & _). eexists _, _, _. by split_and!.
  - by destruct (H1 e).
Qed.

(** A signature reaches a certificate only when the round has the
    certificate and the signature of the gossip verifies over the received
    identifier; what is added is the gossip's signature. *)
Theorem signature_verified_before_added gsp tr r n id sig x :
  runs (signature_of gsp) tr r -> (n, id, sig, x) ∈ omap signature_added tr ->
  exists canonicalID c,
    gossipmsg.Id gsp = Ok canonicalID /\ decoder canonicalID = Ok id /\
    gossipmsg.Signature_Signature gsp = Ok (Body sig) /\
    gossipmsg.Signature_Signer gsp = Ok (Crypto.Signer sig) /\
    Verify signer (sl canonicalID) sig = Ok tt /\
    tr = [Occ (GetRound (Round id)) (Ok n); Occ (GetCertificate n id) (Ok c);
          Occ (AddSignature n id sig) x].
Proof.
  intros H%runs_processSignature Hin. destruct H; try (by apply elem_of_nil in Hin).
  apply list_elem_of_singleton in Hin as [= -> -> -> ->]. eexists _, _. by split_and!.
Qed.

(** C36: Whatever bytes the network delivers and whatever panics while they are
    processed, the validator comes back with a verdict (unless a component it
    waits for never answers): it rejects bytes that are not a gossip without
    asking anybody, and otherwise accepts exactly when the gossip is processed
    without error or panic. *)
Theorem deliverGossip_verdict data tr r :
  runs (deliverGossip (Q:=Q) (C:=C) signer hasher decoder data) tr r ->
  (exists w, r = Hang w) \/
  (r = Ok ValidationReject /\ tr = [] /\
     forall m gsp, Unmarshal data = Ok m -> gossipmsg.ReadRootGossip m <> Ok gsp) \/
  exists m gsp x, Unmarshal data = Ok m /\ gossipmsg.ReadRootGossip m = Ok gsp /\
    runs (processGossip (Q:=Q) (C:=C) signer hasher decoder gsp) tr x /\
    r = Ok (if is_Ok x then ValidationAccept else ValidationReject).
Proof.
  unfold deliverGossip, recovering. intros (tr1 & tr2 & v & -> & H & H2)%runs_pbind.
  apply (proj1 (runs_attempt_lit _ _ _ _)) in H. run_step H.
  2-3: run_step H; subst; destruct H2 as [-> ->]; right; left; split_and!; [done..|]; congruence.
  2: run_step H; subst; destruct H2 as [-> ->]; left; eauto.
  apply (proj1 (runs_attempt_lit _ _ _ _)) in H. run_step H.
  2-3: run_step H; subst; destruct H2 as [-> ->]; right; left; split_and!; [done..|]; congruence.
  2: run_step H; subst; destruct H2 as [-> ->]; left; eauto.
  apply (proj1 (runs_attempt_bind _ _ _ _)) in H as (tr3 & tr4 & x & -> & H1 & H).
  assert (tr4 = [] /\ tr2 = []) as [-> ->] by (run_step H; run_step H; subst; by destruct H2).
  rewrite !app_nil_r. destruct x; run_step H; run_step H; simplify_eq; destruct H2 as [_ ->];
    [right; right; by eexists _, _, _..|left; eauto].
Qed.

(** [Broadcast] succeeds only when the round was started, the gossip that
    carries the message was published, the quorum became final and the round
    was stopped, in this order.  When it fails earlier, a round that was
    started is not stopped. *)
Theorem Broadcast_steps msg q tr r :
  runs (Broadcast (C:=C) msg q) tr r ->
  (exists id n b, msgID msg = Some id /\ encodes (data_gossip msg) b /\
     tr = [Occ (StartRound (Round id) q) (Ok n); Occ (Publish b) (Ok tt);
           Occ (Finalize n) (Ok tt); Occ (StopRound (Round id)) r]) \/
  (is_Ok r = false /\ omap round_stop tr = []).
Proof.
  intros H%runs_Broadcast. destruct H; try (by right). left. eexists _, _, _. by split_and!.
Qed.
End properties.

(** ** What one node publishes and another one reads *)

Section deliver.
Context {I Q C S HT : Type} {MI : MessageID I} {CP : Capnp} {SI : SignerI S} {HI : HasherI I HT}.
Context (signer : S) (hasher : HT) (decoder : slice -> res I).

Lemma deliver_processes b m gsp tr r :
  Unmarshal b = Ok m -> gossipmsg.ReadRootGossip m = Ok gsp ->
  runs (deliverGossip (Q:=Q) (C:=C) signer hasher decoder b) tr r ->
  exists x, runs (processGossip (Q:=Q) (C:=C) signer hasher decoder gsp) tr x.
Proof.
  intros E1 E2. unfold deliverGossip, recovering.
  intros (tr1 & tr2 & v & -> & H & H2)%runs_pbind.
  apply (proj1 (runs_attempt_lit _ _ _ _)) in H. rewrite E1 in H. cbn [after_attempt] in H.
  apply (proj1 (runs_attempt_lit _ _ _ _)) in H. rewrite E2 in H. cbn [after_attempt] in H.
  apply (proj1 (runs_attempt_bind _ _ _ _)) in H as (tr3 & tr4 & x & -> & H1 & H).
  assert (tr4 = [] /\ tr2 = []) as [-> ->] by (run_step H; run_step H; subst; by destruct H2).
  rewrite !app_nil_r. eauto.
Qed.

Lemma processData_asks_round gsp canonicalID msg id tr r :
  data_checked hasher decoder gsp canonicalID msg id ->
  runs (processData (Q:=Q) (C:=C) signer hasher decoder gsp) tr r ->
  exists x tr', tr = Occ (GetRound (Round id)) x :: tr'.
Proof.
  intros (H1 & H2 & H3 & H4 & H5 & h & H6 & H7) H. unfold processData in H.
  apply (proj1 (runs_lit_bind _ _ _ _)) in H. rewrite H1 in H. cbn [after_res] in H.
  apply (proj1 (runs_lit_bind _ _ _ _)) in H. rewrite H4 in H. cbn [after_res] in H.
  apply (proj1 (runs_lit_bind _ _ _ _)) in H. rewrite H2 in H. cbn [after_res map_err] in H.
  apply (proj1 (runs_lit_bind _ _ _ _)) in H. rewrite H5 in H. cbn [after_res map_err] in H.
  apply (proj1 (runs_lit_bind _ _ _ _)) in H.
  replace (MkMessage (Some id) (msgData msg)) with msg in H by (destruct msg; simpl in *; congruence).
  rewrite H6 in H. cbn [after_res map_err] in H.
  unfold bytes_Equal in H. rewrite bool_decide_eq_true_2 in H by done. cbn [negb] in H.
  run_step H. eauto.
Qed.
End deliver.

Section wire.
Context {I : Type} {MI : MessageID I} {CP : Capnp} {CL : CapnpLaws}.

Lemma data_gossip_read (msg : Message I) b id :
  encodes (data_gossip msg) b -> within_limits b -> msgID msg = Some id ->
  exists m gsp canonicalID c d, Unmarshal b = Ok m /\ gossipmsg.ReadRootGossip m = Ok gsp /\
    gossipmsg.Which gsp = gossipmsg.Gossip_Which_data /\
    mid_MarshalBinary id = Ok canonicalID /\ gossipmsg.Id gsp = Ok c /\ sl c = canonicalID /\
    gossipmsg.Data_Data gsp = Ok d /\ sl d = sl (msgData msg).
Proof.
  intros (seg & s0 & s3 & _ & H0 & Hset & Hm) Hw Hid. unfold data_gossip in Hset.
  rewrite Hid in Hset. simpl in Hset.
  apply res_bind_Ok in Hset as (can & Hcan & Hset).
  apply res_bind_Ok in Hset as (s1 & H1 & Hset).
  apply res_bind_Ok in Hset as (s2 & H2 & [= <-]).
  destruct (unmarshal_root _ _ Hm Hw) as (m & gsp & E1 & E2 & Heq).
  destruct (NewRootStruct_size _ _ _ _ H0) as [Hd _].
  destruct (SetData_frame _ _ _ _ H1) as (Hd1 & _). destruct (SetData_frame _ _ _ _ H2) as (Hd2 & _).
  assert (forall i, data_at (gossipmsg.SetData' s2) i = data_at s2 i) as Hptr
    by (intros i; unfold data_at, gossipmsg.SetData'; by rewrite SetUint16_ptr).
  destruct (SetData_data_at _ _ _ _ H1) as (c0 & Hc0 & Sc0).
  destruct (SetData_data_at _ _ _ _ H2) as (d0 & Hd0 & Sd0).
  rewrite <- (SetData_data_at_other _ _ _ 0 _ H2), <- Hptr in Hc0 by lia. rewrite <- Hptr in Hd0.
  destruct (data_at_equiv _ _ _ _ Heq Hc0) as (c & Hc & Sc).
  destruct (data_at_equiv _ _ _ _ Heq Hd0) as (d & Hdd & Sd).
  exists m, gsp, can, c, d. split_and!; try done; try congruence.
  - unfold gossipmsg.Which. rewrite Heq. unfold gossipmsg.SetData'.
    rewrite SetUint16_get; [done|lia| |lia]. lia.
  - by rewrite Sc, Sc0.
Qed.

Lemma signature_gossip_read canonicalID sig b :
  encodes (signature_gossip canonicalID sig) b -> within_limits b ->
  exists m gsp c body key, Unmarshal b = Ok m /\ gossipmsg.ReadRootGossip m = Ok gsp /\
    gossipmsg.Which gsp = gossipmsg.Gossip_Which_signature /\
    gossipmsg.Id gsp = Ok c /\ sl c = sl canonicalID /\
    gossipmsg.Signature_Signature gsp = Ok body /\ sl body = sl (Body sig) /\
    gossipmsg.Signature_Signer gsp = Ok key /\ sl key = sl (Signer sig).
Proof.
  intros (seg & s0 & s4 & _ & H0 & Hset & Hm) Hw. unfold signature_gossip in Hset.
  apply res_bind_Ok in Hset as (s2 & H2 & Hset).
  apply res_bind_Ok in Hset as (s3 & H3 & H4).
  destruct (unmarshal_root _ _ Hm Hw) as (m & gsp & E1 & E2 & Heq).
  destruct (NewRootStruct_size _ _ _ _ H0) as [Hd _].
  destruct (SetData_data_at _ _ _ _ H2) as (c0 & Hc0 & Sc0).
  destruct (SetData_data_at _ _ _ _ H3) as (b0 & Hb0 & Sb0).
  destruct (SetData_data_at _ _ _ _ H4) as (k0 & Hk0 & Sk0).
  rewrite <- (SetData_data_at_other _ _ _ 0 _ H3), <- (SetData_data_at_other _ _ _ 0 _ H4) in Hc0 by lia.
  rewrite <- (SetData_data_at_other _ _ _ 2 _ H4) in Hb0 by lia.
  destruct (data_at_equiv _ _ _ _ Heq Hc0) as (c & Hc & Sc).
  destruct (data_at_equiv _ _ _ _ Heq Hb0) as (body & Hbody & Sbody).
  destruct (data_at_equiv _ _ _ _ Heq Hk0) as (key & Hkey & Skey).
  exists m, gsp, c, body, key. split_and!; try done; try congruence.
  unfold gossipmsg.Which. rewrite Heq.
  destruct (SetData_frame _ _ _ _ H2) as (_ & _ & _ & U2 & _).
  destruct (SetData_frame _ _ _ _ H3) as (_ & _ & _ & U3 & _).
  destruct (SetData_frame _ _ _ _ H4) as (_ & _ & _ & U4 & _).
  rewrite U4, U3, U2. unfold gossipmsg.SetSignature. rewrite SetUint16_get; [done|lia| |lia]. lia.
Qed.
End wire.

(** Blocks as messages, signed by local signers. *)
Section blocks.
Context {CP : Capnp} {CL : CapnpLaws} {ED : Ed25519} {EL : Ed25519Laws} {Q C : Type}.
Abbreviation Signer := (local.Signer ed25519.PrivateKey ed25519.PublicKey).

Definition decode_id (b : slice) : res blockID := UnmarshalBlockID (sl b).

(** What [Chain.startRound] hands to the broadcaster: a block's encoding under
    the identifier that carries its hash. *)
Definition block_message (round : Z) (signer : slice) (data : bytes) : Message blockID :=
  MkMessage (Some (MkBlockID round signer (Some (sha256 data)))) (Some data).

(** C20: The gossip with which a node broadcasts its block passes, at every node
    that receives the bytes, all checks before the round is asked for: the
    receiver's first request is the round of the block. *)
Theorem broadcast_block_passes_checks (s : Signer) round key data b canonicalID tr r :
  let msg := block_message round key data in
  uint64_range round ->
  encodes (data_gossip msg) b -> within_limits b ->
  (forall id, msgID msg = Some id -> mid_MarshalBinary id = Ok canonicalID) ->
  within_limits canonicalID ->
  runs (deliverGossip (Q:=Q) (C:=C) s NewHasher decode_id b) tr r ->
  exists x tr', tr = Occ (GetRound round) x :: tr'.
Proof.
  intros msg Hround Henc Hw Hcan Hwc Hrun.
  destruct (data_gossip_read msg b _ Henc Hw eq_refl)
    as (m & gsp & can & c & d & E1 & E2 & Hwhich & Emar & Eid & Sc & Ed & Sd).
  rewrite (Hcan _ eq_refl) in Emar. injection Emar as <-.
  destruct (blockID_roundtrip _ _ (Hcan _ eq_refl) Hround Hwc) as (id' & Edec & Hr' & _ & Hh').
  simpl in Hr', Hh'.
  destruct (deliver_processes _ _ _ _ _ _ _ _ E1 E2 Hrun) as [x Hp].
  unfold processGossip in Hp. rewrite Hwhich in Hp. simpl in Hp.
  eapply (processData_asks_round s NewHasher decode_id gsp c (MkMessage (Some id') d) id') in Hp.
  - by rewrite <- Hr'.
  - split_and!; try done.
    + unfold decode_id. by rewrite Sc.
    + simpl. unfold blockID_Validate. rewrite bool_decide_eq_false_2; [done|].
      unfold len. rewrite Hh', sha256_length. intros Hne. by apply Hne.
    + eexists. split; [done|]. simpl. by rewrite Hh', Sd.
Qed.

(** Adding the signature of a member that has not signed the certificate yet
    succeeds, and appends the signature. *)
Definition appended_by_quorum (key : bytes) (sig : Signature) : Prop :=
  forall (incl : Includers ed25519.PublicKey) (q : Quorum blockID ed25519.PublicKey) ci cert,
    fresh_includers incl -> reachable incl q -> q_heap q !! ci = Some cert ->
    is_member (includers incl) key -> key ∉ signers cert ->
    exists q' cert', certificate_AddSignature ci sig q = (q', Ok (cert_completed cert')) /\
      q_heap q' !! ci = Some cert' /\ cert_signatures cert' = cert_signatures cert ++ [sig].

Lemma appends_signature key sig : sl (Crypto.Signer sig) = key -> appended_by_quorum key sig.
Proof.
  intros Hk incl q ci cert Hf Hr Hc Hm Hn.
  destruct (addSignature_effect incl q ci cert sig Hf Hr Hc) as [H _]. rewrite Hk in H.
  destruct (H (conj Hm Hn)) as (cert' & E1 & _ & _ & E2 & E3 & _).
  destruct (certificate_AddSignature ci sig q) as [q' r]. cbn [fst snd] in *. subst r.
  exists q', cert'. split_and!; [done| |done]. rewrite E1. apply list_lookup_insert_eq. by eapply lookup_lt_Some.
Qed.

(** C17: The signature gossip a node publishes passes the checks of every node
    that receives the bytes.  Unless the receiver's [GetRound] or
    [GetCertificate] fails, the round is asked to add the signature to the
    certificate, with the publisher's key.  The round may answer with an error,
    when it is closed for instance; but its quorum, asked to add the signature
    to a certificate that the publisher, a member, has not signed yet, appends
    it. *)
Theorem published_signature_is_added seed pubK privK (s s' : Signer) canonicalID sig b tr r id :
  length seed = 32%nat -> ed25519.GenKeys (Some seed) = Ok (pubK, privK) ->
  local.NewSigner privK = Ok s -> Sign s (sl canonicalID) = Ok sig ->
  encodes (signature_gossip canonicalID sig) b -> within_limits b ->
  decode_id canonicalID = Ok id ->
  runs (deliverGossip (Q:=Q) (C:=C) s' NewHasher decode_id b) tr r ->
  (exists x, is_Ok x = false /\ tr = [Occ (GetRound (Round id)) x]) \/
  (exists n x, is_Ok x = false /\
     tr = [Occ (GetRound (Round id)) (Ok n); Occ (GetCertificate n id) x]) \/
  (exists n c sig' x, sl (Body sig') = sl (Body sig) /\
     sl (Crypto.Signer sig') = sl (Bytes pubK) /\
     appended_by_quorum (sl (Bytes pubK)) sig' /\
     tr = [Occ (GetRound (Round id)) (Ok n); Occ (GetCertificate n id) (Ok c);
           Occ (AddSignature n id sig') x]).
Proof.
  intros Hl Hg Hn Hs Henc Hw Hdec Hrun.
  destruct (signature_gossip_read _ _ _ Henc Hw)
    as (m & gsp & c & body & key & E1 & E2 & Hwhich & Eid & Sc & Eb & Sb & Ek & Sk).
  destruct (deliver_processes _ _ _ _ _ _ _ _ E1 E2 Hrun) as [x H].
  assert (Verify s' (sl canonicalID) (MkSignature body key) = Ok tt) as Hv
    by (by eapply sign_verify).
  assert (sl (Crypto.Signer sig) = sl (Bytes pubK)) as Hkey by (by eapply signed_key).
  unfold processGossip in H. rewrite Hwhich in H. simpl in H. unfold processSignature in H.
  apply (proj1 (runs_lit_bind _ _ _ _)) in H. rewrite Eid in H. cbn [after_res] in H.
  apply (proj1 (runs_lit_bind _ _ _ _)) in H.
  assert (decode_id c = Ok id) as Hdec' by (unfold decode_id in *; by rewrite Sc).
  rewrite Hdec' in H. cbn [after_res map_err] in H.
  run_step H. subst tr. run_step H; subst.
  2:{ apply runs_ignoring in H as [-> _]. left. eexists. by split; [|reflexivity]. }
  2-3: run_step H; subst; left; eexists; by split; [|reflexivity].
  run_step H. subst. run_step H; subst.
  2:{ apply runs_ignoring in H as [-> _]. right. left. eexists _, _. by split; [|reflexivity]. }
  2-3: run_step H; subst; right; left; eexists _, _; by split; [|reflexivity].
  apply (proj1 (runs_lit_bind _ _ _ _)) in H. rewrite Eb in H. cbn [after_res] in H.
  apply (proj1 (runs_lit_bind _ _ _ _)) in H. rewrite Ek in H. cbn [after_res] in H.
  apply (proj1 (runs_lit_bind _ _ _ _)) in H. rewrite Sc, Hv in H. cbn [after_res map_err] in H.
  run_step H. subst. right. right.
  match type of H with runs _ ?tr' _ => assert (tr' = []) as -> end.
  { run_step H; [|apply runs_ignoring in H as [? _]; done|..]; by run_step H. }
  eexists _, _, (MkSignature body key), _. assert (sl (Crypto.Signer (MkSignature body key)) = sl (Bytes pubK)) as Hk by (by etransitivity).
  split_and!; [done|done|by apply appends_signature|done].
Qed.
End blocks.

(** ** Executions

    One node's block, broadcast and delivered to another node, with a round
    manager, rounds and a network that answer every request. *)
Module Executions.

Abbreviation node := (local.Signer ed25519.PrivateKey ed25519.PublicKey).

Definition node_of (b : byte) : node :=
  local.MkSigner (ToyEd25519.priv_of b) (ToyEd25519.key_of b).

(** Every request succeeds; certification answers [certified]. *)
Definition answering (certified : res unit) : handler (broE blockID unit unit) unit :=
  fun X e s =>
    (s, match e in broE _ _ _ X return X with
        | StartRound _ _ => Ok 0%nat
        | GetRound _ => Ok 0%nat
        | StopRound _ => Ok tt
        | AddCertificate _ _ => Ok tt
        | GetCertificate _ _ => Ok tt
        | DeleteCertificate _ _ => Ok tt
        | AddSignature _ _ _ => Ok tt
        | Finalize _ => Ok tt
        | Certify _ => certified
        | Publish _ => Ok tt
        end).

Definition block_data : bytes :=
  match Block_MarshalBinary (CP:=ToyCapnp.toy)
          (NewBlock 7 (Bytes (ToyEd25519.key_of x01)) [] []) with
  | Ok b => b
  | _ => []
  end.

Definition block_msg : Rebro.Message blockID :=
  block_message 7 (Bytes (ToyEd25519.key_of x01)) block_data.

Definition canonical : bytes :=
  match msgID block_msg with
  | Some id => match mid_MarshalBinary (MessageID:=@blockID_MessageID ToyCapnp.toy) id with
               | Ok b => b | _ => [] end
  | None => []
  end.

(** The bytes published by a recorded execution. *)
Definition published_by (tr : list (occ (broE blockID unit unit))) : bytes :=
  match omap publication tr with
  | (b, _) :: _ => b
  | [] => []
  end.

Abbreviation broadcasts := (record (answering (Ok tt))
  (Broadcast (CP:=ToyCapnp.toy) (C:=unit) block_msg tt) tt).

Definition data_bytes : bytes := published_by broadcasts.1.

Definition deliver (certified : res unit) (b : bytes) :=
  record (answering certified)
    (deliverGossip (CP:=ToyCapnp.toy) (Q:=unit) (C:=unit) (node_of x02) NewHasher
       (decode_id (CP:=ToyCapnp.toy)) b) tt.

Definition signature_bytes : bytes := published_by (deliver (Ok tt) data_bytes).1.

Definition gossip_of (b : bytes) : Struct (Capnp:=ToyCapnp.toy) :=
  match Unmarshal (Capnp:=ToyCapnp.toy) b with
  | Ok m => match gossipmsg.ReadRootGossip m with Ok s => s | _ => m end
  | _ => ToyCapnp.TStruct 0 0 ∅ ∅ ∅
  end.

(** The requests node 2 makes when it processes node 1's block, and the
    signature gossip it publishes about it. *)
Definition processed (certified : res unit) :=
  record (answering certified)
    (processData (Q:=unit) (C:=unit) (node_of x02) NewHasher (decode_id (CP:=ToyCapnp.toy))
       (gossip_of data_bytes)) tt.

Definition processed_signature :=
  record (answering (Ok tt))
    (processSignature (Q:=unit) (C:=unit) (node_of x02) (decode_id (CP:=ToyCapnp.toy))
       (gossip_of signature_bytes)) tt.

Lemma processed_runs certified :
  runs (processData (Q:=unit) (C:=unit) (node_of x02) NewHasher (decode_id (CP:=ToyCapnp.toy))
          (gossip_of data_bytes)) (processed certified).1 (processed certified).2.
Proof. exact (record_runs (answering certified) _ tt). Qed.

Lemma processed_signature_runs :
  runs (processSignature (Q:=unit) (C:=unit) (node_of x02) (decode_id (CP:=ToyCapnp.toy))
          (gossip_of signature_bytes)) processed_signature.1 processed_signature.2.
Proof. exact (record_runs (answering (Ok tt)) _ tt). Qed.

Lemma deliver_runs certified b :
  runs (deliverGossip (CP:=ToyCapnp.toy) (Q:=unit) (C:=unit) (node_of x02) NewHasher
          (decode_id (CP:=ToyCapnp.toy)) b) (deliver certified b).1 (deliver certified b).2.
Proof. exact (record_runs (answering certified) _ tt). Qed.

Definition encoded (setter : Struct -> res Struct) : res bytes :=
  seg ← NewMessage; s0 ← gossipmsg.NewRootGossip seg; s1 ← setter s0; Marshal s1.

Lemma encoded_encodes setter b : encoded setter = Ok b -> encodes setter b.
Proof.
  intros (seg & H0 & (s0 & H1 & (s1 & H2 & H3)%res_bind_Ok)%res_bind_Ok)%res_bind_Ok.
  by exists seg, s0, s1.
Qed.

Lemma signature_only_after_certification_witness :
  exists canonicalID msg id n sig,
    data_checked NewHasher (decode_id (CP:=ToyCapnp.toy)) (gossip_of data_bytes) canonicalID msg id /\
    Sign (node_of x02) (sl canonicalID) = Ok sig /\
    encodes (signature_gossip canonicalID sig) signature_bytes /\
    (processed (Ok tt)).1 =
      [Occ (GetRound (Round id)) (Ok n); Occ (AddCertificate n msg) (Ok tt);
       Occ (Certify msg) (Ok tt); Occ (Publish signature_bytes) (Ok tt)].
Proof.
  apply (signature_only_after_certification (node_of x02) NewHasher (decode_id (CP:=ToyCapnp.toy))
    (gossip_of data_bytes) (processed (Ok tt)).1 (processed (Ok tt)).2 signature_bytes (Ok tt)).
  - apply processed_runs.
  - assert (omap publication (processed (Ok tt)).1 = [(signature_bytes, Ok tt)]) as ->
      by (vm_compute; reflexivity).
    apply list_elem_of_here.
Defined.

Definition bad : error := ErrNew "validating block".

(** The message certification was asked for, and the signature that was added. *)
Definition certified_msg : Rebro.Message blockID :=
  match omap certification (processed (Err bad)).1 with
  | (msg, _) :: _ => msg
  | [] => MkMessage None None
  end.

Definition added : nat * blockID * Signature :=
  match omap signature_added processed_signature.1 with
  | (x, _) :: _ => x
  | [] => (0%nat, MkBlockID 0 None None, MkSignature None None)
  end.

Lemma rejected_message_is_deleted_witness :
  exists n id x, msgID certified_msg = Some id /\ is_Ok (processed (Err bad)).2 = false /\
    (processed (Err bad)).1 =
      [Occ (GetRound (Round id)) (Ok n); Occ (AddCertificate n certified_msg) (Ok tt);
       Occ (Certify certified_msg) (Err bad); Occ (DeleteCertificate n id) x].
Proof.
  apply (rejected_message_is_deleted (node_of x02) NewHasher (decode_id (CP:=ToyCapnp.toy))
    (gossip_of data_bytes) (processed (Err bad)).1 (processed (Err bad)).2 certified_msg bad).
  - apply processed_runs.
  - assert (omap certification (processed (Err bad)).1 = [(certified_msg, Err bad)]) as ->
      by (vm_compute; reflexivity).
    apply list_elem_of_here.
Defined.

Lemma signature_verified_before_added_witness :
  let '(n, id, sig) := added in
  exists canonicalID (c : unit),
    gossipmsg.Id (gossip_of signature_bytes) = Ok canonicalID /\
    decode_id (CP:=ToyCapnp.toy) canonicalID = Ok id /\
    gossipmsg.Signature_Signature (gossip_of signature_bytes) = Ok (Body sig) /\
    gossipmsg.Signature_Signer (gossip_of signature_bytes) = Ok (Crypto.Signer sig) /\
    Verify (node_of x02) (sl canonicalID) sig = Ok tt /\
    processed_signature.1 =
      [Occ (GetRound (Round id)) (Ok n); Occ (GetCertificate n id) (Ok c);
       Occ (AddSignature n id sig) (Ok tt)].
Proof.
  assert (omap signature_added processed_signature.1 = [(added, Ok tt)]) as E
    by (vm_compute; reflexivity).
  destruct added as [[n id] sig].
  apply (signature_verified_before_added (node_of x02) (decode_id (CP:=ToyCapnp.toy))
    (gossip_of signature_bytes) processed_signature.1 processed_signature.2).
  - apply processed_signature_runs.
  - rewrite E. apply list_elem_of_here.
Defined.

Lemma deliverGossip_verdict_witness :
  (exists w, (deliver (Err bad) data_bytes).2 = Hang w) \/
  ((deliver (Err bad) data_bytes).2 = Ok ValidationReject /\ (deliver (Err bad) data_bytes).1 = [] /\
     forall m gsp, Unmarshal data_bytes = Ok m -> gossipmsg.ReadRootGossip m <> Ok gsp) \/
  exists m gsp x, Unmarshal data_bytes = Ok m /\ gossipmsg.ReadRootGossip m = Ok gsp /\
    runs (processGossip (Q:=unit) (C:=unit) (node_of x02) NewHasher (decode_id (CP:=ToyCapnp.toy)) gsp)
      (deliver (Err bad) data_bytes).1 x /\
    (deliver (Err bad) data_bytes).2 = Ok (if is_Ok x then ValidationAccept else ValidationReject).
Proof.
  apply (deliverGossip_verdict (node_of x02) NewHasher (decode_id (CP:=ToyCapnp.toy))).
  apply deliver_runs.
Defined.

Lemma Broadcast_steps_witness :
  (exists id n b, msgID block_msg = Some id /\ encodes (data_gossip block_msg) b /\
     broadcasts.1 = [Occ (StartRound (Round id) tt) (Ok n); Occ (Publish b) (Ok tt);
                     Occ (Finalize n) (Ok tt); Occ (StopRound (Round id)) broadcasts.2]) \/
  (is_Ok broadcasts.2 = false /\ omap round_stop broadcasts.1 = []).
Proof.
  apply (Broadcast_steps block_msg tt). exact (record_runs (answering (Ok tt)) _ tt).
Defined.

Lemma broadcast_block_passes_checks_witness :
  exists x tr', (deliver (Ok tt) data_bytes).1 = Occ (GetRound 7) x :: tr'.
Proof.
  apply (broadcast_block_passes_checks (node_of x02) 7 (Bytes (ToyEd25519.key_of x01)) block_data
    data_bytes canonical (deliver (Ok tt) data_bytes).1 (deliver (Ok tt) data_bytes).2).
  - by unfold uint64_range.
  - apply encoded_encodes. vm_compute. reflexivity.
  - done.
  - intros id [= <-]. vm_compute. reflexivity.
  - done.
  - apply deliver_runs.
Defined.

Definition block_id : blockID :=
  match decode_id (CP:=ToyCapnp.toy) (Some canonical) with Ok id => id | _ => MkBlockID 0 None None end.

Definition signed : Signature :=
  match Sign (node_of x02) canonical with Ok sig => sig | _ => MkSignature None None end.

Lemma published_signature_is_added_witness :
  let tr := (deliver (Ok tt) signature_bytes).1 in
  (exists x, is_Ok x = false /\ tr = [Occ (GetRound (Round block_id)) x]) \/
  (exists n x, is_Ok x = false /\
     tr = [Occ (GetRound (Round block_id)) (Ok n); Occ (GetCertificate n block_id) x]) \/
  (exists n c sig' x, sl (Body sig') = sl (Body signed) /\
     sl (Crypto.Signer sig') = sl (Bytes (ToyEd25519.key_of x02)) /\
     appended_by_quorum (CP:=ToyCapnp.toy) (sl (Bytes (ToyEd25519.key_of x02))) sig' /\
     tr = [Occ (GetRound (Round block_id)) (Ok n); Occ (GetCertificate n block_id) (Ok c);
           Occ (AddSignature n block_id sig') x]).
Proof.
  apply (published_signature_is_added (ToyEd25519.seed_of x02) (ToyEd25519.key_of x02)
    (ToyEd25519.priv_of x02) (node_of x02) (node_of x02) (Some canonical) signed signature_bytes
    (deliver (Ok tt) signature_bytes).1 (deliver (Ok tt) signature_bytes).2 block_id).
  - done.
  - by vm_compute.
  - by vm_compute.
  - by vm_compute.
  - apply encoded_encodes. vm_compute. reflexivity.
  - done.
  - by vm_compute.
  - apply deliver_runs.
Defined.
End Executions.
