(* ===== verification/SystemProps.v ===== *)
(** End-to-end properties of a node's broadcasting layer ([System.v]): what a
    completed certificate and a successful [Broadcast] guarantee, whatever the
    network delivers and however the goroutines interleave; and the execution
    in which one member's block is certified under another member's name. *)

From S2P Require Import Prelude Prog Sha256 Crypto CryptoInstance Capnp CapnpInstance Rebro Bapl Block Includers Quorum QuorumProps Round RoundConc RoundInv RoundQuorum Provenance Gossip System SystemInv Dag GossipProps.

Section properties.
Context {I K S HT : Type} {MI : MessageID I} {PK : Crypto.PubKey K} {PL : PubKeyLaws K}
  {MO : MapOrder} {CP : Capnp} {SI : SignerI S} {HI : HasherI I HT}.
Context (hasher : HT) (decoder : slice -> res I) (incl : Includers K).

Abbreviation Q := (Quorum I K).
Abbreviation C := (Certificate (I:=I) (Q:=Q)).
Implicit Types (signer : S) (cert : certificate I).

(** The signature of [b] in the certificate: it arrived in a gossip, with an
    encoding of an identifier of the round that has the hash of the
    certificate's, and verifies over that encoding. *)
Definition signed_by (arrived : bytes -> Prop) signer (num : Z) cert (id : I) (b : bytes) : Prop :=
  exists sig id' data canonicalID, sig ∈ cert_signatures cert /\ sl (Signer sig) = b /\
    mid_String id' = mid_String id /\ Round id' = num /\
    arrived data /\ carries_signature data canonicalID sig /\
    decoder canonicalID = Ok id' /\ Verify signer (sl canonicalID) sig = Ok tt.

(** The message of a certificate is one that passed the checks of the node. *)
Definition checked_message (num : Z) cert (id : I) : Prop :=
  msgID (cert_msg cert) = Some id /\ Round id = num /\ mid_Validate id = Ok tt /\
  Hash hasher (cert_msg cert) = Ok (sl (mid_Hash id)).

(** A certificate object of a round of the node. *)
Definition has_certificate (nd : node (I:=I) (K:=K)) (num : Z) cert : Prop :=
  exists n s c, n_rounds nd !! n = Some s /\ roundNum (s_round s) = num /\
    q_heap (quorum (s_round s)) !! c = Some cert.

Lemma node_certificate arrived signer ls nd num cert :
  fresh_includers incl -> Forall (label_arrived arrived) ls -> runs_to signer hasher decoder incl ls nd ->
  has_certificate nd num cert ->
  wf_cert (includers incl) cert /\
  exists id, checked_message num cert id /\
    forall b, b ∈ signers cert -> signed_by arrived signer num cert id b.
Proof.
  intros Hf Ha Hr (n & s & c & Hn & En & Hc).
  pose proof (runs_to_ok signer hasher decoder incl Hf arrived ls nd Ha Hr) as Hok.
  destruct (nk_rounds _ _ _ _ _ _ Hok n s Hn) as [num' Hrun].
  pose proof (round_run_inv signer hasher decoder incl Hf arrived num' s Hrun) as [En' _ [Hre Hs] _].
  assert (num' = num) as -> by congruence.
  destruct (reachable_wf incl _ Hf Hre) as [Hw Hm].
  split; [rewrite <- Hm; by eapply wq_certs|].
  destruct (Hs c cert Hc) as (id & Hid & (Hround & Hv & h & Hh & ->) & Hsigs).
  exists id. split; [by split_and!|]. intros b (sig & -> & Hsig)%list_elem_of_fmap.
  destruct (Hsigs sig Hsig) as (id' & Hstr & Hround' & data & can & Harr & Hcar & Hdec & Hver).
  by exists sig, id', data, can.
Qed.

(** C12: End to end: whatever bytes the network delivers to a node and
    however its goroutines and rounds interleave, a completed certificate of a
    round certifies a message of that round whose data hashes to its
    identifier, and distinct members with more than two thirds of the stake
    each have a signature in it that arrived in a gossip and verifies over an
    identifier of the round with this hash. *)
Theorem completed_certificate_is_certified signer ls nd num cert :
  fresh_includers incl -> runs_to signer hasher decoder incl ls nd ->
  has_certificate nd num cert -> cert_completed cert = true ->
  exists id, checked_message num cert id /\
    NoDup (signers cert) /\
    (forall b, b ∈ signers cert -> is_member (includers incl) b /\ signed_by (arrived_in ls) signer num cert id b) /\
    2 * total (includers incl) < 3 * sumZ (stake_of (includers incl)) (signers cert).
Proof.
  intros Hf Hr Hc Hcomp.
  destruct (node_certificate _ signer ls nd num cert Hf (labels_arrived ls) Hr Hc) as (Hw & id & Hid & Hsig).
  exists id. split_and!; [done|apply Hw| |].
  - intros b Hb. split; [by apply (wc_members _ _ Hw)|by apply Hsig].
  - apply wf_cert_supermajority; [apply Hf|done..].
Qed.

(** Two nodes over the same includers, each with a completed certificate:
    members with more than a third of the stake have signatures in both that
    verify at the node that holds them, so if the certificates conflict these
    members signed both. *)
Theorem certificates_of_two_nodes_intersect signer1 signer2 ls1 ls2 nd1 nd2 num1 num2 cert1 cert2 :
  fresh_includers incl ->
  runs_to signer1 hasher decoder incl ls1 nd1 -> runs_to signer2 hasher decoder incl ls2 nd2 ->
  has_certificate nd1 num1 cert1 -> has_certificate nd2 num2 cert2 ->
  cert_completed cert1 = true -> cert_completed cert2 = true ->
  exists id1 id2 bs, checked_message num1 cert1 id1 /\ checked_message num2 cert2 id2 /\
    NoDup bs /\
    (forall b, b ∈ bs -> is_member (includers incl) b /\
       signed_by (arrived_in ls1) signer1 num1 cert1 id1 b /\
       signed_by (arrived_in ls2) signer2 num2 cert2 id2 b) /\
    total (includers incl) < 3 * sumZ (stake_of (includers incl)) bs.
Proof.
  intros Hf Hr1 Hr2 Hc1 Hc2 H1 H2.
  destruct (node_certificate _ _ _ _ _ _ Hf (labels_arrived ls1) Hr1 Hc1) as (W1 & id1 & Hid1 & S1).
  destruct (node_certificate _ _ _ _ _ _ Hf (labels_arrived ls2) Hr2 Hc2) as (W2 & id2 & Hid2 & S2).
  pose proof (proj1 Hf) as Hv.
  apply (wf_cert_supermajority _ _ Hv W1) in H1. apply (wf_cert_supermajority _ _ Hv W2) in H2.
  pose proof (overlap_stake _ _ _ Hv (wc_nodup _ _ W1) (wc_nodup _ _ W2)).
  exists id1, id2, (filter (fun b => b ∈ signers cert2) (signers cert1)).
  split_and!; [done..|apply NoDup_filter, W1| |lia].
  intros b [Hb2 Hb1]%list_elem_of_filter. split_and!; [by apply (wc_members _ _ W1)|..]; auto.
Qed.

(** What a [Broadcast] that succeeded asked for. *)
Lemma finished_trace arrived signer nd g go msg :
  node_ok signer hasher decoder incl arrived nd ->
  n_gos nd !! g = Some go -> g_task go = Produce msg -> g_rest go = Ret (inr (Ok tt)) ->
  exists id n b, msgID msg = Some id /\
    g_trace go = [Occ (StartRound (Round id) (NewQuorum incl)) (Ok n); Occ (Publish b) (Ok tt);
                  Occ (Gossip.Finalize n) (Ok tt); Occ (StopRound (Round id)) (Ok tt)].
Proof.
  intros Hok Hg Et Eg. destruct (nk_gos _ _ _ _ _ _ Hok g go Hg) as [_ Hres _ _ _]. rewrite Et, Eg in Hres.
  pose proof (residual_runs _ _ _ [] (inr (Ok tt)) Hres ltac:(done)) as H. rewrite app_nil_r in H.
  simpl in H. apply runs_pbind in H as (tr1 & tr2 & r & E & H & -> & [= <-]).
  rewrite app_nil_r in E. subst tr1. apply runs_Broadcast in H.
  remember (g_trace go) as tr eqn:Etr. remember (Ok tt) as r eqn:Er.
  destruct H as [| | | | |id n b r0 Hid Henc]; subst; try done. by exists id, n, b.
Qed.

(** The round that a successful [Broadcast] started, and that it is final. *)
Lemma finished_broadcast signer ls nd g go msg :
  fresh_includers incl -> runs_to signer hasher decoder incl ls nd ->
  n_gos nd !! g = Some go -> g_task go = Produce msg -> g_rest go = Ret (inr (Ok tt)) ->
  exists id n s, msgID msg = Some id /\ omap got_round (g_trace go) = [(Round id, n)] /\
    n_rounds nd !! n = Some s /\ roundNum (s_round s) = Round id /\ is_final incl s.
Proof.
  intros Hf Hr Hg Et Eg.
  pose proof (runs_to_ok signer hasher decoder incl Hf _ ls nd (labels_arrived ls) Hr) as Hok.
  destruct (finished_trace _ signer nd g go msg Hok Hg Et Eg) as (id & n & b & Hid & Etr).
  pose proof (gk_trace _ _ _ _ _ _ _ (nk_gos _ _ _ _ _ _ Hok g go Hg)) as Htr. rewrite Etr in *.
  apply Forall_cons in Htr as [[Hstart _] Htr]. apply Forall_cons in Htr as [_ Htr].
  apply Forall_cons in Htr as [[_ Hfin] _].
  destruct (Hstart (Round id) n eq_refl) as (s & Hs & En).
  destruct (Hfin n eq_refl) as (s0 & Hs0 & Hs0f). assert (s0 = s) as -> by congruence.
  by exists id, n, s.
Qed.

(** The quorum of a round of the node. *)
Lemma node_genuine signer ls nd n s :
  fresh_includers incl -> runs_to signer hasher decoder incl ls nd -> n_rounds nd !! n = Some s ->
  exists num, round_run signer hasher decoder incl (arrived_in ls) num s /\
    genuine incl (checked hasher num) (verified signer decoder (arrived_in ls) num) (quorum (s_round s)).
Proof.
  intros Hf Hr Hs. pose proof (runs_to_ok signer hasher decoder incl Hf _ ls nd (labels_arrived ls) Hr) as Hok.
  destruct (nk_rounds _ _ _ _ _ _ Hok n s Hs) as [num Hrun]. exists num. split; [done|].
  apply (round_run_inv signer hasher decoder incl Hf _ num s Hrun).
Qed.

(** When [Broadcast] succeeds at a node, the round of its message exists
    there and the producers of its completed certificates, counted once per
    certificate, hold more than two thirds of the stake. *)
Theorem successful_broadcast_is_final signer ls nd g go msg :
  fresh_includers incl -> runs_to signer hasher decoder incl ls nd ->
  n_gos nd !! g = Some go -> g_task go = Produce msg -> g_rest go = Ret (inr (Ok tt)) ->
  exists id n s, msgID msg = Some id /\ n_rounds nd !! n = Some s /\
    roundNum (s_round s) = Round id /\
    2 * total (includers incl) <
      3 * sumZ (producer_stake (includers incl)) (completed (q_heap (quorum (s_round s)))).
Proof.
  intros Hf Hr Hg Et Eg.
  destruct (finished_broadcast signer ls nd g go msg Hf Hr Hg Et Eg)
    as (id & n & s & Hid & _ & Hs & En & Hfin).
  destruct (node_genuine signer ls nd n s Hf Hr Hs) as (num & _ & Hgen).
  exists id, n, s. split_and!; [done..|]. by eapply final_supermajority.
Qed.
End properties.

(** ** Executions *)

Module Executions.
Import Sample.
Import GossipProps.Executions.

Abbreviation Node := (System.node (I:=blockID) (K:=ed25519.PublicKey)).
Abbreviation label := (node_label (I:=blockID)).

(** The node of member [b], among four members of equal stake. *)
Abbreviation running b := (runs_to (CP:=ToyCapnp.toy) (node_of b) NewHasher
  (decode_id (CP:=ToyCapnp.toy)) four).

Definition after (b : byte) (ls : list label) : option Node :=
  exec_nodes (CP:=ToyCapnp.toy) (node_of b) NewHasher (decode_id (CP:=ToyCapnp.toy)) four ls idle.

(** A state after an execution, by what is observed of it. *)
Lemma run_observed {X} (f : Node -> X) b ls x :
  f <$> after b ls = Some x -> exists nd, running b ls nd /\ f nd = x.
Proof.
  unfold after, runs_to. destruct (exec_nodes _ _ _ _ _ _) as [nd|]; [|done].
  intros [= <-]. by exists nd.
Qed.

(** Member [p]'s block of round 7 under the name of [owner], the gossip that
    carries it, its encoded identifier, and [b]'s signature over it. *)
Definition ok_or {A} (d : A) (r : res A) : A := match r with Ok a => a | _ => d end.

Definition block_of (p : byte) : bytes :=
  ok_or [] (Block_MarshalBinary (CP:=ToyCapnp.toy) (NewBlock 7 (Bytes (ToyEd25519.key_of p)) [] [])).
Definition id_by (owner p : byte) : blockID :=
  MkBlockID 7 (Bytes (ToyEd25519.key_of owner)) (Some (sha256 (block_of p))).
Definition message_by (owner p : byte) : Message blockID :=
  MkMessage (Some (id_by owner p)) (Some (block_of p)).

Definition gossip_by (owner p : byte) : bytes := ok_or [] (encoded (data_gossip (message_by owner p))).
Definition encoding (owner p : byte) : bytes :=
  ok_or [] (mid_MarshalBinary (MessageID:=@blockID_MessageID ToyCapnp.toy) (id_by owner p)).
Definition signature_over (owner p b : byte) : Signature :=
  ok_or (MkSignature None None) (Sign (node_of b) (encoding owner p)).
Definition signature_gossip_by (owner p b : byte) : bytes :=
  ok_or [] (encoded (signature_gossip (Some (encoding owner p)) (signature_over owner p b))).

(** The goroutine [g] performs one operation on round 0, as its caller [t]. *)
Definition perform (g t : nat) : list label :=
  [NCall g t; NRound 0 (LSend t); NRound 0 LLoopRecv; NRound 0 LLoopExec; NRound 0 (LDone t);
   NReturn g].

(** A gossip with a message arrives, is certified, and the node publishes its
    signature. *)
Definition receive (g : nat) (gossip : bytes) : list label :=
  [NSpawn g (Deliver gossip); NEnv g (VRound 0)] ++ perform g g ++ [NEnv g VOk; NEnv g VOk].

(** A signature gossip arrives. *)
Definition receive_signature (g : nat) (gossip : bytes) : list label :=
  [NSpawn g (Deliver gossip); NEnv g (VRound 0)] ++ perform g g ++ perform g (g + 500).

Definition receive_signatures (g : nat) (owner p : byte) : list label :=
  receive_signature g (signature_gossip_by owner p x01) ++
  receive_signature (g + 1) (signature_gossip_by owner p x02) ++
  receive_signature (g + 2) (signature_gossip_by owner p x03).

(** The node's own [Broadcast] starts round 7 and publishes the message. *)
Definition opened (b : byte) : list label :=
  [NSpawn 0 (Produce (message_by b b)); NEnv 0 VOk; NEnv 0 VOk].

(** The message of member [p] arrives and three members sign it. *)
Definition certified (g : nat) (p : byte) : list label :=
  receive g (gossip_by p p) ++ receive_signatures (g + 1) p p.

(** The first certificate of the first round. *)
Definition no_certificate : certificate blockID := MkCertificate (MkMessage None None) [] 0 false.

Definition first_round (nd : Node) : Z * certificate blockID :=
  match n_rounds nd with
  | s :: _ => (roundNum (s_round s), hd no_certificate (q_heap (quorum (s_round s))))
  | [] => (0, no_certificate)
  end.

Lemma first_round_has nd num cert :
  first_round nd = (num, cert) -> cert_completed cert = true -> has_certificate nd num cert.
Proof.
  unfold has_certificate, first_round. destruct (n_rounds nd) as [|s l]; [by intros [= <- <-]|].
  assert (forall h : list (certificate blockID), cert_completed (hd no_certificate h) = true ->
    h !! 0%nat = Some (hd no_certificate h)) as Hh by (by intros []).
  intros [= <- <-] Hc. exists 0%nat, s, 0%nat. split; [done|]. split; [done|]. exact (Hh _ Hc).
Qed.

(** The certificate of member 1's message with the signatures of three. *)
Definition cert_by (owner : byte) : certificate blockID :=
  MkCertificate (message_by owner x01)
    (map (signature_over x01 x01) [x01; x02; x03]) 3 true.

Definition one_block (b : byte) : list label := opened b ++ certified 1 x01.

Lemma one_block_run b : b = x02 \/ b = x03 ->
  exists nd, running b (one_block b) nd /\ has_certificate nd 7 (cert_by x01).
Proof.
  intros Hb. destruct (run_observed first_round b (one_block b) (7, cert_by x01)) as (nd & H1 & H2).
  - destruct Hb as [-> | ->]; vm_compute; reflexivity.
  - exists nd. split; [done|]. by eapply first_round_has.
Qed.

Lemma completed_certificate_is_certified_witness :
  exists id, checked_message NewHasher 7 (cert_by x01) id /\
    2 * total (includers four) < 3 * sumZ (stake_of (includers four)) (signers (cert_by x01)).
Proof.
  destruct (one_block_run x02) as (nd & Hr & Hc); [by left|].
  destruct (completed_certificate_is_certified (CP:=ToyCapnp.toy) NewHasher
      (decode_id (CP:=ToyCapnp.toy)) four (node_of x02) (one_block x02) nd 7 (cert_by x01))
    as (id & H & _ & _ & Hs); [exact four_fresh|exact Hr|exact Hc|reflexivity|].
  exists id. split; [exact H|exact Hs].
Defined.

Lemma certificates_of_two_nodes_intersect_witness :
  exists bs, NoDup bs /\ (forall b, b ∈ bs -> is_member (includers four) b) /\
    total (includers four) < 3 * sumZ (stake_of (includers four)) bs.
Proof.
  destruct (one_block_run x02) as (nd1 & Hr1 & Hc1); [by left|].
  destruct (one_block_run x03) as (nd2 & Hr2 & Hc2); [by right|].
  destruct (certificates_of_two_nodes_intersect (CP:=ToyCapnp.toy) NewHasher
      (decode_id (CP:=ToyCapnp.toy)) four (node_of x02) (node_of x03) (one_block x02)
      (one_block x03) nd1 nd2 7 7 (cert_by x01) (cert_by x01))
    as (id1 & id2 & bs & _ & _ & Hnd & Hbs & Hs);
    [exact four_fresh|exact Hr1|exact Hr2|exact Hc1|exact Hc2|reflexivity|reflexivity|].
  exists bs. split; [exact Hnd|]. split; [|exact Hs]. intros b Hb. exact (proj1 (Hbs b Hb)).
Defined.

(** Three members' messages are certified, then [Finalize] and the round's
    [StopRound] return. *)
Definition final_round : list label :=
  opened x02 ++ certified 1 x01 ++ certified 11 x02 ++ certified 21 x03 ++
  [NCall 0 100; NRound 0 (LFinal 100); NReturn 0; NEnv 0 VOk].

Definition broadcast_done (nd : Node) : option (option (Message blockID) * bool) :=
  go ← n_gos nd !! 0%nat;
  Some (match g_task go with Produce msg => Some msg | _ => None end,
        match g_rest go with Ret (inr (Ok tt)) => true | _ => false end).

Lemma broadcast_done_spec nd msg : broadcast_done nd = Some (Some msg, true) ->
  exists go, n_gos nd !! 0%nat = Some go /\ g_task go = Produce msg /\ g_rest go = Ret (inr (Ok tt)).
Proof.
  unfold broadcast_done. destruct (n_gos nd !! 0%nat) as [go|]; [|done]. simpl.
  intros H. exists go. split; [done|]. destruct (g_task go); [done|].
  destruct (g_rest go) as [[|[[]|e|w|w]]|]; by simplify_eq.
Qed.

Lemma final_round_run : exists nd, running x02 final_round nd /\
  broadcast_done nd = Some (Some (message_by x02 x02), true).
Proof.
  destruct (run_observed broadcast_done x02 final_round (Some (Some (message_by x02 x02), true)))
    as (nd & Hr & Hd); [vm_compute; reflexivity|].
  exists nd. split; [exact Hr|exact Hd].
Qed.

Lemma successful_broadcast_is_final_witness :
  exists nd n s, running x02 final_round nd /\ n_rounds nd !! n = Some s /\
    roundNum (s_round s) = 7 /\
    2 * total (includers four) <
      3 * sumZ (producer_stake (includers four)) (completed (q_heap (quorum (s_round s)))).
Proof.
  destruct final_round_run as (nd & Hr & Hd). apply broadcast_done_spec in Hd as (go & Hg & Ht & He).
  destruct (successful_broadcast_is_final (CP:=ToyCapnp.toy) NewHasher
      (decode_id (CP:=ToyCapnp.toy)) four (node_of x02) final_round nd 0 go (message_by x02 x02))
    as (id & n & s & Hid & Hs & En & Hstake); [exact four_fresh|exact Hr|exact Hg|exact Ht|exact He|].
  exists nd, n, s. split; [exact Hr|]. split; [exact Hs|]. split; [|exact Hstake].
  rewrite En. change (msgID (message_by x02 x02)) with (Some (id_by x02 x02)) in Hid.
  injection Hid as <-. reflexivity.
Defined.

(** *** A block under another member's name *)

(** Member 4 publishes member 1's block under its own name before member 1's
    gossip arrives; the members then sign member 1's identifier. *)
Definition stolen : list label :=
  opened x02 ++ receive 1 (gossip_by x04 x01) ++ receive_signatures 2 x01 x01 ++
  [NSpawn 9 (Deliver (gossip_by x01 x01)); NEnv 9 (VRound 0)] ++ perform 9 9.

(** Certification of a block without batches asks the pool nothing. *)
Definition no_pool : handler certE unit :=
  fun X e s => (s, match e in certE X return X with Pull _ => Err (Sent SBatchDeleted) end).

Lemma stolen_is_certified :
  runs (Dag.Certify (CP:=ToyCapnp.toy) (message_by x04 x01)) [] (Ok tt).
Proof.
  pose proof (record_runs no_pool (Dag.Certify (CP:=ToyCapnp.toy) (message_by x04 x01)) tt) as H.
  assert (record no_pool (Dag.Certify (CP:=ToyCapnp.toy) (message_by x04 x01)) tt = ([], Ok tt)) as E
    by (vm_compute; reflexivity).
  rewrite E in H. exact H.
Qed.

Definition delivered (g : nat) (nd : Node) : option ValidationResult :=
  go ← n_gos nd !! g; match g_rest go with Ret (inl (Ok v)) => Some v | _ => None end.

(** C22: The certifier accepts the block under the other name, and certificates are
    found by the hash of the data alone, so signatures over member 1's
    identifier complete a certificate whose producer is member 4, none of them
    verifies over the identifier in the certificate, and member 1's own message
    is rejected. *)
Theorem certificate_under_another_name :
  runs (Dag.Certify (CP:=ToyCapnp.toy) (message_by x04 x01)) [] (Ok tt) /\
  exists nd, running x02 stolen nd /\ has_certificate nd 7 (cert_by x04) /\
    cert_completed (cert_by x04) = true /\
    producer (cert_by x04) = Some (sl (Bytes (ToyEd25519.key_of x04))) /\
    Forall (fun sig => Verify (node_of x02) (encoding x01 x01) sig = Ok tt /\
                       Verify (node_of x02) (encoding x04 x01) sig <> Ok tt)
      (cert_signatures (cert_by x04)) /\
    delivered 9 nd = Some ValidationReject.
Proof.
  split; [exact stolen_is_certified|].
  destruct (run_observed (fun nd => (first_round nd, delivered 9 nd)) x02 stolen
    ((7, cert_by x04), Some ValidationReject)) as (nd & Hr & [= Hf Hd]); [vm_compute; reflexivity|].
  exists nd. split_and!; [exact Hr|by eapply first_round_has|done|vm_compute; reflexivity| |done].
  repeat apply Forall_cons_2; try apply Forall_nil_2; (split; [vm_compute; reflexivity|]);
    intros H; vm_compute in H; discriminate.
Qed.
End Executions.
