(* ===== verification/Wire.v ===== *)
(** The rest of the generated Cap'n Proto accessors
    ([rebro/gossip/gossipmsg/gossip.capnp.go],
    [dag/block/blockmsg/block.capnp.go], [bapl/batchmsg/batch.capnp.go]): the
    presence of fields, structs as pointers and list elements, futures, names
    and schemas, over the operations of the library they call ([CapnpWire]).
    The compressed schema text is a parameter. *)

From S2P Require Import Prelude Prog Crypto CryptoInstance Capnp CapnpInstance Rebro Bapl Multicast Block Gossip GossipProps SystemProps.
From stdpp Require Import pretty.
#[local] Open Scope Z_scope.

(** ** The library interface *)

Class CapnpWire {CP : Capnp} := {
  HasPtr : Struct -> Z -> bool;
  NewStruct : Segment -> Z -> Z -> res Struct;
  Struct_IsValid : Struct -> bool;
  Struct_Message : Struct -> Capnp.Message;
  Struct_Segment : Struct -> Segment;
  Struct_ToPtr : Struct -> Ptr;
  Struct_EncodeAsPtr : Struct -> Segment -> Ptr;
  Struct_DecodeFromPtr : Ptr -> Struct;
  StructList : Type;
  NewCompositeList : Segment -> Z -> Z -> Z -> res StructList;
  StructList_Len : StructList -> Z;
  StructList_At : StructList -> Z -> res Struct;
  Future : Type;
  Future_Ptr : Future -> res Ptr;
  text_Marshal : Z -> Struct -> bytes * option error;
}.

(** "HasPtr reports whether the i'th pointer in p is non-null"; "SetData sets
    the i'th pointer to a newly allocated data or null if v is nil"; a struct
    encoded as a pointer is decoded from it; new structs and list elements have
    the size they were asked for. *)
Class CapnpWireLaws {CP : Capnp} {CW : CapnpWire} : Prop := {
  HasPtr_SetData : forall s s' i v, SetData s i v = Ok s' -> HasPtr s' i = negb (is_nil v);
  HasPtr_SetData_other : forall s s' i j v, SetData s i v = Ok s' -> j <> i ->
    HasPtr s' j = HasPtr s j;
  HasPtr_SetUint16 : forall s off v i, HasPtr (SetUint16 s off v) i = HasPtr s i;
  HasPtr_Unmarshal : forall s b m p i, Marshal s = Ok b -> within_limits b ->
    Unmarshal b = Ok m -> Root m = Ok p -> HasPtr (Ptr_Struct p) i = HasPtr s i;
  Ptr_Struct_ToPtr : forall s, Ptr_Struct (Struct_ToPtr s) = s;
  EncodeAsPtr_ToPtr : forall s seg, Struct_EncodeAsPtr s seg = Struct_ToPtr s;
  DecodeFromPtr_Struct : forall p, Struct_DecodeFromPtr p = Ptr_Struct p;
  NewStruct_size : forall seg d p s, NewStruct seg d p = Ok s ->
    DataSize s = d /\ PointerCount s = p;
  CompositeList_Len : forall seg d p n l, 0 <= n -> NewCompositeList seg d p n = Ok l ->
    StructList_Len l = n;
  CompositeList_At : forall seg d p n l i, NewCompositeList seg d p n = Ok l -> 0 <= i < n ->
    exists s, StructList_At l i = Ok s /\ DataSize s = d /\ PointerCount s = p;
}.

(** [p, err := f.Ptr(); return T(p.Struct()), err] *)
Definition future_struct {CP : Capnp} {CW : CapnpWire} (f : Future) : res Struct :=
  p ← Future_Ptr f; mret (Ptr_Struct p).

(** [schemas.Schema]. *)
Record Schema := MkSchema { schema_String : bytes; Nodes : list Z; Compressed : bool }.

(** ** Generated accessors *)

Module gossipwire.
Section gossipwire.
Context {CP : Capnp} {CW : CapnpWire}.
Definition Gossip_TypeID : Z := 0xf72bafaeff08c61a.
Definition NewGossip (s : Segment) : res Struct := NewStruct s 8 3.
Definition Gossip_String (s : Struct) : bytes := (text_Marshal Gossip_TypeID s).1.
Definition Gossip_EncodeAsPtr (s : Struct) (seg : Segment) : Ptr := Struct_EncodeAsPtr s seg.
Definition Gossip_DecodeFromPtr (p : Ptr) : Struct := Struct_DecodeFromPtr p.
Definition Gossip_ToPtr (s : Struct) : Ptr := Struct_ToPtr s.
Definition Gossip_IsValid (s : Struct) : bool := Struct_IsValid s.
Definition Gossip_Message (s : Struct) : Capnp.Message := Struct_Message s.
Definition Gossip_Segment (s : Struct) : Segment := Struct_Segment s.
Definition NewGossip_List (s : Segment) (sz : Z) : res StructList := NewCompositeList s 8 3 sz.
Definition Gossip_Future_Struct (f : Future) : res Struct := future_struct f.
Definition Gossip_HasId (s : Struct) : bool := HasPtr s 0.
Definition Gossip_Signature (s : Struct) : Struct := s.
Definition Gossip_Future_Signature (f : Future) : Future := f.
Definition Gossip_signature_IsValid (s : Struct) : bool := Struct_IsValid s.
Definition Gossip_signature_Message (s : Struct) : Capnp.Message := Struct_Message s.
Definition Gossip_signature_Segment (s : Struct) : Segment := Struct_Segment s.
Definition Gossip_signature_Future_Struct (f : Future) : res Struct := future_struct f.
Definition Gossip_signature_HasSigner (s : Struct) : bool := HasPtr s 1.
Definition Gossip_signature_HasSignature (s : Struct) : bool := HasPtr s 2.
Definition Gossip_Data (s : Struct) : Struct := s.
Definition Gossip_Future_Data (f : Future) : Future := f.
Definition Gossip_data_IsValid (s : Struct) : bool := Struct_IsValid s.
Definition Gossip_data_Message (s : Struct) : Capnp.Message := Struct_Message s.
Definition Gossip_data_Segment (s : Struct) : Segment := Struct_Segment s.
Definition Gossip_data_Future_Struct (f : Future) : res Struct := future_struct f.
Definition Gossip_data_HasData (s : Struct) : bool := HasPtr s 1.
Definition Gossip_Which_String (w : Z) : bytes :=
  let s := String.list_byte_of_string "signaturedata" in
  if bool_decide (w = gossipmsg.Gossip_Which_signature) then take 9 s
  else if bool_decide (w = gossipmsg.Gossip_Which_data) then take 4 (drop 9 s)
  else String.list_byte_of_string ("Gossip_Which(" +:+ pretty (Z.to_N w) +:+ ")").
Definition RegisterSchema {R} (register : Schema -> R -> R) (blob : bytes) : R -> R :=
  register (MkSchema blob [0x9856804bd365ed90; 0xa22d13a650fd2c3b; 0xf72bafaeff08c61a] true).
End gossipwire.
End gossipwire.

Module blockwire.
Section blockwire.
Context {CP : Capnp} {CW : CapnpWire}.
Definition Block_TypeID : Z := 0x92df2bd885bf4d5e.
Definition NewBlock (s : Segment) : res Struct := NewStruct s 8 3.
Definition Block_String (s : Struct) : bytes := (text_Marshal Block_TypeID s).1.
Definition Block_EncodeAsPtr (s : Struct) (seg : Segment) : Ptr := Struct_EncodeAsPtr s seg.
Definition Block_DecodeFromPtr (p : Ptr) : Struct := Struct_DecodeFromPtr p.
Definition Block_ToPtr (s : Struct) : Ptr := Struct_ToPtr s.
Definition Block_IsValid (s : Struct) : bool := Struct_IsValid s.
Definition Block_Message (s : Struct) : Capnp.Message := Struct_Message s.
Definition Block_Segment (s : Struct) : Segment := Struct_Segment s.
Definition NewBlock_List (s : Segment) (sz : Z) : res StructList := NewCompositeList s 8 3 sz.
Definition Block_Future_Struct (f : Future) : res Struct := future_struct f.
Definition Block_HasSigner (s : Struct) : bool := HasPtr s 0.
Definition Block_HasBatches (s : Struct) : bool := HasPtr s 1.
Definition Block_HasParents (s : Struct) : bool := HasPtr s 2.
Definition BlockID_TypeID : Z := 0xe8be3e5a06a33e53.
Definition NewBlockID (s : Segment) : res Struct := NewStruct s 8 2.
Definition BlockID_String (s : Struct) : bytes := (text_Marshal BlockID_TypeID s).1.
Definition BlockID_EncodeAsPtr (s : Struct) (seg : Segment) : Ptr := Struct_EncodeAsPtr s seg.
Definition BlockID_DecodeFromPtr (p : Ptr) : Struct := Struct_DecodeFromPtr p.
Definition BlockID_ToPtr (s : Struct) : Ptr := Struct_ToPtr s.
Definition BlockID_IsValid (s : Struct) : bool := Struct_IsValid s.
Definition BlockID_Message (s : Struct) : Capnp.Message := Struct_Message s.
Definition BlockID_Segment (s : Struct) : Segment := Struct_Segment s.
Definition NewBlockID_List (s : Segment) (sz : Z) : res StructList := NewCompositeList s 8 2 sz.
Definition BlockID_Future_Struct (f : Future) : res Struct := future_struct f.
Definition BlockID_HasSigner (s : Struct) : bool := HasPtr s 0.
Definition BlockID_HasHash (s : Struct) : bool := HasPtr s 1.
Definition RegisterSchema {R} (register : Schema -> R -> R) (blob : bytes) : R -> R :=
  register (MkSchema blob [0x92df2bd885bf4d5e; 0xe8be3e5a06a33e53] true).
End blockwire.
End blockwire.

Module batchwire.
Section batchwire.
Context {CP : Capnp} {CW : CapnpWire}.
Definition Batch_TypeID : Z := 0xa4e968f5be59ce03.
Definition NewBatch (s : Segment) : res Struct := NewStruct s 0 3.
Definition Batch_String (s : Struct) : bytes := (text_Marshal Batch_TypeID s).1.
Definition Batch_EncodeAsPtr (s : Struct) (seg : Segment) : Ptr := Struct_EncodeAsPtr s seg.
Definition Batch_DecodeFromPtr (p : Ptr) : Struct := Struct_DecodeFromPtr p.
Definition Batch_ToPtr (s : Struct) : Ptr := Struct_ToPtr s.
Definition Batch_IsValid (s : Struct) : bool := Struct_IsValid s.
Definition Batch_Message (s : Struct) : Capnp.Message := Struct_Message s.
Definition Batch_Segment (s : Struct) : Segment := Struct_Segment s.
Definition NewBatch_List (s : Segment) (sz : Z) : res StructList := NewCompositeList s 0 3 sz.
Definition Batch_Future_Struct (f : Future) : res Struct := future_struct f.
Definition Batch_HasData (s : Struct) : bool := HasPtr s 0.
Definition Batch_Signature (s : Struct) : Struct := s.
Definition Batch_Future_Signature (f : Future) : Future := f.
Definition Batch_signature_IsValid (s : Struct) : bool := Struct_IsValid s.
Definition Batch_signature_Message (s : Struct) : Capnp.Message := Struct_Message s.
Definition Batch_signature_Segment (s : Struct) : Segment := Struct_Segment s.
Definition Batch_signature_Future_Struct (f : Future) : res Struct := future_struct f.
Definition Batch_signature_HasSigner (s : Struct) : bool := HasPtr s 1.
Definition Batch_signature_HasSignature (s : Struct) : bool := HasPtr s 2.
Definition RegisterSchema {R} (register : Schema -> R -> R) (blob : bytes) : R -> R :=
  register (MkSchema blob [0x88b5d5dd2e8a6c6b; 0xa4e968f5be59ce03] true).
End batchwire.
End batchwire.


(** ** Fields *)

Section fields.
Context {CP : Capnp} {CW : CapnpWire} {CL : CapnpLaws} {WL : CapnpWireLaws}.

(** The accessors of one data field, at slot [i] of its struct. *)
Class DataField (i : Z) (get : Struct -> res slice) (set : Struct -> slice -> res Struct)
    (has : Struct -> bool) : Prop := {
  field_get : forall s, get s = data_at s i;
  field_set : forall s v, set s v = SetData s i v;
  field_has : forall s, has s = HasPtr s i;
}.

#[export] Instance Id_field : DataField 0 gossipmsg.Id gossipmsg.SetId gossipwire.Gossip_HasId.
Proof. done. Qed.
#[export] Instance gossip_Signer_field : DataField 1 gossipmsg.Signature_Signer
  gossipmsg.Signature_SetSigner gossipwire.Gossip_signature_HasSigner.
Proof. done. Qed.
#[export] Instance gossip_Signature_field : DataField 2 gossipmsg.Signature_Signature
  gossipmsg.Signature_SetSignature gossipwire.Gossip_signature_HasSignature.
Proof. done. Qed.
#[export] Instance gossip_Data_field : DataField 1 gossipmsg.Data_Data gossipmsg.Data_SetData
  gossipwire.Gossip_data_HasData.
Proof. done. Qed.
#[export] Instance Block_Signer_field : DataField 0 blockmsg.Block_Signer blockmsg.Block_SetSigner
  blockwire.Block_HasSigner.
Proof. done. Qed.
#[export] Instance BlockID_Signer_field : DataField 0 blockmsg.BlockID_Signer
  blockmsg.BlockID_SetSigner blockwire.BlockID_HasSigner.
Proof. done. Qed.
#[export] Instance BlockID_Hash_field : DataField 1 blockmsg.BlockID_Hash blockmsg.BlockID_SetHash
  blockwire.BlockID_HasHash.
Proof. done. Qed.
#[export] Instance Batch_Data_field : DataField 0 batchmsg.Data batchmsg.SetData_ batchwire.Batch_HasData.
Proof. done. Qed.
#[export] Instance Batch_Signer_field : DataField 1 batchmsg.Signature_Signer
  batchmsg.Signature_SetSigner batchwire.Batch_signature_HasSigner.
Proof. done. Qed.
#[export] Instance Batch_Signature_field : DataField 2 batchmsg.Signature_Signature
  batchmsg.Signature_SetSignature batchwire.Batch_signature_HasSignature.
Proof. done. Qed.

(** A field that was set is present exactly when it was not set to nil, and
    reads back; the fields at other slots keep what they had. *)
Lemma field_set_get {i get set has} {F : DataField i get set has} s s' v :
  set s v = Ok s' -> has s' = negb (is_nil v) /\ exists d, get s' = Ok d /\ sl d = sl v.
Proof.
  rewrite (field_set (i:=i)). intros H. rewrite (field_has (i:=i)), (field_get (i:=i)).
  split; [by eapply HasPtr_SetData|by eapply SetData_data_at].
Qed.

Lemma field_set_other {i get set has j get' set' has'} {F : DataField i get set has}
    {G : DataField j get' set' has'} s s' v :
  i <> j -> set s v = Ok s' -> has' s' = has' s /\ get' s' = get' s.
Proof.
  intros Hij. rewrite (field_set (i:=i)). intros H.
  rewrite !(field_has (i:=j)), !(field_get (i:=j)).
  split; [by eapply HasPtr_SetData_other|by eapply SetData_data_at_other].
Qed.

Lemma has_of_root s b m s' i :
  Marshal s = Ok b -> within_limits b -> Unmarshal b = Ok m -> read_root m = Ok s' ->
  HasPtr s' i = HasPtr s i.
Proof.
  intros Hm Hw Hu Hr. unfold read_root in Hr. apply res_bind_Ok in Hr as (p & Hp & [= <-]).
  by eapply HasPtr_Unmarshal.
Qed.

(** C40: The signature gossip that a node publishes arrives with its union set to
    the signature, printed as such, and with exactly the fields present that
    were not nil. *)
Theorem signature_gossip_fields canonicalID sig b m gsp :
  encodes (signature_gossip canonicalID sig) b -> within_limits b ->
  Unmarshal b = Ok m -> gossipmsg.ReadRootGossip m = Ok gsp ->
  gossipwire.Gossip_Which_String (gossipmsg.Which gsp) = String.list_byte_of_string "signature" /\
  gossipwire.Gossip_HasId gsp = negb (is_nil canonicalID) /\
  gossipwire.Gossip_signature_HasSignature gsp = negb (is_nil (Body sig)) /\
  gossipwire.Gossip_signature_HasSigner gsp = negb (is_nil (Signer sig)).
Proof.
  intros Henc Hw Hu Hr. pose proof Henc as (seg & s0 & s4 & _ & H0 & Hset & Hm).
  destruct (signature_gossip_read _ _ _ Henc Hw)
    as (m' & gsp' & c & body & key & Eu & Er & Hwhich & _).
  assert (m' = m) as -> by congruence. assert (gsp' = gsp) as -> by congruence.
  split; [by rewrite Hwhich|]. unfold signature_gossip in Hset.
  apply res_bind_Ok in Hset as (s2 & H2 & Hset). apply res_bind_Ok in Hset as (s3 & H3 & H4).
  unfold gossipwire.Gossip_HasId, gossipwire.Gossip_signature_HasSignature,
    gossipwire.Gossip_signature_HasSigner.
  rewrite !(has_of_root _ _ _ _ _ Hm Hw Hu Hr). split_and!.
  - rewrite (HasPtr_SetData_other _ _ _ 0 _ H4), (HasPtr_SetData_other _ _ _ 0 _ H3) by lia.
    by apply (HasPtr_SetData _ _ _ _ H2).
  - rewrite (HasPtr_SetData_other _ _ _ 2 _ H4) by lia. by apply (HasPtr_SetData _ _ _ _ H3).
  - by apply (HasPtr_SetData _ _ _ _ H4).
Qed.

(** Structs survive as pointers. *)
Lemma Gossip_pointer_roundtrip s seg :
  gossipwire.Gossip_DecodeFromPtr (gossipwire.Gossip_EncodeAsPtr s seg) = s /\
  gossipwire.Gossip_DecodeFromPtr (gossipwire.Gossip_ToPtr s) = s.
Proof.
  unfold gossipwire.Gossip_DecodeFromPtr, gossipwire.Gossip_EncodeAsPtr, gossipwire.Gossip_ToPtr.
  rewrite EncodeAsPtr_ToPtr, DecodeFromPtr_Struct. by rewrite Ptr_Struct_ToPtr.
Qed.

(** A struct of its own, a root and an element of a list have the same size. *)
Lemma Block_sizes seg s r l n i :
  blockwire.NewBlock seg = Ok s -> blockmsg.NewRootBlock seg = Ok r ->
  blockwire.NewBlock_List seg n = Ok l -> 0 <= i < n ->
  exists e, StructList_At l i = Ok e /\ DataSize e = DataSize s /\ PointerCount e = PointerCount s /\
    DataSize r = DataSize s /\ PointerCount r = PointerCount s.
Proof.
  intros Hs Hr Hl Hi. apply NewStruct_size in Hs as [-> ->]. apply NewRootStruct_size in Hr as [-> ->].
  destruct (CompositeList_At _ _ _ _ _ _ Hl Hi) as (e & E & H1 & H2). exists e. by rewrite H1, H2.
Qed.
End fields.

(** ** On the concrete encoding *)
Module ToyWire.
Import ToyCapnp.

Definition blank (d p : Z) : tstruct := TStruct d p ∅ ∅ ∅.

#[global] Instance toy_wire : CapnpWire (CP:=toy) := {|
  HasPtr (s : Struct (Capnp:=toy)) i := bool_decide (is_Some (ptrs s !! i));
  NewStruct (_ : Segment (Capnp:=toy)) d p := Ok (blank d p);
  Struct_IsValid _ := true;
  Struct_Message (s : Struct (Capnp:=toy)) := s;
  Struct_Segment _ := tt;
  Struct_ToPtr (s : Struct (Capnp:=toy)) := Some (inr s);
  Struct_EncodeAsPtr (s : Struct (Capnp:=toy)) _ := Some (inr s);
  Struct_DecodeFromPtr (p : Ptr (Capnp:=toy)) := Ptr_Struct p;
  StructList := list tstruct;
  NewCompositeList _ d p n := Ok (replicate (Z.to_nat n) (blank d p));
  StructList_Len l := Z.of_nat (length l);
  StructList_At l i :=
    match l !! Z.to_nat i with Some s => Ok s | None => Panic "index out of range" end;
  Future := tptr;
  Future_Ptr p := Ok p;
  text_Marshal _ _ := ([], None);
|}.

#[global] Instance toy_wire_laws : CapnpWireLaws (CP:=toy).
Proof.
  split; simpl.
  - intros s s' i v [= <-]. simpl. rewrite lookup_partial_alter_eq.
    by destruct v.
  - intros s s' i j v [= <-] Hj. simpl. by rewrite lookup_partial_alter_ne.
  - done.
  - intros s b m p i [= <-] _ Hu [= <-]. simpl.
    unfold unmarshal in Hu. pose proof (fits_struct s []) as E. rewrite app_nil_r in E.
    rewrite E in Hu. by injection Hu as <-.
  - done.
  - done.
  - done.
  - by intros _ d p s [= <-].
  - intros _ d p n l Hn [= <-]. rewrite length_replicate. lia.
  - intros _ d p n l i [= <-] Hi. rewrite lookup_replicate_2 by lia. by eexists.
Qed.

Import GossipProps.Executions.

Lemma signature_gossip_fields_witness :
  exists b m gsp, Unmarshal (Capnp:=toy) b = Ok m /\ gossipmsg.ReadRootGossip m = Ok gsp /\
    gossipwire.Gossip_HasId gsp = true /\ gossipwire.Gossip_signature_HasSigner gsp = false.
Proof.
  assert (exists b, encoded (signature_gossip (Some [x01]) (MkSignature (Some [x02]) None)) = Ok b)
    as [b Hb] by (eexists; vm_compute; reflexivity).
  pose proof (encoded_encodes _ b Hb) as Henc.
  destruct (signature_gossip_read _ _ _ Henc Logic.I) as (m & gsp & _ & _ & _ & Hu & Hr & _).
  destruct (signature_gossip_fields (Some [x01]) (MkSignature (Some [x02]) None) b m gsp)
    as (_ & Hi & _ & Hs); [exact Henc|exact Logic.I|exact Hu|exact Hr|].
  exists b, m, gsp. split; [exact Hu|]. split; [exact Hr|]. split; [exact Hi|exact Hs].
Defined.
End ToyWire.
