(* ===== verification/DagProps.v ===== *)
(** Properties of the DAG layer ([Dag.v]): what certification establishes, what
    a chain broadcasts, and how a chain that failed a round goes on. *)

From S2P Require Import Prelude Prog Sha256 Crypto CryptoInstance Capnp CapnpInstance Rebro Bapl Block Includers Dag.

Section certifier.
Context {CP : Capnp}.

Lemma runs_Certify msg tr :
  runs (Certify msg) tr (Ok tt) <->
  exists id blk, msgData msg <> None /\ msgID msg = Some id /\ len (hash id) = sha256_Size /\
    UnmarshalBlock (sl (msgData msg)) = Ok blk /\
    Forall2 (fun h o => exists x, o = Occ (Pull h) x /\ pulled x) (Block_Batches blk) tr.
Proof.
  unfold Certify. destruct (msgData msg) as [data|] eqn:Ed; cbn [is_nil].
  2:{ split; [intros H; by run_step H|]. by intros (? & ? & ? & _). }
  destruct (msgID msg) as [id|].
  2:{ split; [|by intros (? & ? & _ & ? & _)].
      intros H. apply (proj1 (runs_lit_bind _ _ _ _)) in H. by run_step H; [..|run_step H|]. }
  rewrite runs_lit_bind. cbn [nonnil after_res]. rewrite runs_lit_bind.
  cbn [mid_Validate blockID_MessageID]. unfold blockID_Validate.
  destruct (bool_decide (len (hash id) <> sha256_Size)) eqn:Eh; cbn [map_err after_res].
  { apply bool_decide_eq_true in Eh. split; [intros H; by run_step H|].
    intros (? & ? & _ & [= <-] & ? & _). done. }
  apply bool_decide_eq_false, dec_stable in Eh.
  rewrite runs_lit_bind. destruct (UnmarshalBlock (sl (Some data))) as [blk|e|w|w] eqn:Eb;
    cbn [map_err after_res].
  2-4: split; [intros H; by run_step H|intros (? & ? & _ & _ & _ & ? & _); congruence].
  rewrite runs_lit_bind. cbn [Block_Validate map_err after_res]. rewrite runs_pulls. split.
  - intros H. exists id, blk. by split_and!.
  - intros (? & blk' & _ & [= <-] & _ & E & H). by replace blk with blk' by congruence.
Qed.

(** C19: Certification accepts a message exactly when its identifier is valid,
    its data decodes to a block, and every batch of the block, in order, is
    pulled from the pool or reported deleted by it. *)
Theorem Certify_accepts msg tr :
  runs (Certify msg) tr (Ok tt) <->
  exists id blk, msgData msg <> None /\ msgID msg = Some id /\ len (hash id) = sha256_Size /\
    UnmarshalBlock (sl (msgData msg)) = Ok blk /\
    Forall2 (fun h o => exists x, o = Occ (Pull h) x /\ pulled x) (Block_Batches blk) tr.
Proof. apply runs_Certify. Qed.
End certifier.

Section chain.
Context {CP : Capnp} {K : Type} {PK : Crypto.PubKey K}.
Context (signerID : K).
Abbreviation E := (chainE K).

Definition broadcast_of (o : occ E) : option (Message blockID * Includers K * res unit) :=
  let '@Occ _ X e x := o in
  match e in chainE _ X return X -> option (Message blockID * Includers K * res unit) with
  | Broadcast msg incl => fun x => Some (msg, incl, x)
  | _ => fun _ => None
  end x.

Definition deletion_of (o : occ E) : option slice :=
  let '@Occ _ X e x := o in
  match e in chainE _ X return X -> option slice with
  | DeleteBatch h => fun _ => Some h
  | _ => fun _ => None
  end x.

(** What [qrm.List()] gave after a broadcast. *)
Definition listing_of (o : occ E) : option (res (list (Message blockID))) :=
  let '@Occ _ X e x := o in
  match e in chainE _ X return X -> option (res (list (Message blockID))) with
  | QuorumMessages => fun x => Some x
  | _ => fun _ => None
  end x.

Definition deleting (o : occ E) : Prop := is_Some (deletion_of o).

Lemma deleting_quiet tr :
  Forall deleting tr -> omap broadcast_of tr = [] /\ omap listing_of tr = [].
Proof.
  induction 1 as [|[X e x] tr [h Hh] _ [IH1 IH2]]; [done|].
  by destruct e.
Qed.

Lemma runs_deletes hashes tr r :
  runs (gfor hashes (fun batchHash =>
    attempt (call (DeleteBatch (K:=K) batchHash)) ;; mret tt)) tr r ->
  Forall deleting tr /\ (r = Ok tt -> omap deletion_of tr = hashes).
Proof.
  revert tr. induction hashes as [|h hashes IH]; intros tr H; cbn [gfor] in H.
  { run_step H. subst. by split. }
  apply runs_gbind in H as [(tr1 & tr2 & a & -> & H1 & H2)|(r' & H1 & Hr' & Hr)].
  - run_step H1. subst. destruct (IH _ H2) as [IH1 IH2].
    assert (x0 = []) as -> by (run_step H1; run_step H1; by subst). simpl.
    split; [constructor; [by eexists|done]|]. intros E0. f_equal. by apply IH2.
  - run_step H1. subst. assert (x0 = []) as -> by (run_step H1; run_step H1; by subst).
    split; [constructor; [by eexists|done]|]. by intros ->.
Qed.

(** The batches the certified blocks of the last round commit to. *)
Definition committed (certs : list (Message blockID)) : list slice :=
  certs ≫= fun msg =>
    match UnmarshalBlock (sl (msgData msg)) with Ok blk => Block_Batches blk | _ => [] end.

Definition parents_of (certs : list (Message blockID)) : list slice :=
  map (fun msg => match msgID msg with Some id => hash id | None => None end) certs.

Lemma runs_clean_cert msg tr r :
  runs (clean_cert (K:=K) msg) tr r ->
  Forall deleting tr /\
  forall p, r = Ok p -> omap deletion_of tr = committed [msg] /\ [p] = parents_of [msg].
Proof.
  unfold clean_cert. intros H. apply (proj1 (runs_lit_bind _ _ _ _)) in H.
  destruct (msgID msg) as [id|] eqn:Ei; cbn [nonnil after_res] in H; [|run_step H; subst; by split].
  apply (proj1 (runs_lit_bind _ _ _ _)) in H.
  destruct (UnmarshalBlock (sl (msgData msg))) as [blk|e|w|w] eqn:Eb; cbn [after_res] in H;
    try (run_step H; subst; by split).
  apply runs_gbind in H as [(tr1 & tr2 & a & -> & H1 & H2)|(r' & H1 & Hr' & Hr)].
  - apply runs_deletes in H1 as [B1 H1]. destruct a. run_step H2. subst.
    rewrite app_nil_r. split; [done|]. intros p [= <-].
    unfold committed, parents_of. simpl. rewrite Eb, Ei, app_nil_r. split; [by apply H1|done].
  - apply runs_deletes in H1 as [B1 _]. split; [done|]. by intros p ->.
Qed.

Lemma runs_clean_certs certs tr r :
  runs (clean_certs (K:=K) certs) tr r ->
  Forall deleting tr /\
  forall ps, r = Ok ps -> omap deletion_of tr = committed certs /\ ps = parents_of certs.
Proof.
  revert tr r. induction certs as [|msg certs IH]; intros tr r H; cbn [clean_certs] in H.
  { run_step H. subst. split; [done|]. by intros ps [= <-]. }
  apply runs_gbind in H as [(tr1 & tr2 & p & -> & H1 & H2)|(r' & H1 & Hr' & Hr)].
  2:{ apply runs_clean_cert in H1 as [B1 _]. split; [done|]. by intros ps ->. }
  apply runs_clean_cert in H1 as [B1 H1]. destruct (H1 p eq_refl) as [D1 P1].
  apply runs_gbind in H2 as [(tr3 & tr4 & ps & -> & H2 & H3)|(r' & H2 & Hr' & Hr)].
  - apply IH in H2 as [B2 H2]. destruct (H2 ps eq_refl) as [D2 ->]. run_step H3. subst.
    rewrite app_nil_r. split; [by apply Forall_app_2|]. rewrite omap_app, D1, D2.
    intros ps [= <-]. unfold committed, parents_of in *. simpl in *. rewrite app_nil_r in *.
    injection P1 as ->. done.
  - apply IH in H2 as [B2 _]. split; [by apply Forall_app_2|]. by intros ps ->.
Qed.

(** The message of a round: the encoding of its block under the identifier that
    carries the hash of this encoding. *)
Definition round_message (c : Chain) (batches : list Batch) (msg : Message blockID) : Prop :=
  exists data,
    msg = MkMessage (Some (MkBlockID (height c) (Bytes signerID) (Some (sha256 data)))) (Some data) /\
    Block_MarshalBinary (MkBlock (msgID msg) (map Batch_Hash batches) (parents_of (lastCerts c)))
      = Ok data.

Lemma built_message c batches blk h :
  Block_Hash (NewBlock (height c) (Bytes signerID) batches (parents_of (lastCerts c))) = (blk, Ok h) ->
  exists data, Block_MarshalBinary blk = Ok data /\
    round_message c batches (MkMessage (Block_ID blk) (Some data)).
Proof.
  intros (data & E & -> & Eid & Ebs & Eps & _)%NewBlock_Hash.
  exists data. split; [done|]. exists data. cbn [msgID]. split; [by rewrite Eid|].
  rewrite <- E, <- Ebs, <- Eps. by destruct blk.
Qed.

(** The chain that goes on after a successful round. *)
Definition advanced (c : Chain) (certs : list (Message blockID)) : Chain :=
  MkChain (u64 (height c + 1)) certs.

(** The requests of a round, up to and after its broadcast. *)
Lemma runs_startRound c tr r :
  runs (startRound signerID c) tr r ->
  (omap broadcast_of tr = [] /\ omap listing_of tr = [] /\ is_Ok r = false) \/
  exists tr1 batches incl msg x tr2,
    tr = tr1 ++ Occ (ListBySigner (Bytes signerID)) (Ok batches) ::
           Occ (IncludersOf (height c)) (Ok incl) :: Occ (Broadcast msg incl) x :: tr2 /\
    round_message c batches msg /\ Forall deleting tr1 /\ omap deletion_of tr1 = committed (lastCerts c) /\
    ((tr2 = [] /\ is_Ok x = false /\ is_Ok r = false) \/
     (exists y, x = Ok tt /\ tr2 = [Occ QuorumMessages y] /\ r = (certs ← y; Ok (advanced c certs)))).
Proof.
  unfold startRound. intros H.
  apply runs_gbind in H as [(tr1 & tr2 & ps & -> & H1 & H)|(r' & H1 & _ & Hr)].
  2:{ apply runs_clean_certs in H1 as [[-> ->]%deleting_quiet _]. by left. }
  apply runs_clean_certs in H1 as [B1 H1]. destruct (H1 ps eq_refl) as [D1 ->].
  rewrite !omap_app. destruct (deleting_quiet tr1 B1) as [-> ->].
  apply (proj1 (runs_attempt_call _ _ _ _)) in H as (x & tr' & -> & H).
  run_step H; try (run_step H; subst; by left). rename a into batches.
  destruct (Block_Hash _) as [blk hashed] eqn:Eh.
  apply (proj1 (runs_lit_bind _ _ _ _)) in H.
  destruct hashed as [h|e|w|w]; cbn [after_res] in H; try (run_step H; subst; by left).
  destruct (built_message _ _ _ _ Eh) as (data & Emar & Hmsg).
  apply (proj1 (runs_lit_bind _ _ _ _)) in H. rewrite Emar in H. cbn [after_res] in H.
  run_step H. subst. run_step H; try (run_step H; subst; by left).
  run_step H. subst. right. exists tr1, batches. do 4 eexists.
  split; [reflexivity|]. split; [done|]. split; [done|]. split; [done|].
  run_step H; try (run_step H; subst; by left). destruct a0.
  run_step H. subst. right. eexists. split; [done|].
  run_step H; run_step H; subst; by split.
Qed.

(** C18: What one round of the chain broadcasts: the encoding of a block of the
    current height by this signer, with the hashes of the pool's batches of
    this signer and the hashes of the last certified blocks as parents, under
    the identifier that carries the hash of this encoding.  Before, exactly
    the batches of the last certified blocks are deleted.  The height advances
    only when the broadcast succeeded. *)
Theorem startRound_broadcasts c tr r :
  runs (startRound signerID c) tr r ->
  (forall msg incl x, (msg, incl, x) ∈ omap broadcast_of tr ->
     exists batches data,
       Occ (ListBySigner (Bytes signerID)) (Ok batches) ∈ tr /\
       omap deletion_of tr = committed (lastCerts c) /\
       msg = MkMessage (Some (MkBlockID (height c) (Bytes signerID) (Some (sha256 data)))) (Some data) /\
       Block_MarshalBinary (MkBlock (msgID msg) (map Batch_Hash batches) (parents_of (lastCerts c)))
         = Ok data) /\
  (forall c', r = Ok c' -> height c' = u64 (height c + 1) /\
     exists msg incl, omap broadcast_of tr = [(msg, incl, Ok tt)]).
Proof.
  intros [(-> & _ & Hr)|(tr1 & batches & incl & msg & x & tr2 & -> & (data & Hmsg) & [B1 _]%deleting_quiet & D1 & Hend)]
    %runs_startRound.
  { split; [by intros ? ? ? ?%elem_of_nil|]. by intros c' ->. }
  assert (omap broadcast_of tr2 = [] /\ omap deletion_of tr2 = []) as [B2 D2]
    by (by destruct Hend as [(-> & _)|(y & _ & -> & _)]).
  rewrite !omap_app, B1, D1. cbn [omap list_omap app broadcast_of deletion_of]. rewrite B2, D2, app_nil_r.
  split.
  - intros msg' incl' x' [= -> -> ->]%list_elem_of_singleton. exists batches, data.
    split_and!; [|done|apply Hmsg..]. apply elem_of_app. right. left.
  - intros c' ->. destruct Hend as [(_ & _ & ?)|(y & -> & _ & Hy)]; [done|].
    symmetry in Hy. apply res_bind_Ok in Hy as (certs & _ & [= <-]). eauto.
Qed.

(** *** The rounds of the loop *)

Definition certs_of (o : occ E) : option (list (Message blockID)) :=
  match listing_of o with Some (Ok certs) => Some certs | _ => None end.

(** The chain after the requests and answers of [tr]. *)
Definition chain_after (c : Chain) (tr : list (occ E)) : Chain := foldl advanced c (omap certs_of tr).

Lemma chain_after_app c tr1 tr2 : chain_after c (tr1 ++ tr2) = chain_after (chain_after c tr1) tr2.
Proof. unfold chain_after. by rewrite omap_app, foldl_app. Qed.

Lemma chain_after_quiet c tr : omap listing_of tr = [] -> chain_after c tr = c.
Proof.
  unfold chain_after. intros H. assert (omap certs_of tr = []) as ->; [|done].
  induction tr as [|o tr IH]; [done|]. simpl in *. unfold certs_of at 1.
  destruct (listing_of o); [done|]. by apply IH.
Qed.

(** What holds of the broadcasts and of the listings among the requests of a
    chain that starts as [c]. *)
Record well_chained (c : Chain) (tr : list (occ E)) : Prop := {
  wch_broadcast : forall tr1 msg incl x tr2, tr = tr1 ++ Occ (Broadcast msg incl) x :: tr2 ->
    exists batches, round_message (chain_after c tr1) batches msg;
  wch_listing : forall tr1 x tr2, tr = tr1 ++ Occ QuorumMessages x :: tr2 ->
    exists tr0 msg incl, tr1 = tr0 ++ [Occ (Broadcast msg incl) (Ok tt)];
}.

Lemma well_chained_quiet c tr :
  omap broadcast_of tr = [] -> omap listing_of tr = [] -> well_chained c tr.
Proof.
  intros B L. split.
  - intros tr1 msg incl x tr2 ->. rewrite omap_app in B. by apply app_nil in B as [_ ?].
  - intros tr1 x tr2 ->. rewrite omap_app in L. by apply app_nil in L as [_ ?].
Qed.

Lemma split_app {A} (l1 l2 : list A) tr1 o tr2 : l1 ++ l2 = tr1 ++ o :: tr2 ->
  (exists l, l1 = tr1 ++ o :: l /\ tr2 = l ++ l2) \/ (exists l, tr1 = l1 ++ l /\ l2 = l ++ o :: tr2).
Proof.
  intros H. apply app_eq_inv in H as [(k & E1 & E2)|(k & -> & ->)]; [|right; by exists k].
  destruct k as [|o' k]; simplify_eq/=.
  - right. exists []. by rewrite !app_nil_r.
  - left. by exists k.
Qed.

Lemma well_chained_app c tr1 tr2 :
  well_chained c tr1 -> well_chained (chain_after c tr1) tr2 -> well_chained c (tr1 ++ tr2).
Proof.
  intros [B1 L1] [B2 L2]. split.
  - intros tr msg incl x tr' [(l & -> & ->)|(l & -> & ->)]%split_app; [by eapply B1|].
    rewrite chain_after_app. by eapply B2.
  - intros tr x tr' [(l & -> & ->)|(l & -> & ->)]%split_app; [by eapply L1|].
    destruct (L2 l x tr' eq_refl) as (tr0 & msg & incl & ->). exists (tr1 ++ tr0), msg, incl.
    by rewrite app_assoc.
Qed.

Lemma well_chained_broadcast c batches msg incl x :
  round_message c batches msg -> well_chained c [Occ (Broadcast msg incl) x].
Proof.
  intros Hm. split.
  - intros [|? [|? ?]] msg' incl' x' tr2 [= -> -> _]; [by exists batches|done..].
  - intros [|? [|? ?]]; done.
Qed.

Lemma startRound_chained c tr r :
  runs (startRound signerID c) tr r ->
  well_chained c tr /\ chain_after c tr = match r with Ok c' => c' | _ => c end.
Proof.
  intros [(B & L & Hr)|(tr1 & batches & incl & msg & x & tr2 & -> & Hmsg & Hd & _ & Hend)]%runs_startRound.
  { split; [by apply well_chained_quiet|]. rewrite chain_after_quiet by done. by destruct r. }
  apply deleting_quiet in Hd as [B1 L1].
  set (asked := [Occ (ListBySigner (Bytes signerID)) (Ok batches);
                 Occ (IncludersOf (height c)) (Ok incl)] : list (occ E)).
  assert (well_chained c (tr1 ++ asked) /\ chain_after c (tr1 ++ asked) = c) as [W Ec].
  { split; [apply well_chained_quiet|apply chain_after_quiet]; rewrite omap_app; [by rewrite B1|by rewrite L1..]. }
  assert (well_chained c ((tr1 ++ asked) ++ [Occ (Broadcast msg incl) x]) /\
    chain_after c ((tr1 ++ asked) ++ [Occ (Broadcast msg incl) x]) = c) as [W' Ec'].
  { split; [apply well_chained_app; [done|rewrite Ec; by eapply well_chained_broadcast]|].
    by rewrite chain_after_app, Ec. }
  destruct Hend as [(-> & _ & Hr)|(y & -> & -> & ->)].
  - rewrite <- app_assoc in W', Ec'. split; [exact W'|]. simpl in Ec'. rewrite Ec'. by destruct r.
  - assert (tr1 ++ Occ (ListBySigner (Bytes signerID)) (Ok batches) :: Occ (IncludersOf (height c)) (Ok incl) ::
        [Occ (Broadcast msg incl) (Ok tt); Occ QuorumMessages y] =
      ((tr1 ++ asked) ++ [Occ (Broadcast msg incl) (Ok tt)]) ++ [Occ QuorumMessages y]) as ->
      by (by rewrite <- !app_assoc).
    rewrite chain_after_app, Ec'. split; [|by destruct y].
    split.
    + intros t1 msg' incl' x' t2 [(l & Hl & _)|(l & _ & Hl)]%split_app; [by eapply (wch_broadcast _ _ W')|].
      apply (f_equal (omap broadcast_of)) in Hl. rewrite omap_app in Hl. by apply eq_sym, app_nil in Hl as [_ ?].
    + intros t1 x' t2 [(l & Hl & _)|(l & -> & Hl)]%split_app; [by eapply (wch_listing _ _ W')|].
      destruct l as [|o l]; [rewrite app_nil_r; by eexists _, _, _|].
      apply (f_equal length) in Hl. rewrite length_app in Hl. simpl in Hl. lia.
Qed.

(** The loop goes on with the chain of its last successful round. *)
Lemma run_chained n c tr r : runs (run signerID n c) tr r -> well_chained c tr.
Proof.
  revert c tr. induction n as [|n IH]; intros c tr H; cbn [run] in H.
  { run_step H. subst. by apply well_chained_quiet. }
  run_step H. subst. match goal with |- well_chained c (Occ CtxErr ?e :: ?l) =>
    change (well_chained c ([Occ CtxErr e] ++ l)); destruct e end.
  { run_step H. subst. by apply well_chained_quiet. }
  apply well_chained_app; [by apply well_chained_quiet|]. rewrite chain_after_quiet by done.
  apply runs_attempt_bind in H as (tr1 & tr2 & x & -> & [W Ec]%startRound_chained & H).
  apply well_chained_app; [done|]. rewrite Ec.
  destruct x as [c'|e|w|w]; cbn [after_attempt] in H; [by apply IH| |run_step H; subst; by apply well_chained_quiet..].
  run_step H. subst. match goal with |- well_chained c (Occ Sleep ?e :: ?l) =>
    change (well_chained c ([Occ Sleep e] ++ l)) end.
  apply well_chained_app; [by apply well_chained_quiet|]. rewrite chain_after_quiet by done. by apply IH.
Qed.
Lemma well_chained_prefix c tr rest : well_chained c (tr ++ rest) -> well_chained c tr.
Proof.
  intros [B L]. split.
  - intros tr1 msg incl x tr2 ->. apply (B tr1 msg incl x (tr2 ++ rest)). by rewrite <- app_assoc.
  - intros tr1 x tr2 ->. apply (L tr1 x (tr2 ++ rest)). by rewrite <- app_assoc.
Qed.

(** An answer to every request. *)
Definition refusing (X : Type) (e : E X) : X :=
  match e in chainE _ X return X with
  | DeleteBatch _ => Err (ErrNew "") | ListBySigner _ => Err (ErrNew "") | IncludersOf _ => Err (ErrNew "")
  | Broadcast _ _ => Err (ErrNew "") | QuorumMessages => Err (ErrNew "") | CtxErr => None | Sleep => tt
  end.

(** Part-way through, the loop has made requests of this shape. *)
Lemma residual_chained n c tr p : residual (run signerID n c) tr p -> well_chained c tr.
Proof.
  intros Hr. destruct (runs_to_end refusing p) as (rest & r & Hp & _).
  pose proof (residual_runs _ _ _ _ _ Hr Hp) as H. by eapply well_chained_prefix, run_chained.
Qed.

(** *** A round that cannot be started again *)

Context {St : Type} (h : handler E St) (latest : St -> Z).

(** A broadcaster over a round manager: [latest] is [latestRound], which no
    request decreases, and a number up to it is refused (manager.go,
    [StartRound]). *)
Definition refuses_elapsed : Prop :=
  (forall X (e : E X) s, latest s <= latest (h X e s).1) /\
  (forall s msg incl id, msgID msg = Some id -> round id <= latest s ->
     (h _ (Broadcast msg incl) s).2 = Err (Sent SElapsedRound)).

Lemma startRound_elapsed c s :
  refuses_elapsed -> height c <= latest s ->
  is_Ok (interp h (startRound signerID c) s).2 = false.
Proof.
  intros [Hmono Href] Hle.
  assert (forall A (p : prog E A) s0, height c <= latest s0 -> height c <= latest (interp h p s0).1)
    as Hp.
  { intros A p s0 H0. apply (interp_preserves h (fun s => height c <= latest s)); [|done].
    intros X e s1 H1. specialize (Hmono X e s1). lia. }
  assert (forall X (e : E X) s0, height c <= latest s0 -> height c <= latest (h X e s0).1) as He.
  { intros X e s0 H0. specialize (Hmono X e s0). lia. }
  unfold startRound. rewrite interp_gbind.
  specialize (Hp _ (clean_certs (lastCerts c)) s Hle).
  destruct (interp h (clean_certs (lastCerts c)) s) as [s1 [ps|e|w|w]]; try done. simpl in Hp.
  rewrite interp_attempt_call. specialize (He _ (ListBySigner (Bytes signerID)) s1 Hp) as He1.
  destruct (h _ (ListBySigner (Bytes signerID)) s1) as [s2 [bs|e|w|w]]; try done.
  cbn [after_attempt fst snd]. simpl in He1.
  destruct (Block_Hash (NewBlock (height c) (Bytes signerID) bs ps)) as [blk hashed] eqn:Eh. rewrite interp_lit_bind.
  destruct hashed as [hh|e|w|w]; try done. cbn [after_res].
  destruct (NewBlock_Hash _ _ _ _ _ _ Eh) as (bin & Emar & -> & Eid & _).
  rewrite interp_lit_bind, Emar. cbn [after_res]. rewrite interp_call_bind.
  specialize (He _ (IncludersOf (height c)) s2 He1) as He2.
  destruct (h _ (IncludersOf (height c)) s2) as [s3 [incl|e|w|w]]; try done. simpl in He2.
  cbn [after_res fst snd]. rewrite interp_call_bind.
  assert ((h _ (Broadcast (MkMessage (Block_ID blk) (Some bin)) incl) s3).2
          = Err (Sent SElapsedRound)) as -> by (by eapply Href; [exact Eid|]).
  done.
Qed.

(** C39: Once a round of the chain was started and its broadcast failed, the
    chain never advances again: it retries the same height, which the round
    manager refuses as elapsed, in every number of further iterations. *)
Theorem failed_round_is_never_repeated n c s c' b :
  refuses_elapsed -> height c <= latest s ->
  (interp h (run signerID n c) s).2 = Ok (c', b) -> c' = c.
Proof.
  intros Hr.
  assert (forall A (p : prog E A) s0, height c <= latest s0 -> height c <= latest (interp h p s0).1)
    as Hp.
  { intros A p s0 H0. apply (interp_preserves h (fun s => height c <= latest s)); [|done].
    intros X e s1 H1. destruct Hr as [Hm _]. specialize (Hm X e s1). lia. }
  revert s. induction n as [|n IH]; intros s Hle; cbn [run]; [by intros [= <- <-]|].
  rewrite interp_ask_bind. pose proof (Hp _ (Vis CtxErr Ret) s Hle) as H1. simpl in H1.
  destruct (h _ CtxErr s) as [s1 [e|]]; simpl in H1; cbn [fst snd]; [by intros [= <- <-]|].
  rewrite interp_attempt_bind. pose proof (startRound_elapsed c s1 Hr H1) as Hf.
  pose proof (Hp _ (startRound signerID c) s1 H1) as H2.
  destruct (interp h (startRound signerID c) s1) as [s2 [c1|e|w|w]]; simpl in H2, Hf; try done.
  cbn [after_attempt fst snd]. rewrite interp_ask_bind. apply IH.
  pose proof (Hp _ (Vis Sleep Ret) s2 H2) as H3. simpl in H3. by destruct (h _ Sleep s2).
Qed.

(** *** The loop ends when its context does *)

Context (left : St -> nat).

(** A context that ends, and stays ended: [left] bounds the requests until
    [ctx.Err()] is non-nil. *)
Definition context_ends : Prop :=
  (forall X (e : E X) s, (left (h X e s).1 <= Nat.pred (left s))%nat) /\
  (forall s, is_Some (h _ CtxErr s).2 <-> left s = 0%nat).

(** C24: [run] terminates once its context ends: when the context ends
    after fewer requests than there is fuel, the loop is over (or a round
    panicked or never came back), it ended because its context did, and more
    fuel changes nothing. *)
Theorem run_terminates n m c s :
  context_ends -> (left s < n)%nat -> (left s < m)%nat ->
  interp h (run signerID m c) s = interp h (run signerID n c) s /\
  forall c' b, (interp h (run signerID n c) s).2 = Ok (c', b) -> b = true.
Proof.
  intros [Hdec Hctx]. revert m c s. induction n as [|n IH]; intros [|m] c s Hn Hm; try lia.
  cbn [run]. rewrite !interp_ask_bind.
  pose proof (Hdec _ CtxErr s) as H1. pose proof (Hctx s) as H2.
  destruct (h _ CtxErr s) as [s1 [e|]]; cbn [fst snd] in *; [by split; [|intros c' b [= _ <-]]|].
  assert (left s <> 0%nat) as Hne by (intros E0; apply H2 in E0; by destruct E0).
  assert (forall A (p : prog E A), (left (interp h p s1).1 <= left s1)%nat) as Hp.
  { intros A p. apply (interp_preserves h (fun s => (left s <= left s1)%nat)); [|lia].
    intros X e s0 H0. specialize (Hdec X e s0). lia. }
  specialize (Hp _ (startRound signerID c)). rewrite !interp_attempt_bind.
  destruct (interp h (startRound signerID c) s1) as [s2 [c1|e|w|w]]; cbn [after_attempt fst snd] in *.
  - apply IH; lia.
  - rewrite !interp_ask_bind. pose proof (Hdec _ Sleep s2) as H3. apply IH; lia.
  - done.
  - done.
Qed.
End chain.

(** Only the context of the latest [Start] can be ended: a [run] that was
    started before another one goes on whatever is stopped afterwards. *)
Fixpoint lifecycle_calls (starts : list bool) (l : lifecycle) : lifecycle :=
  match starts with
  | [] => l
  | b :: bs => lifecycle_calls bs ((if b then Start else Stop) l).1
  end.

Theorem restarted_run_never_stops calls :
  ctxs (lifecycle_calls ([true; true] ++ calls) NewChain_lifecycle) !! 0%nat = Some false.
Proof.
  assert (forall l, (exists i, cancel l = Some (S i)) -> ctxs l !! 0%nat = Some false ->
    ctxs (lifecycle_calls calls l) !! 0%nat = Some false) as H; [|apply H; simpl; eauto].
  induction calls as [|[] calls IH]; intros l [i Hi] H0; [done|..]; simpl; apply IH.
  - simpl. destruct (ctxs l); [done|]. simpl. eauto.
  - simpl. by apply lookup_app_l_Some.
  - unfold Stop. rewrite Hi. simpl. eauto.
  - unfold Stop. rewrite Hi. simpl. by rewrite list_lookup_insert_ne.
Qed.

(** ** Executions

    A chain over a pool of one batch and a broadcaster that starts a round for
    every number above the latest one and then answers [outcome]. *)
Module Executions.

Definition own : ed25519.PublicKey := ToyEd25519.key_of x01.
Definition pooled : Batch :=
  MkBatch (Some [x0a; x0b]) (MkSignature (Some [x01]) (Some [x01])).
Definition set_of_one : Includers ed25519.PublicKey :=
  MkIncluders [NewIncluder (Some own) 1] 1.

Definition broadcasting (outcome : res unit) (certs : list (Message blockID))
    : handler (chainE ed25519.PublicKey) Z :=
  fun X e latest =>
    match e in chainE _ X return Z * X with
    | DeleteBatch _ => (latest, Ok tt)
    | ListBySigner _ => (latest, Ok [pooled])
    | IncludersOf _ => (latest, Ok set_of_one)
    | Broadcast msg _ =>
        match msgID msg with
        | Some id => if round id <=? latest then (latest, Err (Sent SElapsedRound))
                     else (round id, outcome)
        | None => (latest, Panic "nil dereference")
        end
    | QuorumMessages => (latest, Ok certs)
    | CtxErr => (latest, None)
    | Sleep => (latest, tt)
    end.

(** The chain after its first round: the certified block is its own. *)
Definition first_block : Message blockID :=
  let '(blk, _) := Block_Hash (CP:=ToyCapnp.toy) (NewBlock 1 (Bytes own) [pooled] []) in
  match Block_MarshalBinary (CP:=ToyCapnp.toy) blk with
  | Ok data => MkMessage (Block_ID blk) (Some data)
  | _ => MkMessage None None
  end.

Definition second : Chain := MkChain 2 [first_block].

Definition second_round :=
  record (broadcasting (Ok tt) [first_block]) (startRound (CP:=ToyCapnp.toy) own second) 1.

Lemma second_round_runs :
  runs (startRound (CP:=ToyCapnp.toy) own second) second_round.1 second_round.2.
Proof. exact (record_runs (broadcasting (Ok tt) [first_block]) _ 1). Qed.

Definition second_broadcast : list (Message blockID * Includers ed25519.PublicKey * res unit) :=
  omap broadcast_of second_round.1.

Lemma startRound_broadcasts_witness :
  length second_broadcast = 1%nat /\
  (forall msg incl x, (msg, incl, x) ∈ second_broadcast ->
     exists batches data,
       Occ (ListBySigner (Bytes own)) (Ok batches) ∈ second_round.1 /\
       omap deletion_of second_round.1 = committed (CP:=ToyCapnp.toy) [first_block] /\
       msg = MkMessage (Some (MkBlockID 2 (Bytes own) (Some (sha256 data)))) (Some data) /\
       Block_MarshalBinary (CP:=ToyCapnp.toy)
         (MkBlock (msgID msg) (map Batch_Hash batches) (parents_of [first_block])) = Ok data) /\
  (forall c', second_round.2 = Ok c' -> height c' = 3 /\
     exists msg incl, second_broadcast = [(msg, incl, Ok tt)]).
Proof.
  split; [vm_compute; reflexivity|].
  exact (startRound_broadcasts (CP:=ToyCapnp.toy) own second _ _ second_round_runs).
Defined.

(** The first broadcast times out: the round was started, the height stays. *)
Definition timed_out : error := ErrNew "context deadline exceeded".

Lemma broadcasting_refuses certs :
  refuses_elapsed (broadcasting (Err timed_out) certs) (fun latest => latest).
Proof.
  split.
  - intros X [] s; simpl; try lia. destruct (msgID msg); simpl; [|lia].
    destruct (Z.leb_spec (round b) s); simpl; lia.
  - intros s msg incl id Hid Hle. simpl. rewrite Hid.
    destruct (Z.leb_spec (round id) s); [done|lia].
Qed.

Lemma failed_round_is_never_repeated_witness :
  let first := interp (broadcasting (Err timed_out) []) (startRound (CP:=ToyCapnp.toy) own NewChain) 0 in
  first = (1, Err timed_out) /\
  exists c', (interp (broadcasting (Err timed_out) []) (run (CP:=ToyCapnp.toy) own 3 NewChain) 1).2
             = Ok (c', false) /\ c' = NewChain.
Proof.
  split; [vm_compute; reflexivity|].
  exists NewChain. assert ((interp (broadcasting (Err timed_out) [])
      (run (CP:=ToyCapnp.toy) own 3 NewChain) 1).2 = Ok (NewChain, false)) as H by (vm_compute; reflexivity).
  split; [exact H|].
  exact (failed_round_is_never_repeated (CP:=ToyCapnp.toy) own (broadcasting (Err timed_out) [])
    (fun latest => latest) 3 NewChain 1 NewChain false (broadcasting_refuses []) ltac:(done) H).
Defined.

(** The same chain under a context that ends after [n] more requests. *)
Definition until : handler (chainE ed25519.PublicKey) (nat * Z) :=
  fun X e s =>
    let '(n, latest) := s in
    let '(latest', x) := broadcasting (Ok tt) [] X e latest in
    ((Nat.pred n, latest'),
     match e in chainE _ X return X -> X with
     | CtxErr => fun x => if bool_decide (n = 0%nat) then Some (Sent SCanceled) else x
     | _ => fun x => x
     end x).

Lemma until_ends : context_ends until fst.
Proof.
  split.
  - intros X e [n latest]. simpl. by destruct (broadcasting _ _ X e latest).
  - intros [n latest]. simpl. case_bool_decide; simpl; split; done.
Qed.

(** Three rounds start before the context ends. *)
Lemma run_terminates_witness :
  exists c', (interp until (run (CP:=ToyCapnp.toy) own 13 NewChain) (11%nat, 0)).2 = Ok (c', true) /\
    height c' = 4 /\
    interp until (run (CP:=ToyCapnp.toy) own 20 NewChain) (11%nat, 0) =
    interp until (run (CP:=ToyCapnp.toy) own 13 NewChain) (11%nat, 0).
Proof.
  destruct (run_terminates (CP:=ToyCapnp.toy) own until fst 13 20 NewChain (11%nat, 0))
    as [E H]; [exact until_ends|cbn; lia|cbn; lia|].
  exists (MkChain 4 []). split; [vm_compute; reflexivity|]. split; [reflexivity|exact E].
Defined.
End Executions.
