(* ===== verification/Network.v ===== *)
(** The network: the nodes of the honest members, the messages they publish,
    and an adversary that delivers any bytes to them, of its own making too,
    but cannot forge a signature of an honest member.  A node is any machine
    that refines the broadcasting layer of [System.v] ([NodeMachine]). *)

From S2P Require Import Prelude Prog Crypto Capnp Rebro Includers Quorum QuorumProps Round RoundConc RoundInv RoundQuorum Provenance Gossip System SystemInv GossipProps SystemProps.

(** ** What a node has published *)

Section published.
Context {I K S HT : Type} {MI : MessageID I} {PK : Crypto.PubKey K} {PL : PubKeyLaws K}
  {MO : MapOrder} {CP : Capnp} {SI : SignerI S} {HI : HasherI I HT}.
Context (hasher : HT) (decoder : slice -> res I) (incl : Includers K).

Abbreviation Q := (Quorum I K).
Abbreviation C := (Certificate (I:=I) (Q:=Q)).
Abbreviation E := (broE I Q (option C)).
Abbreviation node := (node (I:=I) (K:=K)).
Abbreviation goroutine := (goroutine (I:=I) (K:=K)).
Implicit Types (nd : node) (go : goroutine).

Definition published_bytes (o : occ E) : option bytes := fst <$> publication o.

(** The publication a goroutine is waiting for: the bytes are on the wire
    before [Publish] returns. *)
Definition publishing go : option bytes :=
  match g_rest go with
  | Vis e _ => match e in broE _ _ _ X return option bytes with Publish b => Some b | _ => None end
  | Ret _ => None
  end.

Definition gossips go : list bytes :=
  omap published_bytes (g_trace go) ++ option_list (publishing go).

Definition published nd (b : bytes) : Prop :=
  exists g go, n_gos nd !! g = Some go /\ b ∈ gossips go.

(** The node has published a signature over this identifier. *)
Definition vouched nd (canonicalID : slice) : Prop :=
  exists b c sig, published nd b /\ carries_signature b c sig /\ sl c = sl canonicalID.

(** The node's certifier accepted the message, whose data hashes to its
    identifier [id]. *)
Definition certified nd (id : I) (msg : Message I) : Prop :=
  checked hasher (Round id) id msg /\ msgID msg = Some id /\
  exists g go, n_gos nd !! g = Some go /\ (msg, Ok tt) ∈ omap certification (g_trace go).

(** *** Publications stay published *)

Lemma gossips_answered go X (e : E X) k x :
  g_rest go = Vis e k -> gossips go ⊆ gossips (answered go e k x).
Proof.
  intros Eg b. unfold gossips, publishing, answered. rewrite Eg. cbn [g_trace g_rest].
  rewrite omap_app. destruct e; simpl; set_solver.
Qed.

(** A step leaves every goroutine with what it published. *)
Definition gos_le nd nd' : Prop :=
  forall g go, n_gos nd !! g = Some go -> exists go', n_gos nd' !! g = Some go' /\
    gossips go ⊆ gossips go' /\ g_trace go `prefix_of` g_trace go'.

#[export] Instance gos_le_preorder : PreOrder gos_le.
Proof.
  split; [by intros nd g go Hg; exists go|].
  intros nd1 nd2 nd3 H12 H23 g go1 (go2 & H2 & G2 & T2)%H12.
  destruct (H23 g go2 H2) as (go3 & H3 & G3 & T3). exists go3.
  split_and!; [done|by etransitivity|by etransitivity].
Qed.

Lemma gos_le_with_go nd l g go go' :
  n_gos nd !! g = Some go -> gossips go ⊆ gossips go' -> g_trace go `prefix_of` g_trace go' ->
  gos_le nd (with_go g go' (with_rounds l nd)).
Proof.
  intros Hg Hb Ht g0 go0 H0. cbn. destruct (decide (g0 = g)) as [->|Hne].
  - assert (go0 = go) as -> by congruence. exists go'. by rewrite lookup_insert_eq.
  - exists go0. by rewrite lookup_insert_ne.
Qed.

Lemma step_gos_le signer l nd nd' :
  exec_node signer hasher decoder incl l nd = Some nd' -> gos_le nd nd'.
Proof.
  intros H. destruct l as [g t|g v|g t|g|n lb]; cbn [exec_node] in H.
  - destruct (n_gos nd !! g) eqn:Hg; simplify_eq. intros g0 go0 H0. cbn.
    exists go0. rewrite lookup_insert_ne by congruence. by split_and!.
  - apply bind_Some in H as (go & Hg & H).
    destruct (g_rest go) as [|X e k] eqn:Eg; [done|]. destruct (g_call go); [done|].
    apply bind_Some in H as ([l' x] & He & [= <-]).
    eapply gos_le_with_go; [done|by apply gossips_answered|apply prefix_app_r; done].
  - apply bind_Some in H as (go & Hg & H).
    destruct (g_rest go) as [|X e k] eqn:Eg; [done|]. destruct (g_call go); [done|].
    apply bind_Some in H as ([[n rq] ans] & Hc & H).
    apply bind_Some in H as (s & Hn & H). apply bind_Some in H as (s' & Hex & [= <-]).
    eapply gos_le_with_go; [done| |done]. unfold gossips, publishing. cbn. by rewrite Eg.
  - apply bind_Some in H as (go & Hg & H).
    destruct (g_rest go) as [|X e k] eqn:Eg; [done|]. destruct (g_call go) as [[n t]|]; [|done].
    apply bind_Some in H as ([[n' rq] ans] & Hc & H).
    apply bind_Some in H as (s & Hn & H). apply bind_Some in H as (cl & Hcl & H).
    destruct (pc cl); simplify_eq. intros g0 go0 H0. cbn. destruct (decide (g0 = g)) as [->|Hne].
    + assert (go0 = go) as -> by congruence. rewrite lookup_insert_eq. eexists. split; [done|].
      split; [by apply gossips_answered|by apply prefix_app_r].
    + exists go0. by rewrite lookup_insert_ne.
  - destruct (internal lb); [|done]. apply bind_Some in H as (s & Hn & H).
    apply bind_Some in H as (s' & Hex & [= <-]). intros g go Hg. by exists go.
Qed.

Lemma steps_gos_le signer ls nd nd' :
  exec_nodes signer hasher decoder incl ls nd = Some nd' -> gos_le nd nd'.
Proof.
  revert nd. induction ls as [|l ls IH]; intros nd H; cbn [exec_nodes] in H; [by simplify_eq|].
  apply bind_Some in H as (nd1 & H1%step_gos_le & H2%IH). by etransitivity.
Qed.

Lemma published_mono nd nd' b : gos_le nd nd' -> published nd b -> published nd' b.
Proof. intros Hle (g & go & Hg & Hb). destruct (Hle g go Hg) as (go' & Hg' & Hs & _). exists g, go'. auto. Qed.

Lemma vouched_mono nd nd' c : gos_le nd nd' -> vouched nd c -> vouched nd' c.
Proof. intros Hle (b & c' & sig & Hb & H). exists b, c', sig. split; [by eapply published_mono|done]. Qed.

(** *** Where a publication comes from *)

(** A publication of a run of a goroutine: the signature over a message it
    certified before, or its own message. *)
Lemma code_publication signer t pre o post r b :
  runs (code signer hasher decoder incl t) (pre ++ o :: post) r -> published_bytes o = Some b ->
  (exists gsp canonicalID msg id sig, data_checked hasher decoder gsp canonicalID msg id /\
     encodes (signature_gossip canonicalID sig) b /\ (msg, Ok tt) ∈ omap certification pre) \/
  (exists msg id, t = Produce msg /\ msgID msg = Some id /\ encodes (data_gossip msg) b).
Proof.
  intros H Ho.
  assert (forall (l : list (occ E)), l = pre ++ o :: post -> Forall (fun o => published_bytes o = None) l -> False)
    as Hnone.
  { intros l -> [_ [Hn _]%Forall_cons]%Forall_app. congruence. }
  assert (forall (l : list (occ E)) o1 l2, l = pre ++ o :: post -> l = l2 ++ [o1] ->
    Forall (fun o => published_bytes o = None) l2 -> pre = l2 /\ o1 = o) as Hlast.
  { intros l o1 l2 -> El Hl2. destruct post as [|o2 post _] using rev_ind.
    - by apply app_inj_tail in El as [-> ->].
    - rewrite app_comm_cons, app_assoc in El. apply app_inj_tail in El as [<- _].
      apply Forall_app in Hl2 as [_ [Hn _]%Forall_cons]. congruence. }
  destruct t as [data|msg]; simpl in H; apply runs_pbind in H as (tr1 & tr2 & v & Etr & H & [-> _]);
    rewrite app_nil_r in Etr.
  - apply deliver_run in H as [->|(m & gsp & x & _ & _ & [H|[_ H]])]; [by destruct pre|..].
    + destruct H as [| | | | |canonicalID msg id n sig b' x r' Hc Hs Henc];
        try (exfalso; eapply Hnone; [exact (eq_sym Etr)|by repeat constructor]).
      left. destruct (Hlast _ (Occ (Publish b') x) [_; _; _] (eq_sym Etr) eq_refl) as [-> <-];
        [by repeat constructor|]. injection Ho as <-.
      exists gsp, canonicalID, msg, id, sig. split_and!; [done..|]. simpl. by left.
    + exfalso. destruct H; (eapply Hnone; [exact (eq_sym Etr)|by repeat constructor]).
  - right. apply runs_Broadcast in H.
    assert (forall b', (forall o', o' ∈ tr1 -> published_bytes o' = None \/ published_bytes o' = Some b') ->
      b = b') as Hone.
    { intros b' Hl. destruct (Hl o); [rewrite <- Etr; set_solver|congruence..]. }
    destruct H as [| | |id n b' x r' Hid Henc|id n b' x r' Hid Henc|id n b' r' Hid Henc];
      try (exfalso; eapply Hnone; [exact (eq_sym Etr)|by repeat constructor]);
      (exists msg, id; split_and!; [done..|];
       rewrite (Hone b'); [done|];
       intros o'; rewrite !elem_of_cons; intros Ho'; destruct_or! Ho'; subst; simpl;
       (by left) || (by right) || by apply elem_of_nil in Ho').
Qed.

(** A goroutine's publication in a run of its program. *)
Lemma go_publication arrived signer l go b :
  go_ok signer hasher decoder incl arrived l go -> b ∈ gossips go ->
  exists pre o post r, pre `prefix_of` g_trace go /\ published_bytes o = Some b /\
    runs (code signer hasher decoder incl (g_task go)) (pre ++ o :: post) r.
Proof.
  intros [_ Hres _ _ _]. unfold gossips. rewrite elem_of_app.
  intros [(o & Ho & Eo)%list_elem_of_omap|Hp].
  - apply list_elem_of_split in Ho as (pre & post & Et).
    destruct (runs_to_end (failing (I:=I) (K:=K)) (g_rest go)) as (tr & r & Hk & _).
    exists pre, o, (post ++ tr), r. split_and!; [rewrite Et; by eexists|done|].
    pose proof (residual_runs _ _ _ tr r Hres Hk) as H. by rewrite Et, <- app_assoc in H.
  - unfold publishing in Hp. destruct (g_rest go) as [|X e k] eqn:Eg; [by apply elem_of_nil in Hp|].
    destruct (runs_to_end (failing (I:=I) (K:=K)) (k (failing X e))) as (tr & r & Hk & _).
    exists (g_trace go), (Occ e (failing X e)), tr, r. split_and!; [done| |].
    + destruct e; simpl in Hp; try (by apply elem_of_nil in Hp).
      by apply list_elem_of_singleton in Hp as ->.
    + eapply residual_runs; [exact Hres|]. simpl. eauto.
Qed.

(** Who vouches for an identifier has certified a message with it. *)
Lemma vouched_certified {CL : CapnpLaws} arrived signer nd canonicalID id :
  (forall c c', sl c = sl c' -> decoder c = decoder c') ->
  node_ok signer hasher decoder incl arrived nd ->
  (forall b, published nd b -> within_limits b) ->
  vouched nd canonicalID -> decoder canonicalID = Ok id -> exists msg, certified nd id msg.
Proof.
  intros Hdec Hok Hlim (b & c & sig & (g & go & Hg & Hb) & (m & gsp & Eu & Er & Hw & Hi & _) & Hsl) Hid.
  assert (within_limits b) as Hl by (apply Hlim; by exists g, go).
  destruct (go_publication _ _ _ _ _ (nk_gos _ _ _ _ _ _ Hok g go Hg) Hb)
    as (pre & o & post & r & Hpre & Ho & Hrun).
  destruct (code_publication _ _ _ _ _ _ _ Hrun Ho)
    as [(gsp' & c' & msg & id' & sig' & Hc & Henc & Hcert)|(msg & id' & _ & Hmid & Henc)].
  - destruct (signature_gossip_read _ _ _ Henc Hl) as (m' & gsp2 & c2 & body & key & Eu' & Er' & _ & Hi' & Hc2 & _).
    assert (m' = m) as -> by congruence. assert (gsp2 = gsp) as -> by congruence.
    assert (c2 = c) as -> by congruence.
    destruct Hc as (_ & Hd' & Hmid & _ & Hv & h & Hh & ->).
    assert (id' = id) as ->.
    { assert (Ok id' = Ok id) as [= ->]; [|done]. rewrite <- Hd', <- Hid. apply Hdec. congruence. }
    exists msg. split; [split_and!; eauto|]. split; [done|]. exists g, go. split; [done|].
    destruct Hpre as [rest ->]. rewrite omap_app. set_solver.
  - destruct (data_gossip_read msg b id' Henc Hl Hmid) as (m' & gsp2 & ? & ? & ? & Eu' & Er' & Hw' & _).
    assert (m' = m) as -> by congruence. assert (gsp2 = gsp) as -> by congruence.
    rewrite Hw' in Hw. done.
Qed.
End published.

(** ** The network *)

Section network.
Context {I K S HT : Type} {MI : MessageID I} {PK : Crypto.PubKey K} {PL : PubKeyLaws K}
  {MO : MapOrder} {CP : Capnp} {SI : SignerI S} {HI : HasherI I HT}.
Context (hasher : HT) (decoder : slice -> res I) (incl : Includers K).

Abbreviation node := (node (I:=I) (K:=K)).
Abbreviation vouched := (vouched (I:=I) (K:=K)).

(** A node of the network: a machine with the broadcasting layer inside it.
    [m_delivers]: the gossips that a step hands to the layer. *)
Class NodeMachine (N L : Type) := {
  m_start : N;
  m_exec : S -> L -> N -> option N;
  m_view : N -> node;
  m_delivers : L -> list bytes;
}.

(** It refines the layer: its steps are steps of the layer. *)
Class NodeMachineLaws (N L : Type) `{!NodeMachine N L} : Prop := {
  view_start : m_view m_start = idle;
  exec_view : forall signer l n n', m_exec signer l n = Some n' ->
    exists ls, exec_nodes signer hasher decoder incl ls (m_view n) = Some (m_view n') /\
      forall g data, NSpawn g (Deliver data) ∈ ls -> data ∈ m_delivers l;
}.

Context {N L : Type} {NM : NodeMachine N L} {NL : NodeMachineLaws N L}.

(** The signers of the honest members, a node for each. *)
Context (honest : list S).
Implicit Type net : list N.

Definition identity (signer : S) : bytes := sl (ID signer).

Definition read_signature (data : bytes) : option (slice * Signature) :=
  match (m ← Unmarshal data; gsp ← gossipmsg.ReadRootGossip m;
         c ← gossipmsg.Id gsp; body ← gossipmsg.Signature_Signature gsp;
         key ← gossipmsg.Signature_Signer gsp;
         mret (gossipmsg.Which gsp, c, MkSignature body key)) with
  | Ok (w, c, sig) => if bool_decide (w = gossipmsg.Gossip_Which_signature) then Some (c, sig) else None
  | _ => None
  end.

Definition vouches (nd : node) (canonicalID : slice) : bool :=
  existsb (fun go => existsb (fun b =>
    match read_signature b with Some (c, _) => bool_decide (sl c = sl canonicalID) | None => false end)
    (gossips go.2)) (map_to_list (n_gos nd)).

(** What the adversary can deliver to the node of [verifier]: anything but a
    signature that verifies with the key of an honest member over bytes for
    which that member's node published no signature. *)
Definition authentic net (verifier : S) (data : bytes) : bool :=
  match read_signature data with
  | Some (c, sig) =>
      forallb (fun sn =>
        if bool_decide (sl (Signer sig) = identity sn.1) && is_Ok (Verify verifier (sl c) sig)
        then vouches (m_view sn.2) c else true) (zip honest net)
  | None => true
  end.

(** The node of the [i]th honest member takes a step. *)
Definition exec_net (il : nat * L) net : option (list N) :=
  let '(i, l) := il in
  signer ← honest !! i;
  n ← net !! i;
  if forallb (authentic net signer) (m_delivers l)
  then n' ← m_exec signer l n; Some (<[i := n']> net)
  else None.

Fixpoint exec_nets (ls : list (nat * L)) net : option (list N) :=
  match ls with
  | [] => Some net
  | l :: ls' => net' ← exec_net l net; exec_nets ls' net'
  end.

Definition net_runs (ls : list (nat * L)) net : Prop :=
  exec_nets ls (replicate (length honest) m_start) = Some net.

(** *** The invariant *)

Lemma read_signature_spec data c sig :
  read_signature data = Some (c, sig) <-> carries_signature data c sig.
Proof.
  unfold read_signature, carries_signature. split.
  - destruct (mbind _ _) as [[[w c'] sig']|e|w|w] eqn:H; [|done..].
    case_bool_decide as Hw; [|done]. intros [= -> ->].
    apply res_bind_Ok in H as (m & H1 & H). apply res_bind_Ok in H as (gsp & H2 & H).
    apply res_bind_Ok in H as (c0 & H3 & H). apply res_bind_Ok in H as (body & H4 & H).
    apply res_bind_Ok in H as (key & H5 & H).
    injection H as <- <- <-. exists m, gsp. by split_and!.
  - intros (m & gsp & E1 & E2 & E3 & E4 & E5 & E6). destruct sig as [body key]. simpl in *.
    rewrite E1. simpl. rewrite E2. simpl. rewrite E4. simpl. rewrite E5. simpl. rewrite E6. simpl.
    by rewrite E3.
Qed.

Lemma vouches_spec (nd : node) c : vouches nd c = true <-> vouched nd c.
Proof.
  unfold vouches. rewrite existsb_exists. split.
  - intros ([g go] & Hg%list_elem_of_In%elem_of_map_to_list & H).
    apply existsb_exists in H as (b & Hb%list_elem_of_In & H).
    destruct (read_signature b) as [[c' sig]|] eqn:Er; [|done].
    apply bool_decide_eq_true in H. exists b, c', sig. split; [by exists g, go|].
    split; [by apply read_signature_spec|done].
  - intros (b & c' & sig & (g & go & Hg & Hb) & Hc & Hsl). exists (g, go).
    split; [by apply list_elem_of_In, elem_of_map_to_list|].
    apply existsb_exists. exists b. split; [by apply list_elem_of_In|].
    apply read_signature_spec in Hc. rewrite Hc. by apply bool_decide_eq_true.
Qed.

(** A delivered signature of an honest member is vouched for by its node. *)
Lemma authentic_spec net verifier data c sig j signer n :
  authentic net verifier data = true -> carries_signature data c sig ->
  honest !! j = Some signer -> net !! j = Some n ->
  sl (Signer sig) = identity signer -> Verify verifier (sl c) sig = Ok tt ->
  vouched (m_view n) c.
Proof.
  unfold authentic. intros H Hc%read_signature_spec Hj Hn Hid Hv. rewrite Hc in H.
  apply vouches_spec. rewrite forallb_forall in H. specialize (H (signer, n)). simpl in H.
  rewrite bool_decide_eq_true_2, Hv in H by done. apply H, list_elem_of_In.
  apply list_elem_of_lookup. exists j. by rewrite lookup_zip_with, Hj, Hn.
Qed.

Definition net_le net net' : Prop :=
  Forall2 (fun n n' => gos_le (m_view n) (m_view n')) net net'.

#[export] Instance net_le_preorder : PreOrder net_le.
Proof.
  split.
  - intros net. apply Forall2_same_length_lookup_2; [done|]. by intros i x y Hx Hy; simplify_eq.
  - intros n1 n2 n3 H12. revert n3.
    induction H12 as [|x y l l' Hx _ IH]; intros n3 H23; inversion H23; subst; constructor.
    + by etransitivity.
    + by apply IH.
Qed.

Lemma authentic_mono net net' verifier data :
  net_le net net' -> authentic net verifier data = true -> authentic net' verifier data = true.
Proof.
  intros Hle. unfold authentic. destruct (read_signature data) as [[c sig]|]; [|done].
  rewrite !forallb_forall. intros H [signer n'] Hin. simpl.
  destruct (bool_decide _ && _) eqn:Eb; [|done].
  apply list_elem_of_In, list_elem_of_lookup in Hin as [j Hj].
  apply lookup_zip_with_Some in Hj as (s & n0 & [= <- <-] & Hs & Hn').
  destruct (Forall2_lookup_r _ _ _ _ _ Hle Hn') as (n & Hn & Hg).
  specialize (H (signer, n)). simpl in H. rewrite Eb in H.
  apply vouches_spec. eapply vouched_mono; [exact Hg|]. apply vouches_spec, H.
  apply list_elem_of_In, list_elem_of_lookup. exists j. by rewrite lookup_zip_with, Hs, Hn.
Qed.

(** Every node is an execution of the layer, to which only authentic gossips
    were delivered. *)
Definition node_runs net (signer : S) (n : N) : Prop :=
  exists nls, runs_to signer hasher decoder incl nls (m_view n) /\
    Forall (label_arrived (fun data => authentic net signer data = true)) nls.

Definition net_ok net : Prop := Forall2 (node_runs net) honest net.

Lemma label_arrived_mono (P P' : bytes -> Prop) (ls : list (node_label (I:=I))) :
  (forall b, P b -> P' b) -> Forall (label_arrived P) ls -> Forall (label_arrived P') ls.
Proof.
  intros H Hl. eapply Forall_impl; [exact Hl|]. intros [g [data|msg]| | | |]; simpl; auto.
Qed.

Lemma exec_net_ok il net net' :
  net_ok net -> exec_net il net = Some net' -> net_ok net' /\ net_le net net'.
Proof.
  intros Hok. destruct il as [i l]. cbn [exec_net]. intros H.
  apply bind_Some in H as (signer & Hs & H). apply bind_Some in H as (n & Hn & H).
  destruct (forallb _ _) eqn:Ha; [|done]. apply bind_Some in H as (n' & Hx & [= <-]).
  destruct (exec_view _ _ _ _ Hx) as (ls & Hls & Hdel).
  assert (net_le net (<[i := n']> net)) as Hle.
  { apply Forall2_same_length_lookup_2; [by rewrite length_insert|].
    intros j x y Hx' [(<- & <- & _)|[_ Hy]]%list_lookup_insert_Some; simplify_eq; [|done].
    by eapply steps_gos_le. }
  split; [|done]. apply Forall2_same_length_lookup. split.
  { rewrite length_insert. by eapply Forall2_length. }
  intros j s0 x Hj Hy.
  assert (forall n0, node_runs net s0 n0 -> node_runs (<[i := n']> net) s0 n0) as Hmono.
  { intros n0 (nls & Hr & Hf). exists nls. split; [done|].
    eapply label_arrived_mono; [|exact Hf]. intros b. by apply authentic_mono. }
  assert (forall k s1 n1, honest !! k = Some s1 -> net !! k = Some n1 -> node_runs net s1 n1) as Hlk
    by (intros k s1 n1; by apply Forall2_lookup_lr).
  apply list_lookup_insert_Some in Hy as [(<- & <- & _)|[_ Hy]]; [|by apply Hmono, (Hlk j)].
  assert (s0 = signer) as -> by congruence.
  destruct (Hmono n (Hlk i _ _ Hs Hn)) as (nls & Hr & Hf).
  exists (nls ++ ls). split.
  - unfold runs_to in *. clear -Hr Hls. revert Hr. generalize (idle (I:=I) (K:=K)).
    induction nls as [|l0 nls IH]; intros nd Hr; simpl in *; [by simplify_eq|].
    destruct (exec_node _ _ _ _ _ _) as [nd1|]; [|done]. simpl in *. by apply IH.
  - apply Forall_app. split; [done|]. apply Forall_forall. intros [g [data|msg]| | | |] Hl; try done.
    simpl. eapply authentic_mono; [exact Hle|]. rewrite forallb_forall in Ha.
    by apply Ha, list_elem_of_In, (Hdel g).
Qed.

Lemma net_runs_ok ls net : net_runs ls net -> net_ok net.
Proof.
  unfold net_runs. intros H.
  assert (net_ok (replicate (length honest) m_start)) as Hok.
  { apply Forall2_same_length_lookup. split; [by rewrite length_replicate|].
    intros i s n _ [-> _]%lookup_replicate. exists []. rewrite view_start. by split. }
  revert Hok H. generalize (replicate (length honest) (m_start (N:=N))).
  induction ls as [|l ls IH]; intros net0 Hok H; cbn [exec_nets] in H; [by simplify_eq|].
  apply bind_Some in H as (net1 & H1 & H2). destruct (exec_net_ok _ _ _ Hok H1) as [Hok1 _].
  by eapply IH.
Qed.

Lemma exec_nets_app ls1 ls2 net :
  exec_nets (ls1 ++ ls2) net = (net' ← exec_nets ls1 net; exec_nets ls2 net').
Proof.
  revert net. induction ls1 as [|l ls1 IH]; intros net; simpl; [done|].
  destruct (exec_net l net); simpl; [apply IH|done].
Qed.

(** Induction over the steps of an execution. *)
Lemma net_runs_ind (P : list N -> Prop) :
  P (replicate (length honest) m_start) ->
  (forall ls net il net', net_runs ls net -> exec_net il net = Some net' -> P net -> P net') ->
  forall ls net, net_runs ls net -> P net.
Proof.
  intros H0 Hstep ls. induction ls as [|il ls IH] using rev_ind; intros net Hr.
  - unfold net_runs in Hr. by simplify_eq/=.
  - unfold net_runs in Hr. rewrite exec_nets_app in Hr. apply bind_Some in Hr as (net1 & H1 & H2).
    simpl in H2. apply bind_Some in H2 as (net2 & H2 & [= ->]).
    eapply Hstep; [exact H1|exact H2|by apply IH].
Qed.

Lemma readable_mono net net' :
  net_le net net' -> (forall n b, n ∈ net' -> published (m_view n) b -> within_limits b) ->
  forall n b, n ∈ net -> published (m_view n) b -> within_limits b.
Proof.
  intros Hle Hr n b (i & Hi)%list_elem_of_lookup Hb.
  destruct (Forall2_lookup_l _ _ _ _ _ Hle Hi) as (n' & Hi' & Hg).
  eapply Hr; [by eapply list_elem_of_lookup_2|by eapply published_mono].
Qed.

(** ** What the network guarantees *)

Context (fresh : fresh_includers incl).
Context (decoder_bytes : forall c c', sl c = sl c' -> decoder c = decoder c').
Context {CL : CapnpLaws}.
Implicit Types (cert : certificate I).

Definition honest_keys : list bytes := map identity honest.

(** The stake of the members that are not honest. *)
Definition faulty_stake : Z :=
  total (includers incl) - sumZ (stake_of (includers incl)) honest_keys.

(** Readers accept what the nodes published. *)
Definition readable net : Prop :=
  forall n b, n ∈ net -> published (m_view n) b -> within_limits b.

(** A certificate of a round of some node. *)
Definition net_certificate net (num : Z) cert : Prop :=
  exists n, n ∈ net /\ has_certificate (m_view n) num cert.

(** The honest member [b] certified a message of round [num], whose identifier
    prints as [id] and is the hash of its data. *)
Definition witnessed net (num : Z) (id : I) (b : bytes) : Prop :=
  exists j signer n id' msg, honest !! j = Some signer /\ identity signer = b /\
    net !! j = Some n /\ Round id' = num /\ mid_String id' = mid_String id /\
    certified hasher (m_view n) id' msg.

(** Every honest member among the signers of a certificate is a witness. *)
Lemma certificate_witnesses ls net num cert :
  net_runs ls net -> readable net -> net_certificate net num cert ->
  wf_cert (includers incl) cert /\
  exists id, checked_message hasher num cert id /\
    forall b, b ∈ signers cert -> b ∈ honest_keys -> witnessed net num id b.
Proof.
  intros Hr Hread (n & Hn & Hc). pose proof (net_runs_ok ls net Hr) as Hok.
  assert (forall k s1 n1, honest !! k = Some s1 -> net !! k = Some n1 -> node_runs net s1 n1) as Hlk
    by (intros k s1 n1; by apply Forall2_lookup_lr).
  apply list_elem_of_lookup in Hn as (i & Hn).
  destruct (Forall2_lookup_r _ _ _ _ _ Hok Hn) as (signer & Hs & nls & Hrun & Hf).
  destruct (node_certificate hasher decoder incl _ signer nls _ num cert fresh Hf Hrun Hc)
    as (Hw & id & Hid & Hsig).
  split; [done|]. exists id. split; [done|]. intros b Hb (s & Es & Hin)%list_elem_of_fmap.
  apply list_elem_of_lookup in Hin as (j & Hj).
  destruct (Forall2_lookup_l _ _ _ _ _ Hok Hj) as (nj & Hnj & nlsj & Hrunj & Hfj).
  destruct (Hsig b Hb) as (sig & id' & data & c & _ & Hkey & Hstr & Hround & Hauth & Hcar & Hdec & Hver).
  assert (vouched (m_view nj) c) as Hv by (eapply authentic_spec; [exact Hauth|exact Hcar|done..|congruence|done]).
  destruct (vouched_certified hasher decoder incl (fun data => authentic net s data = true) s
    (m_view nj) c id' decoder_bytes) as [msg Hmsg].
  - eapply runs_to_ok; [exact fresh|exact Hfj|exact Hrunj].
  - intros b'. apply Hread. by eapply list_elem_of_lookup_2.
  - done.
  - done.
  - by exists j, s, nj, id', msg.
Qed.

(** Distinct byte strings hold, outside the honest members, at most the stake
    of the faulty ones. *)
Lemma honest_part bs :
  NoDup bs -> NoDup honest_keys ->
  sumZ (stake_of (includers incl)) bs - faulty_stake <=
    sumZ (stake_of (includers incl)) (filter (fun b => b ∈ honest_keys) bs).
Proof.
  intros Hb Hh. unfold faulty_stake.
  pose proof (overlap_stake (includers incl) bs honest_keys (proj1 fresh) Hb Hh). lia.
Qed.

(** The honest signers of a completed certificate. *)
Lemma honest_signers cert :
  NoDup honest_keys -> 3 * faulty_stake <= total (includers incl) ->
  wf_cert (includers incl) cert -> cert_completed cert = true ->
  total (includers incl) <
    3 * sumZ (stake_of (includers incl)) (filter (fun b => b ∈ honest_keys) (signers cert)).
Proof.
  intros Hnd Hfaulty Hw Hcomp.
  pose proof (honest_part (signers cert) (wc_nodup _ _ Hw) Hnd).
  apply (wf_cert_supermajority _ _ (proj1 fresh) Hw) in Hcomp. lia.
Qed.

(** C3: When at most a third of the stake is faulty, a completed certificate at
    any node of the network, whatever the adversary delivers, is one that
    honest members with more than a third of the stake stand behind: each of
    them certified a message of that round whose data has the certificate's
    hash.  Identifiers print as their hash, so the producer that is named may
    be another one. *)
Theorem completed_certificate_has_honest_witnesses ls net num cert :
  net_runs ls net -> readable net -> NoDup honest_keys ->
  3 * faulty_stake <= total (includers incl) ->
  net_certificate net num cert -> cert_completed cert = true ->
  exists id bs, checked_message hasher num cert id /\ NoDup bs /\
    (forall b, b ∈ bs -> witnessed net num id b) /\
    total (includers incl) < 3 * sumZ (stake_of (includers incl)) bs.
Proof.
  intros Hr Hread Hnd Hfaulty Hc Hcomp.
  destruct (certificate_witnesses ls net num cert Hr Hread Hc) as (Hw & id & Hid & Hwit).
  exists id, (filter (fun b => b ∈ honest_keys) (signers cert)).
  split_and!; [done|apply NoDup_filter, Hw| |by apply honest_signers].
  intros b [Hh Hb]%list_elem_of_filter. by apply Hwit.
Qed.

(** C4: When at most a third of the stake is faulty, two completed certificates
    anywhere in the network, of whatever rounds and messages, have an honest
    member that certified, for each of them, a message of its round and
    hash. *)
Theorem certificates_share_honest_witness ls net num1 num2 cert1 cert2 :
  net_runs ls net -> readable net -> NoDup honest_keys ->
  3 * faulty_stake <= total (includers incl) ->
  net_certificate net num1 cert1 -> net_certificate net num2 cert2 ->
  cert_completed cert1 = true -> cert_completed cert2 = true ->
  exists id1 id2 b, checked_message hasher num1 cert1 id1 /\ checked_message hasher num2 cert2 id2 /\
    witnessed net num1 id1 b /\ witnessed net num2 id2 b.
Proof.
  intros Hr Hread Hnd Hfaulty Hc1 Hc2 H1 H2.
  destruct (certificate_witnesses ls net num1 cert1 Hr Hread Hc1) as (W1 & id1 & Hid1 & Hwit1).
  destruct (certificate_witnesses ls net num2 cert2 Hr Hread Hc2) as (W2 & id2 & Hid2 & Hwit2).
  pose proof (proj1 fresh) as Hv.
  apply (wf_cert_supermajority _ _ Hv W1) in H1. apply (wf_cert_supermajority _ _ Hv W2) in H2.
  pose proof (overlap_stake _ _ _ Hv (wc_nodup _ _ W1) (wc_nodup _ _ W2)) as Ho.
  pose proof (honest_part _ (NoDup_filter (fun b => b ∈ signers cert2) _ (wc_nodup _ _ W1)) Hnd) as Hh.
  destruct (filter (fun b => b ∈ honest_keys) (filter (fun b => b ∈ signers cert2) (signers cert1)))
    as [|b bs] eqn:Eb; [simpl in Hh; lia|].
  assert (b ∈ b :: bs) as Hb by left. rewrite <- Eb in Hb.
  apply list_elem_of_filter in Hb as [Hbh [Hb2 Hb1]%list_elem_of_filter].
  exists id1, id2, b. split_and!; auto.
Qed.
End network.

(** ** Machines inside machines *)

Section projection.
Context {I K S HT : Type} {MI : MessageID I} {PK : Crypto.PubKey K} {PL : PubKeyLaws K}
  {MO : MapOrder} {CP : Capnp} {SI : SignerI S} {HI : HasherI I HT}.
Context (hasher : HT) (decoder : slice -> res I) (incl : Includers K).
Context {N L : Type} (NM : NodeMachine (I:=I) (K:=K) (S:=S) N L).
Context {N' L' : Type} (NM' : NodeMachine (I:=I) (K:=K) (S:=S) N' L').

(** A machine [N] that has a machine [N'] inside: its steps are steps of [N'],
    which deliver the same, or leave it alone. *)
Record MachineInside (inside : N -> N') : Prop := {
  inside_start : inside m_start = m_start;
  inside_view : forall n, m_view n = m_view (inside n);
  inside_exec : forall signer l n n', m_exec signer l n = Some n' ->
    inside n' = inside n \/
    exists l', m_exec signer l' (inside n) = Some (inside n') /\ m_delivers l' = m_delivers l;
}.

Context (inside : N -> N') (MP : MachineInside inside).

Lemma inside_laws :
  NodeMachineLaws hasher decoder incl N' L' -> NodeMachineLaws hasher decoder incl N L.
Proof using MP.
  intros [Hs Hx]. split.
  - by rewrite (inside_view _ MP), (inside_start _ MP).
  - intros signer l n n' H. rewrite !(inside_view _ MP).
    destruct (inside_exec _ MP _ _ _ _ H) as [->|(l' & H' & <-)]; [|by apply Hx].
    exists []. split; [done|]. by intros g data ?%elem_of_nil.
Qed.

Lemma inside_authentic honest (net : list N) verifier data :
  authentic honest (map inside net) verifier data = authentic honest net verifier data.
Proof using MP.
  unfold authentic. destruct (read_signature data) as [[c sig]|]; [|done].
  revert net. induction honest as [|s honest IH]; intros [|n net]; simpl; [done..|].
  by rewrite IH, (inside_view _ MP).
Qed.

Lemma inside_exec_net honest il net net' :
  exec_net honest il net = Some net' ->
  exists ls, exec_nets honest ls (map inside net) = Some (map inside net').
Proof using MP.
  destruct il as [i l]. cbn [exec_net]. intros H.
  apply bind_Some in H as (signer & Hs & H). apply bind_Some in H as (n & Hn & H).
  destruct (forallb _ _) eqn:Ha; [|done]. apply bind_Some in H as (n' & Hx & [= <-]).
  change (map inside) with (fmap (M:=list) inside). rewrite list_fmap_insert. destruct (inside_exec _ MP _ _ _ _ Hx) as [E|(l' & H' & Ed)].
  - exists []. simpl. f_equal. symmetry. apply list_insert_id.
    by rewrite E, list_lookup_fmap, Hn.
  - exists [(i, l')]. simpl. rewrite Hs. simpl. rewrite list_lookup_fmap, Hn. simpl.
    rewrite Ed. assert (forallb (authentic honest (inside <$> net) signer) (m_delivers l) = true) as ->.
    { apply forallb_forall. intros data Hd. rewrite (inside_authentic honest net).
      rewrite forallb_forall in Ha. by apply Ha. }
    by rewrite H'.
Qed.

(** An execution of the machines is one of the machines inside. *)
Lemma net_runs_inside honest ls net :
  net_runs honest ls net -> exists ls', net_runs honest ls' (map inside net).
Proof using MP.
  revert ls net. apply net_runs_ind.
  - exists []. unfold net_runs. simpl. change (map inside) with (fmap (M:=list) inside). by rewrite fmap_replicate, (inside_start _ MP).
  - intros ls net il net' _ Hx [ls' Hr].
    destruct (inside_exec_net _ _ _ _ Hx) as [ls2 H2]. exists (ls' ++ ls2).
    unfold net_runs in *. rewrite exec_nets_app, Hr. exact H2.
Qed.
End projection.
