(* ===== verification/Availability.v ===== *)
(** A node with its certifier and its batch pool: when the broadcasting layer
    ([System.v]) asks for certification, the program of the certifier
    ([Dag.v]) runs, and each batch it pulls is a goroutine of the pool
    ([MemPool.v]).  Nodes of this kind in the network ([Network.v]): the
    batches of a certified block are available at honest members. *)

From S2P Require Import Prelude Prog Sha256 Crypto CryptoInstance Capnp CapnpInstance Rebro Bapl Subs MemPool Block Includers Quorum QuorumProps Round RoundConc RoundInv RoundQuorum Provenance Gossip System SystemInv Dag GossipProps SystemProps DagProps Network.

Section full.
Context {K S HT : Type} {PK : Crypto.PubKey K} {PL : PubKeyLaws K} {MO : MapOrder} {CP : Capnp}
  {SI : SignerI S} {HI : HasherI blockID HT}.
Context (hasher : HT) (decoder : slice -> res blockID) (incl : Includers K).

Abbreviation Q := (Quorum blockID K).
Abbreviation C := (Certificate (I:=blockID) (Q:=Q)).
Abbreviation E := (broE blockID Q (option C)).
Abbreviation node := (System.node (I:=blockID) (K:=K)).
Abbreviation goroutine := (System.goroutine (I:=blockID) (K:=K)).
Implicit Types (nd : node) (go : goroutine).

(** ** The state *)

(** A call of [Certify] by a goroutine of the layer: what it has pulled, what
    is left of it, and the goroutine of the pool it waits for. *)
Record job := MkJob {
  j_msg : Message blockID;
  j_trace : list (occ certE);
  j_rest : prog certE (res unit);
  j_wait : option nat;
}.

Record full := MkFull {
  f_node : node;
  f_pool : MemPool.sys;
  f_jobs : gmap nat job;
}.
Implicit Type f : full.

(** The message a goroutine waits to be certified. *)
Definition certifying nd (g : nat) : option (Message blockID) :=
  go ← n_gos nd !! g;
  match g_rest go, g_call go with
  | Vis e _, None => match e in broE _ _ _ X return option (Message blockID) with
                     | Gossip.Certify msg => Some msg | _ => None end
  | _, _ => None
  end.

Definition verdict_of (r : res unit) : option verdict :=
  match r with
  | Ok _ => Some VOk
  | Err e => Some (VErr e)
  | Panic w => Some (VPanic w)
  | Hang _ => None
  end.

(** ** Steps *)

Inductive full_label :=
| FNode (l : node_label (I:=blockID))   (* the broadcasting layer *)
| FPool (l : MemPool.label)             (* the pool and its other users *)
| FCertify (g : nat)                    (* the goroutine calls the certifier *)
| FPull (g t : nat)                     (* the certifier enters [Pull], as the pool's [t] *)
| FPulled (g : nat)                     (* [Pull] returns to it *)
| FDone (g : nat).                      (* the certifier returns *)

(** Certification is not answered from outside. *)
Definition outside nd (l : node_label (I:=blockID)) : bool :=
  match l with
  | NEnv g _ => match certifying nd g with Some _ => false | None => true end
  | _ => true
  end.

Definition with_job (g : nat) (j : job) f : full :=
  MkFull (f_node f) (f_pool f) (<[g := j]> (f_jobs f)).

(** What the pool's goroutine returned. *)
Definition returned (w : waiter) : option (res Batch) :=
  match w with MemPool.Pulled _ r => Some r | _ => None end.

(** The certifier goes on with the answer to its request. *)
Definition resume (j : job) (r : res Batch) : job :=
  match j_rest j with
  | Vis e k =>
      match e in certE X return (X -> prog certE (res unit)) -> job with
      | Dag.Pull hash => fun k => MkJob (j_msg j) (j_trace j ++ [Occ (Dag.Pull hash) r]) (k r) None
      end k
  | Ret _ => j
  end.

Definition exec_full (signer : S) (l : full_label) f : option full :=
  match l with
  | FNode l =>
      if outside (f_node f) l
      then nd' ← exec_node signer hasher decoder incl l (f_node f);
           Some (MkFull nd' (f_pool f) (f_jobs f))
      else None
  | FPool l =>
      pool' ← MemPool.exec_label l (f_pool f);
      Some (MkFull (f_node f) pool' (f_jobs f))
  | FCertify g =>
      msg ← certifying (f_node f) g;
      match f_jobs f !! g with
      | None => Some (with_job g (MkJob msg [] (Dag.Certify msg) None) f)
      | Some _ => None
      end
  | FPull g t =>
      j ← f_jobs f !! g;
      match j_rest j, j_wait j with
      | Vis e _, None =>
          match e in certE X return option full with
          | Dag.Pull hash =>
              pool' ← MemPool.exec_label (LPull t hash) (f_pool f);
              Some (MkFull (f_node f) pool'
                (<[g := MkJob (j_msg j) (j_trace j) (j_rest j) (Some t)]> (f_jobs f)))
          end
      | _, _ => None
      end
  | FPulled g =>
      j ← f_jobs f !! g;
      t ← j_wait j;
      w ← m_waiters (f_pool f) !! t;
      r ← returned w;
      Some (with_job g (resume j r) f)
  | FDone g =>
      j ← f_jobs f !! g;
      match j_rest j with
      | Ret r =>
          v ← verdict_of r;
          nd' ← exec_node signer hasher decoder incl (NEnv g v) (f_node f);
          Some (MkFull nd' (f_pool f) (delete g (f_jobs f)))
      | Vis _ _ => None
      end
  end.

Definition full_start : full := MkFull idle MemPool.start ∅.

#[export] Instance full_machine : NodeMachine full full_label := {|
  m_start := full_start;
  m_exec := exec_full;
  m_view := f_node;
  m_delivers l := match l with FNode (NSpawn _ (Deliver data)) => [data] | _ => [] end;
|}.

#[export] Instance full_machine_laws : NodeMachineLaws hasher decoder incl full full_label.
Proof.
  split; [done|]. intros signer l f f' H. destruct l as [l|l|g|g t|g|g]; cbn [m_exec full_machine exec_full] in H.
  - destruct (outside _ _); [|done]. apply bind_Some in H as (nd' & Hx & [= <-]).
    exists [l]. split; [cbn [exec_nodes m_view full_machine f_node]; by rewrite Hx|]. intros g data <-%list_elem_of_singleton. simpl. by left.
  - apply bind_Some in H as (p & Hx & [= <-]). exists []. split; [done|]. by intros g data ?%elem_of_nil.
  - apply bind_Some in H as (msg & Hx & H). destruct (f_jobs f !! g); simplify_eq.
    exists []. split; [done|]. by intros g0 data ?%elem_of_nil.
  - apply bind_Some in H as (j & Hj & H). destruct (j_rest j) as [|X e k]; [done|].
    destruct (j_wait j); [done|]. destruct e. apply bind_Some in H as (p & Hx & [= <-]).
    exists []. split; [done|]. by intros g0 data ?%elem_of_nil.
  - apply bind_Some in H as (j & Hj & H). apply bind_Some in H as (t & Ht & H).
    apply bind_Some in H as (w & Hw & H). apply bind_Some in H as (r & Hr & [= <-]).
    exists []. split; [done|]. by intros g0 data ?%elem_of_nil.
  - apply bind_Some in H as (j & Hj & H). destruct (j_rest j) as [r|X e k]; [|done].
    apply bind_Some in H as (v & Hv & H). apply bind_Some in H as (nd' & Hx & [= <-]).
    exists [NEnv g v]. split; [cbn [exec_nodes m_view full_machine f_node]; by rewrite Hx|].
    intros g0 data Hin%list_elem_of_singleton. done.
Qed.

(** ** What the pool returned *)

(** The pool returned this answer to a goroutine that pulled this batch. *)
Definition backed (pool : MemPool.sys) (o : occ certE) : Prop :=
  let '@Occ _ X e x := o in
  match e in certE X return X -> Prop with
  | Dag.Pull hash => fun x => exists t, m_waiters pool !! t = Some (MemPool.Pulled hash x)
  end x.

Definition pulling (w : waiter) : option slice :=
  match w with
  | PullWait h _ _ | PullCancel h _ _ _ | MemPool.Pulled h _ => Some h
  | _ => None
  end.

(** A goroutine in [Pull] keeps its hash, and its answer once it has one. *)
Definition pool_le (p p' : MemPool.sys) : Prop :=
  forall t w h, m_waiters p !! t = Some w -> pulling w = Some h ->
    exists w', m_waiters p' !! t = Some w' /\ pulling w' = Some h /\
      forall r, w = MemPool.Pulled h r -> w' = w.

Lemma pool_le_with p p' t w0 w' h0 :
  m_waiters p !! t = Some w0 -> pulling w0 = Some h0 -> returned w0 = None ->
  pulling w' = Some h0 -> m_waiters p' = <[t := w']> (m_waiters p) -> pool_le p p'.
Proof.
  intros Ht Hp Hr Hp' E u w h Hu Hh. rewrite E. destruct (decide (u = t)) as [->|Hne].
  - assert (w = w0) as -> by congruence. exists w'. rewrite lookup_insert_eq.
    split_and!; [done|congruence|]. by intros r ->.
  - exists w. by rewrite lookup_insert_ne.
Qed.

Lemma pool_le_same p p' : m_waiters p' = m_waiters p -> pool_le p p'.
Proof. intros E t w h Ht Hw. exists w. by rewrite E. Qed.

Lemma pool_le_new p p' t w' :
  (m_waiters p !! t = None \/ exists w, m_waiters p !! t = Some w /\ pulling w = None) ->
  m_waiters p' = <[t := w']> (m_waiters p) -> pool_le p p'.
Proof.
  intros Hn E u w h Hu Hh. exists w. rewrite E. destruct (decide (u = t)) as [->|Hne].
  - exfalso. destruct Hn as [Hn|(w1 & Hn & Hp)]; congruence.
  - by rewrite lookup_insert_ne.
Qed.

Lemma section_waiters {A} (m : St MemPool A) k p :
  m_waiters (section m k p) = m_waiters p \/
  exists a p0, m_waiters p0 = m_waiters p /\ section m k p = k a p0.
Proof.
  unfold section. destruct (m (m_pool p)) as [p' [a|e|w|w]]; [right|by left..].
  eexists a, _. split; [|reflexivity]. done.
Qed.

Lemma pool_step_le l p p' : MemPool.exec_label l p = Some p' -> pool_le p p'.
Proof.
  unfold MemPool.exec_label. destruct (m_dead p); [done|]. intros H.
  destruct l as [b now|t hash|t|t e|t|t key|t|hash|now| |].
  - injection H as <-. destruct (section_waiters (MemPool.Push now b) (fun _ => broadcast) p)
      as [E|(a & p0 & E0 & ->)]; [by apply pool_le_same|].
    intros t w h Ht Hw. exists w. unfold broadcast. cbn. rewrite lookup_fmap, E0, Ht.
    split_and!; [|done..]. by destruct w; simplify_eq/=.
  - destruct (m_waiters p !! t) eqn:Et; [done|]. injection H as <-.
    match goal with |- pool_le _ (section ?m ?k p) =>
      destruct (section_waiters m k p) as [E|(a & p0 & E0 & ->)] end; [by apply pool_le_same|].
    eapply pool_le_new; [by left|cbn; by rewrite E0].
  - destruct (m_waiters p !! t) as [[hash i c| | | | |]|] eqn:Et; try done.
    apply bind_Some in H as ([s1 v] & _ & [= <-]). eapply pool_le_with; [exact Et|reflexivity|reflexivity| |reflexivity]. reflexivity.
  - destruct (m_waiters p !! t) as [[hash i c| | | | |]|] eqn:Et; try done.
    injection H as <-. eapply pool_le_with; [exact Et|reflexivity|reflexivity| |reflexivity]. reflexivity.
  - destruct (m_waiters p !! t) as [[|hash i c e| | | |]|] eqn:Et; try done. injection H as <-.
    match goal with |- pool_le _ (section ?m ?k p) =>
      destruct (section_waiters m k p) as [E|(a & p0 & E0 & ->)] end; [by apply pool_le_same|].
    eapply pool_le_with; [exact Et|done|done| |cbn; by rewrite E0]. done.
  - destruct (m_waiters p !! t) eqn:Et; [done|]. injection H as <-. unfold list_round.
    destruct (by_signer _ _); (eapply pool_le_new; [by left|done]).
  - destruct (m_waiters p !! t) as [[| | | |key|]|] eqn:Et; try done. injection H as <-. unfold list_round.
    destruct (by_signer _ _); (eapply pool_le_new; [right; by eexists|done]).
  - injection H as <-. destruct (section_waiters (MemPool.Delete hash) (fun _ s => s) p)
      as [E|(a & p0 & E0 & ->)]; by apply pool_le_same.
  - destruct (m_gc p); [|done]. injection H as <-.
    destruct (section_waiters (gc now) (fun _ s => s) p) as [E|(a & p0 & E0 & ->)]; by apply pool_le_same.
  - destruct (m_gc p && _); [|done]. injection H as <-. by apply pool_le_same.
  - injection H as <-. destruct (section_waiters MemPool.Close (fun _ s => s) p)
      as [E|(a & p0 & E0 & ->)]; by apply pool_le_same.
Qed.

Lemma backed_mono p p' o : pool_le p p' -> backed p o -> backed p' o.
Proof.
  intros Hle. destruct o as [X [hash] x]. intros (t & Ht). exists t.
  destruct (Hle t _ hash Ht eq_refl) as (w & Hw & _ & E). by rewrite <- (E x eq_refl).
Qed.

(** ** The certifications of a node *)

(** What a step of the layer does to certifications. *)
Lemma step_certifying signer l nd nd' g msg :
  exec_node signer hasher decoder incl l nd = Some nd' -> (forall v, l <> NEnv g v) ->
  certifying nd g = Some msg -> certifying nd' g = Some msg.
Proof.
  intros H Hl Hc. unfold certifying in *. destruct (n_gos nd !! g) as [go|] eqn:Hg; [|done]. simpl in Hc.
  destruct (g_rest go) as [|X e k] eqn:Er; [done|]. destruct (g_call go) eqn:Ec; [done|].
  assert (n_gos nd' !! g = Some go) as ->; [|by cbn; rewrite Er, Ec].
  eapply step_waiting; [exact H|exact Hg|exact Er|exact Ec|by destruct e|exact Hl].
Qed.

Lemma step_certification signer l nd nd' g go' msg x :
  exec_node signer hasher decoder incl l nd = Some nd' -> n_gos nd' !! g = Some go' ->
  (msg, x) ∈ omap certification (g_trace go') ->
  (exists go, n_gos nd !! g = Some go /\ (msg, x) ∈ omap certification (g_trace go)) \/
  (exists v, l = NEnv g v /\ certifying nd g = Some msg /\ plain v = Some x).
Proof.
  intros H Hg' Hin. destruct l as [g0 t|g0 v|g0 t|g0|n lb]; cbn [exec_node] in H.
  - destruct (n_gos nd !! g0) eqn:Hg0; [done|]. injection H as <-. cbn in Hg'.
    apply lookup_insert_Some in Hg' as [[<- <-]|[_ Hg']]; [by apply elem_of_nil in Hin|].
    left. by exists go'.
  - apply bind_Some in H as (go & Hg & H). destruct (g_rest go) as [|X e k] eqn:Er; [done|].
    destruct (g_call go) eqn:Ec; [done|]. apply bind_Some in H as ([l' x0] & He & [= <-]). cbn in Hg'.
    apply lookup_insert_Some in Hg' as [[<- <-]|[_ Hg']]; [|left; by exists go'].
    cbn [answered g_trace] in Hin. rewrite omap_app, elem_of_app in Hin.
    destruct Hin as [Hin|Hin]; [left; by exists go|]. right. exists v.
    destruct e; try (by apply elem_of_nil in Hin). apply list_elem_of_singleton in Hin as [= -> ->].
    cbn in He. apply bind_Some in He as (x1 & Hv & [= _ <-]).
    split_and!; [done| |done]. unfold certifying. rewrite Hg. simpl. by rewrite Er, Ec.
  - apply bind_Some in H as (go & Hg & H). destruct (g_rest go) as [|X e k] eqn:Er; [done|].
    destruct (g_call go) eqn:Ec; [done|]. apply bind_Some in H as ([[n rq] ans] & Hrc & H).
    apply bind_Some in H as (s & Hn & H). apply bind_Some in H as (s' & Hex & [= <-]). cbn in Hg'.
    apply lookup_insert_Some in Hg' as [[<- <-]|[_ Hg']]; left; [by exists go|by exists go'].
  - apply bind_Some in H as (go & Hg & H). destruct (g_rest go) as [|X e k] eqn:Er; [done|].
    destruct (g_call go) as [[n t]|] eqn:Ec; [|done]. apply bind_Some in H as ([[n' rq] ans] & Hrc & H).
    apply bind_Some in H as (s & Hn & H). apply bind_Some in H as (cl & Hcl & H).
    destruct (pc cl) as [| | | | | |comm err]; simplify_eq. cbn in Hg'.
    apply lookup_insert_Some in Hg' as [[<- <-]|[_ Hg']]; [|left; by exists go'].
    cbn [answered g_trace] in Hin. rewrite omap_app, elem_of_app in Hin.
    destruct Hin as [Hin|Hin]; [left; by exists go|].
    destruct e; simplify_eq; by apply elem_of_nil in Hin.
  - destruct (internal lb); [|done]. apply bind_Some in H as (s & Hn & H).
    apply bind_Some in H as (s' & Hex & [= <-]). left. by exists go'.
Qed.

(** ** The invariant *)

Record job_ok f (g : nat) (j : job) : Prop := {
  jk_rest : residual (Dag.Certify (j_msg j)) (j_trace j) (j_rest j);
  jk_trace : Forall (backed (f_pool f)) (j_trace j);
  jk_go : certifying (f_node f) g = Some (j_msg j);
  jk_wait : forall t, j_wait j = Some t -> exists hash k w, j_rest j = Vis (Dag.Pull hash) k /\
    m_waiters (f_pool f) !! t = Some w /\ pulling w = Some hash;
}.

(** Every certification the layer was told of is a run of the certifier, whose
    pulls the pool answered. *)
Definition certified_by_pool (pool : MemPool.sys) (msg : Message blockID) (x : res unit) : Prop :=
  exists tr, runs (Dag.Certify msg) tr x /\ Forall (backed pool) tr.

Record full_ok f : Prop := {
  fk_pool : MemPool.reach (f_pool f);
  fk_jobs : forall g j, f_jobs f !! g = Some j -> job_ok f g j;
  fk_certified : forall g go msg x, n_gos (f_node f) !! g = Some go ->
    (msg, x) ∈ omap certification (g_trace go) -> certified_by_pool (f_pool f) msg x;
}.

Lemma certified_by_pool_mono p p' msg x :
  pool_le p p' -> certified_by_pool p msg x -> certified_by_pool p' msg x.
Proof.
  intros Hle (tr & Hr & Ht). exists tr. split; [done|]. eapply Forall_impl; [exact Ht|].
  intros o. by apply backed_mono.
Qed.

Lemma job_ok_pool f g j p' js :
  job_ok f g j -> pool_le (f_pool f) p' -> job_ok (MkFull (f_node f) p' js) g j.
Proof.
  intros [Hr Ht Hg Hw] Hle. split; cbn [f_pool f_node]; [done| |done|].
  - eapply Forall_impl; [exact Ht|]. intros o. by apply backed_mono.
  - intros t Et. destruct (Hw t Et) as (h & k & w & E1 & E2 & E3).
    destruct (Hle t w h E2 E3) as (w' & E2' & E3' & _). by exists h, k, w'.
Qed.

(** Entering [Pull] leaves the goroutine in it, with its hash. *)
Lemma entered_pull t hash p p' :
  MemPool.reach p -> MemPool.exec_label (LPull t hash) p = Some p' ->
  exists w, m_waiters p' !! t = Some w /\ pulling w = Some hash.
Proof.
  intros Hr. pose proof (mo_pool p (pool_reach_sys_ok p Hr)) as Hp.
  unfold MemPool.exec_label. destruct (m_dead p); [done|].
  destruct (m_waiters p !! t); [done|]. intros [= <-]. unfold section.
  destruct (batches (m_pool p) !! sl hash) as [e|] eqn:Eb.
  - rewrite (Pull_hit _ _ _ Eb). cbn. eexists. by rewrite lookup_insert_eq.
  - destruct (Pull_miss hash (m_pool p) Hp Eb) as (s' & _ & -> & _). cbn. eexists. by rewrite lookup_insert_eq.
Qed.

Lemma full_ok_pool f p' js :
  full_ok f -> pool_le (f_pool f) p' -> MemPool.reach p' ->
  (forall g j, js !! g = Some j -> job_ok (MkFull (f_node f) p' js) g j) ->
  full_ok (MkFull (f_node f) p' js).
Proof.
  intros [Hp Hj Hc] Hle Hr Hjs. split; [done|done|].
  intros g go msg x Hg Hin. eapply certified_by_pool_mono; [exact Hle|]. by eapply Hc.
Qed.

Lemma resume_ok j hash k r :
  j_rest j = Vis (Dag.Pull hash) k ->
  resume j r = MkJob (j_msg j) (j_trace j ++ [Occ (Dag.Pull hash) r]) (k r) None.
Proof. intros E. unfold resume. by rewrite E. Qed.

Lemma pool_le_refl p : pool_le p p.
Proof. by apply pool_le_same. Qed.

Lemma step_full_ok signer l f f' :
  full_ok f -> exec_full signer l f = Some f' -> full_ok f'.
Proof.
  intros Hok H. pose proof Hok as [Hp Hj Hc]. destruct l as [l|l|g|g t|g|g]; cbn [exec_full] in H.
  - destruct (outside (f_node f) l) eqn:Ho; [|done]. apply bind_Some in H as (nd' & Hx & [= <-]).
    split; cbn [f_pool f_node f_jobs]; [done| |].
    + intros g j Hgj. destruct (Hj g j Hgj) as [H1 H2 H3 H4]. split; try done. cbn [f_node].
      eapply step_certifying; [exact Hx| |exact H3]. intros v ->. simpl in Ho. by rewrite H3 in Ho.
    + intros g go' msg x Hg Hin.
      destruct (step_certification _ _ _ _ _ _ _ _ Hx Hg Hin) as [(go & Hg0 & Hin0)|(v & -> & Hv & _)].
      * by eapply Hc.
      * simpl in Ho. by rewrite Hv in Ho.
  - apply bind_Some in H as (p' & Hx & [= <-]). pose proof (pool_step_le _ _ _ Hx) as Hle.
    apply full_ok_pool; [done|done|by eapply MemPool.reach_step|]. intros g j Hgj. by apply job_ok_pool; [apply Hj|].
  - apply bind_Some in H as (msg & Hm & H). destruct (f_jobs f !! g) eqn:Eg; simplify_eq.
    destruct f as [nd p js]. apply (full_ok_pool (MkFull nd p js)); [done|apply pool_le_refl|done|].
    intros g0 j [[<- <-]|[_ Hgj]]%lookup_insert_Some.
    + split; cbn; [constructor|constructor|done|done].
    + by apply (job_ok_pool (MkFull nd p js)); [apply Hj|apply pool_le_refl].
  - apply bind_Some in H as (j & Hgj & H). destruct (j_rest j) as [|X e k] eqn:Er; [done|].
    destruct (j_wait j) eqn:Ew; [done|]. destruct e as [hash]. apply bind_Some in H as (p' & Hx & [= <-]).
    pose proof (pool_step_le _ _ _ Hx) as Hle.
    apply full_ok_pool; [done|done|by eapply MemPool.reach_step|].
    intros g0 j0 [[<- <-]|[_ Hgj0]]%lookup_insert_Some; [|by apply job_ok_pool; [apply Hj|]].
    destruct (job_ok_pool f g j p' (f_jobs f) (Hj g j Hgj) Hle) as [H1 H2 H3 _].
    split; cbn [j_msg j_trace j_rest j_wait]; [by rewrite <- Er|done|done|].
    intros t0 [= <-]. destruct (entered_pull t hash _ _ Hp Hx) as (w & Hw & Hh). by exists hash, k, w.
  - apply bind_Some in H as (j & Hgj & H). apply bind_Some in H as (t & Ht & H).
    apply bind_Some in H as (w & Hw & H). apply bind_Some in H as (r & Hr & [= <-]).
    destruct (Hj g j Hgj) as [H1 H2 H3 H4]. destruct (H4 t Ht) as (hash & k & w' & Er & Hw' & Hh).
    assert (w' = w) as -> by congruence. rewrite (resume_ok _ _ _ _ Er).
    destruct f as [nd p js]. apply (full_ok_pool (MkFull nd p js)); [done|apply pool_le_refl|done|].
    intros g0 j0 [[<- <-]|[_ Hgj0]]%lookup_insert_Some;
      [|by apply (job_ok_pool (MkFull nd p js)); [apply Hj|apply pool_le_refl]].
    split; cbn [j_msg j_trace j_rest j_wait]; [|apply Forall_app_2; [done|]|done|done].
    + rewrite Er in H1. exact (residual_answer _ _ _ _ _ r H1).
    + constructor; [|done]. exists t. destruct w; simplify_eq/=. done.
  - apply bind_Some in H as (j & Hgj & H). destruct (j_rest j) as [r|X e k] eqn:Er; [|done].
    apply bind_Some in H as (v & Hv & H). apply bind_Some in H as (nd' & Hx & [= <-]).
    destruct (Hj g j Hgj) as [H1 H2 H3 _].
    split; cbn [f_pool f_node f_jobs]; [done| |].
    + intros g0 j0 [Hne Hg0]%lookup_delete_Some. destruct (Hj g0 j0 Hg0) as [K1 K2 K3 K4].
      split; try done. cbn [f_node]. eapply step_certifying; [exact Hx| |exact K3]. by intros v0 [= ->].
    + intros g0 go' msg x Hg Hin.
      destruct (step_certification _ _ _ _ _ _ _ _ Hx Hg Hin) as [(go & Hg0 & Hin0)|(v0 & [= -> ->] & Hv0 & Hpl)].
      * by eapply Hc.
      * assert (msg = j_msg j) as -> by congruence. exists (j_trace j). split; [|done].
        rewrite Er in H1. assert (r = x) as ->.
        { destruct r as [[]|e|w|w]; simplify_eq/=; done. }
        pose proof (residual_runs _ _ _ [] x H1 ltac:(done)) as H0. by rewrite app_nil_r in H0.
Qed.
End full.

(** ** Availability in the network *)

Section available.
Context {K S : Type} {PK : Crypto.PubKey K} {PL : PubKeyLaws K} {MO : MapOrder} {CP : Capnp}
  {CL : CapnpLaws} {SI : SignerI S}.
Context (incl : Includers K) (fresh : fresh_includers incl) (honest : list S).

Abbreviation Machine := (full_machine (S:=S) NewHasher decode_id incl).
Abbreviation full := (full (K:=K)).
Implicit Type net : list full.

#[local] Instance blocks_machine : NodeMachine (S:=S) full full_label := Machine.
#[local] Instance blocks_machine_laws : NodeMachineLaws NewHasher decode_id incl full full_label :=
  full_machine_laws (S:=S) NewHasher decode_id incl.

Lemma net_full_ok ls net :
  net_runs honest ls net -> Forall full_ok net.
Proof.
  unfold net_runs. intros H.
  assert (Forall full_ok (replicate (length honest) (m_start (NodeMachine:=blocks_machine)))) as Hok.
  { apply Forall_replicate. split; [constructor|done|done]. }
  revert Hok H. generalize (replicate (length honest) (m_start (NodeMachine:=blocks_machine))).
  induction ls as [|[i l] ls IH]; intros net0 Hok H; cbn [exec_nets] in H; [by simplify_eq|].
  apply bind_Some in H as (net1 & H1 & H2). eapply IH; [|exact H2].
  cbn [exec_net] in H1. apply bind_Some in H1 as (signer & Hs & H1).
  apply bind_Some in H1 as (n & Hn & H1). destruct (forallb _ _); [|done].
  apply bind_Some in H1 as (n' & Hx & [= <-]). apply Forall_insert; [done|].
  eapply step_full_ok; [|exact Hx]. by eapply Forall_lookup_1.
Qed.

(** The node has the block of this digest, and for every batch of the block
    its pool returned a batch of that hash, or said that it was deleted. *)
Definition block_available (f : full) (digest : bytes) : Prop :=
  exists data blk, sha256 data = digest /\ UnmarshalBlock data = Ok blk /\
    forall h, h ∈ Block_Batches blk ->
      exists t x, m_waiters (f_pool f) !! t = Some (MemPool.Pulled h x) /\
        ((exists b, x = Ok b /\ sl (Batch_Hash b) = sl h) \/
         (exists e, x = Err e /\ errors_Is e SBatchDeleted = true)).

Lemma decode_bytes c c' : sl c = sl c' -> decode_id c = decode_id c'.
Proof. intros H. unfold decode_id. by rewrite H. Qed.

Lemma certified_available f id msg :
  full_ok f -> certified NewHasher (f_node f) id msg -> block_available f (sl (hash id)).
Proof.
  intros Hok ((_ & _ & h & [= <-] & Hh) & _ & g & go & Hg & Hin).
  destruct (fk_certified f Hok g go msg (Ok tt) Hg Hin) as (tr & Hrun & Hb).
  apply runs_Certify in Hrun as (id' & blk & _ & _ & _ & Hblk & Htr).
  exists (sl (msgData msg)), blk. split_and!; [done|done|]. intros hb Hin'.
  apply list_elem_of_lookup in Hin' as (i & Hi).
  destruct (Forall2_lookup_l _ _ _ _ _ Htr Hi) as (o & Ho & x & -> & Hx).
  destruct (proj1 (Forall_lookup _ _) Hb i _ Ho) as (t & Ht). exists t, x. split; [done|].
  destruct x as [b|e|w|w]; [left|right|done..]; [|by exists e].
  exists b. split; [done|]. exact (mo_pulled _ (pool_reach_sys_ok _ (fk_pool f Hok)) _ _ _ Ht).
Qed.

Definition available_at net (b digest : bytes) : Prop :=
  exists j signer f, honest !! j = Some signer /\ identity signer = b /\ net !! j = Some f /\
    block_available f digest.

(** Every honest signer of a certificate has its block. *)
Lemma honest_signers_available ls net num cert :
  net_runs honest ls net -> readable net -> net_certificate net num cert ->
  wf_cert (includers incl) cert /\
  forall b, b ∈ signers cert -> b ∈ honest_keys honest ->
    available_at net b (sha256 (sl (msgData (cert_msg cert)))).
Proof.
  intros Hr Hread Hc.
  destruct (certificate_witnesses NewHasher decode_id incl honest fresh decode_bytes ls net num cert
    Hr Hread Hc) as (Hw & id & Hid & Hwit).
  split; [done|]. intros b Hb Hh.
  destruct (Hwit b Hb Hh) as (j & signer & f & id' & msg & Hj & Eid & Hf & _ & Hstr & Hcert).
  exists j, signer, f. split_and!; [done..|].
  destruct Hid as (_ & _ & _ & [= Hhash]). rewrite Hhash.
  assert (sl (hash id') = sl (hash id)) as <- by (by apply sprintf_X_inj).
  eapply certified_available; [|exact Hcert].
  eapply Forall_lookup_1; [by eapply net_full_ok|exact Hf].
Qed.

(** C2: A completed certificate makes its block available: when at most a third
    of the stake is faulty, honest members with more than a third of the stake
    each have a block of the certificate's hash, and got every batch of it
    from their pools, except batches the pool reported deleted. *)
Theorem certified_block_is_available ls net num cert :
  net_runs honest ls net -> readable net -> NoDup (honest_keys honest) ->
  3 * faulty_stake incl honest <= total (includers incl) ->
  net_certificate net num cert -> cert_completed cert = true ->
  exists bs, NoDup bs /\ total (includers incl) < 3 * sumZ (stake_of (includers incl)) bs /\
    forall b, b ∈ bs -> available_at net b (sha256 (sl (msgData (cert_msg cert)))).
Proof.
  intros Hr Hread Hnd Hfaulty Hc Hcomp.
  destruct (honest_signers_available ls net num cert Hr Hread Hc) as [Hw Hav].
  exists (filter (fun b => b ∈ honest_keys honest) (signers cert)).
  split_and!; [apply NoDup_filter, Hw|by apply honest_signers|].
  intros b [Hh Hb]%list_elem_of_filter. by apply Hav.
Qed.
End available.

(** ** An execution

    Nodes 1, 2 and 3 of four members of equal stake, the fourth is faulty.
    Each has the batch in its pool, certifies member 1's block of round 7 with
    this batch and publishes its signature; the three signatures are delivered
    to node 1. *)
Module Executions.
Import QuorumProps.Sample GossipProps.Executions SystemProps.Executions.

Abbreviation Full := (full (K:=ed25519.PublicKey)).
#[local] Existing Instance ed25519.PublicKey_PubKey.
#[local] Instance machine : NodeMachine (S:=local.Signer ed25519.PrivateKey ed25519.PublicKey) Full full_label :=
  blocks_machine four.

Definition members : list (local.Signer ed25519.PrivateKey ed25519.PublicKey) :=
  [node_of x01; node_of x02; node_of x03].

Definition batch : Batch := MemPool.Executions.sample.

Definition stocked_data : bytes :=
  ok_or [] (Block_MarshalBinary (CP:=ToyCapnp.toy) (NewBlock 7 (Bytes (ToyEd25519.key_of x01)) [batch] [])).
Definition stocked_id : blockID := MkBlockID 7 (Bytes (ToyEd25519.key_of x01)) (Some (sha256 stocked_data)).
Definition stocked : Message blockID := MkMessage (Some stocked_id) (Some stocked_data).
Definition stocked_gossip : bytes := ok_or [] (encoded (data_gossip stocked)).
Definition stocked_encoding : bytes :=
  ok_or [] (mid_MarshalBinary (MessageID:=@blockID_MessageID ToyCapnp.toy) stocked_id).
Definition stocked_signature (b : byte) : Signature :=
  ok_or (MkSignature None None) (Sign (node_of b) stocked_encoding).
Definition stocked_signature_gossip (b : byte) : bytes :=
  ok_or [] (encoded (signature_gossip (Some stocked_encoding) (stocked_signature b))).

(** Node [i], of member [b], opens round 7, gets the batch and the block, and
    certifies it. *)
Definition certify_at (i : nat) (b : byte) : list (nat * full_label) :=
  map (pair i) (
    FPool (LPush batch 0) ::
    map FNode ([NSpawn 0 (Produce (message_by b b)); NEnv 0 VOk] ++
               [NSpawn 1 (Deliver stocked_gossip); NEnv 1 (VRound 0)] ++ perform 1 1) ++
    [FCertify 1; FPull 1 0; FPulled 1; FDone 1; FNode (NEnv 1 VOk)]).

Definition certified_everywhere : list (nat * full_label) :=
  certify_at 0 x01 ++ certify_at 1 x02 ++ certify_at 2 x03.

Definition signed_at_first : list (nat * full_label) :=
  map (fun l => (0%nat, FNode l))
    (receive_signature 2 (stocked_signature_gossip x01) ++
     receive_signature 3 (stocked_signature_gossip x02) ++
     receive_signature 4 (stocked_signature_gossip x03)).

Definition history := certified_everywhere ++ signed_at_first.

Definition final_net : option (list Full) :=
  exec_nets (NM:=machine) members history (replicate 3 (full_start (K:=ed25519.PublicKey))).

Definition stocked_cert : certificate blockID :=
  MkCertificate stocked (map stocked_signature [x01; x02; x03]) 3 true.

Definition first_cert (net : list Full) : option (Z * certificate blockID) :=
  (fun f => first_round (f_node f)) <$> net !! 0%nat.

Lemma final_net_observed : exists net, net_runs (NM:=machine) members history net /\
  first_cert net = Some (7, stocked_cert).
Proof.
  assert (first_cert <$> final_net = Some (Some (7, stocked_cert))) as H by (vm_compute; reflexivity).
  destruct final_net as [net|] eqn:E; [|done]. exists net. split; [exact E|]. by injection H.
Qed.

Lemma first_cert_spec net num cert :
  first_cert net = Some (num, cert) -> cert_completed cert = true ->
  net_certificate (NM:=machine) net num cert.
Proof.
  unfold first_cert. destruct (net !! 0%nat) as [f|] eqn:Hf; [|done]. intros [= H] Hc.
  exists f. split; [by eapply list_elem_of_lookup_2|]. by apply first_round_has.
Qed.

Lemma members_distinct : NoDup (honest_keys members).
Proof. vm_compute. repeat constructor; set_solver. Qed.

Lemma certified_block_is_available_witness :
  exists net bs, net_runs (NM:=machine) members history net /\
    4 < 3 * sumZ (stake_of (includers four)) bs /\
    forall b, b ∈ bs -> available_at members net b (sha256 stocked_data).
Proof.
  destruct final_net_observed as (net & Hr & Ho).
  destruct (certified_block_is_available (CP:=ToyCapnp.toy) four four_fresh members history net 7 stocked_cert)
    as (bs & _ & Hs & Hbs);
    [exact Hr|intros n b _ _; exact Logic.I|exact members_distinct|vm_compute; discriminate
    |apply first_cert_spec; [exact Ho|reflexivity]|reflexivity|].
  exists net, bs. split; [exact Hr|]. split; [exact Hs|exact Hbs].
Defined.

Lemma completed_certificate_has_honest_witnesses_witness :
  exists net id bs, checked_message NewHasher 7 stocked_cert id /\
    (forall b, b ∈ bs -> witnessed (NM:=machine) NewHasher members net 7 id b) /\
    4 < 3 * sumZ (stake_of (includers four)) bs.
Proof.
  destruct final_net_observed as (net & Hr & Ho).
  destruct (completed_certificate_has_honest_witnesses (CP:=ToyCapnp.toy) NewHasher
      (decode_id (CP:=ToyCapnp.toy)) four members (NL:=blocks_machine_laws four) four_fresh decode_bytes history net 7 stocked_cert)
    as (id & bs & Hid & _ & Hbs & Hs);
    [exact Hr|intros n b _ _; exact Logic.I|exact members_distinct|vm_compute; discriminate
    |apply first_cert_spec; [exact Ho|reflexivity]|reflexivity|].
  exists net, id, bs. split; [exact Hid|]. split; [exact Hbs|exact Hs].
Defined.

Lemma certificates_share_honest_witness_witness :
  exists net id b, checked_message NewHasher 7 stocked_cert id /\
    witnessed (NM:=machine) NewHasher members net 7 id b.
Proof.
  destruct final_net_observed as (net & Hr & Ho).
  destruct (certificates_share_honest_witness (CP:=ToyCapnp.toy) NewHasher
      (decode_id (CP:=ToyCapnp.toy)) four members (NL:=blocks_machine_laws four) four_fresh decode_bytes history net 7 7
      stocked_cert stocked_cert)
    as (id & _ & b & Hid & _ & Hb & _);
    [exact Hr|intros n b _ _; exact Logic.I|exact members_distinct|vm_compute; discriminate
    |apply first_cert_spec; [exact Ho|reflexivity]|apply first_cert_spec; [exact Ho|reflexivity]
    |reflexivity|reflexivity|].
  exists net, id, b. split; [exact Hid|exact Hb].
Defined.
End Executions.
