(* ===== verification/Equivocation.v ===== *)
(** Producers with several blocks in one round.  Rounds keep certificates by
    the hash of the block and nothing counts producers, so the guarantee of
    [dag/README.md], that every round has blocks of producers with 2f+1 stake,
    holds exactly as far as no producer has two certified blocks in the round:
    the theorem under this condition, and the execution without it.  And a
    node's key signs batches and identifiers alike. *)

From S2P Require Import Prelude Prog Sha256 Crypto CryptoInstance Capnp CapnpInstance Rebro Bapl Multicast Block Includers Quorum QuorumProps Round RoundConc RoundInv RoundQuorum Provenance Gossip System SystemInv Dag GossipProps SystemProps Network.

(** ** Rounds without equivocation *)

Section producers.
Context {I K S HT : Type} {MI : MessageID I} {PK : Crypto.PubKey K} {PL : PubKeyLaws K}
  {MO : MapOrder} {CP : Capnp} {SI : SignerI S} {HI : HasherI I HT}.
Context (hasher : HT) (decoder : slice -> res I) (incl : Includers K).
Implicit Type h : list (certificate I).

(** The producers of the completed certificates, one for each. *)
Definition producers h : list bytes := omap producer (completed h).

Lemma producers_stake l h :
  sumZ (producer_stake l) (completed h) = sumZ (stake_of l) (producers h).
Proof.
  unfold producers. induction (completed h) as [|cert cs IH]; [done|].
  rewrite sumZ_cons, IH. unfold producer_stake. cbn [omap list_omap].
  by destruct (producer cert).
Qed.

(** C10: When [Broadcast] succeeds and no producer has two completed certificates
    in the round, blocks of distinct members with more than two thirds of the
    stake are certified in it, each by a supermajority of signers. *)
Theorem round_has_supermajority_of_producers signer ls nd g go msg :
  fresh_includers incl -> runs_to signer hasher decoder incl ls nd ->
  n_gos nd !! g = Some go -> g_task go = Produce msg -> g_rest go = Ret (inr (Ok tt)) ->
  exists id n s, msgID msg = Some id /\ n_rounds nd !! n = Some s /\
    roundNum (s_round s) = Round id /\
    (NoDup (producers (q_heap (quorum (s_round s)))) ->
     exists bs, NoDup bs /\ 2 * total (includers incl) < 3 * sumZ (stake_of (includers incl)) bs /\
       forall b, b ∈ bs -> is_member (includers incl) b /\
         exists cert, has_certificate nd (Round id) cert /\ producer cert = Some b /\
           2 * total (includers incl) < 3 * sumZ (stake_of (includers incl)) (signers cert)).
Proof.
  intros Hf Hr Hg Et Eg.
  destruct (finished_broadcast hasher decoder incl signer ls nd g go msg Hf Hr Hg Et Eg)
    as (id & n & s & Hid & _ & Hs & En & Hfin).
  destruct (node_genuine hasher decoder incl signer ls nd n s Hf Hr Hs) as (num & _ & Hgen).
  exists id, n, s. split_and!; [done..|]. intros Hnd.
  exists (producers (q_heap (quorum (s_round s)))). split; [done|]. split.
  - rewrite <- producers_stake. by eapply final_supermajority.
  - intros b (cert & Hcert & Hp)%list_elem_of_omap.
    apply list_elem_of_filter in Hcert as [Hcomp Hcert].
    apply list_elem_of_lookup in Hcert as [c Hc].
    assert (has_certificate nd (Round id) cert) as Hhas by (by exists n, s, c).
    destruct (node_certificate hasher decoder incl _ signer ls nd _ cert Hf (labels_arrived ls) Hr Hhas)
      as (Hw & _).
    split.
    + destruct (wc_producer _ _ Hw) as (b' & Hp' & Hm). congruence.
    + exists cert. split_and!; [done..|]. apply wf_cert_supermajority; [apply Hf|done..].
Qed.
End producers.

(** ** One key for batches and identifiers *)

Section domains.
Context {ED : Ed25519} {EL : Ed25519Laws}.
Abbreviation Signer := (local.Signer ed25519.PrivateKey ed25519.PublicKey).

(** The signature [Push] puts on a batch is one over the bare data, so it
    verifies at every node as a signature over the identifier whose encoding
    the data is: who can make a node push a batch of its choice gets that
    node's signature over a message that the node never certified. *)
Theorem batch_signature_signs_identifier seed pubK privK (s s' : Signer) canonicalID key batch :
  length seed = 32%nat -> ed25519.GenKeys (Some seed) = Ok (pubK, privK) ->
  local.NewSigner privK = Ok s ->
  Multicast.signed s (MkBatch canonicalID (MkSignature None key)) = Ok batch ->
  Verify s' (sl canonicalID) (BatchSignature batch) = Ok tt /\
  sl (Crypto.Signer (BatchSignature batch)) = sl (Bytes pubK).
Proof.
  intros Hl Hg Hn Hs. unfold Multicast.signed in Hs. simpl in Hs.
  apply res_bind_Ok in Hs as (sig & Hsign & [= <-]). simpl.
  split.
  - exact (sign_verify seed pubK privK s s' _ sig sig Hl Hg Hn Hsign eq_refl eq_refl).
  - exact (signed_key seed pubK privK s _ sig Hl Hg Hn Hsign).
Qed.
End domains.

(** ** An equivocating producer *)

Module Executions.
Import QuorumProps.Sample GossipProps.Executions SystemProps.Executions.

(** Member 1's block of round 7 with the parent hash [v], for several [v]. *)
Definition variant_data (v : byte) : bytes :=
  ok_or [] (Block_MarshalBinary (CP:=ToyCapnp.toy)
              (NewBlock 7 (Bytes (ToyEd25519.key_of x01)) [] [Some [v]])).
Definition variant_id (v : byte) : blockID :=
  MkBlockID 7 (Bytes (ToyEd25519.key_of x01)) (Some (sha256 (variant_data v))).
Definition variant (v : byte) : Message blockID := MkMessage (Some (variant_id v)) (Some (variant_data v)).
Definition variant_gossip (v : byte) : bytes := ok_or [] (encoded (data_gossip (variant v))).
Definition variant_encoding (v : byte) : bytes :=
  ok_or [] (mid_MarshalBinary (MessageID:=@blockID_MessageID ToyCapnp.toy) (variant_id v)).
Definition variant_signature (v b : byte) : Signature :=
  ok_or (MkSignature None None) (Sign (node_of b) (variant_encoding v)).
Definition variant_signature_gossip (v b : byte) : bytes :=
  ok_or [] (encoded (signature_gossip (Some (variant_encoding v)) (variant_signature v b))).

(** The variant arrives, and the signatures of members 1, 2 and 3. *)
Definition certified_variant (g : nat) (v : byte) : list label :=
  receive g (variant_gossip v) ++
  receive_signature (g + 1) (variant_signature_gossip v x01) ++
  receive_signature (g + 2) (variant_signature_gossip v x02) ++
  receive_signature (g + 3) (variant_signature_gossip v x03).

Definition equivocation : list label :=
  opened x02 ++ certified_variant 1 x01 ++ certified_variant 11 x02 ++ certified_variant 21 x03 ++
  [NCall 0 100; NRound 0 (LFinal 100); NReturn 0; NEnv 0 VOk].

Definition variant_cert (v : byte) : certificate blockID :=
  MkCertificate (variant v) (map (variant_signature v) [x01; x02; x03]) 3 true.

Definition round_certificates (nd : Node) : list (certificate blockID) :=
  match n_rounds nd with s :: _ => q_heap (quorum (s_round s)) | [] => [] end.

(** What the node published, by the goroutine that did. *)
Definition published_at (nd : Node) (g : nat) : list bytes :=
  match n_gos nd !! g with Some go => gossips go | None => [] end.

(** C11: In an execution of node 2 among four members of equal stake, a producer
    sends three different blocks of a round and gets all three certified: the
    node signs each of them, and then finishes the round, although the only
    producer of certified blocks has a quarter of the stake. *)
Theorem equivocating_producer_finishes_round :
  exists nd, running x02 equivocation nd /\
    broadcast_done nd = Some (Some (message_by x02 x02), true) /\
    round_certificates nd = map variant_cert [x01; x02; x03] /\
    NoDup (map (fun v => hash (variant_id v)) [x01; x02; x03]) /\
    map (published_at nd) [1; 11; 21]%nat =
      map (fun v => [variant_signature_gossip v x02]) [x01; x02; x03] /\
    producers (round_certificates nd) = replicate 3 (repeat x01 32) /\
    4 * stake_of (includers four) (repeat x01 32) = total (includers four).
Proof.
  destruct (run_observed
    (fun nd => (broadcast_done nd, round_certificates nd, map (published_at nd) [1; 11; 21]%nat))
    x02 equivocation
    (Some (Some (message_by x02 x02), true), map variant_cert [x01; x02; x03],
     map (fun v => [variant_signature_gossip v x02]) [x01; x02; x03]))
    as (nd & Hr & H); [vm_compute; reflexivity|].
  pose proof (f_equal (fun x => x.1.1) H) as Hd. pose proof (f_equal (fun x => x.1.2) H) as Hc.
  pose proof (f_equal snd H) as Hp. cbn [fst snd] in Hd, Hc, Hp.
  exists nd. split; [exact Hr|]. split; [exact Hd|]. split; [exact Hc|].
  split; [apply (bool_decide_unpack _); vm_compute; exact Logic.I|]. split; [exact Hp|].
  split; [rewrite Hc; vm_compute; reflexivity|vm_compute; reflexivity].
Qed.

Lemma batch_signature_signs_identifier_witness :
  exists batch, Multicast.signed (node_of x01) (MkBatch (Some (variant_encoding x01)) (MkSignature None None)) = Ok batch /\
    Verify (node_of x02) (variant_encoding x01) (BatchSignature batch) = Ok tt.
Proof.
  eexists. split; [reflexivity|].
  exact (proj1 (batch_signature_signs_identifier (ToyEd25519.seed_of x01) (ToyEd25519.key_of x01)
    (ToyEd25519.priv_of x01) (node_of x01) (node_of x02) (Some (variant_encoding x01)) None _
    eq_refl eq_refl eq_refl eq_refl)).
Defined.

Lemma round_has_supermajority_of_producers_witness :
  exists nd id n s, running x02 final_round nd /\ n_rounds nd !! n = Some s /\
    roundNum (s_round s) = Round id /\
    (NoDup (producers (q_heap (quorum (s_round s)))) ->
     exists bs, NoDup bs /\ 2 * total (includers four) < 3 * sumZ (stake_of (includers four)) bs).
Proof.
  destruct final_round_run as (nd & Hr & Hd). apply broadcast_done_spec in Hd as (go & Hg & Ht & He).
  destruct (round_has_supermajority_of_producers (CP:=ToyCapnp.toy) NewHasher
      (decode_id (CP:=ToyCapnp.toy)) four (node_of x02) final_round nd 0 go (message_by x02 x02))
    as (id & n & s & Hid & Hs & En & H); [exact four_fresh|exact Hr|exact Hg|exact Ht|exact He|].
  exists nd, id, n, s. split; [exact Hr|]. split; [exact Hs|]. split; [exact En|].
  intros Hnd. destruct (H Hnd) as (bs & Hbs & Hst & _). exists bs. split; [exact Hbs|exact Hst].
Defined.
End Executions.
