(* ===== verification/Deployment.v ===== *)
(** A deployment: every node computes its includer set from its connections
    ([Bootstrap.v]), and the nodes run the network ([Availability.v]) over
    these sets. *)

From S2P Require Import Prelude Prog Sha256 Crypto CryptoInstance Capnp CapnpInstance Rebro Bapl Block Includers Quorum Bootstrap Dag GossipProps System SystemProps Network Availability.
From Stdlib Require Import Sorting.Sorted.

Section deployment.
Context {ED : Ed25519} {MO : MapOrder} {CP : Capnp} {CL : CapnpLaws} {S : Type} {SI : SignerI S}.

(** The keys of all members, and the honest ones' signers.  Each honest node has
    its own peerstore, lists its peers in its own order, and computes its set
    from its key and its peers'. *)
Context (keys : list bytes) (honest : list S).
Context {P W : Type} (store : nat -> P -> option W) (Raw : W -> res bytes).
Context (self : nat -> ed25519.PublicKey) (peers : nat -> list P).

(** The node is connected to all other members. *)
Definition joined (i : nat) (signer : S) : Prop :=
  NewService_key (identity signer) = Ok (self i) /\
  exists ks, Forall2 (knows (store i) Raw) (peers i) ks /\ identity signer :: ks ≡ₚ keys.

Definition includers_of (i : nat) : res (Includers ed25519.PublicKey) :=
  GetMembers (store i) Raw (self i) (peers i).

Context (distinct : NoDup keys) (sized : forall k, k ∈ keys -> length k = 32%nat).
Context (bounded : defaultStake * Z.of_nat (length keys) <= MaxStake).
Context (all_joined : forall i signer, honest !! i = Some signer -> joined i signer).

(** All honest nodes compute the same set: of the members, with equal stakes. *)
Lemma common_set : exists incl, fresh_includers incl /\
  (forall i signer, honest !! i = Some signer -> includers_of i = Ok incl) /\
  total (includers incl) = defaultStake * Z.of_nat (length keys) /\
  forall k, k ∈ keys -> stake_of (includers incl) k = defaultStake.
Proof using distinct sized bounded all_joined.
  destruct (sort_less_sorted (map entry_of keys) []) as (l & _ & Hp & Hs);
    [constructor|apply entries_valid|constructor|]. cbn [app] in Hp.
  assert (valid l) as Hv by (unfold valid; rewrite Hp; apply entries_valid).
  assert (total l = defaultStake * Z.of_nat (length keys)) as Ht.
  { rewrite <- entries_total. unfold total. by apply sumZ_perm. }
  exists (MkIncluders l 0). split_and!; [split_and!; [done|cbn [includers]; rewrite Ht; exact bounded|done]| |done|].
  - intros i signer Hi. destruct (all_joined i signer Hi) as (Hself & ks & Hks & Hperm).
    unfold includers_of.
    destruct (GetMembers_set (store i) Raw _ _ _ _ Hself Hks) as (l' & -> & Hp' & Hs').
    do 2 f_equal. apply sorted_unique; [|rewrite Hp'|done..].
    + rewrite Hp, Hp'. by apply fmap_Permutation.
    + rewrite entry_keys. by rewrite Hperm.
  - intros k Hk. apply (entries_stake l keys); auto.
Qed.

(** Members hold a stake each. *)
Lemma members_stake incl bs :
  (forall k, k ∈ keys -> stake_of (includers incl) k = defaultStake) -> (forall b, b ∈ bs -> b ∈ keys) ->
  sumZ (stake_of (includers incl)) bs = defaultStake * Z.of_nat (length bs).
Proof.
  intros Hst. induction bs as [|b bs IH]; intros Hb; [done|].
  rewrite sumZ_cons, IH by set_solver. rewrite Hst by set_solver. cbn [length]. lia.
Qed.

(** C5: Nodes that are all connected and started from distinct keys agree on the
    includer set; and when at most a third of the members are not honest,
    whatever block completes a certificate at any honest node is available at
    more than a third of the members, all honest: each has the block and got
    its batches from its pool, except batches reported deleted. *)
Theorem deployed_network_makes_blocks_available :
  exists incl, fresh_includers incl /\
    (forall i signer, honest !! i = Some signer -> includers_of i = Ok incl) /\
    forall ls (net : list (full (K:=ed25519.PublicKey))) num cert,
      net_runs (NM:=blocks_machine incl) honest ls net -> readable (NM:=blocks_machine incl) net ->
      NoDup (honest_keys honest) -> 3 * (Z.of_nat (length keys) - Z.of_nat (length honest)) <= Z.of_nat (length keys) ->
      net_certificate (NM:=blocks_machine incl) net num cert -> cert_completed cert = true ->
      exists bs, NoDup bs /\ Z.of_nat (length keys) < 3 * Z.of_nat (length bs) /\
        forall b, b ∈ bs -> b ∈ keys /\
          available_at honest net b (sha256 (sl (msgData (cert_msg cert)))).
Proof using CL distinct sized bounded all_joined.
  destruct common_set as (incl & Hf & Hset & Ht & Hst). exists incl. split; [done|]. split; [done|].
  intros ls net num cert Hr Hread Hnd Hfaulty Hc Hcomp.
  destruct (honest_signers_available incl Hf honest ls net num cert Hr Hread Hc) as [Hw Hav].
  assert (forall b, b ∈ honest_keys honest -> b ∈ keys) as Hkeys.
  { intros b (signer & -> & (i & Hi)%list_elem_of_lookup)%list_elem_of_fmap.
    destruct (all_joined i signer Hi) as (_ & ks & _ & <-). by left. }
  set (bs := filter (fun b => b ∈ honest_keys honest) (signers cert)).
  assert (forall b, b ∈ bs -> b ∈ keys) as Hbs
    by (intros b [Hh _]%list_elem_of_filter; by apply Hkeys).
  exists bs. split_and!; [apply NoDup_filter, Hw| |].
  - pose proof (honest_signers incl honest Hf cert Hnd) as H. unfold faulty_stake in H.
    rewrite (members_stake incl (honest_keys honest) Hst Hkeys), Ht in H.
    change (filter _ (signers cert)) with bs in H. rewrite (members_stake incl bs Hst Hbs) in H. unfold honest_keys in H. rewrite length_map in H.
    unfold defaultStake in H. specialize (H ltac:(lia) Hw Hcomp). lia.
  - intros b Hb. split; [by apply Hbs|]. apply list_elem_of_filter in Hb as [Hh Hb]. by apply Hav.
Qed.
End deployment.

(** ** A deployment

    Members 1 to 4; nodes 1, 2 and 3 are honest. *)
Module Executions.
Import GossipProps.Executions Bootstrap.Executions Availability.Executions.
#[local] Existing Instance ToyCapnp.toy.
#[local] Existing Instance ToyCapnp.toy_laws.
#[local] Existing Instance sorted_order.

Definition all_keys : list bytes := map key [x01; x02; x03; x04].
Definition self_of (i : nat) : ed25519.PublicKey := self (nth i [x01; x02; x03] x04).
Definition peers_of (i : nat) : list byte :=
  match i with
  | 0%nat => [x04; x02; x03]
  | 1%nat => [x01; x03; x04]
  | _ => [x02; x04; x01]
  end.

Lemma nodes_joined i signer :
  members !! i = Some signer -> joined all_keys (fun _ => Bootstrap.Executions.store) raw self_of peers_of i signer.
Proof.
  intros Hi. destruct i as [|[|[|i]]]; try discriminate Hi; injection Hi as <-; (split; [reflexivity|]).
  - exists (map key [x04; x02; x03]). split; [repeat constructor; apply knows_key|].
    apply (bool_decide_unpack _). vm_compute. exact Logic.I.
  - exists (map key [x01; x03; x04]). split; [repeat constructor; apply knows_key|].
    apply (bool_decide_unpack _). vm_compute. exact Logic.I.
  - exists (map key [x02; x04; x01]). split; [repeat constructor; apply knows_key|].
    apply (bool_decide_unpack _). vm_compute. exact Logic.I.
Qed.

Lemma deployed_network_makes_blocks_available_witness :
  exists incl, fresh_includers incl /\
    forall i signer, members !! i = Some signer ->
      includers_of (fun _ => Bootstrap.Executions.store) raw self_of peers_of i = Ok incl.
Proof.
  destruct (deployed_network_makes_blocks_available (CP:=ToyCapnp.toy) all_keys members
    (fun _ => Bootstrap.Executions.store) raw self_of peers_of) as (incl & Hf & Hset & _).
  - apply (bool_decide_unpack _). vm_compute. exact Logic.I.
  - intros k (b & -> & _)%list_elem_of_fmap. apply repeat_length.
  - vm_compute. discriminate.
  - exact nodes_joined.
  - exists incl. split; [exact Hf|exact Hset].
Defined.
End Executions.
