(* ===== verification/DagSystem.v ===== *)
(** The chain on top of the broadcasting layer: the block that follows a
    successful round ([Dag.v]) has that round's certified blocks as parents
    ([System.v]), and they carry a supermajority. *)

From S2P Require Import Prelude Prog Sha256 Crypto CryptoInstance Capnp CapnpInstance Rebro Bapl Block Includers Quorum QuorumProps Round RoundConc RoundInv RoundQuorum Provenance Gossip System SystemInv Dag GossipProps SystemProps DagProps.

(** ** What [List] returns of a quorum that deleted nothing *)

Section listed.
Context {I K : Type} {MI : MessageID I} {PK : Crypto.PubKey K} {PL : PubKeyLaws K} {MO : MapOrder}.
Implicit Type q : Quorum I K.

(** The messages of [qrm.List()]. *)
Definition certified_messages q : list (Message I) :=
  map (fun c => Cert_Message c q) (List q).

(** The stake of the member that a message names as its producer. *)
Definition message_stake (incl : Includers K) (m : Message I) : Z :=
  match msgID m with Some id => stake_of (includers incl) (sl (mid_Signer id)) | None => 0 end.

(** Every certificate is still bound. *)
Definition held q : Prop :=
  forall c cert, q_heap q !! c = Some cert -> exists k, q_certificates q !! k = Some c.

Definition is_completed q (c : nat) : Prop := cert_completed <$> q_heap q !! c = Some true.

#[export] Instance is_completed_dec q c : Decision (is_completed q c).
Proof. unfold is_completed. apply _. Defined.

Lemma listed_positions incl q :
  fresh_includers incl -> reachable incl q -> held q ->
  Quorum_List q ≡ₚ filter (is_completed q) (seq 0 (length (q_heap q))).
Proof.
  intros Hf Hr Hh. destruct (List_completed incl q Hf Hr) as [Hnd Hin].
  apply NoDup_Permutation; [done|apply NoDup_filter, NoDup_seq|].
  intros c. rewrite Hin, list_elem_of_filter, elem_of_seq. unfold is_completed. split.
  - intros (k & cert & _ & Hc & Hcomp). rewrite Hc. simpl. split; [by f_equal|].
    apply lookup_lt_Some in Hc. lia.
  - intros [Hcomp _]. destruct (q_heap q !! c) as [cert|] eqn:Hc; [|done].
    destruct (Hh c cert Hc) as [k Hk]. exists k, cert. split_and!; [done..|]. by injection Hcomp.
Qed.

(** Their producers have the stake that [Finalize] counts. *)
Lemma listed_stake incl q :
  fresh_includers incl -> reachable incl q -> held q ->
  sumZ (message_stake incl) (certified_messages q) =
  sumZ (producer_stake (includers incl)) (completed (q_heap q)).
Proof.
  intros Hf Hr Hh. unfold certified_messages. rewrite sumZ_map.
  change (List q) with (Quorum_List q). rewrite (sumZ_perm _ _ _ (listed_positions incl q Hf Hr Hh)).
  unfold completed. rewrite !sumZ_filter_if. rewrite (sumZ_positions _ (q_heap q)).
  apply sumZ_ext. intros c _. unfold Cert_Message, Quorum_QuorumCertificate, certificate_Message,
    message_stake, producer_stake, producer.
  destruct (decide (is_completed q c)) as [Hc|Hc]; unfold is_completed in Hc;
    (destruct (q_heap q !! c) as [cert|]; simpl in *; [|done]); case_decide as Hd; try done.
  - by destruct (msgID (cert_msg cert)).
  - exfalso. apply Hd. by injection Hc.
  - exfalso. apply Hc. by f_equal.
Qed.
End listed.

(** ** Rounds that deleted no certificate *)

Section held.
Context {I K : Type} {MI : MessageID I} {PK : Crypto.PubKey K} {PL : PubKeyLaws K} {MO : MapOrder}.
Abbreviation Q := (Quorum I K).
Context (incl : Includers K) (fresh : fresh_includers incl).
Context (msg_ok : I -> Message I -> Prop) (sig_ok : I -> Signature -> Prop).

(** No operation of the round is a deletion: the certifier rejected no message
    that the node added to it. *)
Definition never_deleted (s : sys I (Certificate (I:=I) (Q:=Q)) Q) : bool :=
  forallb (fun so => match op_kind so with deleteOp => false | _ => true end) (r_ops (s_round s)).

Definition keeps (rq : request I) : Prop :=
  match rq with RoundConc.DeleteCertificate _ => False | _ => True end.

Lemma held_add (q : Q) msg : held q -> held (Quorum_Add msg q).1.
Proof.
  intros Hh. destruct (Quorum_Add msg q) as [q' r] eqn:E.
  apply Quorum_Add_inv in E as [[_ ->]|(id & i & _ & _ & _ & Hnew & ->)]; [done|]. simpl.
  intros c cert [Hc|[Hge Hc]]%lookup_app_Some; cbn [q_certificates].
  - destruct (Hh c cert Hc) as [k Hk]. exists k. rewrite lookup_insert_ne; [done|congruence].
  - apply list_lookup_singleton_Some in Hc as [Hc _]. exists (mid_String id).
    rewrite lookup_insert_eq. f_equal. lia.
Qed.

Lemma held_sign (q : Q) id sig c : genuine incl msg_ok sig_ok q -> Quorum_Get id q = Some c ->
  held q -> held (certificate_AddSignature c sig q).1.
Proof.
  intros Hg Hc Hh. pose proof (addSignature_certificates sig c) as Hframe.
  destruct (signed_certificate incl fresh _ _ q id sig c Hg Hc)
    as (cert & idc & q' & r & Hcert & _ & _ & E & Hres).
  unfold certificate_AddSignature in *. rewrite E. specialize (Hframe _ _ _ E). unfold same_on in Hframe.
  intros c0 cert0 H0. simpl in H0 |- *. rewrite Hframe.
  destruct Hres as [| |i cert' _ _ _ _ ->]; [by eapply Hh..|].
  simpl in H0. apply list_lookup_insert_Some in H0 as [(<- & _ & _)|[_ H0]]; by eapply Hh.
Qed.

Lemma held_invariant :
  quorum_invariant (fun rq => sound msg_ok sig_ok rq /\ keeps rq)
    (fun q => genuine incl msg_ok sig_ok q /\ held q) (final incl).
Proof.
  pose proof (genuine_invariant incl fresh msg_ok sig_ok) as QI. split.
  - intros rq so q q' [HV Hk] Hop [Hg Hh] Hm. split; [by eapply (qi_move _ _ _ QI)|].
    destruct Hm as [msg Ho Hmsg|id Ho Hid|id sig c Ho Hid Hsig Hc|Ho]; destruct rq; simplify_eq/=; try done.
    + by apply held_add.
    + by eapply held_sign.
    + destruct (genuine_wf incl fresh _ _ q Hg) as [Hw _]. by destruct (Finalize_spec q Hw) as (i & -> & _ & _).
  - intros q q' [Hg _]. by eapply (qi_final _ _ _ QI).
  - intros rq so q q' [HV _] Hop [Hg _]. by eapply (qi_stays _ _ _ QI).
Qed.

Lemma execution_held num s :
  execution (sound msg_ok sig_ok) num (NewQuorum incl) s -> never_deleted s = true ->
  held (quorum (s_round s)).
Proof.
  intros He Hd. assert (execution (fun rq => sound msg_ok sig_ok rq /\ keeps rq) num (NewQuorum incl) s) as He'.
  { eapply execution_restrict; [| |exact He].
    - intros rq HV Hop. split; [done|]. by destruct rq.
    - intros rq so HV Hop Hin. split; [done|]. destruct rq; try done. injection Hop as <-.
      apply list_elem_of_fmap in Hin as (so & Hreq & Hso). unfold never_deleted in Hd.
      rewrite forallb_forall in Hd. apply list_elem_of_In in Hso. specialize (Hd so Hso).
      unfold req in Hreq. injection Hreq as Hk _ _ _.
      assert (op_kind so = deleteOp) as E by exact (eq_sym Hk). by rewrite E in Hd. }
  apply (execution_inv _ _ _ held_invariant) in He'; [by apply (ei_quorum _ _ _ _ _ He')|].
  split; [apply genuine_new|by intros c cert].
Qed.
End held.

(** ** The next block *)

Section chain.
Context {K S HT : Type} {PK : Crypto.PubKey K} {PL : PubKeyLaws K} {MO : MapOrder} {CP : Capnp}
  {SI : SignerI S} {HI : HasherI blockID HT}.
Context (hasher : HT) (decoder : slice -> res blockID) (incl : Includers K).
Abbreviation Q := (Quorum blockID K).

(** A completed certificate of a round [num] of the node, whose identifier has
    the hash [p], signed by members with more than two thirds of the stake. *)
Definition certifies (arrived : bytes -> Prop) (signer : S) (nd : node (I:=blockID) (K:=K)) (num : Z) (p : slice) : Prop :=
  exists cert id, has_certificate nd num cert /\ cert_completed cert = true /\
    checked_message hasher num cert id /\ p = hash id /\ NoDup (signers cert) /\
    (forall b, b ∈ signers cert -> signed_by decoder arrived signer num cert id b) /\
    2 * total (includers incl) < 3 * sumZ (stake_of (includers incl)) (signers cert).

Lemma listed_certifies signer ls nd n (s : sys blockID (Certificate (I:=blockID) (Q:=Q)) Q) :
  fresh_includers incl -> runs_to signer hasher decoder incl ls nd -> n_rounds nd !! n = Some s ->
  Forall (certifies (arrived_in ls) signer nd (roundNum (s_round s)))
    (parents_of (certified_messages (quorum (s_round s)))).
Proof.
  intros Hf Hr Hs. set (q := quorum (s_round s)).
  destruct (node_genuine hasher decoder incl signer ls nd n s Hf Hr Hs) as (num & _ & [Hre _]).
  destruct (List_completed incl q Hf Hre) as [_ Hin].
  apply Forall_forall. intros p (m & -> & (c & -> & Hc)%list_elem_of_fmap)%list_elem_of_fmap.
  apply Hin in Hc as (k & cert & _ & Hcert & Hcomp).
  assert (has_certificate nd (roundNum (s_round s)) cert) as Hhas by (by exists n, s, c).
  destruct (node_certificate hasher decoder incl _ signer ls nd _ cert Hf (labels_arrived ls) Hr Hhas)
    as (Hw & id & Hid & Hsig).
  exists cert, id. split_and!; [done..| |apply Hw|done|apply wf_cert_supermajority; [apply Hf|done..]].
  unfold Cert_Message, Quorum_QuorumCertificate, certificate_Message. fold q. rewrite Hcert. simpl.
  by destruct Hid as [-> _].
Qed.

(** C9: The DAG grows on a supermajority: when the node's [Broadcast] of a
    round succeeded and the chain goes on with that round's certificates, the
    parents of the block it broadcasts next are hashes of blocks that were each
    checked, and certified by members with more than two thirds of the stake;
    and if the certifier rejected none of the round's messages, the producers
    these blocks name have more than two thirds of the stake. *)
Theorem next_block_builds_on_supermajority signer ls nd g go msg0 num n s signerID c tr r msg incl' x :
  fresh_includers incl -> runs_to signer hasher decoder incl ls nd ->
  n_gos nd !! g = Some go -> g_task go = Produce msg0 -> g_rest go = Ret (inr (Ok tt)) ->
  (num, n) ∈ omap got_round (g_trace go) -> n_rounds nd !! n = Some s ->
  lastCerts c = certified_messages (quorum (s_round s)) ->
  runs (startRound signerID c) tr r -> (msg, incl', x) ∈ omap broadcast_of tr ->
  exists data batches parents,
    msg = MkMessage (Some (MkBlockID (height c) (Bytes signerID) (Some (sha256 data)))) (Some data) /\
    Block_MarshalBinary (MkBlock (msgID msg) (map Batch_Hash batches) parents) = Ok data /\
    parents = parents_of (lastCerts c) /\ Forall (certifies (arrived_in ls) signer nd num) parents /\
    (never_deleted s = true ->
     2 * total (includers incl) < 3 * sumZ (message_stake incl) (lastCerts c)).
Proof.
  intros Hf Hr Hg Et Eg Hgot Hs Hlast Hrun Hb.
  destruct (finished_broadcast hasher decoder incl signer ls nd g go msg0 Hf Hr Hg Et Eg)
    as (id & n' & s' & _ & Hgot' & Hs' & En & Hfin).
  rewrite Hgot' in Hgot. apply list_elem_of_singleton in Hgot as [= Hnum ->].
  assert (s' = s) as -> by congruence.
  assert (num = roundNum (s_round s)) as -> by (rewrite Hnum; exact (eq_sym En)).
  apply runs_startRound in Hrun as
    [[Hnone _]|(tr1 & batches & incl1 & msg1 & x1 & tr2 & -> & (data & Hmsg & Hmar) & [B1 _]%deleting_quiet & _ & Hend)];
    [rewrite Hnone in Hb; by apply elem_of_nil in Hb|].
  assert (omap broadcast_of tr2 = []) as B2 by (by destruct Hend as [(-> & _)|(y & _ & -> & _)]).
  rewrite omap_app, B1 in Hb. cbn [omap list_omap app broadcast_of] in Hb. rewrite B2 in Hb.
  apply list_elem_of_singleton in Hb as [= -> -> ->].
  exists data, batches, (parents_of (lastCerts c)).
  split; [exact Hmsg|]. split; [exact Hmar|]. split; [done|]. split.
  - rewrite Hlast. by eapply listed_certifies.
  - intros Hd. rewrite Hlast.
    destruct (node_genuine hasher decoder incl signer ls nd n' s Hf Hr Hs) as (num' & Hround & Hgen).
    rewrite (listed_stake incl _ Hf (proj1 Hgen)); [by eapply final_supermajority|].
    exact (execution_held incl Hf _ _ num' s Hround Hd).
Qed.
End chain.

(** ** An execution

    Node 2 finishes round 7 with the certified blocks of three members and
    broadcasts its block of round 8. *)
Module Executions.
Import QuorumProps.Sample GossipProps.Executions SystemProps.Executions.

Definition first_state (nd : Node) :=
  match n_rounds nd with s :: _ => Some s | [] => None end.

(** The certified messages of round 7, as the map is visited. *)
Definition final_messages : list (Message blockID) :=
  [message_by x03 x03; message_by x02 x02; message_by x01 x01].

Definition next_round :=
  record (DagProps.Executions.broadcasting (Ok tt) [])
    (startRound (CP:=ToyCapnp.toy) (ToyEd25519.key_of x02) (MkChain 8 final_messages)) 7.

Lemma next_round_runs :
  runs (startRound (CP:=ToyCapnp.toy) (ToyEd25519.key_of x02) (MkChain 8 final_messages))
    next_round.1 next_round.2.
Proof. exact (record_runs (DagProps.Executions.broadcasting (Ok tt) []) _ 7). Qed.

Definition next_message : Message blockID :=
  match omap broadcast_of next_round.1 with (msg, _, _) :: _ => msg | [] => MkMessage None None end.

Lemma next_message_broadcast :
  (next_message, DagProps.Executions.set_of_one, Ok tt) ∈ omap broadcast_of next_round.1.
Proof.
  assert (omap broadcast_of next_round.1 = [(next_message, DagProps.Executions.set_of_one, Ok tt)]) as ->
    by (vm_compute; reflexivity).
  apply list_elem_of_here.
Qed.

(** What the theorem needs of the final state. *)
Definition gots (nd : Node) : list (Z * nat) :=
  match n_gos nd !! 0%nat with Some go => omap got_round (g_trace go) | None => [] end.

Definition round_facts (nd : Node) : option (bool * list (Message blockID)) :=
  (fun s => (never_deleted s, certified_messages (quorum (s_round s)))) <$> first_state nd.

Lemma final_round_observed : exists nd, running x02 final_round nd /\
  (broadcast_done nd, gots nd, round_facts nd) =
  (Some (Some (message_by x02 x02), true), [(7, 0%nat)], Some (true, final_messages)).
Proof. apply run_observed. vm_compute. reflexivity. Qed.

Lemma round_facts_spec nd b ms : round_facts nd = Some (b, ms) ->
  exists s, n_rounds nd !! 0%nat = Some s /\ never_deleted s = b /\
    ms = certified_messages (quorum (s_round s)).
Proof.
  unfold round_facts, first_state. destruct (n_rounds nd) as [|s l]; [done|].
  intros [= <- <-]. by exists s.
Qed.

Lemma gots_spec nd go l : n_gos nd !! 0%nat = Some go -> gots nd = l -> omap got_round (g_trace go) = l.
Proof. unfold gots. by intros ->. Qed.

Lemma next_block_builds_on_supermajority_witness :
  exists nd, running x02 final_round nd /\ exists data batches parents,
    next_message = MkMessage (Some (MkBlockID 8 (Bytes (ToyEd25519.key_of x02)) (Some (sha256 data)))) (Some data) /\
    Block_MarshalBinary (CP:=ToyCapnp.toy) (MkBlock (msgID next_message) (map Batch_Hash batches) parents)
      = Ok data /\
    length parents = 3%nat /\
    Forall (certifies NewHasher (decode_id (CP:=ToyCapnp.toy)) four (arrived_in final_round) (node_of x02) nd 7) parents /\
    2 * total (includers four) < 3 * sumZ (message_stake four) final_messages.
Proof.
  destruct final_round_observed as (nd & Hr & [= Hd Hgots Hfacts]).
  apply broadcast_done_spec in Hd as (go & Hg & Ht & He).
  apply round_facts_spec in Hfacts as (s & Hs & Hnd & Hms).
  pose proof (gots_spec nd go _ Hg Hgots) as Hgot.
  destruct (next_block_builds_on_supermajority (CP:=ToyCapnp.toy) NewHasher
      (decode_id (CP:=ToyCapnp.toy)) four (node_of x02) final_round nd 0 go (message_by x02 x02) 7 0 s
      (ToyEd25519.key_of x02) (MkChain 8 final_messages) next_round.1 next_round.2 next_message
      DagProps.Executions.set_of_one (Ok tt))
    as (data & batches & parents & E & Hmar & Hp & Hcert & Hstake);
    [exact four_fresh|exact Hr|exact Hg|exact Ht|exact He|rewrite Hgot; apply list_elem_of_here|exact Hs
    |exact Hms|exact next_round_runs|exact next_message_broadcast|].
  exists nd. split; [exact Hr|]. exists data, batches, parents.
  split; [exact E|]. split; [exact Hmar|]. split; [rewrite Hp; vm_compute; reflexivity|].
  split; [exact Hcert|exact (Hstake Hnd)].
Defined.
End Executions.
