(* ===== verification/ChainNode.v ===== *)
(** A node with its chain: the chain ([Dag.v]) runs as a goroutine of its own.  The
    batches it deletes and lists are those of the node's pool, its [Broadcast]
    is a goroutine of the broadcasting layer over a fresh quorum, and
    [qrm.List()] reads the quorum of the round that goroutine started.  The
    rest of the node is that of [Availability.v].  In the network: on what the
    blocks of an honest member build. *)

From S2P Require Import Prelude Prog Sha256 Crypto CryptoInstance Capnp CapnpInstance Rebro Bapl Subs MemPool Block Includers Quorum QuorumProps Round RoundConc RoundInv RoundQuorum Provenance Gossip System SystemInv Dag GossipProps SystemProps DagProps Network Availability DagSystem.

Section chained.
Context {K S : Type} {PK : Crypto.PubKey K} {PL : PubKeyLaws K} {MO : MapOrder} {CP : Capnp}
  {CL : CapnpLaws} {SI : SignerI S}.
Context (incl : Includers K) (self : S -> K).

Abbreviation full := (full (K:=K)).
Abbreviation node := (System.node (I:=blockID) (K:=K)).
Abbreviation goroutine := (System.goroutine (I:=blockID) (K:=K)).
Abbreviation F := (chainE K).
Implicit Types (f : full) (nd : node) (go : goroutine).

#[local] Instance inner_machine : NodeMachine (S:=S) full full_label :=
  full_machine (S:=S) NewHasher decode_id incl.

(** ** The state *)

(** The chain's goroutine.  [h_busy]: the goroutine of the pool or of the layer
    that serves its pending request.  [h_round]: the one of its last
    [Broadcast], whose round owns the quorum [qrm]. *)
Record chain_go := MkChainGo {
  h_trace : list (occ F);
  h_rest : prog F (res (Chain * bool));
  h_busy : option nat;
  h_round : option nat;
}.
Implicit Type h : chain_go.

Record chained := MkChained { c_full : full; c_chain : option chain_go }.
Implicit Type cd : chained.

(** ** Steps *)

Inductive chained_label :=
| KFull (l : full_label)           (* the rest of the node *)
| KStart (n : nat)                 (* [Chain.Start], with fuel for [n] iterations *)
| KAnswer (ctx : option error)     (* a request that is answered at once; [ctx] is [ctx.Err()] *)
| KCall (t : nat)                  (* a request that the goroutine [t] serves: it starts *)
| KReturn.                         (* and returns *)

(** Only the chain broadcasts blocks. *)
Definition foreign (l : full_label) : bool :=
  match l with FNode (NSpawn _ (Produce _)) => false | _ => true end.

(** The quorum of the round that a [Broadcast] started. *)
Definition broadcast_quorum nd (g : nat) : option (Quorum blockID K) :=
  go ← n_gos nd !! g;
  '(_, n) ← head (omap got_round (g_trace go));
  s ← n_rounds nd !! n;
  Some (quorum (s_round s)).

(** Requests answered at once: the step they are, and the answer. *)
Definition at_once f h (ctx : option error) {X} (e : F X) : option (option full_label * X) :=
  match e in chainE _ X return option (option full_label * X) with
  | CtxErr => Some (None, ctx)
  | Sleep => Some (None, tt)
  | IncludersOf _ => Some (None, Ok incl)
  | DeleteBatch hash => Some (Some (FPool (LDelete hash)), Ok tt)
  | QuorumMessages =>
      g ← h_round h;
      q ← broadcast_quorum (f_node f) g;
      Some (None, Ok (certified_messages q))
  | ListBySigner _ | Dag.Broadcast _ _ => None
  end.

(** The other two: the step that starts a goroutine of the pool or of the
    layer, and what that goroutine returned. *)
Definition serving {X} (e : F X) (t : nat) : option full_label :=
  match e with
  | ListBySigner key => Some (FPool (LList t key))
  | Dag.Broadcast msg _ => Some (FNode (NSpawn t (Produce msg)))
  | _ => None
  end.

Definition served f {X} (e : F X) (t : nat) : option X :=
  match e in chainE _ X return option X with
  | ListBySigner _ =>
      match m_waiters (f_pool f) !! t with Some (Listed _ bs) => Some (Ok bs) | _ => None end
  | Dag.Broadcast _ _ =>
      go ← n_gos (f_node f) !! t;
      match g_rest go with Ret (inr r) => Some r | _ => None end
  | _ => None
  end.

Definition answered_chain {X} h (e : F X) (k : X -> prog F (res (Chain * bool))) (x : X) : chain_go :=
  MkChainGo (h_trace h ++ [Occ e x]) (k x) None (h_round h).

Definition called {X} h (e : F X) (t : nat) : chain_go :=
  MkChainGo (h_trace h) (h_rest h) (Some t)
    match e with Dag.Broadcast _ _ => Some t | _ => h_round h end.

Definition exec_chain (signer : S) (l : chained_label) f h : option chained :=
  match h_rest h, l, h_busy h with
  | Vis e k, KAnswer ctx, None =>
      '(l', x) ← at_once f h ctx e;
      f' ← match l' with Some l' => m_exec signer l' f | None => Some f end;
      Some (MkChained f' (Some (answered_chain h e k x)))
  | Vis e k, KCall t, None =>
      l' ← serving e t;
      f' ← m_exec signer l' f;
      Some (MkChained f' (Some (called h e t)))
  | Vis e k, KReturn, Some t =>
      x ← served f e t;
      Some (MkChained f (Some (answered_chain h e k x)))
  | _, _, _ => None
  end.

Definition exec_chained (signer : S) (l : chained_label) cd : option chained :=
  match l, c_chain cd with
  | KFull l, _ =>
      if foreign l then f' ← m_exec signer l (c_full cd); Some (MkChained f' (c_chain cd)) else None
  | KStart n, None =>
      Some (MkChained (c_full cd) (Some (MkChainGo [] (Dag.run (self signer) n NewChain) None None)))
  | KStart _, Some _ => None
  | _, Some h => exec_chain signer l (c_full cd) h
  | _, None => None
  end.

#[export] Instance chained_machine : NodeMachine (S:=S) chained chained_label := {|
  m_start := MkChained m_start None;
  m_exec := exec_chained;
  m_view cd := m_view (c_full cd);
  m_delivers l := match l with KFull l => m_delivers (NodeMachine:=inner_machine) l | _ => [] end;
|}.

(** The cases of a step. *)
Inductive chain_step (signer : S) f h : chained -> Prop :=
| cs_answer X (e : F X) k ctx l' x f' :
    h_rest h = Vis e k -> h_busy h = None -> at_once f h ctx e = Some (l', x) ->
    match l' with Some l' => m_exec signer l' f = Some f' | None => f' = f end ->
    chain_step signer f h (MkChained f' (Some (answered_chain h e k x)))
| cs_call X (e : F X) k t l' f' :
    h_rest h = Vis e k -> h_busy h = None -> serving e t = Some l' -> m_exec signer l' f = Some f' ->
    chain_step signer f h (MkChained f' (Some (called h e t)))
| cs_return X (e : F X) k t x :
    h_rest h = Vis e k -> h_busy h = Some t -> served f e t = Some x ->
    chain_step signer f h (MkChained f (Some (answered_chain h e k x))).

Lemma exec_chain_spec signer l f h cd' :
  exec_chain signer l f h = Some cd' -> chain_step signer f h cd'.
Proof.
  unfold exec_chain. destruct (h_rest h) as [r|X e k] eqn:Er; [done|].
  destruct l as [l|n|ctx|t|]; try done; destruct (h_busy h) as [t0|] eqn:Eb; try done; intros H.
  - apply bind_Some in H as ([l' x] & Ha & H). apply bind_Some in H as (f' & Hx & [= <-]).
    eapply cs_answer; [done..|]. destruct l'; [done|by injection Hx].
  - apply bind_Some in H as (l' & Ha & H). apply bind_Some in H as (f' & Hx & [= <-]).
    by eapply cs_call.
  - apply bind_Some in H as (x & Ha & [= <-]). by eapply cs_return.
Qed.

Inductive chained_step (signer : S) : chained_label -> chained -> chained -> Prop :=
| ct_full l f f' oh : foreign l = true -> m_exec signer l f = Some f' ->
    chained_step signer (KFull l) (MkChained f oh) (MkChained f' oh)
| ct_start n f : chained_step signer (KStart n) (MkChained f None)
    (MkChained f (Some (MkChainGo [] (Dag.run (self signer) n NewChain) None None)))
| ct_chain l f h cd' : m_delivers (NodeMachine:=chained_machine) l = [] ->
    chain_step signer f h cd' -> chained_step signer l (MkChained f (Some h)) cd'.

Lemma exec_chained_spec signer l cd cd' :
  exec_chained signer l cd = Some cd' -> chained_step signer l cd cd'.
Proof.
  destruct cd as [f oh]. unfold exec_chained. cbn [c_full c_chain]. intros H.
  destruct l as [l|n|ctx|t|].
  - destruct (foreign l) eqn:Hf; [|done]. apply bind_Some in H as (f' & Hx & [= <-]). by constructor.
  - destruct oh; simplify_eq. constructor.
  - destruct oh; [|done]. constructor; [done|]. by eapply exec_chain_spec.
  - destruct oh; [|done]. constructor; [done|]. by eapply exec_chain_spec.
  - destruct oh; [|done]. constructor; [done|]. by eapply exec_chain_spec.
Qed.

(** The node of [Availability.v] inside. *)
Lemma full_inside : MachineInside chained_machine inner_machine c_full.
Proof.
  split; [done|done|]. intros signer l cd cd' H%exec_chained_spec.
  destruct H as [l f f' oh _ Hx|n f|l f h cd' Hd Hc]; [right; by eexists|by left|]. rewrite Hd.
  destruct Hc as [X e k ctx l' x f' _ _ Ha Hx|X e k t l' f' _ _ Ha Hx|X e k t x _ _ _]; [|right|by left].
  - destruct l' as [l'|]; [|by left; subst]. right. exists l'. split; [done|].
    destruct e; simplify_eq/=; try done. by repeat (apply bind_Some in Ha as (? & _ & Ha); simplify_eq).
  - exists l'. split; [done|]. by destruct e; simplify_eq/=.
Qed.

#[export] Instance chained_laws : NodeMachineLaws NewHasher decode_id incl chained chained_label.
Proof.
  apply (inside_laws NewHasher decode_id incl chained_machine inner_machine c_full full_inside).
  apply full_machine_laws.
Qed.

(** ** Later states of a node *)

Abbreviation layer_step signer := (exec_node signer NewHasher decode_id incl).
Abbreviation Sys := (sys blockID (Certificate (I:=blockID) (Q:=Quorum blockID K)) (Quorum blockID K)).

(** A goroutine of the layer keeps its task, and stays as it is once it has
    returned. *)
Lemma step_go signer l nd nd' g go' :
  layer_step signer l nd = Some nd' -> n_gos nd' !! g = Some go' ->
  (exists go, n_gos nd !! g = Some go /\ g_task go' = g_task go /\
     forall r, g_rest go = Ret r -> go' = go) \/
  (exists t, l = NSpawn g t /\ g_task go' = t).
Proof.
  intros H Hg'. destruct l as [g0 t|g0 v|g0 t|g0|n lb]; cbn [exec_node] in H.
  - destruct (n_gos nd !! g0) eqn:Hg0; [done|]. injection H as <-. cbn in Hg'.
    apply lookup_insert_Some in Hg' as [[<- <-]|[_ Hg']]; [right; by exists t|left; by exists go'].
  - apply bind_Some in H as (go & Hg & H). destruct (g_rest go) as [|X e k] eqn:Er; [done|].
    destruct (g_call go); [done|]. apply bind_Some in H as ([l' x] & _ & [= <-]). cbn in Hg'. left.
    apply lookup_insert_Some in Hg' as [[<- <-]|[_ Hg']]; [exists go; by rewrite Er|by exists go'].
  - apply bind_Some in H as (go & Hg & H). destruct (g_rest go) as [|X e k] eqn:Er; [done|].
    destruct (g_call go); [done|]. apply bind_Some in H as ([[n rq] ans] & _ & H).
    apply bind_Some in H as (s & _ & H). apply bind_Some in H as (s' & _ & [= <-]). cbn in Hg'. left.
    apply lookup_insert_Some in Hg' as [[<- <-]|[_ Hg']]; [exists go; by rewrite Er|by exists go'].
  - apply bind_Some in H as (go & Hg & H). destruct (g_rest go) as [|X e k] eqn:Er; [done|].
    destruct (g_call go) as [[n t]|]; [|done]. apply bind_Some in H as ([[n' rq] ans] & _ & H).
    apply bind_Some in H as (s & _ & H). apply bind_Some in H as (cl & _ & H).
    destruct (pc cl); simplify_eq. cbn in Hg'. left.
    apply lookup_insert_Some in Hg' as [[<- <-]|[_ Hg']]; [exists go; by rewrite Er|by exists go'].
  - destruct (internal lb); [|done]. apply bind_Some in H as (s & _ & H).
    apply bind_Some in H as (s' & _ & [= <-]). left. by exists go'.
Qed.

(** Rounds keep their number and the operations that were submitted. *)
Definition rounds_grow (l l' : list Sys) : Prop :=
  forall n s, l !! n = Some s -> exists s', l' !! n = Some s' /\
    roundNum (s_round s') = roundNum (s_round s) /\ (never_deleted s' = true -> never_deleted s = true).

#[export] Instance rounds_grow_preorder : PreOrder rounds_grow.
Proof.
  split; [by intros l n s Hs; exists s|].
  intros l1 l2 l3 H12 H23 n s1 (s2 & H2 & E2 & D2)%H12.
  destruct (H23 n s2 H2) as (s3 & H3 & E3 & D3). exists s3. split_and!; [done|congruence|auto].
Qed.

Lemma never_deleted_reqs (s : Sys) :
  never_deleted s = forallb (fun rq => match rq.1.1.1 with deleteOp => false | _ => true end)
    (reqs (s_round s)).
Proof. unfold never_deleted, reqs. induction (r_ops (s_round s)) as [|so ops IH]; [done|]. cbn. f_equal. exact IH. Qed.

Lemma insert_rounds_grow (l : list Sys) n s s' lb :
  l !! n = Some s -> RoundConc.exec_label lb s = Some s' -> rounds_grow l (<[n := s']> l).
Proof.
  intros Hn (En & Er & _)%exec_label_effect m s0 Hm. destruct (decide (m = n)) as [->|Hne].
  - assert (s0 = s) as -> by congruence. exists s'.
    rewrite list_lookup_insert_eq by (by eapply lookup_lt_Some). split_and!; [done..|].
    rewrite !never_deleted_reqs, Er, forallb_app. by intros [-> _]%andb_prop.
  - exists s0. by rewrite list_lookup_insert_ne.
Qed.

Lemma step_rounds_grow signer l nd nd' :
  layer_step signer l nd = Some nd' -> rounds_grow (n_rounds nd) (n_rounds nd').
Proof.
  intros [->|n s lb s' Hs Hx ->|g num q _ _ ->]%step_rounds; [done|by eapply insert_rounds_grow|].
  intros m s Hm. exists s. split; [|done]. by apply lookup_app_l_Some.
Qed.

(** What a later state of the node keeps. *)
Record full_le f f' : Prop := {
  fl_gos : gos_le (f_node f) (f_node f');
  fl_pool : pool_le (f_pool f) (f_pool f');
  fl_rounds : rounds_grow (n_rounds (f_node f)) (n_rounds (f_node f'));
  fl_go : forall g go, n_gos (f_node f) !! g = Some go -> exists go', n_gos (f_node f') !! g = Some go' /\
    g_task go' = g_task go /\ forall r, g_rest go = Ret r -> go' = go;
}.

Lemma pool_le_trans p1 p2 p3 : pool_le p1 p2 -> pool_le p2 p3 -> pool_le p1 p3.
Proof.
  intros H12 H23 t w h Ht Hw. destruct (H12 t w h Ht Hw) as (w2 & H2 & E2 & D2).
  destruct (H23 t w2 h H2 E2) as (w3 & H3 & E3 & D3). exists w3. split_and!; [done..|].
  intros r Er. rewrite <- (D2 r Er). apply (D3 r). by rewrite (D2 r Er).
Qed.

#[export] Instance full_le_preorder : PreOrder full_le.
Proof.
  split.
  - intros f. split; [done|apply pool_le_refl|done|]. intros g go Hg. by exists go.
  - intros f1 f2 f3 [G1 P1 R1 T1] [G2 P2 R2 T2].
    split; [by etransitivity|by eapply pool_le_trans|by etransitivity|].
    intros g go Hg. destruct (T1 g go Hg) as (go2 & H2 & E2 & D2).
    destruct (T2 g go2 H2) as (go3 & H3 & E3 & D3). exists go3. split_and!; [done|congruence|].
    intros r Er. rewrite <- (D2 r Er). apply (D3 r). by rewrite (D2 r Er).
Qed.

Lemma layer_full_le signer l nd nd' p js js' :
  layer_step signer l nd = Some nd' -> full_le (MkFull nd p js) (MkFull nd' p js').
Proof.
  intros H. pose proof (step_gos_le _ _ _ _ _ _ _ H) as Hle.
  split; [done|apply pool_le_refl|by eapply step_rounds_grow|].
  intros g go Hg. destruct (Hle g go Hg) as (go' & Hg' & _). exists go'. split; [done|].
  destruct (step_go _ _ _ _ _ _ H Hg') as [(go0 & Hg0 & E & D)|(t & -> & _)].
  - assert (go0 = go) as -> by (cbn in *; congruence). done.
  - exfalso. cbn [exec_node] in H. cbn in Hg. by rewrite Hg in H.
Qed.

Lemma pool_full_le nd p p' js js' : pool_le p p' -> full_le (MkFull nd p js) (MkFull nd p' js').
Proof. intros Hle. split; [done|done|done|]. intros g go Hg. by exists go. Qed.

Lemma step_full_le signer l f f' : m_exec signer l f = Some f' -> full_le f f'.
Proof.
  destruct f as [nd p js]. intros H.
  destruct l as [l|l|g|g t|g|g];
    cbn [m_exec inner_machine full_machine exec_full f_node f_pool f_jobs] in H.
  - destruct (outside nd l); [|done]. apply bind_Some in H as (nd' & Hx & [= <-]). by eapply layer_full_le.
  - apply bind_Some in H as (p' & Hx & [= <-]). eapply pool_full_le, pool_step_le; exact Hx.
  - apply bind_Some in H as (msg & Hm & H). destruct (js !! g); simplify_eq. apply pool_full_le, pool_le_refl.
  - apply bind_Some in H as (j & Hj & H). destruct (j_rest j) as [|X e k]; [done|].
    destruct (j_wait j); [done|]. destruct e. apply bind_Some in H as (p' & Hx & [= <-]).
    eapply pool_full_le, pool_step_le; exact Hx.
  - apply bind_Some in H as (j & Hj & H). apply bind_Some in H as (t & Ht & H).
    apply bind_Some in H as (w & Hw & H). apply bind_Some in H as (r & Hr & [= <-]).
    apply pool_full_le, pool_le_refl.
  - apply bind_Some in H as (j & Hj & H). destruct (j_rest j) as [r|X e k]; [|done].
    apply bind_Some in H as (v & Hv & H). apply bind_Some in H as (nd' & Hx & [= <-]). by eapply layer_full_le.
Qed.

Lemma full_step_go signer l f f' g go' :
  m_exec signer l f = Some f' -> n_gos (f_node f') !! g = Some go' ->
  (exists go, n_gos (f_node f) !! g = Some go /\ g_task go' = g_task go) \/
  (exists t, l = FNode (NSpawn g t) /\ g_task go' = t).
Proof.
  destruct f as [nd p js]. intros H Hg'.
  assert (n_gos (f_node f') !! g = n_gos nd !! g ->
    exists go, n_gos nd !! g = Some go /\ g_task go' = g_task go) as Hsame
    by (intros E; exists go'; by rewrite <- E).
  destruct l as [l|l|g0|g0 t|g0|g0];
    cbn [m_exec inner_machine full_machine exec_full f_node f_pool f_jobs] in H.
  - destruct (outside nd l); [|done]. apply bind_Some in H as (nd' & Hx & [= <-]).
    destruct (step_go _ _ _ _ _ _ Hx Hg') as [(go & Hg & E & _)|(t & -> & E)]; [left|right]; eauto.
  - apply bind_Some in H as (p' & Hx & [= <-]). by left; apply Hsame.
  - apply bind_Some in H as (msg & Hm & H). destruct (js !! g0); simplify_eq. by left; apply Hsame.
  - apply bind_Some in H as (j & Hj & H). destruct (j_rest j) as [|X e k]; [done|].
    destruct (j_wait j); [done|]. destruct e. apply bind_Some in H as (p' & Hx & [= <-]).
    by left; apply Hsame.
  - apply bind_Some in H as (j & Hj & H). apply bind_Some in H as (t & Ht & H).
    apply bind_Some in H as (w & Hw & H). apply bind_Some in H as (r & Hr & [= <-]).
    by left; apply Hsame.
  - apply bind_Some in H as (j & Hj & H). destruct (j_rest j) as [r|X e k]; [|done].
    apply bind_Some in H as (v & Hv & H). apply bind_Some in H as (nd' & Hx & [= <-]).
    destruct (step_go _ _ _ _ _ _ Hx Hg') as [(go & Hg & E & _)|(t & [=] & _)]. left. eauto.
Qed.

(** ** The chain's goroutine *)

Definition pending_broadcast h : option (Message blockID) :=
  match h_rest h with
  | Vis e _ => match e with Dag.Broadcast msg _ => Some msg | _ => None end
  | Ret _ => None
  end.

(** The chain asks for [qrm.List()]. *)
Definition listing h : bool :=
  match h_rest h with
  | Vis e _ => match e with QuorumMessages => true | _ => false end
  | Ret _ => false
  end.

(** A broadcast that succeeded. *)
Definition succeeded (o : occ F) : option (Message blockID) :=
  match broadcast_of o with Some (msg, _, Ok _) => Some msg | _ => None end.

(** The chain asked for the broadcast of [msg] after the requests [tr]. *)
Definition proposed h (tr : list (occ F)) (msg : Message blockID) : Prop :=
  (exists o tr2, h_trace h = tr ++ o :: tr2 /\ (fst ∘ fst <$> broadcast_of o) = Some msg) \/
  (h_trace h = tr /\ pending_broadcast h = Some msg).

Record chain_ok (signer : S) f h : Prop := {
  ck_rest : exists n, residual (Dag.run (self signer) n NewChain) (h_trace h) (h_rest h);
  ck_busy : forall msg g, pending_broadcast h = Some msg -> h_busy h = Some g ->
    h_round h = Some g /\ exists go, n_gos (f_node f) !! g = Some go /\ g_task go = Produce msg;
  ck_done : listing h = true -> forall tr o msg, h_trace h = tr ++ [o] -> succeeded o = Some msg ->
    exists g go, h_round h = Some g /\ n_gos (f_node f) !! g = Some go /\ g_task go = Produce msg /\
      g_rest go = Ret (inr (Ok tt));
}.

(** Every block the layer was given to broadcast is one the chain proposed. *)
Record chained_ok (signer : S) cd : Prop := {
  cd_chain : forall h, c_chain cd = Some h -> chain_ok signer (c_full cd) h;
  cd_produced : forall g go msg, n_gos (f_node (c_full cd)) !! g = Some go -> g_task go = Produce msg ->
    exists h tr, c_chain cd = Some h /\ proposed h tr msg;
}.

Lemma chain_ok_le signer f f' h : full_le f f' -> chain_ok signer f h -> chain_ok signer f' h.
Proof.
  intros Hle [Hr Hb Hd]. split; [done|..].
  - intros msg g Hp Hg. destruct (Hb msg g Hp Hg) as (Er & go & Hgo & Et). split; [done|].
    destruct (fl_go _ _ Hle g go Hgo) as (go' & Hgo' & Et' & _). exists go'. split; [done|congruence].
  - intros Hl tr o msg Htr Ho. destruct (Hd Hl tr o msg Htr Ho) as (g & go & Er & Hgo & Et & Eg).
    destruct (fl_go _ _ Hle g go Hgo) as (go' & Hgo' & _ & D). rewrite (D _ Eg) in Hgo'. by exists g, go.
Qed.

(** The chain's next request. *)
Lemma proposed_answered h X (e : F X) k x tr msg :
  h_rest h = Vis e k -> proposed h tr msg -> proposed (answered_chain h e k x) tr msg.
Proof.
  intros Er [(o & tr2 & E & Ho)|[<- Hp]]; left.
  - exists o, (tr2 ++ [Occ e x]). split; [|done]. cbn. by rewrite E, <- app_assoc.
  - exists (Occ e x), []. split; [done|]. unfold pending_broadcast in Hp. rewrite Er in Hp.
    by destruct e; simplify_eq/=.
Qed.

Lemma answered_chain_ok signer f h X (e : F X) k x :
  chain_ok signer f h -> h_rest h = Vis e k ->
  (forall msg, succeeded (Occ e x) = Some msg -> exists g go, h_round h = Some g /\
     n_gos (f_node f) !! g = Some go /\ g_task go = Produce msg /\ g_rest go = Ret (inr (Ok tt))) ->
  chain_ok signer f (answered_chain h e k x).
Proof.
  intros [[n Hr] _ _] Er Hs. split; cbn [answered_chain h_trace h_rest h_busy h_round]; [|done|].
  - exists n. rewrite Er in Hr. exact (residual_answer _ _ _ _ _ x Hr).
  - intros _ tr o msg [_ <-]%app_inj_tail Ho. by apply Hs.
Qed.

Lemma chain_step_ok signer f h cd' :
  chained_ok signer (MkChained f (Some h)) -> chain_step signer f h cd' -> chained_ok signer cd'.
Proof.
  intros [Hc Hp] Hstep. specialize (Hc h eq_refl). cbn [c_full] in Hp, Hc.
  assert (forall f' h' (X : Type) (e : F X) k x, h_rest h = Vis e k -> chain_ok signer f' h' ->
    h' = answered_chain h e k x ->
    (forall g go', n_gos (f_node f') !! g = Some go' -> exists go, n_gos (f_node f) !! g = Some go /\
       g_task go' = g_task go) -> chained_ok signer (MkChained f' (Some h'))) as Hans.
  { intros f' h' X e k x Er Hok -> Hgos. split; [by intros h0 [= <-]|].
    intros g go' msg Hg' Et. destruct (Hgos g go' Hg') as (go & Hg & E).
    destruct (Hp g go msg Hg ltac:(congruence)) as (h0 & tr & [= <-] & Hpr).
    exists (answered_chain h e k x), tr. split; [done|]. by eapply proposed_answered. }
  destruct Hstep as [X e k ctx l' x f' Er Eb Ha Hx|X e k t l' f' Er Eb Ha Hx|X e k t x Er Eb Ha].
  - assert (full_le f f' /\ forall g go', n_gos (f_node f') !! g = Some go' ->
      exists go, n_gos (f_node f) !! g = Some go /\ g_task go' = g_task go) as [Hle Hgos].
    { destruct l' as [l'|]; [|subst; split; [done|by eauto]]. split; [by eapply step_full_le|].
      intros g go' Hg'. destruct (full_step_go _ _ _ _ _ _ Hx Hg') as [?|(t & -> & _)]; [done|].
      destruct e; simplify_eq/=; try done.
      by repeat (apply bind_Some in Ha as (? & _ & Ha); simplify_eq). }
    eapply Hans; [exact Er| |reflexivity|exact Hgos].
    apply answered_chain_ok; [by eapply chain_ok_le|done|]. intros msg. by destruct e; simplify_eq/=.
  - pose proof (step_full_le _ _ _ _ Hx) as Hle. pose proof (chain_ok_le _ _ _ _ Hle Hc) as [Hr Hb Hd].
    assert (forall msg, pending_broadcast h = Some msg -> h_round (called h e t) = Some t /\
      exists go, n_gos (f_node f') !! t = Some go /\ g_task go = Produce msg) as Hnew.
    { unfold pending_broadcast. rewrite Er. intros msg Em. destruct e; simplify_eq/=. split; [done|].
      apply bind_Some in Hx as (nd' & Hx & [= <-]). cbn in Hx |- *.
      destruct (n_gos (f_node f) !! t); simplify_eq. cbn. rewrite lookup_insert_eq. by eexists. }
    assert (forall msg, pending_broadcast (called h e t) = Some msg -> pending_broadcast h = Some msg) as Hsame by done.
    split.
    + intros h0 [= <-]. split; [done| |].
      * intros msg g Hm%Hsame [= <-]. by apply Hnew.
      * unfold listing. cbn [called h_rest]. rewrite Er. by destruct e.
    + intros g go' msg Hg' Et. exists (called h e t).
      destruct (full_step_go _ _ _ _ _ _ Hx Hg') as [(go & Hg & E)|(t' & -> & E)].
      * destruct (Hp g go msg Hg ltac:(congruence)) as (h0 & tr & [= <-] & Hpr). exists tr. split; [done|]. exact Hpr.
      * exists (h_trace h). split; [done|]. right. split; [done|].
        unfold pending_broadcast. cbn [called h_rest]. rewrite Er.
        destruct e; simplify_eq/=. congruence.
  - eapply Hans; [exact Er| |reflexivity|by eauto].
    apply answered_chain_ok; [done..|]. intros msg Hs.
    assert (pending_broadcast h = Some msg) as Hm.
    { unfold pending_broadcast. rewrite Er. unfold succeeded in Hs. destruct e; try done.
      cbn in Hs. destruct x; by simplify_eq. }
    destruct (ck_busy _ _ _ Hc msg t Hm Eb) as (Erd & go & Hgo & Et). exists t, go. split_and!; [done..|].
    destruct e; simplify_eq/=. rewrite Hgo in Ha. simpl in Ha.
    destruct (g_rest go) as [[r|r]|]; simplify_eq. f_equal. f_equal.
    destruct x as [[]|er|w|w]; simplify_eq/=; done.
Qed.

Lemma chained_step_ok signer l cd cd' :
  chained_ok signer cd -> chained_step signer l cd cd' -> chained_ok signer cd'.
Proof.
  intros [Hc Hp] Hstep. destruct Hstep as [l f f' oh Hf Hx|n f|l f h cd' _ Hx].
  - split; cbn [c_full c_chain] in *.
    + intros h ->. eapply chain_ok_le; [by eapply step_full_le|by apply Hc].
    + intros g go' msg Hg' Et. destruct (full_step_go _ _ _ _ _ _ Hx Hg') as [(go & Hg & E)|(t & -> & E)].
      * apply (Hp g go); [done|congruence].
      * assert (t = Produce msg) as -> by congruence. done.
  - split; cbn [c_full c_chain] in *.
    + intros h [= <-]. split; [exists n; constructor|done|]. intros _ tr o msg Htr. by destruct tr.
    + intros g go msg Hg Et. by destruct (Hp g go msg Hg Et) as (h & tr & [=] & _).
  - eapply chain_step_ok; [|exact Hx]. by split.
Qed.

(** The shape of what the chain asks for. *)
Lemma proposed_message signer f h tr msg :
  chain_ok signer f h -> proposed h tr msg ->
  exists batches, round_message (self signer) (chain_after NewChain tr) batches msg.
Proof.
  intros Hok [(o & tr2 & E & Ho)|[<- Hp]]; destruct (ck_rest _ _ _ Hok) as [n Hr].
  - apply residual_chained in Hr. destruct o as [X e x]. destruct e; simplify_eq/=.
    by eapply (wch_broadcast _ _ _ Hr).
  - unfold pending_broadcast in Hp. destruct (h_rest h) as [|X e k] eqn:Er; [done|].
    pose proof (residual_answer _ _ _ _ _ (refusing X e) Hr) as Hr'. apply residual_chained in Hr'.
    destruct e; simplify_eq. by eapply (wch_broadcast _ _ _ Hr').
Qed.

Lemma listing_after signer f h :
  chain_ok signer f h -> listing h = true ->
  exists tr o msg, h_trace h = tr ++ [o] /\ succeeded o = Some msg /\ proposed h tr msg.
Proof.
  intros Hok Hl. destruct (ck_rest _ _ _ Hok) as [n Hr]. unfold listing in Hl.
  destruct (h_rest h) as [|X e k] eqn:Er; [done|].
  pose proof (residual_answer _ _ _ _ _ (refusing X e) Hr) as Hr'. apply residual_chained in Hr'.
  destruct e; try done. destruct (wch_listing _ _ _ Hr' _ _ [] eq_refl) as (tr & msg & incl' & E).
  exists tr, (Occ (Dag.Broadcast msg incl') (Ok tt)), msg. split_and!; [done..|].
  left. by eexists _, [].
Qed.

(** ** Chains in the network *)

Context (fresh : fresh_includers incl) (honest : list S).
Implicit Types (net : list chained) (fnet : list full).

Abbreviation witnessed := (witnessed NewHasher honest (NM:=inner_machine)).

(** A message of round [num] that honest members with more than a third of the
    stake certified, each of which has its block and got its batches. *)
Definition supported fnet (num : Z) (m : Message blockID) : Prop :=
  exists id bs, msgID m = Some id /\ round id = num /\ sl (hash id) = sha256 (sl (msgData m)) /\
    NoDup bs /\ total (includers incl) < 3 * sumZ (stake_of (includers incl)) bs /\
    forall b, b ∈ bs -> witnessed fnet num id b /\ available_at honest fnet b (sl (hash id)).

(** Their producers hold more than two thirds of the stake, unless the node's
    certifier rejected a message of the round. *)
Definition by_supermajority f (num : Z) (ms : list (Message blockID)) : Prop :=
  exists n s, n_rounds (f_node f) !! n = Some s /\ roundNum (s_round s) = num /\
    (never_deleted s = true -> 2 * total (includers incl) < 3 * sumZ (message_stake incl) ms).

Lemma block_available_le f f' d : full_le f f' -> block_available f d -> block_available f' d.
Proof.
  intros Hle (data & blk & Hd & Hb & Hbs). exists data, blk. split_and!; [done..|].
  intros h Hh. destruct (Hbs h Hh) as (t & x & Ht & Hx). exists t, x. split; [|done].
  destruct (fl_pool _ _ Hle t _ h Ht eq_refl) as (w & Hw & _ & E). by rewrite <- (E x eq_refl).
Qed.

Lemma supported_le fnet fnet' num m : Forall2 full_le fnet fnet' -> supported fnet num m -> supported fnet' num m.
Proof.
  intros Hle (id & bs & H1 & H2 & H3 & H4 & H5 & Hbs). exists id, bs. split_and!; [done..|].
  intros b Hb. destruct (Hbs b Hb) as [(j & s & f & id' & msg & Hj & Es & Hf & Er & Estr & Hcert) Hav]. split.
  - destruct (Forall2_lookup_l _ _ _ _ _ Hle Hf) as (f' & Hf' & Hl).
    exists j, s, f', id', msg. split_and!; [done..|].
    destruct Hcert as (Hc1 & Hc2 & g & go & Hg & Hin). split_and!; [done..|].
    destruct (fl_gos _ _ Hl g go Hg) as (go' & Hg' & _ & [rest Ht]). exists g, go'. split; [done|].
    rewrite Ht, omap_app. apply elem_of_app. by left.
  - destruct Hav as (j1 & s1 & f1 & Hj1 & Es1 & Hf1 & Hb1).
    destruct (Forall2_lookup_l _ _ _ _ _ Hle Hf1) as (f' & Hf' & Hl).
    exists j1, s1, f'. split_and!; [done..|]. by eapply block_available_le.
Qed.

Lemma by_supermajority_le f f' num ms : full_le f f' -> by_supermajority f num ms -> by_supermajority f' num ms.
Proof.
  intros Hle (n & s & Hn & En & Hd). destruct (fl_rounds _ _ Hle n s Hn) as (s' & Hn' & En' & Hd').
  exists n, s'. split_and!; [done|congruence|auto].
Qed.

(** An honest node's layer is an execution of its own. *)
Lemma inner_runs ls fnet i signer f :
  net_runs honest ls fnet -> honest !! i = Some signer -> fnet !! i = Some f ->
  exists nls, runs_to signer NewHasher decode_id incl nls (f_node f).
Proof.
  intros Hr Hs Hf.
  pose proof (net_runs_ok NewHasher decode_id incl honest ls fnet Hr) as Hok.
  destruct (Forall2_lookup_lr _ _ _ _ _ _ Hok Hs Hf) as (nls & H & _). by exists nls.
Qed.

(** The certificates of a round of an honest node. *)
Lemma listed_supported ls fnet i signer f n s :
  net_runs honest ls fnet -> readable fnet -> NoDup (honest_keys honest) ->
  3 * faulty_stake incl honest <= total (includers incl) ->
  honest !! i = Some signer -> fnet !! i = Some f -> n_rounds (f_node f) !! n = Some s ->
  Forall (supported fnet (roundNum (s_round s))) (certified_messages (quorum (s_round s))).
Proof.
  intros Hr Hread Hnd Hfaulty Hi Hf Hs. set (q := quorum (s_round s)).
  destruct (inner_runs _ _ _ _ _ Hr Hi Hf) as [nls Hrun].
  destruct (node_genuine NewHasher decode_id incl signer nls _ n s fresh Hrun Hs) as (num & _ & [Hre _]).
  destruct (List_completed incl q fresh Hre) as [_ Hin].
  apply Forall_forall. intros m (c & -> & Hc)%list_elem_of_fmap.
  apply Hin in Hc as (k & cert & _ & Hcert & Hcomp).
  assert (net_certificate fnet (roundNum (s_round s)) cert) as Hnet.
  { exists f. split; [by eapply list_elem_of_lookup_2|]. by exists n, s, c. }
  destruct (certificate_witnesses NewHasher decode_id incl honest fresh decode_bytes ls fnet _ cert
    Hr Hread Hnet) as (Hw & id & Hid & Hwit).
  destruct (honest_signers_available incl fresh honest ls fnet _ cert Hr Hread Hnet) as [_ Hav].
  destruct Hid as (Hid & Hround & _ & [= Hhash]).
  unfold Cert_Message, Quorum_QuorumCertificate, certificate_Message. fold q. rewrite Hcert. simpl.
  exists id, (filter (fun b => b ∈ honest_keys honest) (signers cert)). split_and!; [done..| | |].
  - apply NoDup_filter, Hw.
  - by apply honest_signers.
  - intros b [Hh Hb]%list_elem_of_filter. split; [by apply Hwit|]. rewrite <- Hhash. by apply Hav.
Qed.

(** Their producers have the stake the round's [Finalize] found. *)
Lemma listed_supermajority ls fnet i signer f g go msg q :
  net_runs honest ls fnet -> honest !! i = Some signer -> fnet !! i = Some f ->
  n_gos (f_node f) !! g = Some go -> g_task go = Produce msg -> g_rest go = Ret (inr (Ok tt)) ->
  broadcast_quorum (f_node f) g = Some q ->
  exists id n s, msgID msg = Some id /\ n_rounds (f_node f) !! n = Some s /\
    roundNum (s_round s) = round id /\ q = quorum (s_round s) /\
    by_supermajority f (round id) (certified_messages q).
Proof.
  intros Hr Hi Hf Hg Et Eg Hq. destruct (inner_runs _ _ _ _ _ Hr Hi Hf) as [nls Hrun].
  destruct (finished_broadcast NewHasher decode_id incl signer nls _ g go msg fresh Hrun Hg Et Eg)
    as (id & n & s & Hid & Hgot & Hs & En & Hfin).
  unfold broadcast_quorum in Hq. rewrite Hg in Hq. cbn [mbind option_bind] in Hq.
  rewrite Hgot in Hq. cbn [head mbind option_bind] in Hq. rewrite Hs in Hq. injection Hq as <-.
  destruct (node_genuine NewHasher decode_id incl signer nls _ n s fresh Hrun Hs) as (num & Hround & Hgen).
  exists id, n, s. split_and!; [done..|]. exists n, s. split_and!; [done..|]. intros Hd.
  rewrite (listed_stake incl _ fresh (proj1 Hgen)); [by eapply final_supermajority|].
  exact (execution_held incl fresh _ _ num s Hround Hd).
Qed.

(** ** Every listing the chain got *)

(** The chain of node [i] got [ms] in answer to its request after [tr]: they
    are supported messages of the round it broadcast before. *)
Definition well_listed fnet f (tr : list (occ F)) (ms : list (Message blockID)) : Prop :=
  exists tr0 o msg id, tr = tr0 ++ [o] /\ succeeded o = Some msg /\ msgID msg = Some id /\
    Forall (supported fnet (round id)) ms /\ by_supermajority f (round id) ms.

Definition listings_ok net : Prop := forall i signer cd h tr o ms tr2,
  honest !! i = Some signer -> net !! i = Some cd -> c_chain cd = Some h ->
  h_trace h = tr ++ o :: tr2 -> certs_of o = Some ms ->
  well_listed (map c_full net) (c_full cd) tr ms.

Lemma well_listed_le fnet fnet' f f' tr ms :
  Forall2 full_le fnet fnet' -> full_le f f' -> well_listed fnet f tr ms -> well_listed fnet' f' tr ms.
Proof.
  intros Hn Hf (tr0 & o & msg & id & H1 & H2 & H3 & H4 & H5). exists tr0, o, msg, id.
  split_and!; [done..| |by eapply by_supermajority_le].
  eapply Forall_impl; [exact H4|]. intros m. by apply supported_le.
Qed.

(** The answer to [qrm.List()]. *)
Lemma new_listing ls net i signer f h ctx X (e : F X) x l' ms :
  net_runs honest ls (map c_full net) -> readable (map c_full net) -> NoDup (honest_keys honest) ->
  3 * faulty_stake incl honest <= total (includers incl) ->
  honest !! i = Some signer -> net !! i = Some (MkChained f (Some h)) -> chain_ok signer f h ->
  (exists k, h_rest h = Vis e k) -> at_once f h ctx e = Some (l', x) -> certs_of (Occ e x) = Some ms ->
  well_listed (map c_full net) f (h_trace h) ms.
Proof.
  intros Hr Hread Hnd Hfaulty Hi Hn Hok [k Er] Ha Hms.
  assert (map c_full net !! i = Some f) as Hf by (by rewrite list_lookup_fmap, Hn).
  assert (listing h = true) as Hl by (unfold listing; rewrite Er; by destruct e).
  destruct (listing_after _ _ _ Hok Hl) as (tr & o & msg & Htr & Ho & _).
  destruct (ck_done _ _ _ Hok Hl tr o msg Htr Ho) as (g & go & Eg & Hgo & Et & Ego).
  destruct e; simplify_eq/=; try done. apply bind_Some in Ha as (g' & Eg' & Ha).
  apply bind_Some in Ha as (q & Hq & Ha). simplify_eq/=.
  destruct (listed_supermajority _ _ _ _ _ _ _ _ _ Hr Hi Hf Hgo Et Ego Hq)
    as (id & n & s & Hid & Hs & En & -> & Hmaj).
  assert (certified_messages (quorum (s_round s)) = ms) as <- by (by injection Hms).
  exists tr, o, msg, id. split_and!; [done..| |done]. rewrite <- En. by eapply listed_supported.
Qed.

(** Everything that holds of the chains of a network. *)
Record chains_ok net : Prop := {
  cso_nodes : forall i signer cd, honest !! i = Some signer -> net !! i = Some cd -> chained_ok signer cd;
  cso_listings : readable (map c_full net) -> listings_ok net;
}.

Lemma insert_full_le net i cd cd' :
  net !! i = Some cd -> full_le (c_full cd) (c_full cd') ->
  Forall2 full_le (map c_full net) (map c_full (<[i := cd']> net)).
Proof.
  intros Hi Hle. apply Forall2_same_length_lookup_2; [by rewrite !length_map, length_insert|].
  intros j f f' Hf Hf'. change (map c_full net) with (c_full <$> net) in Hf.
  change (map c_full (<[i := cd']> net)) with (c_full <$> <[i := cd']> net) in Hf'.
  rewrite list_lookup_fmap in Hf, Hf'.
  destruct (decide (j = i)) as [->|Hne].
  - rewrite list_lookup_insert_eq in Hf' by (by eapply lookup_lt_Some). rewrite Hi in Hf. by simplify_eq/=.
  - rewrite list_lookup_insert_ne in Hf' by done. by rewrite Hf in Hf'; simplify_eq.
Qed.

(** A step of a chain leaves its trace as it is, or adds one answer. *)
Lemma chain_step_trace signer f h cd' :
  chain_step signer f h cd' -> exists h', c_chain cd' = Some h' /\
    (h_trace h' = h_trace h \/
     exists X (e : F X) k x, h_rest h = Vis e k /\ h_trace h' = h_trace h ++ [Occ e x] /\
       (certs_of (Occ e x) <> None -> exists ctx l', at_once f h ctx e = Some (l', x))).
Proof.
  intros [X e k ctx l' x f' Er Eb Ha Hx|X e k t l' f' Er Eb Ha Hx|X e k t x Er Eb Ha];
    (eexists; split; [reflexivity|]); [right|by left|right]; exists X, e, k, x; (split_and!; [done..|]).
  - intros _. by eexists _, _.
  - intros Hc. exfalso. apply Hc. by destruct e.
Qed.

Lemma chained_step_le signer l cd cd' : chained_step signer l cd cd' -> full_le (c_full cd) (c_full cd').
Proof.
  intros [l0 f f' oh _ Hx|n f|l0 f h cd1 _ Hx]; [by eapply step_full_le|done|].
  destruct Hx as [X e k ctx l' x f' _ _ _ Hx|X e k t l' f' _ _ _ Hx|]; [|by eapply step_full_le|done].
  destruct l' as [l'|]; [by eapply step_full_le|by subst].
Qed.

Lemma start_chains_ok n : chains_ok (replicate n (m_start (NodeMachine:=chained_machine))).
Proof.
  split.
  - intros i signer cd _ [-> _]%lookup_replicate. split; [done|]. by intros g go msg.
  - intros _ i signer cd h tr o ms tr2 _ [-> _]%lookup_replicate. done.
Qed.

Lemma inner_readable net net' :
  Forall2 full_le (map c_full net) (map c_full net') ->
  readable (map c_full net') -> readable (map c_full net).
Proof.
  intros Hle Hread n b. eapply readable_mono; [|exact Hread].
  eapply Forall2_impl; [exact Hle|]. intros f f'. apply fl_gos.
Qed.

(** The answers of a chain that took a step. *)
Lemma step_listings ls net i l signer cd cd' :
  net_runs honest ls (map c_full net) -> readable (map c_full net) -> NoDup (honest_keys honest) ->
  3 * faulty_stake incl honest <= total (includers incl) ->
  honest !! i = Some signer -> net !! i = Some cd -> chained_ok signer cd ->
  listings_ok net -> chained_step signer l cd cd' ->
  forall h tr o ms tr2, c_chain cd' = Some h -> h_trace h = tr ++ o :: tr2 -> certs_of o = Some ms ->
    well_listed (map c_full net) (c_full cd) tr ms.
Proof.
  intros Hr Hread Hnd Hfaulty Hi Hcd Hok Hold Hstep h tr o ms tr2 Hh Htr Hms.
  destruct Hstep as [l0 f f' oh _ Hx|n f|l0 f h0 cd1 _ Hx]; cbn [c_full c_chain] in *.
  - subst oh. by apply (Hold i signer (MkChained f (Some h)) h tr o ms tr2).
  - injection Hh as <-. by destruct tr.
  - destruct (chain_step_trace _ _ _ _ Hx) as (h1 & Hh1 & Ht). assert (h1 = h) as -> by congruence.
    destruct Ht as [Ht|(X & e & k & x & Er & Ht & Ha)]; [rewrite Ht in Htr;
      by apply (Hold i signer (MkChained f (Some h0)) h0 tr o ms tr2)|].
    rewrite Ht in Htr. apply split_app in Htr as [(tl & Htr & _)|(tl & -> & Hl)];
      [by apply (Hold i signer (MkChained f (Some h0)) h0 tr o ms tl)|].
    assert (tl = []) as ->.
    { apply (f_equal length) in Hl. rewrite length_app in Hl. destruct tl; [done|]. simpl in Hl. lia. }
    rewrite app_nil_r. apply (f_equal head) in Hl. cbn [head app] in Hl.
    assert (o = Occ e x) as -> by (apply (inj Some); by symmetry).
    destruct Ha as (ctx & l' & Ha); [congruence|].
    eapply (new_listing ls net i signer f h0); try done; [|by exists k].
    by apply (cd_chain _ _ Hok).
Qed.

Lemma net_chains_ok ls net :
  NoDup (honest_keys honest) -> 3 * faulty_stake incl honest <= total (includers incl) ->
  net_runs (NM:=chained_machine) honest ls net -> chains_ok net.
Proof.
  intros Hnd Hfaulty. revert ls net. apply net_runs_ind; [apply start_chains_ok|].
  intros ls net [i l] net' Hruns Hx [Hnodes Hlist]. cbn [exec_net] in Hx.
  apply bind_Some in Hx as (signer & Hi & Hx). apply bind_Some in Hx as (cd & Hcd & Hx).
  destruct (forallb _ _); [|done]. apply bind_Some in Hx as (cd' & Hstep & [= <-]).
  apply exec_chained_spec in Hstep. pose proof (Hnodes i signer cd Hi Hcd) as Hok.
  destruct (net_runs_inside chained_machine inner_machine c_full full_inside honest ls net Hruns) as [ls' Hr].
  pose proof (insert_full_le net i cd cd' Hcd (chained_step_le _ _ _ _ Hstep)) as Hle.
  split.
  - intros j s0 cd0 Hj [(<- & <- & _)|[_ H0]]%list_lookup_insert_Some; [|by eapply Hnodes].
    assert (s0 = signer) as -> by congruence. by eapply chained_step_ok.
  - intros Hread'. pose proof (inner_readable _ _ Hle Hread') as Hread. specialize (Hlist Hread).
    intros j s0 cd0 h tr o ms tr2 Hj [(<- & <- & _)|[_ H0]]%list_lookup_insert_Some Hh Htr Hms.
    + eapply well_listed_le; [exact Hle|by eapply chained_step_le|].
      assert (s0 = signer) as -> by congruence. by eapply step_listings.
    + eapply well_listed_le; [exact Hle|reflexivity|]. by eapply (Hlist j).
Qed.

(** The listing a chain goes on with. *)
Lemma last_listing (tr : list (occ F)) :
  (forall c, chain_after c tr = c) \/
  exists ta o ms tb, tr = ta ++ o :: tb /\ certs_of o = Some ms /\
    forall c, chain_after c tr = advanced (chain_after c ta) ms.
Proof.
  induction tr as [|o tr IH] using rev_ind; [by left|].
  destruct (certs_of o) as [ms|] eqn:Ho.
  - right. exists tr, o, ms, []. split_and!; [done..|]. intros c.
    rewrite chain_after_app. unfold chain_after at 1. simpl. by rewrite Ho.
  - assert (forall c, chain_after c (tr ++ [o]) = chain_after c tr) as E.
    { intros c. rewrite chain_after_app. unfold chain_after at 1. simpl. by rewrite Ho. }
    destruct IH as [IH|(ta & o' & ms & tb & -> & Ho' & IH)]; [left; intros c; by rewrite E|].
    right. exists ta, o', ms, (tb ++ [o]). split_and!; [by rewrite <- app_assoc|done|].
    intros c. by rewrite E.
Qed.

(** On what the blocks of an honest member build.  [Managed.v] has the theorem
    for nodes with their round manager. *)
Lemma chained_blocks_supported ls net i signer cd g go msg :
  net_runs (NM:=chained_machine) honest ls net -> readable (map c_full net) ->
  NoDup (honest_keys honest) -> 3 * faulty_stake incl honest <= total (includers incl) ->
  honest !! i = Some signer -> net !! i = Some cd ->
  n_gos (f_node (c_full cd)) !! g = Some go -> g_task go = Produce msg ->
  exists c batches, round_message (self signer) c batches msg /\
    ((height c = 1 /\ lastCerts c = []) \/
     exists num, height c = u64 (num + 1) /\
       Forall (supported (map c_full net) num) (lastCerts c) /\
       by_supermajority (c_full cd) num (lastCerts c)).
Proof.
  intros Hr Hread Hnd Hfaulty Hi Hcd Hg Et.
  destruct (net_chains_ok ls net Hnd Hfaulty Hr) as [Hnodes Hlist]. specialize (Hlist Hread).
  pose proof (Hnodes i signer cd Hi Hcd) as Hok.
  destruct (cd_produced _ _ Hok g go msg Hg Et) as (h & tr & Hh & Hp).
  pose proof (cd_chain _ _ Hok h Hh) as Hc.
  destruct (proposed_message _ _ _ _ _ Hc Hp) as [batches Hmsg].
  exists (chain_after NewChain tr), batches. split; [done|].
  destruct (last_listing tr) as [E|(ta & o & ms & tb & -> & Ho & E)]; [left; by rewrite E|right].
  assert (exists rest, h_trace h = ta ++ o :: rest) as [rest Hrest].
  { destruct Hp as [(o' & tr2 & -> & _)|[-> _]]; [|by exists tb].
    exists (tb ++ o' :: tr2). by rewrite <- app_assoc. }
  destruct (Hlist i signer cd h ta o ms rest Hi Hcd Hh Hrest Ho)
    as (tr0 & o0 & msg0 & id & -> & Hs & Hid & Hsup & Hmaj).
  exists (round id). rewrite E. cbn [advanced height lastCerts]. split_and!; [|done..].
  assert (proposed h tr0 msg0) as Hp0.
  { left. exists o0, (o :: rest). split; [by rewrite Hrest, <- app_assoc|].
    unfold succeeded in Hs. destruct (broadcast_of o0) as [[[m ?] []]|]; by simplify_eq/=. }
  destruct (proposed_message _ _ _ _ _ Hc Hp0) as (bs0 & data0 & -> & _).
  injection Hid as <-. cbn [round]. rewrite chain_after_app, (chain_after_quiet _ [o0]); [done|].
  destruct o0 as [X e x]. destruct e; try done.
Qed.
End chained.
