(* ===== verification/Managed.v ===== *)
(** A whole node with its round manager: when the broadcasting layer asks for a
    round, a method of the manager ([Manager.v]) runs as a goroutine of its own,
    interleaved with those of the other requests; what it returns answers the
    request, and its calls of [Round.Stop] and [Round.Finalize] are calls of
    the node's rounds.  [StartRound] allocates the round in the step that
    starts it.  The rest of the node is that of [ChainNode.v], which is inside,
    so what was proved of nodes whose manager is only assumed to answer with
    rounds of the number that was asked for holds of this one. *)

From S2P Require Import Prelude Prog Sha256 Crypto CryptoInstance Capnp CapnpInstance Rebro Bapl Subs MemPool Block Includers Manager Issued Quorum QuorumProps Round RoundConc RoundInv RoundQuorum Provenance RoundProps RoundStop Gossip System SystemInv Dag GossipProps SystemProps DagProps Network Availability DagSystem ChainNode.

(** ** The state *)

Section managed.
Context {K S : Type} {PK : Crypto.PubKey K} {PL : PubKeyLaws K} {MO : MapOrder} {CP : Capnp}
  {CL : CapnpLaws} {SI : SignerI S}.
Context (incl : Includers K) (fresh : fresh_includers incl) (self : S -> K).

Abbreviation chained := (chained (K:=K)).
Abbreviation node := (System.node (I:=blockID) (K:=K)).
Abbreviation layer_step signer := (exec_node signer NewHasher decode_id incl).
Abbreviation E := (broE blockID (Quorum blockID K) (option (Certificate (I:=blockID) (Q:=Quorum blockID K)))).
Implicit Types (nd : node) (m : Manager.sys) (cd : chained).

#[local] Instance chain_machine : NodeMachine (S:=S) chained chained_label := chained_machine incl self.

(** [d_wait]: the goroutine of the manager that serves the request of a
    goroutine of the layer.  [d_busy]: the caller of a round's method that a
    goroutine of the manager is. *)
Record managed := MkManaged {
  d_node : chained;
  d_mgr : Manager.sys;
  d_wait : gmap nat nat;
  d_busy : gmap nat nat;
}.
Implicit Type md : managed.

Definition layer md : node := f_node (c_full (d_node md)).

(** What a goroutine of the layer waits for the manager to do. *)
Definition asking nd (g : nat) : option purpose :=
  go ← n_gos nd !! g;
  match g_rest go, g_call go with
  | Vis e _, None =>
      match e in broE _ _ _ X return option purpose with
      | Gossip.StartRound num _ => Some (ToStart num)
      | Gossip.GetRound num => Some (ToGet num)
      | Gossip.StopRound num => Some (ToStop num)
      | _ => None
      end
  | _, _ => None
  end.

(** ** Steps *)

Definition enters (t : nat) (p : purpose) : Manager.label :=
  match p with
  | ToStart n => LStart t n
  | ToGet n => LGet t n
  | ToStop n => LStopRound t n
  | ToStopAll => LStop t
  end.

(** What a method of the manager returned, as an answer to the layer. *)
Definition answer_of (mg : Manager.goroutine) : option verdict :=
  match mg with
  | Started _ (Ok _) => Some VOk
  | Started _ (Err e) => Some (VErr e)
  | Got _ (Ok r) => Some (VRound (rp_id r))
  | Got _ (Err e) => Some (VErr e)
  | StopRoundDone _ None => Some VOk
  | StopRoundDone _ (Some e) => Some (VErr e)
  | _ => None
  end.

(** The method of a round that a goroutine of the manager is at. *)
Definition round_method (t : nat) (mg : Manager.goroutine)
    : option (roundPtr * request blockID * (option error -> Manager.label)) :=
  match mg with
  | StopRoundWait _ r => Some (r, StopRequest, LRoundStopped t)
  | StopFinalize r _ => Some (r, FinalizeRequest, LRoundFinal t)
  | _ => None
  end.

Inductive managed_label :=
| DNode (l : chained_label)       (* the rest of the node *)
| DCall (g t : nat)               (* a goroutine enters a method of the manager, as [t] there *)
| DManager (l : Manager.label)    (* the manager's goroutines; its [Stop] begins *)
| DRound (t c : nat)              (* the manager's [t] enters a method of a round, as [c] there *)
| DBack (t : nat)                 (* and is back *)
| DReturn (g : nat).              (* the manager's method returns to the layer *)

(** The layer's requests to the manager are not answered from outside, and
    rounds are stopped by the manager only. *)
Definition by_manager nd (l : node_label (I:=blockID)) : bool :=
  match l with
  | NEnv g _ => match asking nd g with Some _ => true | None => false end
  | NRound _ (LCall _ _) => true
  | _ => false
  end.

Definition independent nd (l : chained_label) : bool :=
  match l with KFull (FNode l) => negb (by_manager nd l) | _ => true end.

(** The manager's own steps. *)
Definition on_its_own (l : Manager.label) : bool :=
  match l with
  | Manager.LRecv _ | Manager.LCtx _ _ | Manager.LCancel _ | LRemove _ | LStop _ => true
  | _ => false
  end.

Definition layer_label (l : node_label (I:=blockID)) : chained_label := KFull (FNode l).

Definition exec_managed (signer : S) (l : managed_label) md : option managed :=
  match l with
  | DNode l =>
      if independent (layer md) l
      then cd ← m_exec signer l (d_node md); Some (MkManaged cd (d_mgr md) (d_wait md) (d_busy md))
      else None
  | DCall g t =>
      p ← asking (layer md) g;
      match d_wait md !! g with
      | Some _ => None
      | None =>
          m ← Manager.exec_label (enters t p) (d_mgr md);
          match p with
          | ToStart _ =>
              mg ← g_gos m !! t;
              v ← answer_of mg;
              cd ← m_exec signer (layer_label (NEnv g v)) (d_node md);
              Some (MkManaged cd m (d_wait md) (d_busy md))
          | _ => Some (MkManaged (d_node md) m (<[g := t]> (d_wait md)) (d_busy md))
          end
      end
  | DManager l =>
      if on_its_own l
      then m ← Manager.exec_label l (d_mgr md);
           Some (MkManaged (d_node md) m (d_wait md) (d_busy md))
      else None
  | DRound t c =>
      mg ← g_gos (d_mgr md) !! t;
      '(r, rq, _) ← round_method t mg;
      match d_busy md !! t with
      | Some _ => None
      | None =>
          cd ← m_exec signer (layer_label (NRound (rp_id r) (LCall c rq))) (d_node md);
          Some (MkManaged cd (d_mgr md) (d_wait md) (<[t := c]> (d_busy md)))
      end
  | DBack t =>
      mg ← g_gos (d_mgr md) !! t;
      '(r, _, back) ← round_method t mg;
      c ← d_busy md !! t;
      s ← n_rounds (layer md) !! rp_id r;
      cl ← s_callers s !! c;
      match pc cl with
      | PReturned _ err =>
          m ← Manager.exec_label (back err) (d_mgr md);
          Some (MkManaged (d_node md) m (d_wait md) (delete t (d_busy md)))
      | _ => None
      end
  | DReturn g =>
      t ← d_wait md !! g;
      mg ← g_gos (d_mgr md) !! t;
      v ← answer_of mg;
      cd ← m_exec signer (layer_label (NEnv g v)) (d_node md);
      Some (MkManaged cd (d_mgr md) (delete g (d_wait md)) (d_busy md))
  end.

#[export] Instance managed_machine : NodeMachine (S:=S) managed managed_label := {|
  m_start := MkManaged m_start Manager.start ∅ ∅;
  m_exec := exec_managed;
  m_view := layer;
  m_delivers l := match l with DNode l => m_delivers (NodeMachine:=chain_machine) l | _ => [] end;
|}.

(** The cases of a step. *)
Inductive managed_step (signer : S) md : managed_label -> managed -> Prop :=
| ms_node l cd : independent (layer md) l = true -> m_exec signer l (d_node md) = Some cd ->
    managed_step signer md (DNode l) (MkManaged cd (d_mgr md) (d_wait md) (d_busy md))
| ms_start g t num m mg v cd :
    asking (layer md) g = Some (ToStart num) -> d_wait md !! g = None ->
    Manager.exec_label (LStart t num) (d_mgr md) = Some m -> g_gos m !! t = Some mg ->
    answer_of mg = Some v -> m_exec signer (layer_label (NEnv g v)) (d_node md) = Some cd ->
    managed_step signer md (DCall g t) (MkManaged cd m (d_wait md) (d_busy md))
| ms_call g t p m : asking (layer md) g = Some p -> (forall num, p <> ToStart num) ->
    d_wait md !! g = None -> Manager.exec_label (enters t p) (d_mgr md) = Some m ->
    managed_step signer md (DCall g t) (MkManaged (d_node md) m (<[g := t]> (d_wait md)) (d_busy md))
| ms_manager l m : on_its_own l = true -> Manager.exec_label l (d_mgr md) = Some m ->
    managed_step signer md (DManager l) (MkManaged (d_node md) m (d_wait md) (d_busy md))
| ms_round t c mg r rq back cd :
    g_gos (d_mgr md) !! t = Some mg -> round_method t mg = Some (r, rq, back) ->
    d_busy md !! t = None ->
    m_exec signer (layer_label (NRound (rp_id r) (LCall c rq))) (d_node md) = Some cd ->
    managed_step signer md (DRound t c) (MkManaged cd (d_mgr md) (d_wait md) (<[t := c]> (d_busy md)))
| ms_back t c mg r rq back s cl comm err m :
    g_gos (d_mgr md) !! t = Some mg -> round_method t mg = Some (r, rq, back) ->
    d_busy md !! t = Some c -> n_rounds (layer md) !! rp_id r = Some s -> s_callers s !! c = Some cl ->
    pc cl = PReturned comm err -> Manager.exec_label (back err) (d_mgr md) = Some m ->
    managed_step signer md (DBack t) (MkManaged (d_node md) m (d_wait md) (delete t (d_busy md)))
| ms_return g t mg v cd :
    d_wait md !! g = Some t -> g_gos (d_mgr md) !! t = Some mg -> answer_of mg = Some v ->
    m_exec signer (layer_label (NEnv g v)) (d_node md) = Some cd ->
    managed_step signer md (DReturn g) (MkManaged cd (d_mgr md) (delete g (d_wait md)) (d_busy md)).

Lemma exec_managed_spec signer l md md' :
  exec_managed signer l md = Some md' -> managed_step signer md l md'.
Proof.
  intros H. destruct l as [l|g t|l|t c|t|g]; cbn [exec_managed] in H.
  - destruct (independent _ _) eqn:Hi; [|done]. apply bind_Some in H as (cd & Hx & [= <-]). by apply ms_node.
  - apply bind_Some in H as (p & Hp & H). destruct (d_wait md !! g) eqn:Hw; [done|].
    apply bind_Some in H as (m & Hm & H).
    destruct p; simplify_eq; try (by eapply ms_call). apply bind_Some in H as (mg & Hmg & H).
    apply bind_Some in H as (v & Hv & H). apply bind_Some in H as (cd & Hx & [= <-]). by eapply ms_start.
  - destruct (on_its_own l) eqn:Hi; [|done]. apply bind_Some in H as (m & Hm & [= <-]). by apply ms_manager.
  - apply bind_Some in H as (mg & Hmg & H). apply bind_Some in H as ([[r rq] back] & Hr & H).
    destruct (d_busy md !! t) eqn:Hb; [done|]. apply bind_Some in H as (cd & Hx & [= <-]). by eapply ms_round.
  - apply bind_Some in H as (mg & Hmg & H). apply bind_Some in H as ([[r rq] back] & Hr & H).
    apply bind_Some in H as (c & Hb & H). apply bind_Some in H as (s & Hs & H).
    apply bind_Some in H as (cl & Hcl & H). destruct (pc cl) eqn:Ep; try done.
    apply bind_Some in H as (m & Hm & [= <-]). by eapply ms_back.
  - apply bind_Some in H as (t & Ht & H). apply bind_Some in H as (mg & Hmg & H).
    apply bind_Some in H as (v & Hv & H). apply bind_Some in H as (cd & Hx & [= <-]). by eapply ms_return.
Qed.

(** The node of [ChainNode.v] inside. *)
Lemma chain_inside : MachineInside managed_machine chain_machine d_node.
Proof.
  split; [done|done|]. intros signer l md md' H%exec_managed_spec.
  destruct H; try (by left); right; eexists; by (split; [eassumption|]).
Qed.

#[export] Instance managed_laws : NodeMachineLaws NewHasher decode_id incl managed managed_label.
Proof.
  apply (inside_laws NewHasher decode_id incl managed_machine chain_machine d_node chain_inside).
  apply chained_laws.
Qed.

(** ** What a step of the layer keeps *)

Definition numbers nd : list Z := (fun s => roundNum (s_round s)) <$> n_rounds nd.

Definition round_closed nd (num : Z) : Prop :=
  exists n s, n_rounds nd !! n = Some s /\ roundNum (s_round s) = num /\ closedCh (s_round s) = true.

(** [StopRound] returned nil. *)
Definition stopped_round (o : occ E) : option Z :=
  let '@Occ _ X e x := o in
  match e in broE _ _ _ X return X -> option Z with
  | Gossip.StopRound num => fun x => match x with Ok _ => Some num | _ => None end
  | _ => fun _ => None
  end x.

Definition stopped_by nd (g : nat) (num : Z) : Prop :=
  exists go, n_gos nd !! g = Some go /\ num ∈ omap stopped_round (g_trace go).

Definition rounds_kept nd nd' : Prop :=
  forall n s, n_rounds nd !! n = Some s -> exists s', n_rounds nd' !! n = Some s' /\ round_le s s'.

Lemma rounds_kept_refl nd : rounds_kept nd nd.
Proof. intros n s Hs. by exists s. Qed.

Lemma round_closed_kept nd nd' num : rounds_kept nd nd' -> round_closed nd num -> round_closed nd' num.
Proof.
  intros Hk (n & s & Hs & En & Hc). destruct (Hk n s Hs) as (s' & Hs' & Hle).
  exists n, s'. split; [done|]. split; [by rewrite (rl_num _ _ Hle)|by apply (rl_closed _ _ Hle)].
Qed.

Lemma layer_kept signer l nd nd' : layer_step signer l nd = Some nd' -> rounds_kept nd nd'.
Proof.
  intros [E0|n s lb s' Hs Hx E0|g num q _ _ E0]%step_rounds m s0 Hm; rewrite E0.
  - by exists s0.
  - destruct (decide (m = n)) as [->|Hne].
    + rewrite list_lookup_insert_eq by (by eapply lookup_lt_Some). exists s'.
      assert (s0 = s) as -> by congruence. split; [done|]. by eapply exec_label_le.
    + exists s0. by rewrite list_lookup_insert_ne.
  - exists s0. split; [by apply lookup_app_l_Some|done].
Qed.

Lemma starting_asking nd g num : starting nd g = Some num <-> asking nd g = Some (ToStart num).
Proof.
  unfold starting, asking. destruct (n_gos nd !! g) as [go|]; [|done]. cbn.
  destruct (g_rest go) as [|X e k]; [done|]. destruct (g_call go); [done|].
  destruct e; try done. split; intros [= ->]; done.
Qed.

Lemma layer_numbers signer l nd nd' :
  layer_step signer l nd = Some nd' ->
  (forall g num, l = NEnv g VOk -> asking nd g <> Some (ToStart num)) -> numbers nd' = numbers nd.
Proof.
  intros [E0|n s lb s' Hs Hx E0|g num q El Ha E0]%step_rounds Hl; unfold numbers; rewrite E0; [done| |].
  - rewrite list_fmap_insert, (rl_num _ _ (exec_label_le _ _ _ Hx)). apply list_insert_id.
    by rewrite list_lookup_fmap, Hs.
  - exfalso. by apply (Hl g num El), starting_asking.
Qed.

(** The answers of the manager. *)
Lemma answered_start signer g num nd nd' v :
  asking nd g = Some (ToStart num) -> layer_step signer (NEnv g v) nd = Some nd' ->
  (v = VOk /\ numbers nd' = numbers nd ++ [num]) \/ (v <> VOk /\ numbers nd' = numbers nd).
Proof.
  unfold asking. intros Ha H. cbn [exec_node] in H. destruct (n_gos nd !! g) as [go|]; [|done].
  cbn in Ha, H. destruct (g_rest go) as [|X e k]; [done|]. destruct (g_call go); [done|].
  apply bind_Some in H as ([l' x] & He & [= <-]). destruct e; simplify_eq/=.
  destruct v; simplify_eq/=; [left|by right..]. split; [done|]. unfold numbers. cbn. by rewrite fmap_app.
Qed.

Lemma layer_asking signer l nd nd' g p :
  layer_step signer l nd = Some nd' -> (forall v, l <> NEnv g v) ->
  asking nd g = Some p -> asking nd' g = Some p.
Proof.
  intros H Hl Ha. unfold asking in *. destruct (n_gos nd !! g) as [go|] eqn:Hg; [|done]. simpl in Ha.
  destruct (g_rest go) as [|X e k] eqn:Er; [done|]. destruct (g_call go) eqn:Ec; [done|].
  assert (n_gos nd' !! g = Some go) as ->; [|by cbn; rewrite Er, Ec].
  eapply step_waiting; [exact H|exact Hg|exact Er|exact Ec|by destruct e|exact Hl].
Qed.

Lemma layer_stopped signer l nd nd' g num :
  layer_step signer l nd = Some nd' -> stopped_by nd' g num ->
  stopped_by nd g num \/ (l = NEnv g VOk /\ asking nd g = Some (ToStop num)).
Proof.
  intros H (go' & Hg' & Hin). destruct l as [g0 t|g0 v|g0 t|g0|n lb]; cbn [exec_node] in H.
  - destruct (n_gos nd !! g0) eqn:Hg0; [done|]. injection H as <-. cbn in Hg'.
    apply lookup_insert_Some in Hg' as [[<- <-]|[_ Hg']]; [by apply elem_of_nil in Hin|]. left. by exists go'.
  - apply bind_Some in H as (go & Hg & H). destruct (g_rest go) as [|X e k] eqn:Er; [done|].
    destruct (g_call go) eqn:Ec; [done|]. apply bind_Some in H as ([l' x0] & He & [= <-]). cbn in Hg'.
    apply lookup_insert_Some in Hg' as [[<- <-]|[_ Hg']]; [|left; by exists go'].
    cbn [answered g_trace] in Hin. rewrite omap_app, elem_of_app in Hin.
    destruct Hin as [Hin|Hin]; [left; by exists go|]. right.
    destruct e; try (by apply elem_of_nil in Hin). cbn in He, Hin.
    destruct v; simplify_eq/=; try (by apply elem_of_nil in Hin).
    apply list_elem_of_singleton in Hin as ->. split; [done|]. unfold asking. by rewrite Hg; cbn; rewrite Er, Ec.
  - apply bind_Some in H as (go & Hg & H). destruct (g_rest go) as [|X e k] eqn:Er; [done|].
    destruct (g_call go); [done|]. apply bind_Some in H as ([[n rq] ans] & _ & H).
    apply bind_Some in H as (s & _ & H). apply bind_Some in H as (s' & _ & [= <-]). cbn in Hg'. left.
    apply lookup_insert_Some in Hg' as [[<- <-]|[_ Hg']]; [by exists go|by exists go'].
  - apply bind_Some in H as (go & Hg & H). destruct (g_rest go) as [|X e k] eqn:Er; [done|].
    destruct (g_call go) as [[n t]|]; [|done]. apply bind_Some in H as ([[n' rq] ans] & Hrc & H).
    apply bind_Some in H as (s & _ & H). apply bind_Some in H as (cl & _ & H).
    destruct (pc cl); simplify_eq. cbn in Hg'. left.
    apply lookup_insert_Some in Hg' as [[<- <-]|[_ Hg']]; [|by exists go'].
    exists go. split; [done|]. cbn [answered g_trace] in Hin. rewrite omap_app, elem_of_app in Hin.
    destruct Hin as [Hin|Hin]; [done|]. exfalso. by destruct e; try discriminate; apply elem_of_nil in Hin.
  - destruct (internal lb); [|done]. apply bind_Some in H as (s & _ & H).
    apply bind_Some in H as (s' & _ & [= <-]). left. by exists go'.
Qed.

(** A step of the rest of the node is at most one of the layer; unless it is
    given as such ([own]), none that the manager answers. *)
Abbreviation full := (Availability.full (K:=K)).

Definition layer_only (own : node_label (I:=blockID) -> Prop) signer nd nd' : Prop :=
  nd' = nd \/ exists l, layer_step signer l nd = Some nd' /\ (own l \/ by_manager nd l = false).

Lemma certifying_asking nd g msg : certifying nd g = Some msg -> asking nd g = None.
Proof.
  unfold certifying, asking. destruct (n_gos nd !! g) as [go|]; [|done]. cbn.
  destruct (g_rest go) as [|X e k]; [done|]. destruct (g_call go); [done|]. by destruct e.
Qed.

Lemma full_layer signer l (f f' : full) :
  Availability.full_ok f -> exec_full NewHasher decode_id incl signer l f = Some f' ->
  layer_only (fun l0 => l = FNode l0) signer (f_node f) (f_node f').
Proof.
  intros Hok H. destruct l as [l|l|g|g t|g|g]; cbn [exec_full] in H.
  - destruct (outside _ _); [|done]. apply bind_Some in H as (nd' & Hx & [= <-]). right. exists l. auto.
  - apply bind_Some in H as (p & _ & [= <-]). by left.
  - apply bind_Some in H as (msg & _ & H). destruct (f_jobs f !! g); simplify_eq. by left.
  - apply bind_Some in H as (j & _ & H). destruct (j_rest j) as [|X e k]; [done|]. destruct (j_wait j); [done|].
    destruct e. apply bind_Some in H as (p & _ & [= <-]). by left.
  - apply bind_Some in H as (j & _ & H). apply bind_Some in H as (t & _ & H).
    apply bind_Some in H as (w & _ & H). apply bind_Some in H as (r & _ & [= <-]). by left.
  - apply bind_Some in H as (j & Hj & H). destruct (j_rest j); [|done].
    apply bind_Some in H as (v & _ & H). apply bind_Some in H as (nd' & Hx & [= <-]). right.
    exists (NEnv g v). split; [exact Hx|]. right. cbn.
    by rewrite (certifying_asking _ _ _ (jk_go _ _ _ (fk_jobs _ Hok g j Hj))).
Qed.

Lemma chained_layer signer l cd cd' :
  Availability.full_ok (c_full cd) -> m_exec signer l cd = Some cd' ->
  layer_only (fun l0 => l = layer_label l0) signer (m_view cd) (m_view cd') /\
  Availability.full_ok (c_full cd').
Proof.
  intros Hok H%exec_chained_spec.
  assert (forall l0 f', exec_full NewHasher decode_id incl signer l0 (c_full cd) = Some f' ->
    layer_only (fun l1 => l0 = FNode l1) signer (f_node (c_full cd)) (f_node f') /\ Availability.full_ok f') as Hfull.
  { intros l0 f' Hx. split; [by eapply full_layer|by eapply step_full_ok]. }
  destruct H as [l f f' oh _ Hx|n f|l f h cd' _ Hc]; cbn [c_full m_view chain_machine chained_machine] in *.
  - destruct (Hfull _ _ Hx) as [[E0|(l0 & Hl & Ho)] Hf]; (split; [|done]); [left; exact E0|right].
    exists l0. split; [done|]. by destruct Ho as [->|Ho]; [left|right].
  - split; [by left|done].
  - destruct Hc as [X e k ctx l' x f' _ _ Ha Hx|X e k t l' f' _ _ Ha Hx|X e k t x _ _ _]; cbn [c_full].
    + destruct l' as [l'|]; [|subst; split; [by left|done]].
      destruct (Hfull _ _ Hx) as [Hl Hf]. split; [|done].
      destruct Hl as [E0|(l0 & Hl & Ho)]; [left; exact E0|right]. exists l0. split; [done|right].
      destruct Ho as [->|Ho]; [|done]. exfalso. destruct e; simplify_eq/=; try done.
      by repeat (apply bind_Some in Ha as (? & _ & Ha); simplify_eq).
    + destruct (Hfull _ _ Hx) as [Hl Hf]. split; [|done].
      destruct Hl as [E0|(l0 & Hl & Ho)]; [left; exact E0|right]. exists l0. split; [done|right].
      destruct Ho as [->|Ho]; [|done]. by destruct e; simplify_eq/=.
    + split; [by left|done].
Qed.

(** ** The invariant *)

(** A goroutine of the manager serves what the layer's goroutine asked for. *)
Definition serves nd m (g t : nat) : Prop :=
  exists mg p, g_gos m !! t = Some mg /\ purpose_of mg = p /\ asking nd g = Some p /\
    forall num, p <> ToStart num.

(** A goroutine of the manager is a caller of a round it knows. *)
Definition calls nd m (t c : nat) : Prop :=
  exists mg r rq back s cl, g_gos m !! t = Some mg /\ round_method t mg = Some (r, rq, back) /\
    n_rounds nd !! rp_id r = Some s /\ s_callers s !! c = Some cl /\
    (rq = StopRequest -> stop_caller s cl).

Record managed_ok md : Prop := {
  mk_full : Availability.full_ok (c_full (d_node md));
  mk_mgr : Manager.reach (d_mgr md);
  mk_numbers : numbers (layer md) = reverse (g_started (d_mgr md));
  mk_wait : forall g t, d_wait md !! g = Some t -> serves (layer md) (d_mgr md) g t;
  mk_busy : forall t c, d_busy md !! t = Some c -> calls (layer md) (d_mgr md) t c;
  mk_past : forall t mg num, g_gos (d_mgr md) !! t = Some mg -> past_stop mg = Some num ->
    round_closed (layer md) num;
  mk_stopped : forall g num, stopped_by (layer md) g num ->
    round_closed (layer md) num /\ gone num (d_mgr md);
}.

Lemma calls_kept nd nd' m t c : rounds_kept nd nd' -> calls nd m t c -> calls nd' m t c.
Proof.
  intros Hk (mg & r & rq & back & s & cl & Hm & Hr & Hs & Hcl & Hst).
  destruct (Hk _ s Hs) as (s' & Hs' & Hle). destruct (rl_caller _ _ Hle c cl Hcl) as (cl' & Hcl' & Hst').
  exists mg, r, rq, back, s', cl'. split_and!; auto.
Qed.

(** A pointer of the manager is to a round of the node. *)
Lemma present_round md r :
  managed_ok md -> present (d_mgr md) r ->
  exists s, n_rounds (layer md) !! rp_id r = Some s /\ roundNum (s_round s) = rp_num r.
Proof.
  intros Hok Hp. pose proof (is_present _ (reach_issues _ (mk_mgr _ Hok)) r Hp) as Hi.
  unfold issued in Hi. rewrite <- (mk_numbers _ Hok) in Hi. unfold numbers in Hi.
  rewrite list_lookup_fmap in Hi. destruct (n_rounds (layer md) !! rp_id r) as [s|]; [|done].
  exists s. split; [done|]. by injection Hi.
Qed.

(** The rest of the node moves. *)
Lemma node_moved md cd w b :
  managed_ok md -> Availability.full_ok (c_full cd) ->
  rounds_kept (layer md) (m_view cd) -> numbers (m_view cd) = numbers (layer md) ->
  (forall g t, w !! g = Some t -> d_wait md !! g = Some t /\
     forall p, asking (layer md) g = Some p -> asking (m_view cd) g = Some p) ->
  (forall t c, b !! t = Some c -> d_busy md !! t = Some c \/ calls (m_view cd) (d_mgr md) t c) ->
  (forall g num, stopped_by (m_view cd) g num -> stopped_by (layer md) g num \/
     (round_closed (layer md) num /\ gone num (d_mgr md))) ->
  managed_ok (MkManaged cd (d_mgr md) w b).
Proof.
  intros Hok Hf Hk Hn Hw Hb Hs. split; cbn [d_node d_mgr d_wait d_busy]; [done|apply Hok|..].
  - change (numbers (m_view cd) = reverse (g_started (d_mgr md))). rewrite Hn. apply Hok.
  - intros g t [Hg Ha]%Hw. destruct (mk_wait _ Hok g t Hg) as (mg & p & Hmg & Hp & Hask & Hne).
    exists mg, p. split_and!; [done..|by apply Ha|done].
  - intros t c [Hc|Hc]%Hb; [|done]. by eapply calls_kept, mk_busy.
  - intros t mg num Hmg Hp. eapply round_closed_kept; [exact Hk|]. by eapply (mk_past _ Hok).
  - intros g num Hst. destruct (Hs g num Hst) as [Hst'|[Hc Hg]].
    + destruct (mk_stopped _ Hok g num Hst') as [Hc Hg]. split; [|done]. by eapply round_closed_kept.
    + split; [|done]. by eapply round_closed_kept.
Qed.

Definition from_round (l : Manager.label) : bool :=
  match l with LRoundStopped _ _ | LRoundFinal _ _ => true | _ => false end.

(** The manager moves, and the layer possibly with it. *)
Lemma manager_moved md l m cd w b :
  managed_ok md -> Manager.exec_label l (d_mgr md) = Some m ->
  Availability.full_ok (c_full cd) -> rounds_kept (layer md) (m_view cd) ->
  numbers (m_view cd) = reverse (g_started m) ->
  (forall g t, w !! g = Some t -> (d_wait md !! g = Some t /\
     forall p, asking (layer md) g = Some p -> asking (m_view cd) g = Some p) \/
     serves (m_view cd) m g t) ->
  (forall t c, b !! t = Some c -> d_busy md !! t = Some c /\ (from_round l = true -> t <> goroutine_of l)) ->
  (forall g num, stopped_by (m_view cd) g num -> stopped_by (layer md) g num) ->
  (forall r num, l = LRoundStopped (goroutine_of l) None ->
     g_gos (d_mgr md) !! goroutine_of l = Some (StopRoundWait num r) -> round_closed (layer md) num) ->
  managed_ok (MkManaged cd m w b).
Proof.
  intros Hok Hx Hf Hk Hn Hw Hb Hs Hst. pose proof (manager_reach_sys_ok _ (mk_mgr _ Hok)) as Hsys.
  pose proof (step_moved _ _ _ Hsys Hx) as Hmv.
  split; cbn [d_node d_mgr d_wait d_busy]; [done| |exact Hn|..].
  - eapply rtc_r; [apply (mk_mgr _ Hok)|by exists l].
  - intros g t Hg. destruct (Hw g t Hg) as [[Hg0 Ha]|Hsv]; [|done].
    destruct (mk_wait _ Hok g t Hg0) as (mg & p & Hmg & Hp & Hask & Hne).
    destruct (moved_purpose _ _ _ _ _ Hmv Hmg) as (mg' & Hmg' & Hp').
    exists mg', p. split_and!; [done|congruence|by apply Ha|done].
  - intros t c [Hc Hfr]%Hb. eapply calls_kept; [exact Hk|].
    destruct (mk_busy _ Hok t c Hc) as (mg & r & rq & back & s & cl & Hmg & Hr & Hrest).
    exists mg, r, rq, back, s, cl. split; [|done].
    destruct (decide (t = goroutine_of l)) as [->|Hne]; [exfalso|by rewrite (moved_other _ _ _ _ Hmv Hne)].
    destruct (in_round_step _ _ _ _ Hsys Hx Hmg) as [H1 H2]. apply Hfr; [|done].
    destruct mg; try done; [destruct (H1 _ _ eq_refl) as (? & ? & ->)|destruct (H2 _ _ eq_refl) as (? & ? & ->)]; done.
  - intros t mg num Hmg Hp. eapply round_closed_kept; [exact Hk|].
    destruct (decide (t = goroutine_of l)) as [->|Hne].
    + destruct (past_stop_go _ _ _ _ _ Hsys Hx Hmg Hp) as [(mg0 & Hmg0 & Hp0)|(r & El & Hmg0)];
        [by eapply (mk_past _ Hok)|by eapply Hst].
    + rewrite (moved_other _ _ _ _ Hmv Hne) in Hmg. by eapply (mk_past _ Hok).
  - intros g num Hg. destruct (mk_stopped _ Hok g num (Hs g num Hg)) as [Hc Hgone].
    split; [by eapply round_closed_kept|by eapply gone_mono].
Qed.

(** ** Every step preserves it *)

Lemma exec_layer signer l cd cd' :
  m_exec signer (layer_label l) cd = Some cd' -> layer_step signer l (m_view cd) = Some (m_view cd').
Proof.
  cbn [m_exec chain_machine chained_machine exec_chained layer_label].
  destruct (foreign (FNode l)); [|done]. intros H. apply bind_Some in H as (f' & H & [= <-]).
  cbn [m_exec full_machine exec_full inner_machine] in H.
  destruct (outside _ l); [|done]. by apply bind_Some in H as (nd' & H & [= <-]).
Qed.

Lemma quiet_layer signer l nd nd' :
  by_manager nd l = false -> layer_step signer l nd = Some nd' ->
  numbers nd' = numbers nd /\ (forall g p, asking nd g = Some p -> asking nd' g = Some p) /\
  forall g num, stopped_by nd' g num -> stopped_by nd g num.
Proof.
  intros Hb H. split_and!.
  - eapply layer_numbers; [exact H|]. intros g num -> Ha. cbn in Hb. by rewrite Ha in Hb.
  - intros g p Ha. eapply layer_asking; [exact H| |done]. intros v ->. cbn in Hb. by rewrite Ha in Hb.
  - intros g num Hs. destruct (layer_stopped _ _ _ _ _ _ H Hs) as [|[-> Ha]]; [done|].
    cbn in Hb. by rewrite Ha in Hb.
Qed.

Lemma enters_fresh t p m m' : Manager.exec_label (enters t p) m = Some m' -> g_gos m !! t = None.
Proof.
  unfold Manager.exec_label. destruct (g_dead m); [done|].
  assert (goroutine_of (enters t p) = t) as -> by by destruct p.
  destruct (g_gos m !! t) as [g|]; [|done]. by destruct p, g.
Qed.

Lemma entered_round signer n c rq nd nd' :
  layer_step signer (NRound n (LCall c rq)) nd = Some nd' -> exists s cl, n_rounds nd' !! n = Some s /\
    s_callers s !! c = Some cl /\ (rq = StopRequest -> stop_caller s cl).
Proof.
  cbn [exec_node]. destruct (internal _); [|done]. intros H. apply bind_Some in H as (s & Hs & H).
  apply bind_Some in H as (s' & Hx & [= <-]). cbn.
  rewrite list_lookup_insert_eq by (by eapply lookup_lt_Some). exists s'.
  unfold exec_label in Hx. destruct (s_crash s); [done|]. destruct (s_callers s !! c); [done|].
  injection Hx as <-. unfold enter. destruct rq; cbn; (eexists; split_and!; [done|apply lookup_insert_eq|done]).
Qed.

Section step.
Context (signer : S) (md : managed) (Hok : managed_ok md).

Lemma manager_sys : Manager.sys_ok (d_mgr md).
Proof. apply manager_reach_sys_ok, Hok. Qed.

Lemma layer_moves l cd : m_exec signer (layer_label l) (d_node md) = Some cd ->
  layer_step signer l (layer md) = Some (m_view cd) /\ rounds_kept (layer md) (m_view cd) /\
  Availability.full_ok (c_full cd).
Proof.
  intros Hx. pose proof (exec_layer _ _ _ _ Hx) as H. split_and!; [done|by eapply layer_kept|].
  by destruct (chained_layer signer _ _ _ (mk_full _ Hok) Hx).
Qed.

Lemma node_step_ok l cd :
  independent (layer md) l = true -> m_exec signer l (d_node md) = Some cd ->
  managed_ok (MkManaged cd (d_mgr md) (d_wait md) (d_busy md)).
Proof.
  intros Hi Hx.
  destruct (chained_layer signer l _ cd (mk_full _ Hok) Hx) as [[E0|(l0 & H0 & Ho)] Hf].
  + apply node_moved; rewrite ?E0; auto using rounds_kept_refl.
  + destruct (quiet_layer signer l0 (layer md) (m_view cd)) as (Hn & Has & Hst); [|done|].
    { destruct Ho as [->|Ho]; [|done]. cbn in Hi. by apply negb_true_iff in Hi. }
    apply node_moved; auto. by eapply layer_kept.
Qed.

(** [StartRound] and the layer agree on whether there is a new round. *)
Lemma started_numbers g t num m mg v nd' :
  asking (layer md) g = Some (ToStart num) -> g_gos (d_mgr md) !! t = None ->
  moved (LStart t num) (d_mgr md) m -> g_gos m !! t = Some mg -> answer_of mg = Some v ->
  layer_step signer (NEnv g v) (layer md) = Some nd' -> numbers nd' = reverse (g_started m).
Proof.
  intros Ha Ht Hmv Hmg Hv H0.
  destruct (mv_go _ _ _ Hmv) as (mg' & E0 & Hp). cbn in E0, Hp. rewrite Ht in Hp. injection Hp as Hp.
  assert (mg' = mg) as -> by (rewrite E0, lookup_insert_eq in Hmg; congruence).
  destruct mg as [n r| | | | | | | | |]; try discriminate Hp. cbn in Hp, Hv. injection Hp as <-.
  destruct (mv_started _ _ _ Hmv) as [(Est & _ & _ & Hno & _)|(n0 & [= <-] & Hg0 & (n1 & _ & [= <-] & Est & _) & _)].
  * assert (v <> VOk) as Hv0.
    { intros ->. destruct r; try done. by eapply Hno. }
    destruct (answered_start _ _ _ _ _ _ Ha H0) as [[-> _]|[_ ->]]; [done|]. rewrite Est. apply Hok.
  * cbn in Hg0. rewrite Hmg in Hg0. injection Hg0 as E1. rewrite E1 in Hv. injection Hv as <-.
    destruct (answered_start _ _ _ _ _ _ Ha H0) as [[_ ->]|[? _]]; [|done].
    rewrite Est, reverse_cons. f_equal. apply Hok.
Qed.

Lemma start_step_ok g t num m mg v cd :
  asking (layer md) g = Some (ToStart num) -> d_wait md !! g = None ->
  Manager.exec_label (LStart t num) (d_mgr md) = Some m -> g_gos m !! t = Some mg ->
  answer_of mg = Some v -> m_exec signer (layer_label (NEnv g v)) (d_node md) = Some cd ->
  managed_ok (MkManaged cd m (d_wait md) (d_busy md)).
Proof.
  intros Ha Hw Hm Hmg Hv Hx.
  destruct (layer_moves _ _ Hx) as (H0 & Hk & Hf). pose proof (step_moved _ _ _ manager_sys Hm) as Hmv.
  assert (g_gos (d_mgr md) !! t = None) as Ht by (by apply (enters_fresh t (ToStart num) _ m)).
  assert (forall g' t', d_wait md !! g' = Some t' -> g' <> g) as Hne by (intros g' t' H' ->; congruence).
  eapply (manager_moved md (LStart t num)); try done.
  + by eapply started_numbers.
  + intros g' t' Hg'. left. split; [done|]. intros p. eapply layer_asking; [exact H0|].
    intros v' [= <- _]. by eapply Hne.
  + intros g' num' Hs. destruct (layer_stopped _ _ _ _ _ _ H0 Hs) as [|[[= <- _] Ha']]; [done|congruence].
Qed.

Lemma call_step_ok g t p m :
  asking (layer md) g = Some p -> (forall num, p <> ToStart num) ->
  d_wait md !! g = None -> Manager.exec_label (enters t p) (d_mgr md) = Some m ->
  managed_ok (MkManaged (d_node md) m (<[g := t]> (d_wait md)) (d_busy md)).
Proof.
  intros Ha Hp Hw Hm.
  pose proof (step_moved _ _ _ manager_sys Hm) as Hmv. pose proof (enters_fresh _ _ _ _ Hm) as Ht.
  assert (goroutine_of (enters t p) = t) as Egt by by destruct p.
  eapply (manager_moved md (enters t p)); try done; try apply rounds_kept_refl; try apply Hok.
  + destruct (mv_started _ _ _ Hmv) as [(-> & _)|(n & El & _)]; [apply Hok|].
    exfalso. destruct p; try done. by eapply Hp.
  + intros g' t' [[<- <-]|[_ Hg']]%lookup_insert_Some; [right|by left].
    destruct (mv_go _ _ _ Hmv) as (mg & E0 & Hpp). rewrite Egt in E0, Hpp. rewrite Ht in Hpp.
    exists mg, p. rewrite E0, lookup_insert_eq. split_and!; [done| |done..].
    assert (asked_to (enters t p) = Some p) as Eap by by destruct p. congruence.
  + intros t' c Hc. split; [done|]. by destruct p.
  + intros r num El. by destruct p.
Qed.

Lemma manager_step_kept l m :
  on_its_own l = true -> Manager.exec_label l (d_mgr md) = Some m ->
  managed_ok (MkManaged (d_node md) m (d_wait md) (d_busy md)).
Proof.
  intros Hl Hm.
  pose proof (step_moved _ _ _ manager_sys Hm) as Hmv.
  eapply (manager_moved md l); try done; try apply rounds_kept_refl; try apply Hok.
  + destruct (mv_started _ _ _ Hmv) as [(-> & _)|(n & El & _)]; [apply Hok|]. by rewrite El in Hl.
  + intros g' t' Hg'. by left.
  + intros t' c Hc. split; [done|]. by destruct l.
  + intros r num El. by rewrite El in Hl.
Qed.

Lemma round_call_ok t c mg r rq back cd :
  g_gos (d_mgr md) !! t = Some mg -> round_method t mg = Some (r, rq, back) ->
  m_exec signer (layer_label (NRound (rp_id r) (LCall c rq))) (d_node md) = Some cd ->
  managed_ok (MkManaged cd (d_mgr md) (d_wait md) (<[t := c]> (d_busy md))).
Proof.
  intros Hmg Hr Hx.
  destruct (layer_moves _ _ Hx) as (H0 & Hk & Hf). apply node_moved; try done.
  + eapply layer_numbers; [exact H0|done].
  + intros g' t' Hg'. split; [done|]. intros p. by eapply layer_asking.
  + intros t' c' [[<- <-]|[_ Hc]]%lookup_insert_Some; [right|by left].
    destruct (entered_round _ _ _ _ _ _ H0) as (s & cl & Hs & Hcl & Hst).
    by exists mg, r, rq, back, s, cl.
  + intros g' num Hs. destruct (layer_stopped _ _ _ _ _ _ H0 Hs) as [|[[=] _]]. by left.
Qed.

(** When [Round.Stop] returned nil the round is closed. *)
Lemma stopped_closed t c num r0 s cl comm :
  g_gos (d_mgr md) !! t = Some (StopRoundWait num r0) -> d_busy md !! t = Some c ->
  n_rounds (layer md) !! rp_id r0 = Some s -> s_callers s !! c = Some cl ->
  pc cl = PReturned comm None -> round_closed (layer md) num.
Proof.
  intros Hmg0 Hb Hs Hcl Hpc.
  destruct (mk_busy _ Hok t c Hb) as (mg1 & r1 & rq1 & back1 & s1 & cl1 & Hmg1 & Hr1 & Hs1 & Hcl1 & Hst1).
  assert (mg1 = StopRoundWait num r0) as -> by congruence. cbn in Hr1. injection Hr1 as <- <- <-.
  assert (s1 = s) as -> by congruence. assert (cl1 = cl) as -> by congruence.
  specialize (Hst1 eq_refl). unfold stop_caller in Hst1. rewrite Hpc in Hst1.
  destruct (present_round md r0 Hok) as (s2 & Hs2 & En); [by eapply knows_present; [exact Hmg0|left]|].
  assert (s2 = s) as -> by congruence. exists (rp_id r0), s. split_and!; [done| |done].
  pose proof (reach_stop_ok _ (mk_mgr _ Hok) t _ Hmg0) as [Ern _]. congruence.
Qed.

Lemma round_back_ok t c mg r rq back s cl comm err m :
  g_gos (d_mgr md) !! t = Some mg -> round_method t mg = Some (r, rq, back) ->
  d_busy md !! t = Some c -> n_rounds (layer md) !! rp_id r = Some s -> s_callers s !! c = Some cl ->
  pc cl = PReturned comm err -> Manager.exec_label (back err) (d_mgr md) = Some m ->
  managed_ok (MkManaged (d_node md) m (d_wait md) (delete t (d_busy md))).
Proof.
  intros Hmg Hr Hb Hs Hcl Hpc Hm.
  assert (from_round (back err) = true /\ goroutine_of (back err) = t) as [Hfr Egt]
    by (destruct mg; simplify_eq/=; done).
  pose proof (step_moved _ _ _ manager_sys Hm) as Hmv.
  eapply (manager_moved md (back err)); try done; try apply rounds_kept_refl; try apply Hok.
  + destruct (mv_started _ _ _ Hmv) as [(-> & _)|(n & El & _)]; [apply Hok|]. by rewrite El in Hfr.
  + intros g' t' Hg'. by left.
  + intros t' c' [Hne Hc]%lookup_delete_Some. split; [done|]. intros _. rewrite Egt. congruence.
  + intros r0 num El Hmg0. rewrite Egt in Hmg0, El. assert (mg = StopRoundWait num r0) as -> by congruence.
    cbn in Hr. injection Hr as <- <- <-. injection El as ->. by eapply stopped_closed.
Qed.

Lemma return_step_ok g t mg v cd :
  d_wait md !! g = Some t -> g_gos (d_mgr md) !! t = Some mg -> answer_of mg = Some v ->
  m_exec signer (layer_label (NEnv g v)) (d_node md) = Some cd ->
  managed_ok (MkManaged cd (d_mgr md) (delete g (d_wait md)) (d_busy md)).
Proof.
  intros Hw Hmg Hv Hx.
  destruct (layer_moves _ _ Hx) as (H0 & Hk & Hf).
  destruct (mk_wait _ Hok g t Hw) as (mg1 & p & Hmg1 & Hp & Ha & Hne).
  assert (mg1 = mg) as -> by congruence. apply node_moved; try done.
  + eapply layer_numbers; [exact H0|]. intros g' num [= <- _]. rewrite Ha. intros [= ->]. by eapply Hne.
  + intros g' t' [Hg Hg']%lookup_delete_Some. split; [done|]. intros p'. eapply layer_asking; [exact H0|].
    by intros v' [= ->].
  + intros t' c' Hc. by left.
  + intros g' num Hs. destruct (layer_stopped _ _ _ _ _ _ H0 Hs) as [|[[= <- ->] Ha']]; [by left|right].
    assert (mg = StopRoundDone num None) as ->.
    { rewrite Ha in Ha'. injection Ha' as Ep. rewrite Ep in Hp. destruct mg; try discriminate Hp.
      - by cbn in Hv.
      - by cbn in Hv.
      - cbn in Hv, Hp. injection Hp as ->. by destruct err. }
    split; [by eapply (mk_past _ Hok)|]. exact (reach_stop_ok _ (mk_mgr _ Hok) t _ Hmg).
Qed.
End step.

Lemma managed_step_ok signer l md md' : managed_ok md -> managed_step signer md l md' -> managed_ok md'.
Proof.
  intros Hok []; [by eapply node_step_ok|by eapply start_step_ok|by eapply call_step_ok
    |by eapply manager_step_kept|by eapply round_call_ok|by eapply round_back_ok|by eapply return_step_ok].
Qed.
End managed.
