(* ===== verification/ManagedProps.v ===== *)
(** What a node with its round manager ([Managed.v]) guarantees: the manager
    always has an answer that the layer takes, there is one round per number, a
    broadcast that succeeded leaves its round stopped; and in the network, on
    what the blocks of an honest member build. *)

From Stdlib Require Import Sorted.
From S2P Require Import Prelude Prog Sha256 Crypto CryptoInstance Capnp CapnpInstance Rebro Bapl Subs MemPool Block Includers Manager Issued Quorum QuorumProps Round RoundConc RoundInv RoundQuorum Provenance RoundProps RoundStop Gossip System SystemInv Dag GossipProps SystemProps DagProps Network Availability DagSystem ChainNode Managed.

Section properties.
Context {K S : Type} {PK : Crypto.PubKey K} {PL : PubKeyLaws K} {MO : MapOrder} {CP : Capnp}
  {CL : CapnpLaws} {SI : SignerI S}.
Context (incl : Includers K) (fresh : fresh_includers incl) (self : S -> K).

Abbreviation chained := (chained (K:=K)).
Abbreviation node := (System.node (I:=blockID) (K:=K)).
Abbreviation layer_step signer := (exec_node signer NewHasher decode_id incl).
Abbreviation E := (broE blockID (Quorum blockID K) (option (Certificate (I:=blockID) (Q:=Quorum blockID K)))).
Implicit Types (nd : node) (m : Manager.sys) (cd : chained) (md : managed (K:=K)).

#[local] Instance chain_machine : NodeMachine (S:=S) chained chained_label := chained_machine incl self.
#[local] Instance machine : NodeMachine (S:=S) (managed (K:=K)) managed_label := managed_machine incl self.
#[local] Instance machine_laws : NodeMachineLaws NewHasher decode_id incl (managed (K:=K)) managed_label :=
  managed_laws incl self.
Abbreviation exec := (exec_managed incl self).

(** ** The manager can always answer *)

(** An answer that the layer takes for a request. *)
Definition fits nd (p : purpose) (v : verdict) : Prop :=
  match p, v with
  | ToGet num, VRound n => exists s, n_rounds nd !! n = Some s /\ roundNum (s_round s) = num
  | ToStart _, VOk | ToStop _, VOk => True
  | ToStart _, VErr _ | ToGet _, VErr _ | ToStop _, VErr _ => True
  | _, _ => False
  end.

Lemma fits_taken signer cd g p v :
  asking (m_view cd) g = Some p -> fits (m_view cd) p v ->
  exists cd', m_exec signer (layer_label (NEnv g v)) cd = Some cd'.
Proof.
  intros Ha Hf. cbn [m_exec chain_machine chained_machine exec_chained layer_label foreign].
  cbn [m_exec full_machine exec_full inner_machine].
  assert (outside (f_node (c_full cd)) (NEnv g v) = true) as ->.
  { cbn. destruct (certifying _ g) as [msg|] eqn:Ec; [|done]. apply certifying_asking in Ec.
    change (asking (m_view cd) g = None) in Ec. congruence. }
  change (f_node (c_full cd)) with (m_view cd). cbn [exec_node]. unfold asking in Ha.
  destruct (n_gos (m_view cd) !! g) as [go|]; [|done]. cbn in Ha. cbn [mbind option_bind].
  destruct (g_rest go) as [|X e k]; [done|]. destruct (g_call go); [done|].
  assert (exists l x, env_answer e v (n_rounds (m_view cd)) = Some (l, x)) as (l & x & ->); [|by eexists].
  destruct e; try done; injection Ha as <-; destruct v; try done; cbn [env_answer plain mbind option_bind];
    try (by eexists _, _).
  destruct Hf as (s & -> & <-). cbn [mbind option_bind]. rewrite bool_decide_eq_true_2 by done. by eexists _, _.
Qed.

(** [StartRound] by a new goroutine, when the lock is free. *)
Lemma start_answered m t num :
  Manager.reach m -> g_gos m !! t = None -> g_lock m = None ->
  exists m' mg v, Manager.exec_label (LStart t num) m = Some m' /\ g_gos m' !! t = Some mg /\
    answer_of mg = Some v /\
    v = if bool_decide (latestRound (g_mgr m) < num) then VOk else VErr ErrElapsedRound.
Proof.
  intros Hr Ht Hl. pose proof (manager_reach_sys_ok _ Hr) as Hsys.
  unfold Manager.exec_label. rewrite (go_live _ Hsys). cbn [goroutine_of]. rewrite Ht.
  cbn [Manager.enter]. unfold section. rewrite Hl. case_bool_decide as Hn.
  - destruct (StartRound_new (g_next m) num (g_mgr m) (go_mgr _ Hsys) Hn) as [-> _].
    eexists _, _, _. split_and!; [reflexivity|cbn; apply lookup_insert_eq|reflexivity|done].
  - rewrite (StartRound_old (g_next m) num (g_mgr m)) by lia.
    eexists _, _, _. split_and!; [reflexivity|cbn; apply lookup_insert_eq|reflexivity|done].
Qed.

Lemma answer_fits md t mg v p :
  managed_ok md -> g_gos (d_mgr md) !! t = Some mg -> answer_of mg = Some v -> purpose_of mg = p ->
  fits (layer md) p v.
Proof.
  intros Hok Hmg Hv <-. destruct mg as [n [r|e|w|w]|n p c|n p c e|n [r|e|w|w]|n r|n|n [e|]|r rest|r rest|err];
    try done; injection Hv as <-; try done.
  destruct (present_round md r Hok) as (s & Hs & En); [by eapply knows_present; [exact Hmg|left]|].
  exists s. split; [done|]. rewrite En.
  by apply (go_got _ (manager_reach_sys_ok _ (mk_mgr _ Hok)) t n r).
Qed.

(** ** In the network *)

Context (honest : list S).
Implicit Type net : list (managed (K:=K)).
Abbreviation runs ls net := (net_runs (NM:=machine) honest ls net).

(** The node of [Availability.v] inside. *)
Definition inside_node md : full := c_full (d_node md).

Lemma start_managed_ok : managed_ok (m_start (NodeMachine:=machine)).
Proof.
  split; try done.
  - split; [constructor|done|done].
  - constructor.
  - by intros g num (go & Hg & _).
Qed.

Lemma net_managed_ok ls net : runs ls net -> Forall managed_ok net.
Proof.
  revert ls net. apply net_runs_ind; [apply Forall_replicate, start_managed_ok|].
  intros ls net [i l] net' _ Hx Hok. cbn [exec_net] in Hx. apply bind_Some in Hx as (signer & Hs & Hx).
  apply bind_Some in Hx as (md & Hmd & Hx). destruct (forallb _ _); [|done].
  apply bind_Some in Hx as (md' & Hstep & [= <-]). apply Forall_insert; [done|].
  eapply (managed_step_ok incl self signer l md md'); [by eapply Forall_lookup_1|]. exact (exec_managed_spec incl self signer l md md' Hstep).
Qed.

(** The layer of every node is an execution of [System.v]. *)
Lemma net_layer_ok ls net i md :
  runs ls net -> net !! i = Some md ->
  exists signer arrived, honest !! i = Some signer /\
    node_ok signer NewHasher decode_id incl arrived (layer md).
Proof.
  intros Hr Hi. pose proof (net_runs_ok NewHasher decode_id incl honest ls net Hr) as Hok.
  destruct (Forall2_lookup_r _ _ _ _ _ Hok Hi) as (signer & Hs & nls & Hrun & Hf).
  exists signer, (fun data => authentic honest net signer data = true). split; [done|]. by eapply runs_to_ok.
Qed.

Lemma increasing_once (l : list Z) n1 n2 x :
  StronglySorted Z.lt l -> l !! n1 = Some x -> l !! n2 = Some x -> n1 = n2.
Proof.
  intros Hs. revert n1 n2. induction Hs as [|y l _ IH Hy]; intros [|n1] [|n2] H1 H2; simplify_eq/=; try done.
  - pose proof (proj1 (Forall_lookup _ _) Hy n2 _ H2). simpl in *. lia.
  - pose proof (proj1 (Forall_lookup _ _) Hy n1 _ H1). simpl in *. lia.
  - f_equal. by apply IH.
Qed.

Lemma managed_numbers md : managed_ok md -> StronglySorted Z.lt (numbers (layer md)).
Proof. intros Hok. rewrite (mk_numbers _ Hok). apply started_increasing, Hok. Qed.

Lemma round_number_once md n1 n2 s1 s2 :
  managed_ok md -> n_rounds (layer md) !! n1 = Some s1 -> n_rounds (layer md) !! n2 = Some s2 ->
  roundNum (s_round s1) = roundNum (s_round s2) -> n1 = n2.
Proof.
  intros Hok H1 H2 E0. eapply (increasing_once _ _ _ (roundNum (s_round s1)) (managed_numbers md Hok));
    unfold numbers; rewrite list_lookup_fmap; [by rewrite H1|by rewrite H2, E0].
Qed.

(** C1: The blocks of an honest member build on available blocks: in a network
    where at most a third of the stake is faulty, every block that the chain
    of an honest node gives to its broadcaster is of a height [h], signed by
    the node; and either [h] is 1 and the block has no parents, or its parents
    are messages of round [h - 1], each of which honest members with more than
    a third of the stake certified and have the block of, having got every
    batch of it from their pools, except batches the pool reported deleted; and
    the parents' producers hold more than two thirds of the stake unless the
    node's certifier rejected a message of that round.  The adversary forges no
    signature of an honest member ([runs]), and readers accept the size of what
    the nodes published ([readable]). *)
Theorem blocks_build_on_available_blocks ls net i signer md g go msg :
  runs ls net -> readable net -> NoDup (honest_keys honest) ->
  3 * faulty_stake incl honest <= total (includers incl) ->
  honest !! i = Some signer -> net !! i = Some md ->
  n_gos (layer md) !! g = Some go -> g_task go = Produce msg ->
  exists c batches, round_message (self signer) c batches msg /\
    ((height c = 1 /\ lastCerts c = []) \/
     exists num, height c = u64 (num + 1) /\
       Forall (supported incl honest (map inside_node net) num) (lastCerts c) /\
       by_supermajority incl (inside_node md) num (lastCerts c)).
Proof.
  intros Hr Hread Hnd Hfaulty Hi Hmd Hg Et.
  destruct (net_runs_inside machine chain_machine d_node (chain_inside incl self) honest ls net Hr) as [ls' Hr'].
  assert (map inside_node net = map c_full (map d_node net)) as Emap by (by rewrite map_map).
  rewrite Emap. eapply (chained_blocks_supported incl self fresh honest ls'); try done.
  - rewrite <- Emap. intros n b (md' & -> & Hin)%list_elem_of_fmap. by apply Hread.
  - change (map d_node net) with (d_node <$> net). by rewrite list_lookup_fmap, Hmd.
Qed.

(** C6: A node has one round per number: the numbers of its rounds increase in
    the order in which the rounds were started, and all its goroutines, which
    broadcast the node's block or handle a gossip, that were given a round for
    a number were given the same one. *)
Theorem one_round_per_number ls net i md :
  runs ls net -> net !! i = Some md ->
  StronglySorted Z.lt (numbers (layer md)) /\
  forall g1 g2 go1 go2 num n1 n2,
    n_gos (layer md) !! g1 = Some go1 -> n_gos (layer md) !! g2 = Some go2 ->
    (num, n1) ∈ omap got_round (g_trace go1) -> (num, n2) ∈ omap got_round (g_trace go2) -> n1 = n2.
Proof.
  intros Hr Hi. pose proof (Forall_lookup_1 _ _ _ _ (net_managed_ok ls net Hr) Hi) as Hok.
  split; [by apply managed_numbers|].
  destruct (net_layer_ok ls net i md Hr Hi) as (signer & arrived & _ & Hnd).
  assert (forall g go num n, n_gos (layer md) !! g = Some go -> (num, n) ∈ omap got_round (g_trace go) ->
    exists s, n_rounds (layer md) !! n = Some s /\ roundNum (s_round s) = num) as Hgot.
  { intros g go num n Hg (o & Ho & Eo)%list_elem_of_omap.
    pose proof (gk_trace _ _ _ _ _ _ _ (nk_gos _ _ _ _ _ _ Hnd g go Hg)) as Htr.
    by apply (proj1 (Forall_forall _ _) Htr o Ho). }
  intros g1 g2 go1 go2 num n1 n2 H1 H2 Hn1 Hn2.
  destruct (Hgot g1 go1 num n1 H1 Hn1) as (s1 & Hs1 & E1). destruct (Hgot g2 go2 num n2 H2 Hn2) as (s2 & Hs2 & E2).
  eapply round_number_once; [done..|congruence].
Qed.

(** C7: A [Broadcast] that returns no error leaves its round stopped: the round
    that it started, the only one of the number of its message, has stopped
    its loop, and the manager does not know it any more. *)
Theorem broadcast_stops_its_round ls net i md g go msg :
  runs ls net -> net !! i = Some md ->
  n_gos (layer md) !! g = Some go -> g_task go = Produce msg -> g_rest go = Ret (inr (Ok tt)) ->
  exists id n s, msgID msg = Some id /\ omap got_round (g_trace go) = [(Round id, n)] /\
    n_rounds (layer md) !! n = Some s /\ closedCh (s_round s) = true /\ gone (Round id) (d_mgr md) /\
    forall n' s', n_rounds (layer md) !! n' = Some s' -> roundNum (s_round s') = Round id -> n' = n.
Proof.
  intros Hr Hi Hg Et Eg. pose proof (Forall_lookup_1 _ _ _ _ (net_managed_ok ls net Hr) Hi) as Hok.
  destruct (net_layer_ok ls net i md Hr Hi) as (signer & arrived & _ & Hnd).
  destruct (finished_trace NewHasher decode_id incl arrived signer _ g go msg Hnd Hg Et Eg)
    as (id & n & b & Hid & Etr).
  pose proof (gk_trace _ _ _ _ _ _ _ (nk_gos _ _ _ _ _ _ Hnd g go Hg)) as Htr. rewrite Etr in Htr.
  apply Forall_cons in Htr as [[Hstart _] _]. destruct (Hstart (Round id) n eq_refl) as (s & Hs & En).
  destruct (mk_stopped _ Hok g (Round id)) as [(n0 & s0 & Hs0 & En0 & Hc) Hgone].
  { exists go. split; [done|]. rewrite Etr. cbn. left. }
  assert (n0 = n) as -> by (eapply round_number_once; [done..|congruence]).
  assert (s0 = s) as -> by congruence.
  exists id, n, s. rewrite Etr. split_and!; try done.
  intros n' s' Hs' En'. eapply round_number_once; [done..|congruence].
Qed.

(** C8: The manager keeps what the broadcasting layer relies on, and never has
    an answer that the layer cannot take: while the lock is free, [StartRound]
    returns, with a new round exactly when its number exceeds all numbers
    before; and what any of its methods returned answers the request. *)
Theorem manager_serves_layer ls net i signer md :
  runs ls net -> honest !! i = Some signer -> net !! i = Some md ->
  (forall g t num, asking (layer md) g = Some (ToStart num) ->
     g_gos (d_mgr md) !! t = None -> g_lock (d_mgr md) = None ->
     exists md', exec signer (DCall g t) md = Some md' /\
       numbers (layer md') = numbers (layer md) ++
         (if bool_decide (latestRound (g_mgr (d_mgr md)) < num) then [num] else [])) /\
  (forall g t mg v, d_wait md !! g = Some t -> g_gos (d_mgr md) !! t = Some mg ->
     answer_of mg = Some v -> exists md', exec signer (DReturn g) md = Some md').
Proof.
  intros Hr _ Hi. pose proof (Forall_lookup_1 _ _ _ _ (net_managed_ok ls net Hr) Hi) as Hok. split.
  - intros g t num Ha Ht Hl.
    destruct (start_answered _ t num (mk_mgr _ Hok) Ht Hl) as (m & mg & v & Hm & Hmg & Hv & Ev).
    assert (fits (layer md) (ToStart num) v) as Hf by (rewrite Ev; by case_bool_decide).
    destruct (fits_taken signer _ g _ v Ha Hf) as [cd Hx].
    exists (MkManaged cd m (d_wait md) (d_busy md)). split.
    + cbn [exec_managed]. rewrite Ha. cbn [mbind option_bind enters].
      destruct (d_wait md !! g) as [t'|] eqn:Hw.
      { destruct (mk_wait _ Hok g t' Hw) as (mg' & p & _ & _ & Ha' & Hne). rewrite Ha in Ha'.
        injection Ha' as <-. by destruct (Hne num). }
      rewrite Hm. cbn [mbind option_bind]. rewrite Hmg. cbn [mbind option_bind]. rewrite Hv.
      cbn [mbind option_bind]. by setoid_rewrite Hx.
    + destruct (answered_start incl signer g num (layer md) (f_node (c_full cd)) v Ha (exec_layer incl self _ _ _ _ Hx))
        as [[-> E0]|[Hne E0]];
        unfold layer at 1; cbn [d_node]; rewrite E0; case_bool_decide; try done.
      by rewrite app_nil_r.
  - intros g t mg v Hw Hmg Hv. destruct (mk_wait _ Hok g t Hw) as (mg' & p & Hmg' & Hp & Ha & _).
    assert (mg' = mg) as -> by congruence.
    destruct (fits_taken signer _ g p v Ha (answer_fits md t mg v p Hok Hmg Hv Hp)) as [cd Hx].
    eexists. cbn [exec_managed]. rewrite Hw. cbn [mbind option_bind]. rewrite Hmg. cbn [mbind option_bind].
    rewrite Hv. cbn [mbind option_bind]. by setoid_rewrite Hx.
Qed.
End properties.

(** ** An execution

    Members 1 and 2 hold stakes 3 and 1; node 1 is honest.  Its chain broadcasts
    a block of height 1: the node starts round 1, a gossip of the block and one
    of the node's signature get the round from the manager, the round finishes
    and is stopped.  Then the chain broadcasts a block of height 2, and the node
    starts round 2. *)
Module Executions.
Import QuorumProps.Sample GossipProps.Executions SystemProps.Executions.

Abbreviation Signer := (local.Signer ed25519.PrivateKey ed25519.PublicKey).
Abbreviation Managed := (managed (K:=ed25519.PublicKey)).
#[local] Existing Instance ed25519.PublicKey_PubKey.

Definition heavy : Includers ed25519.PublicKey :=
  MkIncluders [sample_entry x01 3; sample_entry x02 1] 0.

Lemma heavy_fresh : fresh_includers heavy.
Proof.
  split; [|split; [vm_compute; discriminate|done]].
  repeat constructor; try (by eexists); vm_compute; discriminate.
Qed.

Definition self (s : Signer) : ed25519.PublicKey := local.pubKey s.

Definition honest : list Signer := [node_of x01].

Definition batch (v : byte) : Batch :=
  MkBatch (Some [v]) (ok_or (MkSignature None None) (Sign (node_of x01) [v])).

Definition own_block (num : Z) (v : byte) (parents : list slice) : bytes :=
  ok_or [] (Block_MarshalBinary (CP:=ToyCapnp.toy)
    (NewBlock num (Bytes (ToyEd25519.key_of x01)) [batch v] parents)).
Definition own_id (num : Z) (data : bytes) : blockID :=
  MkBlockID num (Bytes (ToyEd25519.key_of x01)) (Some (sha256 data)).
Definition own_message (num : Z) (data : bytes) : Message blockID :=
  MkMessage (Some (own_id num data)) (Some data).

Definition block1 : bytes := own_block 1 x01 [].
Definition block2 : bytes := own_block 2 x02 [Some (sha256 block1)].

Definition gossip1 : bytes := ok_or [] (encoded (data_gossip (own_message 1 block1))).
Definition encoding1 : bytes :=
  ok_or [] (mid_MarshalBinary (MessageID:=@blockID_MessageID ToyCapnp.toy) (own_id 1 block1)).
Definition signature_gossip1 : bytes :=
  ok_or [] (encoded (signature_gossip (Some encoding1)
    (ok_or (MkSignature None None) (Sign (node_of x01) encoding1)))).

(** The chain up to the start of its broadcast as goroutine [g], with a new
    batch in the pool that the pool's goroutine [t] lists. *)
Definition propose (v : byte) (deletions : list chained_label) (t g : nat) : list chained_label :=
  KFull (FPool (LPush (batch v) 0)) :: KAnswer None :: deletions ++
  [KCall t; KReturn; KAnswer None; KCall g].

#[local] Instance managed_nodes : NodeMachine (S:=Signer) Managed managed_label := managed_machine heavy self.

Definition nodes (ls : list (node_label (I:=blockID))) : list managed_label :=
  map (fun l => DNode (layer_label l)) ls.

(** The goroutine [g] gets its round, as [t] in the manager. *)
Definition get_round (g t : nat) : list managed_label := [DCall g t; DReturn g].

(** The manager's [t] stops the first round, whose caller it is as [c]. *)
Definition stop_round (t c : nat) : list managed_label :=
  DRound t c ::
  nodes [NRound 0 (LStopStep c); NRound 0 (LStopStep c); NRound 0 LLoopClose; NRound 0 LLoopDrained;
         NRound 0 (RoundConc.LClosed c)] ++
  [DBack t; DManager (LRemove t)].

Definition first_round_managed : list managed_label :=
  DCall 0 0 :: nodes [NEnv 0 VOk; NCall 0 100; NSpawn 1 (Deliver gossip1)] ++ get_round 1 1 ++
  nodes (perform 1 1) ++ map (fun l => DNode (KFull l)) [FCertify 1; FPull 1 1; FPulled 1; FDone 1] ++
  nodes [NEnv 1 VOk; NSpawn 2 (Deliver signature_gossip1)] ++ get_round 2 2 ++
  nodes (perform 2 2 ++ perform 2 502 ++ [NRound 0 (LFinal 100); NReturn 0]) ++
  DCall 0 3 :: stop_round 3 200 ++ [DReturn 0].

Definition up_to_second_round : list (nat * managed_label) :=
  map (pair 0%nat) (map DNode (KStart 3 :: propose x01 [] 0 0) ++ first_round_managed ++
    map DNode ([KReturn; KAnswer None] ++ propose x02 [KAnswer None] 2 10)).

Definition managed_history : list (nat * managed_label) := up_to_second_round ++ [(0%nat, DCall 10 4)].

(** The node after an execution, by what is observed of it. *)
Definition observed {X} (obs : Managed -> X) (ls : list (nat * managed_label)) : option X :=
  net ← exec_nets (NM:=managed_nodes) honest ls (replicate 1 (m_start (NodeMachine:=managed_nodes)));
  md ← net !! 0%nat; Some (obs md).

Lemma observed_runs {X} (obs : Managed -> X) ls x :
  observed obs ls = Some x -> exists net md, net_runs (NM:=managed_nodes) honest ls net /\
    net !! 0%nat = Some md /\ obs md = x.
Proof.
  unfold observed. intros (net & Hr & H)%bind_Some. apply bind_Some in H as (md & Hmd & [= <-]).
  by exists net, md.
Qed.

(** What goroutine [g] was started for, the rounds it got, and whether it is a
    [Broadcast] that succeeded. *)
Definition progress (g : nat) (md : Managed) : option (task (I:=blockID) * list (Z * nat) * bool) :=
  (fun go => (g_task go, omap got_round (g_trace go),
              match g_rest go with Ret (inr (Ok _)) => true | _ => false end)) <$> n_gos (layer md) !! g.

Lemma progress_spec g md t rs b : progress g md = Some (t, rs, b) ->
  exists go, n_gos (layer md) !! g = Some go /\ g_task go = t /\ omap got_round (g_trace go) = rs /\
    (b = true -> g_rest go = Ret (inr (Ok tt))).
Proof.
  unfold progress. destruct (n_gos (layer md) !! g) as [go|]; [|done]. intros [= <- <- <-].
  exists go. split_and!; [done..|]. by destruct (g_rest go) as [[|[[]| | |]]|].
Qed.

Lemma both_got : exists net md, net_runs (NM:=managed_nodes) honest managed_history net /\
  net !! 0%nat = Some md /\
  (numbers (layer md), progress 0 md, progress 1 md) =
    ([1; 2], Some (Produce (own_message 1 block1), [(1, 0%nat)], true),
     Some (Deliver gossip1, [(1, 0%nat)], false)).
Proof. apply (observed_runs (fun md => (_, _, _))). vm_compute. reflexivity. Qed.

Lemma one_round_per_number_witness :
  exists net md, net_runs (NM:=managed_nodes) honest managed_history net /\ net !! 0%nat = Some md /\
    numbers (layer md) = [1; 2] /\ StronglySorted Z.lt (numbers (layer md)) /\
    exists go1 go2 n1 n2, n_gos (layer md) !! 0%nat = Some go1 /\ n_gos (layer md) !! 1%nat = Some go2 /\
      (1, n1) ∈ omap got_round (g_trace go1) /\ (1, n2) ∈ omap got_round (g_trace go2) /\ n1 = n2.
Proof.
  destruct both_got as (net & md & Hr & Hi & Ho). injection Ho as Hn H0 H1.
  destruct (progress_spec _ _ _ _ _ H0) as (go1 & Hg1 & _ & Hr1 & _).
  destruct (progress_spec _ _ _ _ _ H1) as (go2 & Hg2 & _ & Hr2 & _).
  assert ((1, 0%nat) ∈ omap got_round (g_trace go1)) as I1 by (rewrite Hr1; left).
  assert ((1, 0%nat) ∈ omap got_round (g_trace go2)) as I2 by (rewrite Hr2; left).
  destruct (one_round_per_number (CP:=ToyCapnp.toy) heavy heavy_fresh self honest managed_history net 0 md)
    as [Hs Hone]; [exact Hr|exact Hi|].
  exists net, md. split; [exact Hr|]. split; [exact Hi|]. split; [exact Hn|]. split; [exact Hs|].
  exists go1, go2, 0%nat, 0%nat. split; [exact Hg1|]. split; [exact Hg2|]. split; [exact I1|]. split; [exact I2|].
  exact (Hone 0%nat 1%nat go1 go2 1 0%nat 0%nat Hg1 Hg2 I1 I2).
Defined.

Lemma broadcast_stops_its_round_witness :
  exists net md s, net_runs (NM:=managed_nodes) honest managed_history net /\ net !! 0%nat = Some md /\
    n_rounds (layer md) !! 0%nat = Some s /\ closedCh (s_round s) = true /\ gone 1 (d_mgr md).
Proof.
  destruct both_got as (net & md & Hr & Hi & Ho). injection Ho as Hn H0 H1.
  destruct (progress_spec _ _ _ _ _ H0) as (go & Hg & Et & Hgot & Eg).
  destruct (broadcast_stops_its_round (CP:=ToyCapnp.toy) heavy heavy_fresh self honest managed_history net 0 md
    0 go (own_message 1 block1)) as (id & n & s & Hid & Hgot' & Hs & Hc & Hgone & _);
    [exact Hr|exact Hi|exact Hg|exact Et|exact (Eg eq_refl)|].
  rewrite Hgot in Hgot'. injection Hgot' as E1 E2. subst n. exists net, md, s.
  split; [exact Hr|]. split; [exact Hi|]. split; [exact Hs|]. split; [exact Hc|]. rewrite E1. exact Hgone.
Defined.

Lemma blocks_build_on_available_blocks_witness :
  exists net c batches num, net_runs (NM:=managed_nodes) honest managed_history net /\
    round_message (self (node_of x01)) c batches (own_message 2 block2) /\ 2 = u64 (num + 1) /\
    Forall (supported (CP:=ToyCapnp.toy) heavy honest (map inside_node net) num) (lastCerts c).
Proof.
  destruct (observed_runs (progress 10) managed_history (Some (Produce (own_message 2 block2), [(2, 1%nat)], false)))
    as (net & md & Hr & Hi & Ho); [vm_compute; reflexivity|].
  destruct (progress_spec _ _ _ _ _ Ho) as (go & Hg & Et & _).
  destruct (blocks_build_on_available_blocks (CP:=ToyCapnp.toy) heavy heavy_fresh self honest
      managed_history net 0 (node_of x01) md 10 go (own_message 2 block2)) as (c & batches & Hm & Hc);
    [exact Hr|intros n b _ _; exact Logic.I|apply NoDup_singleton|vm_compute; discriminate
    |reflexivity|exact Hi|exact Hg|exact Et|].
  assert (height c = 2) as Eh.
  { destruct Hm as (data & Hm & _). apply (f_equal msgID) in Hm. cbn [msgID own_message] in Hm.
    apply (inj Some), (f_equal round) in Hm. symmetry. exact Hm. }
  destruct Hc as [[E1 _]|(num & En & Hsup & _)]; [lia|].
  rewrite Eh in En. exists net, c, batches, num.
  split; [exact Hr|]. split; [exact Hm|]. split; [exact En|exact Hsup].
Defined.

(** The manager has found the round for the gossip, and has not returned yet. *)
Definition found : list (nat * managed_label) :=
  map (pair 0%nat) (map DNode (KStart 3 :: propose x01 [] 0 0) ++
    DCall 0 0 :: nodes [NEnv 0 VOk; NCall 0 100; NSpawn 1 (Deliver gossip1)] ++ [DCall 1 1]).

Lemma manager_serves_layer_witness :
  (exists net md md', net_runs (NM:=managed_nodes) honest up_to_second_round net /\ net !! 0%nat = Some md /\
     exec_managed heavy self (node_of x01) (DCall 10 4) md = Some md' /\ numbers (layer md') = [1; 2]) /\
  (exists net md md', net_runs (NM:=managed_nodes) honest found net /\ net !! 0%nat = Some md /\
     exec_managed heavy self (node_of x01) (DReturn 1) md = Some md').
Proof.
  split.
  - destruct (observed_runs (fun md => (numbers (layer md), asking (layer md) 10,
      g_gos (d_mgr md) !! 4%nat, g_lock (d_mgr md), latestRound (g_mgr (d_mgr md)))) up_to_second_round
      ([1], Some (ToStart 2), None, None, 1)) as (net & md & Hr & Hi & Ho); [vm_compute; reflexivity|].
    injection Ho as Hn Ha Ht Hl Hlatest.
    destruct (manager_serves_layer (CP:=ToyCapnp.toy) heavy self honest up_to_second_round net 0
      (node_of x01) md) as [Hstart _]; [exact Hr|reflexivity|exact Hi|].
    destruct (Hstart 10%nat 4%nat 2 Ha Ht Hl) as (md' & Hx & Hn').
    exists net, md, md'. split; [exact Hr|]. split; [exact Hi|]. split; [exact Hx|].
    rewrite Hn', Hn, Hlatest. reflexivity.
  - destruct (observed_runs (fun md => (d_wait md !! 1%nat, g_gos (d_mgr md) !! 1%nat)) found
      (Some 1%nat, Some (Got 1 (Ok (MkPtr 0 1))))) as (net & md & Hr & Hi & Ho); [vm_compute; reflexivity|].
    injection Ho as Hw Hg.
    destruct (manager_serves_layer (CP:=ToyCapnp.toy) heavy self honest found net 0
      (node_of x01) md) as [_ Hret]; [exact Hr|reflexivity|exact Hi|].
    destruct (Hret 1%nat 1%nat _ (VRound 0) Hw Hg eq_refl) as [md' Hx].
    exists net, md, md'. split; [exact Hr|]. split; [exact Hi|exact Hx].
Defined.
End Executions.
