(* ===== verification/Identity.v ===== *)
(** The node's identity on disk: [getIdentity] of [unison-poc/main.go], over the
    system calls of package os and the key functions of libp2p, and the file
    system they act on.

    libp2p's keys are a library: [PeerKeys] with the law that a marshalled key
    unmarshals.  The file system is the part of package os the code relies on;
    every call may fail, as a schedule of faults says. *)

From S2P Require Import Prelude Prog Crypto.

(** ** libp2p/core/crypto *)

Class PeerKeys := {
  PeerKey : Type;
  MarshalPrivateKey : PeerKey -> res bytes;
  UnmarshalPrivateKey : bytes -> res PeerKey;
  Raw : PeerKey -> res bytes;
}.

Class PeerKeysLaws (PK : PeerKeys) : Prop := {
  unmarshal_marshal : forall k b, MarshalPrivateKey k = Ok b -> UnmarshalPrivateKey b = Ok k;
  unmarshal_empty : exists err, UnmarshalPrivateKey [] = Err err;
}.

(** ** getIdentity *)

(** An open file is a descriptor. *)
Inductive osE {PK : PeerKeys} : Type -> Type :=
| UserHomeDir : osE (res string)
| Mkdir (path : string) : osE (res unit)
| Open (path : string) : osE (res nat)
| Create (path : string) : osE (res nat)
| Write (f : nat) (b : bytes) : osE (res unit)
| Sync (f : nat) : osE (res unit)
| ReadAll (f : nat) : osE (res bytes)
| Close (f : nat) : osE (res unit)
| GenerateEd25519Key : osE (res PeerKey).

Section identity.
Context {PK : PeerKeys}.

Definition dir : string := "/.unison".

(** The branch that makes a new key: the open file and the bytes written to it.
    A failing [Sync] returns without closing the file. *)
Definition new_key (path : string) : G osE (nat * bytes) :=
  f ← call (Create path);
  let closing {A} (r : res A) : G osE A := deferring (call (Close f)) (lit r) in
  generated ← attempt (call GenerateEd25519Key);
  match generated with
  | inr err => closing (Err err)
  | inl privKey =>
      match MarshalPrivateKey privKey with
      | Err err => closing (Err err)
      | Panic w => lit (Panic w)
      | Hang w => lit (Hang w)
      | Ok keyBytes =>
          written ← attempt (call (Write f keyBytes));
          match written with
          | inr err => closing (Err err)
          | inl _ => call (Sync f) ;; mret (f, keyBytes)
          end
      end
  end.

Definition load_key (f : nat) (keyBytes : option bytes) : G osE (PeerKey * ed25519.PrivateKey) :=
  deferring (call (Close f)) (
    keyBytes ← match keyBytes with
               | None => call (ReadAll f)
               | Some b => mret b
               end;
    p2pKey ← lit (UnmarshalPrivateKey keyBytes);
    keyRaw ← lit (Raw p2pKey);
    mret (p2pKey, ed25519.MkPrivateKey (Some keyRaw))).

(** The directory must be made or exist. *)
Definition ensure_dir (d : string) : G osE unit :=
  made ← attempt (call (Mkdir d));
  match made with
  | inl _ => mret tt
  | inr err => if errors_Is err SExist then mret tt else lit (Err err)
  end.

(** The key file is read, or made. *)
Definition read_or_make (path : string) : G osE (PeerKey * ed25519.PrivateKey) :=
  opened ← attempt (call (Open path));
  match opened with
  | inl f => load_key f None
  | inr _ =>
      made ← new_key path;
      load_key made.1 (Some made.2)
  end.

Definition getIdentity : G osE (PeerKey * ed25519.PrivateKey) :=
  home ← call UserHomeDir;
  let d := String.append home dir in
  ensure_dir d ;;
  read_or_make (String.append d "/key").
End identity.

(** ** The file system *)

Section fs.
Context {PK : PeerKeys}.

(** [fs_faults]: how the next system calls fail, [None] for one that works;
    [fs_keys] is the randomness. *)
Record fs := MkFs {
  fs_home : string;
  fs_dirs : list string;
  fs_files : gmap string bytes;
  fs_open : list string;              (* the path of each descriptor *)
  fs_faults : list (option error);
  fs_keys : nat -> PeerKey;
  fs_generated : nat;
}.

Definition with_files (m : gmap string bytes) (s : fs) : fs :=
  MkFs (fs_home s) (fs_dirs s) m (fs_open s) (fs_faults s) (fs_keys s) (fs_generated s).
Definition with_open (path : string) (s : fs) : fs :=
  MkFs (fs_home s) (fs_dirs s) (fs_files s) (fs_open s ++ [path]) (fs_faults s) (fs_keys s)
    (fs_generated s).
Definition with_dir (d : string) (s : fs) : fs :=
  MkFs (fs_home s) (d :: fs_dirs s) (fs_files s) (fs_open s) (fs_faults s) (fs_keys s)
    (fs_generated s).
Definition with_generated (s : fs) : fs :=
  MkFs (fs_home s) (fs_dirs s) (fs_files s) (fs_open s) (fs_faults s) (fs_keys s)
    (S (fs_generated s)).
Definition with_faults (l : list (option error)) (s : fs) : fs :=
  MkFs (fs_home s) (fs_dirs s) (fs_files s) (fs_open s) l (fs_keys s) (fs_generated s).

Definition ErrNotExist : error := ErrNew "file does not exist".
Definition bad_descriptor : error := ErrNew "bad file descriptor".

(** A call that works. *)
Definition sys_call {X} (e : osE X) (s : fs) : fs * X :=
  match e in osE X return fs * X with
  | UserHomeDir => (s, Ok (fs_home s))
  | Mkdir d =>
      if bool_decide (d ∈ fs_dirs s) then (s, Err (Sent SExist)) else (with_dir d s, Ok tt)
  | Open path =>
      match fs_files s !! path with
      | Some _ => (with_open path s, Ok (length (fs_open s)))
      | None => (s, Err ErrNotExist)
      end
  | Create path =>                    (* O_TRUNC *)
      (with_open path (with_files (<[path := []]> (fs_files s)) s), Ok (length (fs_open s)))
  | Write f b =>
      match fs_open s !! f with
      | Some path => (with_files (alter (fun old => old ++ b) path (fs_files s)) s, Ok tt)
      | None => (s, Err bad_descriptor)
      end
  | Sync _ => (s, Ok tt)
  | ReadAll f =>
      match path ← fs_open s !! f; fs_files s !! path with
      | Some b => (s, Ok b)
      | None => (s, Err bad_descriptor)
      end
  | Close _ => (s, Ok tt)
  | GenerateEd25519Key => (with_generated s, Ok (fs_keys s (fs_generated s)))
  end.

(** A call that fails changes nothing. *)
Definition failed {X} (e : osE X) (err : error) : X :=
  match e in osE X return X with
  | UserHomeDir => Err err | Mkdir _ => Err err | Open _ => Err err | Create _ => Err err
  | Write _ _ => Err err | Sync _ => Err err | ReadAll _ => Err err | Close _ => Err err
  | GenerateEd25519Key => Err err
  end.

Definition os : handler osE fs := fun X e s =>
  match fs_faults s with
  | Some err :: l => (with_faults l s, failed e err)
  | None :: l => sys_call e (with_faults l s)
  | [] => sys_call e s
  end.

Definition key_path (s : fs) : string := String.append (String.append (fs_home s) dir) "/key".
Definition key_file (s : fs) : option bytes := fs_files s !! key_path s.
End fs.

(** ** Running it *)

Section runs.
Context {PK : PeerKeys} {PL : PeerKeysLaws PK}.
Implicit Type s : fs.

(** A call fails and only takes its fault, or works on what remains of the
    schedule. *)
Lemma os_cases X (e : osE X) s :
  (exists err l, fs_faults s = Some err :: l /\ os X e s = (with_faults l s, failed e err)) \/
  (exists l, l = tail (fs_faults s) /\ os X e s = sys_call e (with_faults l s)).
Proof.
  unfold os. destruct (fs_faults s) as [|[err|] l] eqn:E; [|left|right]; eauto.
  right. exists []. split; [done|]. f_equal. destruct s; simpl in *. by rewrite E.
Qed.

Lemma os_works X (e : osE X) s : fs_faults s = [] -> os X e s = sys_call e s.
Proof. unfold os. by intros ->. Qed.

(** The calls of [load_key] leave the files alone. *)
Definition same_disk s s' : Prop := fs_home s' = fs_home s /\ fs_files s' = fs_files s.

#[export] Instance same_disk_preorder : PreOrder same_disk.
Proof. split; [done|]. intros x y z [? ?] [? ?]. split; congruence. Qed.

Lemma os_same_disk X (e : osE X) s :
  match e with Create _ | Write _ _ => False | _ => True end -> same_disk s (os X e s).1.
Proof.
  intros He. destruct (os_cases X e s) as [(err & l & _ & ->)|(l & _ & ->)]; [done|].
  destruct e; try done; simpl.
  - by case_bool_decide.
  - by case_match.
  - by case_match.
Qed.

Lemma interp_deferring {A} (d : G osE unit) (p : G osE A) s s' a :
  interp os (deferring d p) s = (s', Ok a) ->
  exists s1, interp os p s = (s1, Ok a) /\ (interp os d s1).1 = s'.
Proof.
  unfold deferring. rewrite interp_pbind. destruct (interp os p s) as [s1 r] eqn:E.
  intros H. exists s1. destruct r as [b|e|w|w]; simpl in H; try (by simplify_eq);
    rewrite interp_pbind in H; destruct (interp os d s1) as [s2 [u|e2|w2|w2]]; simpl in H; simplify_eq; by split.
Qed.

Lemma load_key_ok f kb s s' k key :
  interp os (load_key f kb) s = (s', Ok (k, key)) ->
  same_disk s s' /\ exists b raw,
    match kb with
    | Some b' => b = b'
    | None => exists path, fs_open s !! f = Some path /\ fs_files s !! path = Some b
    end /\
    UnmarshalPrivateKey b = Ok k /\ Raw k = Ok raw /\ key = ed25519.MkPrivateKey (Some raw).
Proof.
  unfold load_key. intros (s1 & H & Hs)%interp_deferring.
  assert (same_disk s1 s') as Hclose.
  { rewrite <- Hs. unfold call. simpl. destruct (os _ (Close f) s1) as [s2 x] eqn:E.
    pose proof (os_same_disk _ (Close f) s1 I) as Hd. by rewrite E in Hd. }
  rewrite interp_gbind in H.
  assert (exists s2 b, same_disk s s2 /\
    (match kb with
     | Some b' => b = b'
     | None => exists path, fs_open s !! f = Some path /\ fs_files s !! path = Some b
     end) /\
    interp os (p2pKey ← lit (UnmarshalPrivateKey b); keyRaw ← lit (Raw p2pKey);
               mret (p2pKey, ed25519.MkPrivateKey (Some keyRaw))) s2 = (s1, Ok (k, key)))
    as (s2 & b & Hd & Hb & H2).
  { destruct kb as [b|]; [by exists s, b|].
    unfold call in H. simpl in H. pose proof (os_same_disk _ (ReadAll f) s I) as Hd.
    destruct (os_cases _ (ReadAll f) s) as [(err & l & _ & E)|(l & _ & E)]; rewrite E in H, Hd;
      simpl in H, Hd; [done|].
    destruct (fs_open s !! f) as [path|] eqn:Eo; simpl in *; [|done].
    destruct (fs_files s !! path) as [b|] eqn:Ef; simpl in *; [|done].
    exists (with_faults l s), b. split_and!; [done|by exists path|exact H]. }
  rewrite interp_lit_bind in H2. destruct (UnmarshalPrivateKey b) as [k'|e|w|w] eqn:Eu; try done.
  cbn [after_res] in H2. rewrite interp_lit_bind in H2.
  destruct (Raw k') as [raw|e|w|w] eqn:Er; try done. simpl in H2. simplify_eq.
  split; [by transitivity s1|]. exists b, raw. by split_and!.
Qed.

Lemma new_key_ok path s s' f b :
  interp os (new_key path) s = (s', Ok (f, b)) ->
  fs_home s' = fs_home s /\ fs_files s' !! path = Some b /\
  exists k, MarshalPrivateKey k = Ok b.
Proof.
  unfold new_key. rewrite interp_call_bind.
  destruct (os_cases _ (Create path) s) as [(err & l & _ & ->)|(l & _ & ->)]; [done|].
  cbn [sys_call failed fst snd after_res].
  set (s1 := with_open path _).
  assert (fs_open s1 !! length (fs_open s) = Some path) as Ho by (by apply list_lookup_middle).
  assert (fs_files s1 !! path = Some []) as Hf by (apply lookup_insert_eq).
  assert (fs_home s1 = fs_home s) as Hh by done. clearbody s1.
  rewrite interp_attempt_call. intros H.
  destruct (os_cases _ GenerateEd25519Key s1) as [(err & l1 & _ & E)|(l1 & _ & E)]; rewrite E in H;
    cbn [sys_call failed fst snd after_attempt] in H.
  { apply interp_deferring in H as (s2 & H & _). done. }
  set (s2 := with_generated (with_faults l1 s1)) in H. change (fs_keys (with_faults l1 s1)) with (fs_keys s1) in H.
  change (fs_generated (with_faults l1 s1)) with (fs_generated s1) in H.
  destruct (MarshalPrivateKey (fs_keys s1 (fs_generated s1))) as [b0|e|w|w] eqn:Em; try done.
  2:{ apply interp_deferring in H as (s3 & H & _). done. }
  assert (fs_open s2 !! length (fs_open s) = Some path) as Ho2 by done.
  assert (fs_files s2 !! path = Some []) as Hf2 by done.
  assert (fs_home s2 = fs_home s) as Hh2 by done. clearbody s2. clear E.
  rewrite interp_attempt_call in H.
  destruct (os_cases _ (Write (length (fs_open s)) b0) s2) as [(err & l2 & _ & E)|(l2 & _ & E)];
    change (fs_open (with_faults l s)) with (fs_open s) in H; rewrite E in H;
    cbn [sys_call failed fst snd after_attempt] in H.
  { apply interp_deferring in H as (s3 & H & _). done. }
  change (fs_open (with_faults l2 s2)) with (fs_open s2) in H. rewrite Ho2 in H. cbn [fst snd after_attempt] in H.
  rewrite interp_call_bind in H. set (s3 := with_files _ _) in H.
  pose proof (os_same_disk _ (Sync (length (fs_open s))) s3 I) as [D1 D2].
  destruct (os _ (Sync (length (fs_open s))) s3) as [s4 [[]|e|w|w]]; try done.
  simpl in H, D1, D2. injection H as <- <- <-. rewrite D1, D2. split_and!; [done| |by eexists].
  unfold s3. simpl. rewrite lookup_alter_eq, Hf2. done.
Qed.

(** What the key file says. *)
Definition identity_of (b : bytes) : res (PeerKey * ed25519.PrivateKey) :=
  k ← UnmarshalPrivateKey b; raw ← Raw k; mret (k, ed25519.MkPrivateKey (Some raw)).

(** The directory is made or exists, whatever the calls before it did. *)
Lemma ensure_dir_disk d s : same_disk s (interp os (ensure_dir d) s).1.
Proof.
  unfold ensure_dir. rewrite interp_attempt_call.
  pose proof (os_same_disk _ (Mkdir d) s I) as Hd.
  destruct (os _ (Mkdir d) s) as [s1 [u|e|w|w]]; simpl in *; try done. by case_match.
Qed.

Lemma ensure_dir_works d s : fs_faults s = [] ->
  exists s', interp os (ensure_dir d) s = (s', Ok tt) /\ fs_faults s' = [].
Proof.
  intros Hf. unfold ensure_dir. rewrite interp_attempt_call, !(os_works _ _ s Hf).
  cbn [sys_call]. case_bool_decide; cbn; eauto.
Qed.

Lemma getIdentity_ok s s' k key :
  interp os getIdentity s = (s', Ok (k, key)) ->
  fs_home s' = fs_home s /\ exists b, key_file s' = Some b /\ identity_of b = Ok (k, key).
Proof.
  unfold getIdentity. rewrite interp_call_bind. pose proof (os_same_disk _ UserHomeDir s I) as [H1 F1].
  destruct (os_cases _ UserHomeDir s) as [(err & l & _ & E)|(l & _ & E)]; rewrite E; [done|].
  cbn [sys_call fst snd after_res]. rewrite E in H1, F1. cbn [sys_call fst] in H1, F1.
  change (fs_home (with_faults l s)) with (fs_home s).
  fold (key_path s). set (d := String.append (fs_home s) dir).
  rewrite interp_gbind. pose proof (ensure_dir_disk d (with_faults l s)) as [H2 F2].
  destruct (interp os (ensure_dir d) (with_faults l s)) as [s1 [[]|e|w|w]]; try done.
  cbn [fst] in H2, F2. unfold read_or_make. rewrite interp_attempt_call.
  pose proof (os_same_disk _ (Open (key_path s)) s1 I) as [H3 F3].
  destruct (os _ (Open (key_path s)) s1) as [s2 opened] eqn:Eo. cbn [fst snd] in *.
  assert (fs_home s2 = fs_home s) as Hh by congruence.
  destruct opened as [f|e|w|w]; try done; cbn [after_attempt].
  - intros (Hd & b & raw & (path & Hp & Hb) & Hu & Hr & ->)%load_key_ok. split; [destruct Hd; congruence|].
    exists b. unfold key_file, key_path, identity_of. destruct Hd as [-> ->]. rewrite Hh, Hu. cbn. rewrite Hr.
    split; [|done]. assert (path = key_path s) as ->; [|exact Hb].
    destruct (os_cases _ (Open (key_path s)) s1) as [(err & l1 & _ & E2)|(l1 & _ & E2)];
      rewrite E2 in Eo; [done|]. cbn [sys_call] in Eo.
    change (fs_files (with_faults l1 s1)) with (fs_files s1) in Eo.
    destruct (fs_files s1 !! key_path s); [|done]. injection Eo as <- <-.
    apply lookup_app_Some in Hp as [Hp|[_ Hp]].
    + apply lookup_lt_Some in Hp. simpl in Hp. lia.
    + rewrite Nat.sub_diag in Hp. by injection Hp as <-.
  - rewrite interp_gbind. destruct (interp os (new_key (key_path s)) s2) as [s3 [[f b]|e'|w|w]] eqn:En;
      try done.
    apply new_key_ok in En as (H4 & F4 & _).
    intros (Hd & b' & raw & -> & Hu & Hr & ->)%load_key_ok. split; [destruct Hd; congruence|].
    exists b. unfold key_file, key_path, identity_of. destruct Hd as [-> ->]. cbn [snd] in Hu. rewrite H4, Hh, Hu.
    cbn. by rewrite Hr.
Qed.

(** With an existing key file and working calls, the file is the identity and
    the disk stays as it is. *)
Lemma getIdentity_existing s b :
  fs_faults s = [] -> key_file s = Some b ->
  exists s', interp os getIdentity s = (s', identity_of b) /\ same_disk s s'.
Proof.
  intros Hf Hb. unfold getIdentity. rewrite interp_call_bind. rewrite !(os_works _ _ s Hf).
  cbn [sys_call fst snd after_res]. fold (key_path s). set (d := String.append (fs_home s) dir).
  rewrite interp_gbind. destruct (ensure_dir_works d s Hf) as (s1 & E & Hf1).
  pose proof (ensure_dir_disk d s) as Hd1. rewrite E in Hd1. rewrite E. cbn [fst] in Hd1.
  destruct Hd1 as [H1 F1].
  unfold read_or_make. rewrite interp_attempt_call. rewrite !(os_works _ _ s1 Hf1). cbn [sys_call].
  unfold key_file in Hb. rewrite F1, Hb. cbn [fst snd after_attempt].
  unfold load_key, deferring. rewrite interp_pbind, interp_gbind.
  unfold call at 1. cbn [interp]. rewrite os_works by exact Hf1.
  cbn [sys_call fs_open fs_files with_open]. rewrite list_lookup_middle by done. cbn.
  rewrite F1, Hb. unfold identity_of. set (s2 := with_open (key_path s) s1).
  assert (same_disk s s2 /\ fs_faults s2 = []) as [Hd2 Hf2] by done. clearbody s2.
  destruct (UnmarshalPrivateKey b) as [k|e|w|w]; cbn.
  1: destruct (Raw k) as [raw|e|w|w]; cbn.
  all: unfold os; rewrite ?Hf2; cbn; eauto.
Qed.
End runs.

(** ** Properties *)

(** The answers of a known schedule. *)
Ltac sys := cbn [os sys_call failed with_faults with_open with_files with_dir with_generated
  fst snd after_res after_attempt fs_home fs_dirs fs_files fs_open fs_faults fs_keys fs_generated].

Section properties.
Context {PK : PeerKeys} {PL : PeerKeysLaws PK}.
Implicit Type s : fs.


(** C26: An identity is kept: whatever fails while a node obtains its
    identity, once it has one every later start with the same key file and
    working system calls obtains the same keys and leaves the disk as it is,
    whatever randomness it could draw. *)
Theorem identity_is_kept s s1 k key s2 :
  interp os getIdentity s = (s1, Ok (k, key)) ->
  key_file s2 = key_file s1 -> fs_faults s2 = [] ->
  exists s3, interp os getIdentity s2 = (s3, Ok (k, key)) /\
    fs_home s3 = fs_home s2 /\ fs_files s3 = fs_files s2.
Proof.
  intros (_ & b & Hb & Hid)%getIdentity_ok Hk Hf. rewrite Hb in Hk.
  destruct (getIdentity_existing s2 b Hf Hk) as (s3 & E & Hd & Hfs).
  exists s3. rewrite E, Hid. by split_and!.
Qed.

(** When the home directory is known and the directory made, what remains is the
    key file. *)
Lemma getIdentity_reaches s l : fs_faults s = None :: None :: l ->
  exists dirs, interp os getIdentity s =
    interp os (read_or_make (key_path s))
      (MkFs (fs_home s) dirs (fs_files s) (fs_open s) l (fs_keys s) (fs_generated s)).
Proof.
  intros Hf. destruct s as [home dirs files fds faults keys n]. cbn [fs_faults] in Hf. subst faults.
  unfold getIdentity, key_path. rewrite interp_call_bind.
  sys.
  rewrite interp_gbind. unfold ensure_dir. rewrite interp_attempt_call.
  sys.
  case_bool_decide; cbn [fst snd after_attempt errors_Is];
    [rewrite bool_decide_eq_true_2 by done|]; by eexists.
Qed.

(** The calls of a first start that finds no entropy. *)
Lemma first_start s err : key_file s = None ->
  fs_faults s = [None; None; None; None; Some err] ->
  exists s', interp os getIdentity s = (s', Err err) /\ fs_home s' = fs_home s /\
    key_file s' = Some [] /\ fs_faults s' = [].
Proof.
  intros Hk Hf. destruct (getIdentity_reaches s _ Hf) as [dirs ->].
  unfold key_file in *. unfold read_or_make. rewrite interp_attempt_call.
  sys. rewrite Hk. sys.
  rewrite interp_gbind. unfold new_key. rewrite interp_call_bind.
  sys.
  rewrite interp_attempt_call. sys.
  cbn. eexists. split; [reflexivity|]. split_and!; [done|apply lookup_insert_eq|done].
Qed.

(** A first start that is interrupted between creating the key file
    and writing it leaves an empty file, and from then on every start of the
    node fails, however often it is repeated. *)
Theorem interrupted_identity_is_unusable s err :
  key_file s = None -> fs_faults s = [None; None; None; None; Some err] ->
  exists s', interp os getIdentity s = (s', Err err) /\
    forall s2, key_file s2 = key_file s' -> fs_faults s2 = [] ->
      exists s3 err', interp os getIdentity s2 = (s3, Err err') /\ fs_files s3 = fs_files s2.
Proof.
  intros Hk Hf. destruct (first_start s err Hk Hf) as (s' & E & _ & Hk' & _).
  exists s'. split; [exact E|]. intros s2 Hs2 Hf2. rewrite Hk' in Hs2.
  destruct (getIdentity_existing s2 [] Hf2 Hs2) as (s3 & E3 & _ & Hfs).
  destruct (unmarshal_empty (PeerKeysLaws:=PL)) as [err' He].
  exists s3, err'. unfold identity_of in E3. rewrite He in E3. by split.
Qed.

(** When the existing key file cannot be opened, for whatever reason, the node
    takes a new identity and the old key is overwritten. *)
Theorem unreadable_identity_is_replaced s b err k b' raw :
  key_file s = Some b -> fs_faults s = [None; None; Some err] ->
  k = fs_keys s (fs_generated s) -> MarshalPrivateKey k = Ok b' -> Raw k = Ok raw ->
  exists s', interp os getIdentity s = (s', Ok (k, ed25519.MkPrivateKey (Some raw))) /\
    key_file s' = Some b'.
Proof.
  intros Hk Hf -> Hm Hr. pose proof (unmarshal_marshal (PeerKeysLaws:=PL) _ _ Hm) as Hu.
  destruct (getIdentity_reaches s _ Hf) as [dirs ->].
  unfold key_file in *. unfold read_or_make. rewrite interp_attempt_call.
  sys.
  rewrite interp_gbind. unfold new_key. rewrite interp_call_bind.
  sys.
  rewrite interp_attempt_call.
  sys.
  rewrite Hm. rewrite interp_attempt_call.
  sys.
  rewrite list_lookup_middle by done. cbn. rewrite Hu. cbn. rewrite Hr. cbn.
  eexists. split; [reflexivity|]. unfold key_path. cbn. by rewrite lookup_alter_eq, lookup_insert_eq.
Qed.
End properties.

(** ** A concrete key format *)
Module ToyKeys.

(** A key is one byte; its raw form is the ed25519 key of 64 bytes that starts
    with it, its wire form is a tag and the byte. *)
#[global] Instance toy : PeerKeys := {|
  PeerKey := byte;
  MarshalPrivateKey k := Ok [x08; k];
  UnmarshalPrivateKey b :=
    match b with [x08; k] => Ok k | _ => Err (ErrNew "required field not set") end;
  Raw k := Ok (repeat k 64);
|}.

#[global] Instance toy_laws : PeerKeysLaws toy.
Proof. split; [by intros k b [= <-]|by eexists]. Qed.

Definition keys (n : nat) : byte := match n with O => x11 | _ => x22 end.

(** The first start of a node, and a later one that could draw another key. *)
Definition fresh_disk : fs := MkFs "/home/u" [] ∅ [] [] keys 0.
Definition started : fs := (interp os getIdentity fresh_disk).1.
Definition restarted : fs := MkFs "/home/u" (fs_dirs started) (fs_files started) [] [] keys 1.

Lemma identity_is_kept_witness :
  exists s3, interp os getIdentity restarted =
      (s3, Ok (x11, ed25519.MkPrivateKey (Some (repeat x11 64)))) /\
    fs_home s3 = "/home/u"%string /\ fs_files s3 = fs_files restarted.
Proof.
  apply (identity_is_kept fresh_disk started x11 (ed25519.MkPrivateKey (Some (repeat x11 64))) restarted);
    vm_compute; reflexivity.
Defined.

Definition out_of_entropy : error := ErrNew "reading random bytes".
Definition interrupted : fs :=
  MkFs "/home/u" [] ∅ [] [None; None; None; None; Some out_of_entropy] keys 0.

Lemma interrupted_identity_is_unusable_witness :
  exists s', interp os getIdentity interrupted = (s', Err out_of_entropy) /\
    forall s2, key_file s2 = key_file s' -> fs_faults s2 = [] ->
      exists s3 err', interp os getIdentity s2 = (s3, Err err') /\ fs_files s3 = fs_files s2.
Proof.
  apply (interrupted_identity_is_unusable interrupted out_of_entropy); vm_compute; reflexivity.
Defined.

Definition unreadable : fs :=
  MkFs "/home/u" (fs_dirs started) (fs_files started) [] [None; None; Some (ErrNew "too many open files")] keys 1.

Example unreadable_identity_example :
  exists s', interp os getIdentity unreadable =
      (s', Ok (x22, ed25519.MkPrivateKey (Some (repeat x22 64)))) /\ key_file s' = Some [x08; x22].
Proof.
  apply (unreadable_identity_is_replaced unreadable [x08; x11] (ErrNew "too many open files") x22
    [x08; x22] (repeat x22 64)); vm_compute; reflexivity.
Qed.
End ToyKeys.
