(* ===== verification/Node.v ===== *)
(** The demo node ([unison-poc/main.go]): [run] builds the components of a node
    from its identity and its flags, starts them one after the other and stops
    them when it returns; [main] turns its error into the exit status.

    The node's identity ([Identity]) and its load generator ([Randomizer]) run
    as part of it; the other components, which have goroutines and files of
    their own, are started and stopped by requests. *)

From S2P Require Import Prelude Prog Crypto CryptoInstance Bapl Bootstrap Identity Randomizer.

(** The flags, with the defaults of [init].  Durations are in nanoseconds. *)
Record flags := MkFlags {
  isBootstrapper : bool;
  bootstrapper : string;
  kickoffTimeout : Z;
  batchSize : Z;
  batchTime : Z;
  networkSize : Z;
}.

Definition second : Z := 1000000000.

Definition default_flags : flags := MkFlags false "" (5 * second) (2000 * 125) second 0.

(** ** The parts of a node *)

Section node.
Context {PK : PeerKeys} {ED : Ed25519}.

(** libp2p's addresses; [M] is the includer set. *)
Context {multiaddr AddrInfo M : Type}.
Context (NewMultiaddr : string -> res multiaddr) (AddrInfoFromP2pAddr : multiaddr -> res AddrInfo).

(** [Kickoff]: the select between the timer and the context ([Some] is the
    context's error); [Done]: [<-ctx.Done()] and the context's error. *)
Inductive nodeE : Type -> Type :=
| Sys X (e : osE X) : nodeE X
| NewHost (key : PeerKey) (listen : list multiaddr) : nodeE (res unit)
| CloseHost : nodeE (res unit)
| P2pAddrs : nodeE (res (list multiaddr))
| NewFloodSub : nodeE (res unit)
| BootServe (self : ed25519.PublicKey) (networkSize : Z) : nodeE (res unit)
| BootStart (self : ed25519.PublicKey) (networkSize : Z) (to : AddrInfo) : nodeE (res unit)
| NewMemPool : nodeE unit
| ClosePool : nodeE (res unit)
| StartMulticast : nodeE unit
| StopMulticast : nodeE (res unit)
| StartBroadcaster : nodeE (res unit)
| StopBroadcaster : nodeE (res unit)
| Kickoff (d : Z) : nodeE (option error)
| GetMembers (round : Z) : nodeE (res M)
| StartChain (includers : Z -> res M) (signerID : ed25519.PublicKey) : nodeE unit
| StopChain : nodeE (res unit)
| Done : nodeE error
| Rand X (e : randE X) : nodeE X.

Definition listenAddrs : list string :=
  ["/ip4/0.0.0.0/udp/10000/quic-v1"; "/ip6/::/udp/10000/quic-v1"].

(** Joining the network, as the bootstrapper or through it. *)
Definition join (fl : flags) (self : ed25519.PublicKey) : G nodeE unit :=
  if isBootstrapper fl then call (BootServe self (networkSize fl))
  else
    match NewMultiaddr (bootstrapper fl) with
    | Err err => lit (Err (wrapf "wrong bootstrapper multiaddr" err))
    | r =>
        maddr ← lit r;
        addrInfo ← lit (AddrInfoFromP2pAddr maddr);
        call (BootStart self (networkSize fl) addrInfo)
    end.

(** What follows the start of the chain; [n] bounds the iterations of the load
    generator. *)
Definition produce (n : nat) (fl : flags) : G nodeE unit :=
  if bool_decide (batchSize fl = 0) then
    err ← ask Done; lit (Err err)
  else translate Rand (RandomBatches n (batchTime fl)).

Definition kickoff (n : nat) (fl : flags) (privKey : ed25519.PrivateKey) : G nodeE unit :=
  cancelled ← ask (Kickoff (kickoffTimeout fl));
  match cancelled with
  | Some err => lit (Err err)
  | None =>
      members ← call (GetMembers 0);
      signerID ← lit (ed25519.PrivateKey_PubKey privKey);
      ask (StartChain (fun _ => Ok members) signerID) ;;
      deferring (call StopChain) (produce n fl)
  end.

(** The components over the host. *)
Definition components (n : nat) (fl : flags) (privKey : ed25519.PrivateKey) : G nodeE unit :=
  ask NewMemPool ;;
  deferring (call ClosePool) (
    ask StartMulticast ;;
    deferring (call StopMulticast) (
      call StartBroadcaster ;;
      deferring (call StopBroadcaster) (kickoff n fl privKey))).

Definition run (n : nat) (fl : flags) : G nodeE unit :=
  keys ← translate Sys getIdentity;
  let '(p2pKey, privKey) := keys in
  signer ← lit (local.NewSigner privKey : res ed25519_signer);
  listenMAddrs ← lit (mapM NewMultiaddr listenAddrs);
  call (NewHost p2pKey listenMAddrs) ;;
  deferring (call CloseHost) (
    call P2pAddrs ;;
    call NewFloodSub ;;
    self ← lit (NewService_key (sl (local.Signer_ID signer)));
    join fl self ;;
    components n fl privKey).

(** The exit status; [None] for a process that has not ended. *)
Definition main (n : nat) (fl : flags) : prog nodeE (option Z) :=
  pbind (run n fl) (fun r => Ret
    match r with
    | Ok _ => Some 0
    | Err _ => Some 1
    | Panic _ => Some 2
    | Hang _ => None
    end).

(** [batchVerifier]: every batch will do. *)
Inductive batchVerifier := NewBatchVerifier.
Definition batchVerifier_Verify (batch : Batch) : res bool := Ok true.
#[export] Instance batchVerifier_BatchVerifierI {E} : BatchVerifierI batchVerifier E :=
  fun _ batch => lit (batchVerifier_Verify batch).

Definition networkID : Rebro.NetworkID := String.list_byte_of_string "poc".

(** ** What starts and what stops *)

Inductive component := Host | BatchPool | Multicast | Broadcaster | Chain.
Inductive change := Opened (c : component) | Closed (c : component).

Definition opened_if {A} (c : component) (x : res A) : option change :=
  if is_Ok x then Some (Opened c) else None.

Definition change_of (o : occ nodeE) : option change :=
  let '@Occ _ X e x := o in
  match e in nodeE X return X -> option change with
  | NewHost _ _ => opened_if Host
  | CloseHost => fun _ => Some (Closed Host)
  | NewMemPool => fun _ => Some (Opened BatchPool)
  | ClosePool => fun _ => Some (Closed BatchPool)
  | StartMulticast => fun _ => Some (Opened Multicast)
  | StopMulticast => fun _ => Some (Closed Multicast)
  | StartBroadcaster => opened_if Broadcaster
  | StopBroadcaster => fun _ => Some (Closed Broadcaster)
  | StartChain _ _ => fun _ => Some (Opened Chain)
  | StopChain => fun _ => Some (Closed Chain)
  | _ => fun _ => None
  end x.

Definition start_order : list component := [Host; BatchPool; Multicast; Broadcaster; Chain].

(** ** Brackets *)

Definition hangs {A} (r : res A) : bool := match r with Hang _ => true | _ => false end.

(** A program that starts the first of [cs], in order, and stops what it has
    started, in the opposite order; all of them if it returns without error. *)
Definition brackets (cs : list component) {A} (p : G nodeE A) : Prop :=
  forall tr r, runs p tr r -> hangs r = false ->
  exists k, (k <= length cs)%nat /\
    omap change_of tr = map Opened (take k cs) ++ map Closed (rev (take k cs)) /\
    (is_Ok r = true -> k = length cs).

Definition quiet {A} (p : G nodeE A) : Prop := forall tr r, runs p tr r -> omap change_of tr = [].

Lemma quiet_lit {A} (x : res A) : quiet (lit x).
Proof. by intros tr r [-> _]. Qed.

Lemma quiet_call {X} (e : nodeE (res X)) : (forall x, change_of (Occ e x) = None) -> quiet (call e).
Proof. intros He tr r ->%runs_call. cbn [omap list_omap]. by rewrite He. Qed.

Lemma quiet_bind {A B} (p : G nodeE A) (f : A -> G nodeE B) :
  quiet p -> (forall a, quiet (f a)) -> quiet (p ≫= f).
Proof.
  intros Hp Hf tr r [(t1 & t2 & a & -> & H1 & H2)|(r' & H & _)]%runs_gbind; [|by eapply Hp].
  by rewrite omap_app, (Hp _ _ H1), (Hf _ _ _ H2).
Qed.

Lemma quiet_translate {E A} (f : forall X, E X -> nodeE X) (p : G E A) :
  (forall X (e : E X) x, change_of (Occ (f X e) x) = None) -> quiet (translate f p).
Proof.
  intros Hf tr r (tr' & -> & _)%runs_translate. induction tr' as [|[X e x] tr' IH]; [done|].
  cbn [map omap list_omap renamed]. by rewrite Hf.
Qed.

Lemma brackets_quiet {A} (p : G nodeE A) : quiet p -> brackets [] p.
Proof. intros Hp tr r H _. exists 0%nat. split_and!; [lia|by rewrite (Hp _ _ H)|done]. Qed.

Lemma brackets_bind cs {A B} (p : G nodeE A) (f : A -> G nodeE B) :
  quiet p -> (forall a, brackets cs (f a)) -> brackets cs (p ≫= f).
Proof.
  intros Hp Hf tr r [(t1 & t2 & a & -> & H1 & H2)|(r' & H & _ & Hr)]%runs_gbind Hh.
  - rewrite omap_app, (Hp _ _ H1). by eapply Hf.
  - exists 0%nat. rewrite (Hp _ _ H), Hr. split_and!; [lia|done|done].
Qed.

Lemma brackets_err cs {A} err : brackets cs (lit (Err err : res A)).
Proof. intros tr r [-> ->] _. exists 0%nat. split_and!; [lia|done|done]. Qed.

Lemma quiet_ask {X} (e : nodeE X) : (forall x, change_of (Occ e x) = None) -> quiet (ask e).
Proof. intros He tr r (x & t & -> & -> & _). cbn [omap list_omap]. by rewrite He. Qed.

(** [deferring] adds the change of its first program at the end. *)
Lemma brackets_deferring c cs d {A} (q : G nodeE A) :
  (forall x, change_of (Occ d x) = Some (Closed c)) -> brackets cs q ->
  forall tr r, runs (deferring (call d) q) tr r -> hangs r = false ->
  exists k, (k <= length cs)%nat /\
    omap change_of tr = map Opened (take k cs) ++ map Closed (rev (c :: take k cs)) /\
    (is_Ok r = true -> k = length cs).
Proof.
  intros Hd Hq tr r (t1 & t2 & r1 & -> & H1 & H2)%runs_pbind Hh.
  assert (hangs r1 = false /\ exists x, t2 = [Occ d x] /\ (is_Ok r = true -> is_Ok r1 = true))
    as (Hh1 & x & -> & Hr).
  { destruct r1; try (by destruct H2 as [-> ->]);
      (split; [done|]); apply runs_pbind in H2 as (t3 & t4 & x & -> & ->%runs_call & H2);
      exists x; destruct x; destruct H2 as [-> ->]; split; done. }
  destruct (Hq _ _ H1 Hh1) as (k & Hk & E & Hok). exists k.
  rewrite omap_app, E. cbn [omap list_omap rev]. rewrite Hd, map_app, app_assoc.
  split_and!; [done|done|]. intros ?. by apply Hok, Hr.
Qed.

(** What a started component brackets. *)
Lemma brackets_opened c cs t tr {A} (r : res A) :
  omap change_of t = [Opened c] ->
  (exists k, (k <= length cs)%nat /\
    omap change_of tr = map Opened (take k cs) ++ map Closed (rev (c :: take k cs)) /\
    (is_Ok r = true -> k = length cs)) ->
  exists k, (k <= length (c :: cs))%nat /\
    omap change_of (t ++ tr) =
      map Opened (take k (c :: cs)) ++ map Closed (rev (take k (c :: cs))) /\
    (is_Ok r = true -> k = length (c :: cs)).
Proof.
  intros Ht (k & Hk & E & Hok). exists (Datatypes.S k). rewrite omap_app, Ht, E. simpl.
  split_and!; [lia|done|]. intros H. by rewrite (Hok H).
Qed.

Lemma brackets_ask c cs (e : nodeE unit) d {A} (q : G nodeE A) :
  (forall x, change_of (Occ e x) = Some (Opened c)) ->
  (forall x, change_of (Occ d x) = Some (Closed c)) ->
  brackets cs q -> brackets (c :: cs) (ask e ;; deferring (call d) q).
Proof.
  intros He Hd Hq tr r (x & tr' & -> & H)%runs_ask_bind Hh.
  apply (brackets_opened c cs [Occ e x]); [cbn [omap list_omap]; by rewrite He|].
  exact (brackets_deferring c cs d q Hd Hq _ _ H Hh).
Qed.

Lemma brackets_call c cs (e : nodeE (res unit)) d {A} (q : G nodeE A) :
  (forall x, change_of (Occ e x) = opened_if c x) ->
  (forall x, change_of (Occ d x) = Some (Closed c)) ->
  brackets cs q -> brackets (c :: cs) (call e ;; deferring (call d) q).
Proof.
  intros He Hd Hq tr r H Hh. run_step H. subst. run_step H.
  1: { apply (brackets_opened c cs [Occ e (Ok a)]); [cbn [omap list_omap]; by rewrite He|].
       exact (brackets_deferring c cs d q Hd Hq _ _ H Hh). }
  all: run_step H; subst; exists 0%nat; cbn [omap list_omap]; rewrite He;
    (split_and!; [simpl; lia|done|done]).
Qed.

End node.

(** ** The shape of a run *)

Section shape.
Context {PK : PeerKeys} {ED : Ed25519} {multiaddr AddrInfo M : Type}.
Context (NewMultiaddr : string -> res multiaddr) (AddrInfoFromP2pAddr : multiaddr -> res AddrInfo).

Lemma quiet_join fl self : quiet (M:=M) (join NewMultiaddr AddrInfoFromP2pAddr fl self).
Proof.
  unfold join. case_match; [by apply quiet_call|].
  case_match; try by apply quiet_lit.
  all: apply quiet_bind; [by apply quiet_lit|intros ?].
  all: apply quiet_bind; [by apply quiet_lit|intros ?]; by apply quiet_call.
Qed.

Lemma quiet_produce n fl :
  quiet (multiaddr:=multiaddr) (AddrInfo:=AddrInfo) (M:=M) (produce n fl).
Proof.
  unfold produce. case_match; [|by apply quiet_translate].
  apply quiet_bind; [by apply quiet_ask|intros err; by apply quiet_lit].
Qed.

(** Steps through the requests that start or stop nothing. *)
Ltac quietly := apply brackets_bind; [by first [apply quiet_lit | apply quiet_call | apply quiet_ask]|intros ?].

Lemma brackets_kickoff n fl privKey :
  brackets [Chain] (kickoff (multiaddr:=multiaddr) (AddrInfo:=AddrInfo) (M:=M) n fl privKey).
Proof.
  unfold kickoff. quietly. case_match; [apply brackets_err|]. do 2 quietly.
  apply brackets_ask; [done..|]. apply brackets_quiet, quiet_produce.
Qed.

Lemma brackets_components n fl privKey :
  brackets [BatchPool; Multicast; Broadcaster; Chain]
    (components (multiaddr:=multiaddr) (AddrInfo:=AddrInfo) (M:=M) n fl privKey).
Proof.
  unfold components. do 2 (apply brackets_ask; [done..|]). apply brackets_call; [done..|].
  apply brackets_kickoff.
Qed.

Lemma brackets_run n fl :
  brackets start_order (run (M:=M) NewMultiaddr AddrInfoFromP2pAddr n fl).
Proof.
  unfold run. apply brackets_bind; [by apply quiet_translate|intros [p2pKey privKey]]. do 2 quietly.
  apply brackets_call; [done..|]. do 3 quietly.
  apply brackets_bind; [apply quiet_join|intros ?]. apply brackets_components.
Qed.

(** C25: A node that ends has stopped exactly the components it had started, in the
    opposite order, at whichever call it failed or panicked: the deferred calls
    of [run] pair up. *)
Theorem components_stop_in_reverse n fl tr r :
  runs (run (M:=M) NewMultiaddr AddrInfoFromP2pAddr n fl) tr r -> hangs r = false ->
  exists started rest, start_order = started ++ rest /\
    omap change_of tr = map Opened started ++ map Closed (rev started) /\
    (is_Ok r = true -> started = start_order).
Proof.
  intros H Hh. destruct (brackets_run n fl tr r H Hh) as (k & Hk & E & Hr).
  exists (take k start_order), (drop k start_order). split_and!; [by rewrite take_drop|exact E|].
  intros Hok. by rewrite (Hr Hok).
Qed.

(** *** The node and its disk *)

(** The requests of [getIdentity] go to the file system, the others to [h]. *)
Definition with_disk {T} (h : handler (nodeE (multiaddr:=multiaddr) (AddrInfo:=AddrInfo) (M:=M)) T)
    : handler nodeE (fs * T) :=
  fun X e '(s, t) =>
    match e in nodeE X return (fs * T) * X with
    | Sys X e => let '(s', x) := os X e s in ((s', t), x)
    | e => let '(t', x) := h _ e t in ((s, t'), x)
    end.

(** Without an identity a node starts nothing. *)
Lemma main_without_identity {T} h n fl (t : T) s s' err :
  interp os getIdentity s = (s', Err err) ->
  interp (with_disk h) (main NewMultiaddr AddrInfoFromP2pAddr n fl) (s, t) = ((s', t), Some 1).
Proof.
  intros H. unfold main, run. rewrite interp_pbind, interp_gbind.
  rewrite (interp_translate Sys os (with_disk h)), H; [done|].
  intros X e s0 t0. cbn [with_disk]. by destruct (os X e s0).
Qed.

(** A first start that is interrupted between creating the key file and writing
    it disables the node: that start and, whatever its flags and its
    environment, every later one ends with exit status 1 before any component
    is asked for anything, and leaves the files as they are. *)
Theorem interrupted_start_disables_node {PL : PeerKeysLaws PK} {T} h n fl (t : T) s err :
  key_file s = None -> fs_faults s = [None; None; None; None; Some err] ->
  exists s', interp (with_disk h) (main NewMultiaddr AddrInfoFromP2pAddr n fl) (s, t) = ((s', t), Some 1) /\
    forall T2 h2 n2 fl2 (t2 : T2) s2, key_file s2 = key_file s' -> fs_faults s2 = [] ->
      exists s3, interp (with_disk h2) (main NewMultiaddr AddrInfoFromP2pAddr n2 fl2) (s2, t2) =
          ((s3, t2), Some 1) /\ fs_files s3 = fs_files s2.
Proof.
  intros Hk Hf. destruct (interrupted_identity_is_unusable s err Hk Hf) as (s' & E & Hlater).
  exists s'. split; [by eapply main_without_identity|]. intros T2 h2 n2 fl2 t2 s2 Hk2 Hf2.
  destruct (Hlater s2 Hk2 Hf2) as (s3 & err' & E3 & Hfs). exists s3.
  split; [by eapply main_without_identity|done].
Qed.
End shape.

(** ** Executions

    A node that bootstraps itself, obtains its identity from an empty disk and
    is interrupted after two ticks. *)
Module Executions.

#[local] Existing Instance ToyKeys.toy.
#[local] Existing Instance ToyKeys.toy_laws.

Definition parse (s : string) : res string := Ok s.

Abbreviation toyE := (nodeE (multiaddr:=string) (AddrInfo:=string) (M:=unit)).

(** The state is the number of selects. *)
Definition answering : handler toyE nat := fun X e s =>
  match e in nodeE X return nat * X with
  | Sys _ e => (s, Identity.failed e (ErrNew "no disk"))
  | NewHost _ _ => (s, Ok tt)
  | CloseHost => (s, Err (ErrNew "already closed"))
  | P2pAddrs => (s, Ok [])
  | NewFloodSub => (s, Ok tt)
  | BootServe _ _ => (s, Ok tt)
  | BootStart _ _ _ => (s, Ok tt)
  | NewMemPool => (s, tt)
  | ClosePool => (s, Ok tt)
  | StartMulticast => (s, tt)
  | StopMulticast => (s, Ok tt)
  | StartBroadcaster => (s, Ok tt)
  | StopBroadcaster => (s, Panic "nil dereference")
  | Kickoff _ => (s, None)
  | GetMembers _ => (s, Ok tt)
  | StartChain _ _ => (s, tt)
  | StopChain => (s, Ok tt)
  | Done => (s, ErrNew "context canceled")
  | Rand _ e =>
      match e in randE X return nat * X with
      | Select => (Datatypes.S s, Nat.ltb s 2)
      | Spawn => (s, tt)
      | StopTicker => (s, Ok tt)
      end
  end.

Definition fl : flags := MkFlags true "" second 125 second 0.

Definition started := record (with_disk answering) (run parse parse 5 fl) (ToyKeys.fresh_disk, 0%nat).

Lemma started_runs : runs (run parse parse 5 fl) started.1 started.2.
Proof. exact (record_runs (with_disk answering) _ _). Qed.

Lemma components_stop_in_reverse_witness :
  exists order rest, start_order = order ++ rest /\
    omap change_of started.1 = map Opened order ++ map Closed (rev order) /\
    (is_Ok started.2 = true -> order = start_order).
Proof.
  apply (components_stop_in_reverse parse parse 5 fl started.1 started.2 started_runs).
  vm_compute. reflexivity.
Defined.

(** Five changes each way, although stopping the broadcaster panicked. *)
Example started_changes :
  length (omap change_of started.1) = 10%nat /\ started.2 = Panic "nil dereference".
Proof. vm_compute. split; reflexivity. Qed.

Lemma interrupted_start_disables_node_witness :
  exists s', interp (with_disk answering) (main parse parse 5 fl) (ToyKeys.interrupted, 0%nat) =
      ((s', 0%nat), Some 1) /\
    forall T2 (h2 : handler toyE T2) n2 fl2 (t2 : T2) s2, key_file s2 = key_file s' -> fs_faults s2 = [] ->
      exists s3, interp (with_disk h2) (main parse parse n2 fl2) (s2, t2) = ((s3, t2), Some 1) /\
        fs_files s3 = fs_files s2.
Proof.
  apply (interrupted_start_disables_node parse parse answering 5 fl 0%nat ToyKeys.interrupted
    ToyKeys.out_of_entropy); vm_compute; reflexivity.
Defined.
End Executions.
